(* ===== verification/_CoqProject ===== *)
-Q . S2P
Prelude.v
Libc.v
Strings.v
AdbIo.v
Wire.v
IOVector.v
Packet.v
Connection.v
Transport.v
SocketSpec.v
Listeners.v
World.v
Sockets.v
SocketsInv.v
SocketsFlow.v
SocketsSafe.v
HostRequest.v
Services.v
ServiceThreads.v
SmartSocket.v
Auth.v
HandlePacket.v
SocketsPair.v
HostSafe.v
ServicesSafe.v
SmartSafe.v
ServerSafe.v
AuthSpec.v
HostSpec.v
Scenarios.v
EventLoop.v
TransportReg.v
FdConn.v
ShellProto.v
Jstring.v
Hashmap.v
LogEvents.v
LogRoundtrip.v
Process.v
Files.v
SyncService.v
SyncClient.v
MemOs.v
SyncSafe.v
SyncPush.v
SyncPull.v
SyncScenarios.v
LogFilter.v
LogTags.v
LogTime.v
LogPrint.v
LogLine.v
LogPrintSpec.v
LogLineSpec.v
AdbClient.v
ShellClient.v
ShellSpec.v
Bugreport.v
ShellDaemon.v
ShellDaemonSpec.v
ShellInputSpec.v
