(* ===== verification/Prelude.v ===== *)
(** * A verification library for the Android Debug Bridge

    The program under src/ is the Android Debug Bridge for a host: a server that
    owns the connections to devices and multiplexes sockets over them, a client that
    asks the server for services, the file transfer and the shell of both sides, and
    the libraries they are built with.  This development models the parts that carry
    the program's own logic, as pure functions over explicit states, and proves what
    makes them correct.  The model is that of the build for Linux (ADB_HOST, and
    ADB_NON_ANDROID for the file transfer of the daemon).

    ** How the program is modelled

    - A [char] is an [ascii], a buffer a list of them ([bytes]), an integer a [Z] with
      its wrap-around written out ([u32], [s32], [u64]).
    - [outcome]: the process goes on with [Ret], or ends in [Abort].  A failed CHECK,
      LOG(FATAL), an exception nothing catches, a null or dangling pointer and an
      access out of bounds are all [Abort], so that a theorem that an operation
      returns is a theorem that it does none of these.
    - Shared objects are a heap ([World.world]); a pointer is a key, deleting is
      taking the key away.
    - Threads are transition systems: every piece of code that runs without
      interference (a critical section, a system call) is one move, and the theorems
      are about all reachable states.
    - The operating system is an environment: scripts of what the next reads and
      writes come to, a class of its calls, or the moves of an environment.  What is
      assumed of it is a named hypothesis: [HostSafe.HostServicesOk] (the calls the
      server makes of code that is not modelled), [HandlePacket.event_ok] and
      [packet_ok] (poll reports what it was asked for, packets come from the reader),
      [Listeners.net_ok] (a new descriptor is not one in use), [Files.Posix] (the
      results of the calls for files), [ShellClient.Streaming] for a callback.

    ** The parts and their files

    Foundations.
    [Prelude] - characters, machine integers, [outcome], lemmas and tactics.
    [Libc] - the functions of the C library that are called (strtol, printf, strchr).
    [Strings] - lib/base/strings.cpp, parseint.h, parsenetaddress.cpp.
    [AdbIo] - src/adb_io.cpp: exact reads and writes over every fragmentation, and the
    strings of the smart-socket protocol.
    [Wire] - little-endian structs as an interface.
    [IOVector] - src/types.h: blocks and chains of blocks.

    Packets and connections to devices.
    [Packet] - amessage, check_header, send_packet, FdConnection (adb.h, transport.cpp).
    [Connection] - BlockingConnectionAdapter and its threads (transport.cpp).
    [FdConn] - the non-blocking connection (transport_fd.cpp), against [Packet].
    [Transport] - atransport, features, matching, listing, the banner (transport.cpp,
    adb.cpp).
    [TransportReg] - registering, reconnecting and deleting transports (transport.cpp).

    The main thread of the server.
    [EventLoop] - fdevent.cpp, on its own.
    [SocketSpec] - socket_spec.cpp.
    [Listeners] - adb_listeners.cpp and handle_forward_request; its state is embedded
    in the world by [World.listener_view].
    [World] - the state: sockets, transports, listeners, polled descriptors, packets sent.
    [Sockets] - sockets.cpp: local, remote and smart sockets as objects on the heap.
    [HostRequest] - handle_host_request (adb.cpp).  [Services], [ServiceThreads] -
    services.cpp and what its threads do.  [SmartSocket] - the requests of clients.
    [Auth] - client/auth.cpp: answering the tokens of a device.
    [HandlePacket] - handle_packet (adb.cpp) and the events of the main thread.
    [SocketsInv], [SocketsFlow], [SocketsSafe], [SocketsPair], [HostSafe],
    [ServicesSafe], [SmartSafe], [ServerSafe] - the invariant of the heap, and that
    every operation keeps it.  [HostSpec], [AuthSpec] - specifications of requests and
    of authentication.  [Scenarios] - runs of the server.

    The client.
    [AdbClient] - client/adb_client.cpp: getting to a server of the client's version.
    [ShellProto] - shell_protocol.h, shell_service_protocol.cpp.
    [ShellClient], [ShellSpec] - the shell (client/commandline.cpp) with the name of the
    service as daemon/services.cpp takes it apart.
    [ShellDaemon], [ShellDaemonSpec], [ShellInputSpec] - the thread of the daemon that
    passes data between the client and a subprocess (daemon/shell_service.cpp).
    [Bugreport] - client/bugreport.cpp, a callback of the shell.

    File transfer.
    [Process] - two processes at the ends of a connection, in every interleaving.
    [Files] - lib/base/file.cpp, sysdeps/errno.cpp, adb_utils.cpp over the class [Os].
    [SyncService] - daemon/file_sync_service.cpp.  [SyncClient] - client/file_sync_client.cpp.
    [MemOs] - a system in memory.  [SyncSafe], [SyncPush], [SyncPull] - both together.
    [SyncScenarios] - whole commands.

    Libraries.
    [Jstring], [Hashmap] - lib/libcutils.
    [LogEvents], [LogRoundtrip] - liblog/log_event_list.c.
    [LogFilter], [LogTags], [LogTime], [LogPrint], [LogLine], [LogPrintSpec],
    [LogLineSpec] - liblog/logprint.c and event_tag_map.c.

    ** How the parts interact

    A client writes a request to a smart socket; [SmartSocket] answers it itself
    ([HostRequest]), gives it a service ([Services]) or connects its socket to a
    transport with an OPEN packet.  From then on [Sockets] moves data between the
    descriptor of the client and the packets of the transport; packets of the device
    come in through [HandlePacket].  A transport's connection ([Connection], [FdConn])
    hands its packets and errors to the main thread; [TransportReg] brings transports
    into the list and takes them out.  What is read of a descriptor and when is the
    business of [EventLoop], whose functions the world records as [poll_fds] and the
    flags of a socket's fdevent.  On the client's side [AdbClient] writes those
    requests; the shell and the file transfer run on the connection it gets.
    Handlers in the world call each other through function pointers: a dispatch on
    the tag of the socket.  The smart socket, which is modelled after the sockets it
    calls, is known to them by a promise ([SocketsSafe.smart_ok]) that it keeps.

    ** What the theorems show

    - The server's main thread: every event is handled to its end in every reachable
      state, so no handler follows a dangling pointer ([ServerSafe]); flow control
      delivers what was queued, in order ([SocketsFlow]); closing the sockets of a
      transport terminates ([SocketsSafe]); a transport that goes offline leaves
      nothing behind; requests, forwards and authentication are their specifications
      ([HostSpec], [Listeners], [AuthSpec]); waiting for a device ([ServiceThreads]).
    - Threads: in every interleaving packets are sent in order and the error callback
      runs once ([Connection], [FdConn]), stopping cannot deadlock, no deleted transport
      is used and each has at most one owner ([TransportReg]); the event loop keeps its
      tables consistent, runs functions in order and loses no wake-up ([EventLoop]).
    - Equivalence and refinement: chains of blocks are byte lists ([IOVector]); the
      non-blocking reader is the blocking one ([FdConn]); a hash map is a finite map
      ([Hashmap]).
    - Round trips: packets, banners, strings of the protocol, shell packets, what is
      typed into a shell, names of shell services, UTF-16, lists of events.
    - File transfer: whatever fails, is short or is cut, when push or pull reports
      success the file has been copied ([SyncPush], [SyncPull]).
    - The client: a query is answered by a server of the client's version ([AdbClient]);
      all output of a command reaches its callback ([ShellSpec]); a bug report is
      pulled to the right place ([Bugreport]).
    - Shells: from the subprocess on the device to the client's callback and from the
      client's packets to the subprocess, nothing is lost, repeated or out of order,
      whatever select says ([ShellDaemonSpec], [ShellInputSpec]).
    - Logs: no byte string makes the parser or the printer leave a buffer; what was
      logged is printed; filters and tags mean what they say.
    - Where a function does not do what it means to, a theorem or an example says what
      it does ([AdbIo.protocol_string_overflow], [Files.Basename_drops_extension],
      [ShellSpec.term_with_colon]).

    ** Bounds and fuel

    Loops that are not structural have fuel, and what they are given is enough: reads
    by the bytes wanted or available, writes by the length of the script, loops over
    strings by the length of the string, [close_fuel] = 4 as close handlers nest no
    deeper ([SocketsInv]), [enqueue_fuel] = 2 (a smart socket makes a tracker
    ready, which enqueues on a local socket), reading a socket by the largest payload,
    [close_all_sockets] by the number of open sockets ([SocketsSafe]), the loops over
    an event by its length, bisection by the size of the table, [connect_shell] by the connections that are
    left ([ShellSpec.connect_shell_fuel]).  The loops of the file transfer over the
    contents of files and directories, which the environment decides, take their fuel
    as an argument: running out is [Exit], never success, and the runs of
    [SyncScenarios] and the witnesses have enough.

    ** Not modelled

    - USB, mDNS and the scanning of local ports (transport_usb.cpp, usb_*.cpp,
      transport_local.cpp but for its connecting functions, transport_mdns.cpp): calls of
      operating systems and drivers.  Their connections are those of [Connection].
    - Everything for Windows (sysdeps_win32.cpp, dirent_win32.h, lib/windows), and the
      wrappers of system calls of POSIX (sysdeps.h): the environments above.
    - Key files, RSA and their OpenSSL code; the interface [HostServices] has signing.
    - The command line (help, getopt, terminals, the dispatch of words), installing
      packages, which puts command lines together for programs of the device, and
      launching the server process.
    - The daemon's services and start but for the file transfer and the thread of a
      shell: they are not built here, and are sequences of calls of Android.
    - Transfer of the log (sockets of logd), properties, ashmem, scheduling policy,
      tracing and the other wrappers of libcutils and lib/base.
    - Tests, generated files, third-party headers. *)

From Stdlib Require Import ZArith Lia List Ascii String.
From stdpp Require Import base numbers list strings gmap.

#[global] Open Scope Z_scope.

(** ** Characters and strings

    A [char] of the source is an [ascii] (eight bits); a [std::string], a
    character buffer and a packet payload are lists of them.  [$ "abc"] is the
    buffer spelled by a literal. *)

Abbreviation bytes := (list ascii).

Declare Scope adb_scope.
Delimit Scope adb_scope with adb.

Definition chars (s : string) : bytes := String.list_ascii_of_string s.
Notation "$ s" := (chars s%string) (at level 1, format "$ s") : adb_scope.
#[global] Open Scope adb_scope.

(** The numeric value of a [char] seen as a [uint8_t]. *)
Definition cval (c : ascii) : Z := Z.of_N (N_of_ascii c).
Definition of_cval (z : Z) : ascii := ascii_of_N (Z.to_N (z mod 256)).

Definition NUL : ascii := of_cval 0.

Definition char_eqb (a b : ascii) : bool := Ascii.eqb a b.

#[global] Arguments cval : simpl never.
#[global] Arguments of_cval : simpl never.
#[global] Arguments NUL : simpl never.
#[global] Arguments char_eqb : simpl never.

(** Sizes as the source computes them. *)
Definition zlen {A} (l : list A) : Z := Z.of_nat (length l).

(** ** Machine integers *)
Definition u8 (z : Z) : Z := z mod 2 ^ 8.
Definition u32 (z : Z) : Z := z mod 2 ^ 32.
Definition u64 (z : Z) : Z := z mod 2 ^ 64.
(** Conversion to [int32_t] (two's complement). *)
Definition s32 (z : Z) : Z := (z + 2 ^ 31) mod 2 ^ 32 - 2 ^ 31.

(** ** Fallible computations

    [Abort] is the process ending in [fatal], [LOG(FATAL)] or a failed
    [CHECK]; nothing that follows is executed. *)
Inductive outcome (A : Type) : Type :=
| Ret (a : A)
| Abort (why : string).
Arguments Ret {A} a.
Arguments Abort {A} why.

#[export] Instance outcome_ret : MRet outcome := @Ret.
#[export] Instance outcome_bind : MBind outcome := λ A B f m,
  match m with Ret a => f a | Abort w => Abort w end.
#[export] Instance outcome_fmap : FMap outcome := λ A B f m,
  match m with Ret a => Ret (f a) | Abort w => Abort w end.

(** [CHECK(b)] of android-base/logging.h. *)
Definition CHECK (b : bool) (why : string) : outcome unit :=
  if b then Ret tt else Abort why.

Lemma bind_Ret {A B} (m : outcome A) (f : A → outcome B) (b : B) :
  (m ≫= f) = Ret b ↔ ∃ a, m = Ret a ∧ f a = Ret b.
Proof.
  split; [destruct m as [a|w]; [by exists a | done]|].
  intros (a & -> & Hf). exact Hf.
Qed.

Lemma CHECK_Ret b w u : CHECK b w = Ret u ↔ b = true.
Proof. destruct u, b; simpl; naive_solver. Qed.

(** Turns a hypothesis [m1 ≫= λ x, ... = Ret r] into the results of its parts. *)
Ltac invert_outcome :=
  repeat match goal with
  | H : (_ ≫= _) = Ret _ |- _ =>
      apply bind_Ret in H; destruct H as (?&?&?)
  | H : CHECK _ _ = Ret _ |- _ => apply CHECK_Ret in H
  | H : Abort _ = Ret _ |- _ => discriminate H
  | H : Ret _ = Ret _ |- _ => injection H as H; subst
  | H : mret _ = Ret _ |- _ => injection H as H; subst
  end.

(** Reads a boolean test of the code as the proposition it decides. *)
Ltac reflect_Z :=
  repeat match goal with
  | H : (_ && _)%bool = true |- _ => apply andb_prop in H; destruct H
  | H : (_ =? _) = true |- _ => apply Z.eqb_eq in H
  | H : (_ =? _) = false |- _ => apply Z.eqb_neq in H
  | H : (_ <? _) = true |- _ => apply Z.ltb_lt in H
  | H : (_ <? _) = false |- _ => apply Z.ltb_ge in H
  | H : (_ <=? _) = true |- _ => apply Z.leb_le in H
  | H : (_ <=? _) = false |- _ => apply Z.leb_gt in H
  | H : negb _ = true |- _ => apply negb_true_iff in H
  | H : negb _ = false |- _ => apply negb_false_iff in H
  end.

(** ** Lemmas shared by the components *)

Create HintDb adb discriminated.
Create Rewrite HintDb adb_rw.

Lemma u32_small z : 0 ≤ z < 2 ^ 32 → u32 z = z.
Proof. apply Z.mod_small. Qed.
Lemma u64_small z : 0 ≤ z < 2 ^ 64 → u64 z = z.
Proof. apply Z.mod_small. Qed.
Lemma u32_range z : 0 ≤ u32 z < 2 ^ 32.
Proof. by apply Z.mod_pos_bound. Qed.
Lemma u64_range z : 0 ≤ u64 z < 2 ^ 64.
Proof. by apply Z.mod_pos_bound. Qed.
Lemma s32_small z : -2 ^ 31 ≤ z < 2 ^ 31 → s32 z = z.
Proof. intros ?. unfold s32. rewrite Z.mod_small; lia. Qed.

Lemma list_max_ge (l : list Z) n : n ∈ l → n ≤ foldr Z.max 0 l.
Proof. induction 1 as [|? ? ? _ IH]; cbn; lia. Qed.
Lemma list_max_nonneg (l : list Z) : 0 ≤ foldr Z.max 0 l.
Proof. induction l; cbn; lia. Qed.

Lemma zlen_nil {A} : zlen (A:=A) [] = 0.
Proof. done. Qed.
Lemma zlen_cons {A} (x : A) l : zlen (x :: l) = 1 + zlen l.
Proof. unfold zlen. simpl. lia. Qed.
Lemma zlen_app {A} (l k : list A) : zlen (l ++ k) = zlen l + zlen k.
Proof. unfold zlen. rewrite length_app. lia. Qed.
Lemma zlen_nonneg {A} (l : list A) : 0 ≤ zlen l.
Proof. unfold zlen. lia. Qed.
Lemma zlen_0 {A} (l : list A) : zlen l = 0 → l = [].
Proof. destruct l; unfold zlen; simpl; [done | lia]. Qed.
Lemma zlen_take {A} (n : Z) (l : list A) :
  0 ≤ n ≤ zlen l → zlen (take (Z.to_nat n) l) = n.
Proof. unfold zlen. intros ?. rewrite length_take. lia. Qed.
Lemma zlen_drop {A} (n : Z) (l : list A) :
  0 ≤ n ≤ zlen l → zlen (drop (Z.to_nat n) l) = zlen l - n.
Proof. unfold zlen. intros ?. rewrite length_drop. lia. Qed.
Lemma zlen_fmap {A B} (f : A → B) (l : list A) : zlen (f <$> l) = zlen l.
Proof. unfold zlen. by rewrite length_fmap. Qed.

#[export] Hint Rewrite @zlen_nil @zlen_cons @zlen_app @zlen_fmap : adb_rw.
#[export] Hint Resolve zlen_nonneg u32_range u64_range : adb.

Lemma cval_range c : 0 ≤ cval c < 256.
Proof.
  unfold cval. split; [lia|].
  assert (N_of_ascii c < 256)%N by apply N_ascii_bounded. lia.
Qed.
Lemma of_cval_cval c : of_cval (cval c) = c.
Proof.
  unfold of_cval. rewrite Z.mod_small by apply cval_range.
  unfold cval. rewrite N2Z.id. apply ascii_N_embedding.
Qed.
Lemma cval_of_cval z : cval (of_cval z) = z mod 256.
Proof.
  unfold cval, of_cval. assert (0 ≤ z mod 256 < 256) by (apply Z.mod_pos_bound; lia).
  rewrite N_ascii_embedding; lia.
Qed.
Lemma cval_inj a b : cval a = cval b → a = b.
Proof. intros H. rewrite <-(of_cval_cval a), <-(of_cval_cval b). congruence. Qed.
#[export] Hint Resolve cval_range : adb.
#[export] Hint Rewrite of_cval_cval cval_of_cval : adb_rw.

(** A filter that keeps everything. *)
Lemma filter_all {A} (P : A → Prop) `{∀ x, Decision (P x)} (l : list A) : (∀ x, x ∈ l → P x) → filter P l = l.
Proof.
  induction l as [|x l IH]; intros Hl; [done|]. rewrite filter_cons_True by (apply Hl; by left). f_equal. apply IH.
  intros y Hy. apply Hl. by right.
Qed.

(** ** Slices

    [slice l b n] is the [n] elements of [l] from position [b] on, or as many
    as there are: what a pointer and a length, or [substr(b, n)], denote. *)
Definition slice {A} (l : list A) (b n : Z) : list A :=
  take (Z.to_nat n) (drop (Z.to_nat b) l).

Section slices.
Context {A : Type}.
Implicit Types l P Q : list A.

Lemma zlen_slice l b n : 0 ≤ b → 0 ≤ n → b + n ≤ zlen l → zlen (slice l b n) = n.
Proof. intros. unfold slice. rewrite zlen_take; [done|]. rewrite zlen_drop; lia. Qed.

Lemma slice_prefix P Q b n : 0 ≤ b → b + n ≤ zlen P → slice (P ++ Q) b n = slice P b n.
Proof.
  intros. unfold slice, zlen in *. destruct (decide (n ≤ 0)).
  - replace (Z.to_nat n) with 0%nat by lia. by rewrite !take_0.
  - rewrite drop_app_le by lia. rewrite take_app_le; [done|]. rewrite length_drop. lia.
Qed.

Lemma slice_suffix P Q b n : zlen P ≤ b → slice (P ++ Q) b n = slice Q (b - zlen P) n.
Proof.
  intros. unfold slice, zlen in *. rewrite drop_app_ge by lia.
  do 2 f_equal. lia.
Qed.

Lemma take_slice l b n k : 0 ≤ k ≤ n → take (Z.to_nat k) (slice l b n) = slice l b k.
Proof. intros. unfold slice. rewrite take_take. f_equal. lia. Qed.

Lemma drop_slice l b n k :
  0 ≤ b → 0 ≤ k ≤ n → drop (Z.to_nat k) (slice l b n) = slice l (b + k) (n - k).
Proof.
  intros. unfold slice. rewrite skipn_firstn_comm, drop_drop.
  f_equal; [lia|]. f_equal. lia.
Qed.

Lemma slice_slice l b n c m :
  0 ≤ b → 0 ≤ c → 0 ≤ m → c + m ≤ n → slice (slice l b n) c m = slice l (b + c) m.
Proof.
  intros. unfold slice at 1. rewrite drop_slice by lia. by rewrite take_slice by lia.
Qed.

Lemma slice_nil b n : slice (@nil A) b n = [].
Proof. unfold slice. by rewrite drop_nil, take_nil. Qed.

Lemma slice_all l n : zlen l ≤ n → slice l 0 n = l.
Proof. intros. unfold slice, zlen in *. change (Z.to_nat 0) with 0%nat. rewrite drop_0, take_ge; [done|lia]. Qed.

Lemma slice_at (pre x tail : list A) n : n = zlen x → slice (pre ++ x ++ tail) (zlen pre) n = x.
Proof. intros ->. rewrite slice_suffix, Z.sub_diag, slice_prefix, slice_all by (apply zlen_nonneg || lia). done. Qed.

Lemma slice_split l b n m :
  0 ≤ b → 0 ≤ n → 0 ≤ m → slice l b (n + m) = slice l b n ++ slice l (b + n) m.
Proof.
  intros. unfold slice.
  rewrite Z2Nat.inj_add, (Z2Nat.inj_add b n) by lia.
  rewrite <-drop_drop. rewrite <-(take_drop (Z.to_nat n) (take (_ + _) _)).
  rewrite take_take, skipn_firstn_comm. f_equal; f_equal; lia.
Qed.
End slices.

(** A number in front of a few bits. *)
Lemma lor_disjoint r n x : 0 ≤ n → 0 ≤ x < 2 ^ n → Z.lor (Z.shiftl r n) x = r * 2 ^ n + x.
Proof.
  intros Hn Hx. rewrite <-Z.add_nocarry_lor, Z.shiftl_mul_pow2; [done|done|]. apply Z.bits_inj'. intros i Hi. rewrite Z.land_spec, Z.bits_0.
  destruct (decide (i < n)); [rewrite Z.shiftl_spec_low by lia; done|].
  destruct (decide (x = 0)) as [->|]; [by rewrite Z.bits_0, andb_false_r|]. rewrite (Z.bits_above_log2 x), andb_false_r; [done|lia|].
  apply Z.log2_lt_pow2; [lia|]. eapply Z.lt_le_trans; [apply Hx|]. apply Z.pow_le_mono_r; lia.
Qed.
