(* ===== verification/Libc.v ===== *)
(** * The C and C++ library functions the source calls

    Character classes of the "C" locale, C strings, [strtol] and its relatives,
    [%d] and [%x] conversions: the language's library, modelled once for the
    components that format and parse numbers and names. *)

From Stdlib Require Import ZArith Lia List Ascii String.
From stdpp Require Import base numbers list strings.
From S2P Require Import Prelude.

(** ** <ctype.h> *)

Definition in_range (lo hi : Z) (c : ascii) : bool := (lo <=? cval c) && (cval c <=? hi).
Definition isdigit (c : ascii) : bool := in_range 48 57 c.
Definition isupper (c : ascii) : bool := in_range 65 90 c.
Definition islower (c : ascii) : bool := in_range 97 122 c.
Definition isalpha (c : ascii) : bool := isupper c || islower c.
Definition isalnum (c : ascii) : bool := isalpha c || isdigit c.
Definition isspace (c : ascii) : bool := in_range 9 13 c || (cval c =? 32).
Definition tolower (c : ascii) : ascii := if isupper c then of_cval (cval c + 32) else c.

(** A [char] promoted to [int]: it is signed on the hosts that are modelled. *)
Definition schar (c : ascii) : Z := if cval c <? 128 then cval c else cval c - 256.

(** ** C strings *)

(** [s.c_str()] read up to its terminator. *)
Fixpoint c_str (s : bytes) : bytes :=
  match s with
  | [] => []
  | c :: s => if char_eqb c NUL then [] else c :: c_str s
  end.

Definition nul_free (s : bytes) : Prop := NUL ∉ s.

Fixpoint prefix_of (p s : bytes) : bool :=
  match p, s with
  | [], _ => true
  | a :: p, b :: s => char_eqb a b && prefix_of p s
  | _, [] => false
  end.

(** [!strncmp(s, p, strlen(p))] for C strings. *)
Definition starts_with (s p : bytes) : bool := prefix_of p s.

(** [strchr(s, c)] as the suffix it points to. *)
Fixpoint strchr (s : bytes) (c : ascii) : option bytes :=
  match s with
  | [] => None
  | x :: t => if char_eqb x c then Some s else strchr t c
  end.

(** ** Numerals *)

Definition digit_val (base : Z) (c : ascii) : option Z :=
  let v :=
    if isdigit c then Some (cval c - 48)
    else if islower c then Some (cval c - 97 + 10)
    else if isupper c then Some (cval c - 65 + 10)
    else None in
  match v with Some d => if d <? base then Some d else None | None => None end.

(** The longest run of digits: its value on top of [acc], and what follows. *)
Fixpoint scan_digits (base acc : Z) (s : bytes) : Z * bytes :=
  match s with
  | c :: t => match digit_val base c with
              | Some d => scan_digits base (acc * base + d) t
              | None => (acc, s)
              end
  | [] => (acc, [])
  end.

Fixpoint skip_spaces (s : bytes) : bytes :=
  match s with c :: t => if isspace c then skip_spaces t else s | [] => [] end.

Definition scan_sign (s : bytes) : bool * bytes :=
  match s with
  | c :: t => if char_eqb c "-" then (true, t) else if char_eqb c "+" then (false, t) else (false, s)
  | [] => (false, [])
  end.

Definition starts_digit (base : Z) (s : bytes) : bool :=
  match s with c :: _ => bool_decide (is_Some (digit_val base c)) | [] => false end.

(** The optional [0x] of base 16, skipped only before a digit. *)
Definition skip_0x (base : Z) (s : bytes) : bytes :=
  match s with
  | z :: x :: t =>
      if (base =? 16) && char_eqb z "0" && (char_eqb x "x" || char_eqb x "X") && starts_digit 16 t
      then t else s
  | _ => s
  end.

(** The subject sequence of [strtol]: [Some (negative, magnitude, rest)], or
    [None] when no conversion can be performed. *)
Definition scan_int (base : Z) (s : bytes) : option (bool * Z * bytes) :=
  let '(neg, s) := scan_sign (skip_spaces s) in
  let s := skip_0x base s in
  if starts_digit base s then
    let '(v, rest) := scan_digits base 0 s in Some (neg, v, rest)
  else None.

(** [strtoull(s, &end, base)]: value, rest, and whether [errno] is [ERANGE]. *)
Definition strtoull (base : Z) (s : bytes) : Z * bytes * bool :=
  match scan_int base s with
  | None => (0, s, false)
  | Some (neg, v, rest) =>
      if 2 ^ 64 <=? v then (2 ^ 64 - 1, rest, true)
      else (u64 (if neg then - v else v), rest, false)
  end.

Definition strtoll (base : Z) (s : bytes) : Z * bytes * bool :=
  match scan_int base s with
  | None => (0, s, false)
  | Some (neg, v, rest) =>
      let v := if neg then - v else v in
      if 2 ^ 63 <=? v then (2 ^ 63 - 1, rest, true)
      else if v <? - 2 ^ 63 then (- 2 ^ 63, rest, true)
      else (v, rest, false)
  end.

(** [strtol(s, nullptr, 0)]: the base is found in [s]. *)
Definition base_of (s : bytes) : Z :=
  let s := (scan_sign (skip_spaces s)).2 in
  if (length (skip_0x 16 s) <? length s)%nat then 16 else if starts_with s $"0" then 8 else 10.
Definition strtol0 (s : bytes) : Z := ((strtoll (base_of s) s).1).1.
Example strtol0_ex : strtol0 $" -0x1fZ" = -31 ∧ strtol0 $"017" = 15 ∧ strtol0 $"5554,x" = 5554 ∧ strtol0 $"0xg" = 0.
Proof. split_and!; reflexivity. Qed.

(** [sscanf(s, "%d", &out) == 1]: the [int] stored. *)
Definition sscanf_d (s : bytes) : option Z :=
  match scan_int 10 s with
  | None => None
  | Some _ => Some (s32 ((strtoll 10 s).1).1)
  end.

Definition atoi (s : bytes) : Z := s32 ((strtoll 10 s).1).1.

Definition digit_char (d : Z) : ascii :=
  if d <? 10 then of_cval (48 + d) else of_cval (87 + d).

Fixpoint digits_fuel (fuel : nat) (base z : Z) (acc : bytes) : bytes :=
  match fuel with
  | O => acc
  | S fuel =>
      let acc := digit_char (z mod base) :: acc in
      if z / base =? 0 then acc else digits_fuel fuel base (z / base) acc
  end.

(** The numeral of a non-negative integer, without leading zeros. *)
Definition numeral (base z : Z) : bytes := digits_fuel (S (Z.to_nat (Z.log2 z))) base z [].

Definition print_dec (z : Z) : bytes :=
  if z <? 0 then "-"%char :: numeral 10 (- z) else numeral 10 z.
Definition print_hex (z : Z) : bytes := numeral 16 z.
(** [%0<w>x]. *)
Definition print_hex_pad (w : Z) (z : Z) : bytes :=
  let s := print_hex z in replicate (Z.to_nat (w - zlen s)) "0"%char ++ s.

(** ** Their laws *)

Lemma char_eqb_spec a b : reflect (a = b) (char_eqb a b).
Proof. apply Ascii.eqb_spec. Qed.
Lemma char_eqb_refl a : char_eqb a a = true.
Proof. apply Ascii.eqb_refl. Qed.

Lemma c_str_id s : nul_free s → c_str s = s.
Proof.
  induction s as [|c s IH]; intros Hs; [done|]. simpl. unfold nul_free in *.
  rewrite not_elem_of_cons in Hs. destruct Hs as [Hc Hs].
  destruct (char_eqb_spec c NUL); [by subst|]. by rewrite IH.
Qed.

Lemma c_str_nul_free s : nul_free (c_str s).
Proof.
  induction s as [|c s IH]; simpl; [apply not_elem_of_nil|].
  destruct (char_eqb_spec c NUL); [apply not_elem_of_nil|].
  unfold nul_free in *. rewrite not_elem_of_cons. auto.
Qed.

Lemma c_str_prefix s : ∃ k, s = c_str s ++ k.
Proof.
  induction s as [|c s [k IH]]; simpl; [by exists []|].
  destruct (char_eqb c NUL); [by exists (c :: s)|]. exists k. by rewrite IH at 1.
Qed.

Lemma prefix_of_app p s : prefix_of p (p ++ s) = true.
Proof. induction p; simpl; [done|]. by rewrite char_eqb_refl. Qed.

Lemma prefix_of_spec p s : prefix_of p s = true ↔ ∃ k, s = p ++ k.
Proof.
  split; [|intros [k ->]; apply prefix_of_app].
  revert s. induction p as [|a p IH]; intros s H; [by exists s|].
  destruct s as [|b s]; [done|]. simpl in H. apply andb_prop in H as [H1 H2].
  destruct (char_eqb_spec a b); [subst|done]. apply IH in H2 as [k ->]. by exists k.
Qed.

Lemma strchr_spec s c :
  match strchr s c with
  | Some r => ∃ p, s = p ++ r ∧ (c ∉ p) ∧ (∃ t, r = c :: t)
  | None => c ∉ s
  end.
Proof.
  induction s as [|x s IH]; simpl; [apply not_elem_of_nil|].
  destruct (char_eqb_spec x c) as [->|Hne].
  { exists []. split; [done|]. split; [apply not_elem_of_nil|by eexists]. }
  destruct (strchr s c).
  - destruct IH as (p & -> & Hp & Ht). exists (x :: p). rewrite not_elem_of_cons. by split_and!.
  - rewrite not_elem_of_cons. auto.
Qed.

Lemma digit_char_val base d :
  2 ≤ base ≤ 16 → 0 ≤ d < base → digit_val base (digit_char d) = Some d.
Proof.
  intros Hb Hd.
  assert (d = 0 ∨ d = 1 ∨ d = 2 ∨ d = 3 ∨ d = 4 ∨ d = 5 ∨ d = 6 ∨ d = 7 ∨ d = 8 ∨ d = 9 ∨
          d = 10 ∨ d = 11 ∨ d = 12 ∨ d = 13 ∨ d = 14 ∨ d = 15) as Hcases by lia.
  unfold digit_val.
  repeat (destruct Hcases as [->|Hcases]); [..|subst d];
    vm_compute (if isdigit _ then _ else _); simpl; rewrite (proj2 (Z.ltb_lt _ _)) by lia; done.
Qed.

Section numerals.
Context (base : Z) (Hbase : 2 ≤ base ≤ 16).

Lemma div_base_lt z n : 0 ≤ z < 2 ^ Z.of_nat (S n) → 0 ≤ z / base < 2 ^ Z.of_nat n.
Proof.
  intros [Hz Hlt]. rewrite Nat2Z.inj_succ, Z.pow_succ_r in Hlt by lia.
  split; [apply Z.div_pos; lia|]. apply Z.div_lt_upper_bound; [lia|].
  assert (0 < 2 ^ Z.of_nat n) by (apply Z.pow_pos_nonneg; lia). nia.
Qed.

Lemma scan_digits_fuel fuel z acc :
  0 ≤ z < 2 ^ Z.of_nat fuel → (0 < fuel)%nat →
  scan_digits base 0 (digits_fuel fuel base z acc) = scan_digits base z acc.
Proof.
  revert z acc. induction fuel as [|fuel IH]; intros z acc Hz Hf; [lia|]. simpl.
  pose proof (Z.div_mod z base ltac:(lia)) as Hdm.
  pose proof (Z.mod_pos_bound z base ltac:(lia)) as Hm.
  destruct (Z.eqb_spec (z / base) 0) as [H0|H0].
  - simpl. rewrite digit_char_val by lia. f_equal. lia.
  - pose proof (div_base_lt z fuel Hz) as Hd.
    rewrite IH; [|done|].
    + simpl. rewrite digit_char_val by lia. f_equal. lia.
    + destruct fuel; [|lia]. simpl in Hd. lia.
Qed.

Lemma numeral_fuel z : 0 ≤ z → 0 ≤ z < 2 ^ Z.of_nat (S (Z.to_nat (Z.log2 z))).
Proof.
  intros Hz. split; [done|]. rewrite Nat2Z.inj_succ, Z2Nat.id by apply Z.log2_nonneg.
  destruct (decide (z = 0)) as [->|]; [done|]. apply Z.log2_spec. lia.
Qed.

Lemma scan_numeral z rest :
  0 ≤ z → starts_digit base rest = false →
  scan_digits base 0 (numeral base z ++ rest) = (z, rest).
Proof.
  intros Hz Hr. unfold numeral.
  assert (Happ : ∀ fuel y acc, digits_fuel fuel base y acc ++ rest = digits_fuel fuel base y (acc ++ rest)).
  { induction fuel as [|fuel IH]; intros; simpl; [done|]. by case_match. }
  rewrite Happ, scan_digits_fuel by (try apply numeral_fuel; lia). simpl.
  destruct rest as [|c rest]; simpl in *; [done|].
  destruct (digit_val base c) eqn:Hd; [|done].
  rewrite bool_decide_eq_true_2 in Hr; done.
Qed.

Lemma scan_zeros n s : scan_digits base 0 (replicate n "0"%char ++ s) = scan_digits base 0 s.
Proof.
  assert (digit_val base "0" = Some 0) as H0.
  { apply (digit_char_val base 0); lia. }
  induction n as [|n IH]; [done|]. simpl. by rewrite H0.
Qed.

Lemma digits_fuel_length fuel k z acc :
  0 ≤ z < base ^ Z.of_nat k → (0 < k)%nat →
  (length (digits_fuel fuel base z acc) ≤ k + length acc)%nat.
Proof.
  revert k z acc. induction fuel as [|fuel IH]; intros k z acc Hz Hk; simpl; [lia|].
  destruct (Z.eqb_spec (z / base) 0); simpl; [lia|].
  destruct k as [|k]; [lia|].
  rewrite Nat2Z.inj_succ, Z.pow_succ_r in Hz by lia.
  assert (Hq : 0 ≤ z / base < base ^ Z.of_nat k).
  { split; [apply Z.div_pos; lia|]. apply Z.div_lt_upper_bound; lia. }
  destruct k as [|k]; [simpl in Hq; lia|].
  etrans; [apply (IH (S k)); [done|lia]|]. simpl. lia.
Qed.

(** The first character of a numeral is a digit. *)
Lemma numeral_starts z : 0 ≤ z → starts_digit base (numeral base z) = true.
Proof.
  intros Hz. unfold numeral.
  assert (Hgen : ∀ fuel y acc, 0 ≤ y → starts_digit base acc = true ∨ (0 < fuel)%nat →
    starts_digit base (digits_fuel fuel base y acc) = true).
  { induction fuel as [|fuel IH]; intros y acc Hy Hs; simpl; [destruct Hs; [done|lia]|].
    pose proof (Z.mod_pos_bound y base ltac:(lia)).
    assert (starts_digit base (digit_char (y mod base) :: acc) = true).
    { simpl. rewrite digit_char_val by lia. by apply bool_decide_eq_true_2. }
    case_match; [done|]. apply IH; [apply Z.div_pos; lia | by left]. }
  apply Hgen; [done|right; lia].
Qed.
End numerals.

Lemma zlen_replicate {A} (n : Z) (x : A) : 0 ≤ n → zlen (replicate (Z.to_nat n) x) = n.
Proof. intros. unfold zlen. rewrite length_replicate. lia. Qed.

Lemma print_hex_pad_len w z : 0 < w → 0 ≤ z < 16 ^ w → zlen (print_hex_pad w z) = w.
Proof.
  intros Hw Hz. unfold print_hex_pad, print_hex.
  assert (zlen (numeral 16 z) ≤ w).
  { unfold zlen, numeral.
    pose proof (digits_fuel_length 16 ltac:(lia) (S (Z.to_nat (Z.log2 z))) (Z.to_nat w) z []) as H.
    rewrite Z2Nat.id in H by lia. specialize (H Hz). simpl length in *. lia. }
  rewrite zlen_app, zlen_replicate; lia.
Qed.

Lemma scan_print_hex_pad w z rest :
  0 ≤ z → starts_digit 16 rest = false →
  scan_digits 16 0 (print_hex_pad w z ++ rest) = (z, rest).
Proof.
  intros. unfold print_hex_pad. rewrite <-app_assoc, scan_zeros by lia.
  apply scan_numeral; [lia..|done].
Qed.

(** *** Strings of digits are read back as they are *)

Definition all_digits (base : Z) (s : bytes) : Prop :=
  Forall (λ c, is_Some (digit_val base c)) s.

Lemma digits_fuel_all base fuel z acc :
  2 ≤ base ≤ 16 → all_digits base acc → all_digits base (digits_fuel fuel base z acc).
Proof.
  intros Hb. revert z acc. induction fuel as [|fuel IH]; intros z acc Ha; simpl; [done|].
  assert (all_digits base (digit_char (z mod base) :: acc)).
  { constructor; [|done]. rewrite digit_char_val; [by eexists|done|]. apply Z.mod_pos_bound. lia. }
  case_match; auto.
Qed.

Lemma numeral_all base z : 2 ≤ base ≤ 16 → all_digits base (numeral base z).
Proof. intros. apply digits_fuel_all; [done|constructor]. Qed.

Lemma print_hex_pad_all w z : all_digits 16 (print_hex_pad w z).
Proof.
  apply Forall_app. split; [|by apply numeral_all]. apply Forall_replicate. by eexists.
Qed.

Lemma digit_not_special base c :
  is_Some (digit_val base c) →
  isspace c = false ∧ char_eqb c "-" = false ∧ char_eqb c "+" = false ∧ c ≠ NUL ∧ isalnum c = true.
Proof.
  intros Hd. unfold digit_val in Hd. unfold isalnum, isalpha, isspace, isdigit, islower, isupper, in_range in *.
  assert (Hr : (48 ≤ cval c ≤ 57) ∨ (97 ≤ cval c ≤ 122) ∨ (65 ≤ cval c ≤ 90)).
  { repeat case_match; try (by destruct Hd); reflect_Z; lia. }
  split_and!.
  - apply orb_false_iff. split; [apply andb_false_iff|apply Z.eqb_neq; lia].
    right. apply Z.leb_gt. lia.
  - destruct (char_eqb_spec c "-") as [->|]; [change (cval "-") with 45 in Hr; lia|done].
  - destruct (char_eqb_spec c "+") as [->|]; [change (cval "+") with 43 in Hr; lia|done].
  - intros ->. change (cval NUL) with 0 in Hr. lia.
  - rewrite !orb_true_iff, !andb_true_iff, !Z.leb_le. lia.
Qed.

Lemma x_not_digit c : is_Some (digit_val 16 c) → (char_eqb c "x" || char_eqb c "X")%bool = false.
Proof.
  intros Hd. apply orb_false_iff. split; [destruct (char_eqb_spec c "x")|destruct (char_eqb_spec c "X")];
    subst; try done; by destruct Hd.
Qed.

Lemma scan_int_digits base s rest :
  2 ≤ base ≤ 16 → all_digits base s → s ≠ [] → (base = 16 → (1 < length s)%nat) →
  scan_int base (s ++ rest) = let '(v, r) := scan_digits base 0 (s ++ rest) in Some (false, v, r).
Proof.
  intros Hb Ha Hne Hlen. destruct s as [|c s]; [done|]. inversion_clear Ha as [|?? Hc Hs].
  destruct (digit_not_special _ _ Hc) as (H1 & H2 & H3 & _).
  unfold scan_int. simpl. rewrite H1. simpl. rewrite H2, H3.
  assert (Hskip : skip_0x base (c :: s ++ rest) = c :: s ++ rest).
  { destruct s as [|x s]; simpl.
    - destruct rest as [|x rest]; [done|]. destruct (Z.eqb_spec base 16); [|done].
      specialize (Hlen e). simpl in Hlen. lia.
    - destruct (Z.eqb_spec base 16); [|done]. subst. inversion_clear Hs as [|?? Hx _].
      by rewrite (x_not_digit _ Hx), andb_false_r. }
  rewrite Hskip. simpl. by rewrite bool_decide_eq_true_2.
Qed.

(** A longer numeral ends with the last digit of its value. *)
Lemma digits_fuel_acc fuel base z acc :
  digits_fuel fuel base z acc = digits_fuel fuel base z [] ++ acc.
Proof.
  revert z acc. induction fuel as [|fuel IH]; intros; simpl; [done|].
  case_match; [done|]. rewrite IH, (IH _ [_]), <-app_assoc. done.
Qed.

Lemma digits_fuel_irrel base f g z acc :
  2 ≤ base ≤ 16 → 0 ≤ z < 2 ^ Z.of_nat f → z < 2 ^ Z.of_nat g → (0 < f)%nat → (0 < g)%nat →
  digits_fuel f base z acc = digits_fuel g base z acc.
Proof.
  intros Hb. revert g z acc. induction f as [|f IH]; intros g z acc Hf Hg H1 H2; [lia|].
  destruct g as [|g]; [lia|]. simpl. destruct (Z.eqb_spec (z / base) 0); [done|].
  pose proof (div_base_lt base Hb z f Hf) as Hf'.
  pose proof (div_base_lt base Hb z g ltac:(lia)) as Hg'.
  apply IH; [done|lia| |].
  - destruct f; [simpl in Hf'; lia|lia].
  - destruct g; [simpl in Hg'; lia|lia].
Qed.

Lemma numeral_snoc base z :
  2 ≤ base ≤ 16 → base ≤ z →
  numeral base z = numeral base (z / base) ++ [digit_char (z mod base)].
Proof.
  intros Hb Hz. unfold numeral at 1. cbn [digits_fuel].
  assert (0 < z / base) as Hq by (apply Z.div_str_pos; lia).
  destruct (Z.eqb_spec (z / base) 0); [lia|].
  rewrite digits_fuel_acc. f_equal. pose proof (numeral_fuel z ltac:(lia)) as Hf.
  pose proof (div_base_lt base Hb _ _ Hf) as Hd.
  apply digits_fuel_irrel; [done|done|apply numeral_fuel; lia| |lia].
  destruct (Z.to_nat (Z.log2 z)); [simpl in Hd; lia|lia].
Qed.

Lemma digit_val_range base c d : digit_val base c = Some d → 0 ≤ d < base.
Proof.
  unfold digit_val, isdigit, islower, isupper, in_range. intros H.
  repeat case_match; try discriminate; simplify_eq; reflect_Z; lia.
Qed.

Lemma scan_digits_bound base a s :
  2 ≤ base → all_digits base s →
  ∃ v, scan_digits base a s = (v, []) ∧ a * base ^ zlen s ≤ v < (a + 1) * base ^ zlen s.
Proof.
  intros Hb Ha. revert a. induction Ha as [|c s [d Hd] Hs IH]; intros a; simpl.
  - exists a. change (zlen []) with 0. split; [done|lia].
  - rewrite Hd. destruct (IH (a * base + d)) as (v & -> & Hv). exists v. split; [done|].
    pose proof (digit_val_range _ _ _ Hd). rewrite zlen_cons, Z.pow_add_r, Z.pow_1_r by (apply zlen_nonneg || lia).
    assert (0 < base ^ zlen s) by (apply Z.pow_pos_nonneg; [lia|apply zlen_nonneg]). nia.
Qed.

Lemma numeral_length base z k :
  2 ≤ base ≤ 16 → 0 ≤ k → base ^ k ≤ z < base ^ (k + 1) → zlen (numeral base z) = k + 1.
Proof.
  intros Hb Hk [Hlo Hhi].
  assert (0 < base ^ k) by (apply Z.pow_pos_nonneg; lia).
  assert (zlen (numeral base z) ≤ k + 1).
  { pose proof (digits_fuel_length base Hb (S (Z.to_nat (Z.log2 z))) (Z.to_nat (k + 1)) z []) as H'.
    rewrite Z2Nat.id in H' by lia. specialize (H' ltac:(lia) ltac:(lia)).
    unfold numeral, zlen. simpl length in *. lia. }
  destruct (scan_digits_bound base 0 (numeral base z)) as (v & Hv & Hb'); [lia|by apply numeral_all|].
  pose proof (scan_numeral base Hb z [] ltac:(lia) eq_refl) as Hs.
  rewrite app_nil_r, Hv in Hs. injection Hs as ->.
  destruct (Z_lt_le_dec k (zlen (numeral base z))) as [|Hle]; [lia|].
  assert (base ^ zlen (numeral base z) ≤ base ^ k).
  { apply Z.pow_le_mono_r; [lia|done]. }
  lia.
Qed.

Lemma digit_val_mono b1 b2 c d : b1 ≤ b2 → digit_val b1 c = Some d → digit_val b2 c = Some d.
Proof.
  unfold digit_val. intros Hb.
  destruct (if isdigit c then _ else _) as [v|]; [|done].
  destruct (Z.ltb_spec v b1); [|done]. by rewrite (proj2 (Z.ltb_lt _ _)) by lia.
Qed.
