(* ===== verification/Strings.v ===== *)
(** * The string library of lib/base
    (lib/base/strings.cpp, strings.h, parseint.h, parsenetaddress.cpp)

    [Split], [Join], [Trim] and the prefix and suffix tests; [ParseUint] and
    [ParseInt]; [ParseNetAddress].  The loops work on positions, as in the
    source; [pieces] is the reference splitting they are proved equal to. *)

From Stdlib Require Import ZArith Lia List Ascii String.
From stdpp Require Import base numbers list strings.
From S2P Require Import Prelude.
From S2P Require Import Libc.

(** ** Split and Join *)

Definition char_in (c : ascii) (set : bytes) : bool := existsb (char_eqb c) set.

(** [s.find_first_of(set, pos)]; [None] is [npos]. *)
Fixpoint find_first_of_rel (s set : bytes) : option nat :=
  match s with
  | [] => None
  | c :: s => if char_in c set then Some 0%nat else S <$> find_first_of_rel s set
  end.
Definition find_first_of (s set : bytes) (pos : nat) : option nat :=
  (λ i, pos + i)%nat <$> find_first_of_rel (drop pos s) set.

(** [s.substr(pos, n)]; [None] for [npos]. *)
Definition substr (s : bytes) (pos : nat) (n : option nat) : bytes :=
  match n with Some n => take n (drop pos s) | None => drop pos s end.

(** The [while (true)] of [Split]: a round that goes on moves [base] past a
    delimiter, so the length of the string bounds the rounds. *)
Fixpoint split_loop (fuel : nat) (s delimiters : bytes) (base : nat) : list bytes :=
  let found := find_first_of s delimiters base in
  let piece := substr s base ((λ f, f - base)%nat <$> found) in
  match found, fuel with
  | None, _ => [piece]
  | Some found, S fuel => piece :: split_loop fuel s delimiters (found + 1)
  | Some _, O => [piece]
  end.

Definition Split (s delimiters : bytes) : outcome (list bytes) :=
  CHECK (negb (zlen delimiters =? 0)) "delimiters.size() != 0" ;;
  Ret (split_loop (length s) s delimiters 0).

Fixpoint join_rest (things : list bytes) (separator : bytes) : bytes :=
  match things with
  | [] => []
  | t :: things => separator ++ t ++ join_rest things separator
  end.

Definition Join (things : list bytes) (separator : bytes) : bytes :=
  match things with [] => [] | t :: things => t ++ join_rest things separator end.

(** ** Trim *)

(** The two [while] loops move an index over the white space. *)
Fixpoint skip_front (fuel : nat) (s : bytes) (start_index : nat) : nat :=
  match fuel with
  | O => start_index
  | S fuel =>
      match s !! start_index with
      | Some c => if isspace c then skip_front fuel s (start_index + 1) else start_index
      | None => start_index
      end
  end.

(** [end_index] is the index plus one; [s] has a character before it. *)
Fixpoint skip_back (fuel : nat) (s : bytes) (start_index end_index1 : nat) : nat :=
  match fuel with
  | O => end_index1
  | S fuel =>
      if (start_index <? end_index1)%nat then
        match s !! (end_index1 - 1)%nat with
        | Some c => if isspace c then skip_back fuel s start_index (end_index1 - 1) else end_index1
        | None => end_index1
        end
      else end_index1
  end.

Definition Trim (s : bytes) : bytes :=
  if (length s =? 0)%nat then []
  else
    let start_index := skip_front (length s) s 0 in
    let end_index1 := skip_back (length s) s start_index (length s) in
    if (end_index1 <=? start_index)%nat then []
    else substr s start_index (Some (end_index1 - start_index)%nat).

(** ** Prefixes and suffixes *)

(** [strncmp(a, b, n) == 0] on C strings. *)
Fixpoint strncmp_eq (a b : bytes) (n : nat) : bool :=
  match n with
  | O => true
  | S n =>
      let x := default NUL (head a) in
      let y := default NUL (head b) in
      if char_eqb x y then (if char_eqb x NUL then true else strncmp_eq (tail a) (tail b) n)
      else false
  end.

Definition StartsWith (s prefix : bytes) : bool := strncmp_eq (c_str s) (c_str prefix) (length prefix).
Definition StartsWithIgnoreCase (s prefix : bytes) : bool :=
  strncmp_eq (tolower <$> c_str s) (tolower <$> c_str prefix) (length prefix).

Definition EndsWith_impl (s suffix : bytes) (suffix_length : nat) (case_sensitive : bool) : bool :=
  if (length s <? suffix_length)%nat then false
  else
    let tail := drop (length s - suffix_length) s in
    if case_sensitive then strncmp_eq (c_str tail) (c_str suffix) suffix_length
    else strncmp_eq (tolower <$> c_str tail) (tolower <$> c_str suffix) suffix_length.

Definition EndsWith (s suffix : bytes) : bool := EndsWith_impl s suffix (length suffix) true.
Definition EndsWithIgnoreCase (s suffix : bytes) : bool := EndsWith_impl s suffix (length suffix) false.

Definition EqualsIgnoreCase (lhs rhs : bytes) : bool :=
  bool_decide ((tolower <$> c_str lhs) = (tolower <$> c_str rhs)).

(** ** ParseUint, ParseInt *)

(** [s[0] == '0' && (s[1] == 'x' || s[1] == 'X') ? 16 : 10]. *)
Definition int_base (s : bytes) : Z :=
  match s with
  | z :: x :: _ => if char_eqb z "0" && (char_eqb x "x" || char_eqb x "X") then 16 else 10
  | _ => 10
  end.

(** The value stored in [*out], or [None] for [false]. *)
Definition ParseUint (str : bytes) (max : Z) : option Z :=
  let s := c_str str in
  let '(result, rest, erange) := strtoull (int_base s) s in
  if erange || bool_decide (scan_int (int_base s) s = None) || negb (bool_decide (rest = [])) then None
  else if max <? result then None
  else Some result.

Definition ParseInt (str : bytes) (min max : Z) : option Z :=
  let s := c_str str in
  let '(result, rest, erange) := strtoll (int_base s) s in
  if erange || bool_decide (scan_int (int_base s) s = None) || negb (bool_decide (rest = [])) then None
  else if (result <? min) || (max <? result) then None
  else Some result.

(** ** ParseNetAddress *)

Definition count (c : ascii) (s : bytes) : Z := zlen (filter (λ x, char_eqb x c = true) s).

(** First and last position of a two-character pattern. *)
Fixpoint find2 (s : bytes) (a b : ascii) : option nat :=
  match s with
  | x :: (y :: _) as t => if char_eqb x a && char_eqb y b then Some 0%nat else S <$> find2 t a b
  | _ => None
  end.
Fixpoint rfind2 (s : bytes) (a b : ascii) : option nat :=
  match s with
  | x :: (y :: _) as t =>
      match rfind2 t a b with
      | Some i => Some (S i)
      | None => if char_eqb x a && char_eqb y b then Some 0%nat else None
      end
  | _ => None
  end.

Inductive net_error := BadIPv6 | NoHost | BadPort.

(** [*port] is also an input: it keeps its value when the address has no port. *)
Record net_address := mkNetAddress { na_host : bytes; na_port : Z; na_canonical : bytes }.

(** The first part of the function: host, [ipv6], and the port string if any. *)
Definition split_address (address : bytes) : outcome (net_error + (bytes * bool * option bytes)) :=
  let colons := count ":" address in
  let dots := count "." address in
  if char_eqb (default NUL (head address)) "[" then
    match rfind2 address "]" ":", find2 address "]" ":" with
    | Some r, Some f => Ret (inr (substr address 1 (Some (f - 1)%nat), true, Some (substr address (r + 2) None)))
    | _, _ => Ret (inl BadIPv6)
    end
  else if (dots =? 0) && (2 <=? colons) && (colons <=? 7) then Ret (inr (address, true, None))
  else if colons <=? 1 then
    pieces ← Split address $":";
    Ret (inr (default [] (pieces !! 0%nat), false, pieces !! 1%nat))
  else Ret (inr ([], true, None)).

Definition ParseNetAddress (address : bytes) (port : Z) : outcome (net_error + net_address) :=
  r ← split_address address;
  match r with
  | inl e => Ret (inl e)
  | inr (host, ipv6, port_str) =>
      if bool_decide (host = []) then Ret (inl NoHost)
      else
        let port := match port_str with Some p => sscanf_d (c_str p) | None => Some port end in
        let bad := bool_decide (is_Some port_str) &&
          match port with Some p => (p <=? 0) || (65535 <? p) | None => true end in
        match port with
        | Some p =>
            if bad then Ret (inl BadPort)
            else
              let canonical :=
                if (ipv6 : bool) then $"[" ++ c_str host ++ $"]:" ++ print_dec p
                else c_str host ++ $":" ++ print_dec p in
              Ret (inr (mkNetAddress host p canonical))
        | None => Ret (inl BadPort)
        end
  end.

Example ParseNetAddress_ex1 :
  ParseNetAddress $"[::1]:123" 5555 = Ret (inr (mkNetAddress $"::1" 123 $"[::1]:123")).
Proof. reflexivity. Qed.
Example ParseNetAddress_ex2 :
  ParseNetAddress $"1.2.3.4" 5555 = Ret (inr (mkNetAddress $"1.2.3.4" 5555 $"1.2.3.4:5555")).
Proof. reflexivity. Qed.
Example Trim_ex : Trim $"  a b  " = $"a b" ∧ Trim $"   " = [].
Proof. split; reflexivity. Qed.
Example Split_ex : Split $"a:b::c" $":" = Ret [$"a"; $"b"; []; $"c"].
Proof. reflexivity. Qed.

(** ** Split and Join are inverse *)

(** The reference splitting, by recursion on the string. *)
Fixpoint pieces (delims s : bytes) : list bytes :=
  match s with
  | [] => [[]]
  | c :: s =>
      if char_in c delims then [] :: pieces delims s
      else match pieces delims s with p :: ps => (c :: p) :: ps | [] => [[c]] end
  end.

Lemma pieces_find d s :
  match find_first_of_rel s d with
  | None => pieces d s = [s]
  | Some i => (i < length s)%nat ∧ pieces d s = take i s :: pieces d (drop (S i) s)
  end.
Proof.
  induction s as [|c s IH]; simpl; [done|].
  destruct (char_in c d); simpl; [split; [lia|by rewrite drop_0]|].
  destruct (find_first_of_rel s d) as [i|]; simpl.
  - destruct IH as [Hi ->]. split; [lia|done].
  - by rewrite IH.
Qed.

Lemma split_loop_pieces fuel s d base :
  (length s - base ≤ fuel)%nat → split_loop fuel s d base = pieces d (drop base s).
Proof.
  revert base. induction fuel as [|fuel IH]; intros base Hf; cbn [split_loop];
    unfold find_first_of; pose proof (pieces_find d (drop base s)) as Hp;
    destruct (find_first_of_rel (drop base s) d) as [i|]; simpl; try by rewrite Hp.
  - destruct Hp as [Hi _]. rewrite length_drop in Hi. lia.
  - destruct Hp as [Hi ->]. rewrite length_drop in Hi. f_equal.
    + unfold substr. f_equal. lia.
    + rewrite IH by lia. rewrite drop_drop. do 2 f_equal. lia.
Qed.

Lemma Split_pieces s d : d ≠ [] → Split s d = Ret (pieces d s).
Proof.
  intros Hd. unfold Split. rewrite (proj2 (Z.eqb_neq _ _)).
  - simpl. by rewrite split_loop_pieces, drop_0 by lia.
  - intros H0. by apply Hd, zlen_0.
Qed.

Lemma pieces_ne d s : pieces d s ≠ [].
Proof. destruct s; simpl; [done|]. repeat case_match; done. Qed.

Definition free_of (d p : bytes) : Prop := Forall (λ c, char_in c d = false) p.

Lemma pieces_free d s : Forall (free_of d) (pieces d s).
Proof.
  induction s as [|c s IH]; simpl; [by repeat constructor|].
  destruct (char_in c d) eqn:Hc; [by constructor; [constructor|]|].
  destruct (pieces d s) as [|p ps]; [by repeat constructor|].
  inversion_clear IH. by repeat constructor.
Qed.

Lemma Join_cons p q ps sep : Join (p :: q :: ps) sep = p ++ sep ++ Join (q :: ps) sep.
Proof. done. Qed.

Lemma char_in_one x c : char_in x [c] = char_eqb x c.
Proof. unfold char_in. simpl. by rewrite orb_false_r. Qed.

Lemma Join_pieces c s : Join (pieces [c] s) [c] = s.
Proof.
  induction s as [|x s IH]; [done|]. cbn [pieces]. rewrite char_in_one.
  destruct (pieces [c] s) as [|p ps] eqn:Hp; [by apply pieces_ne in Hp|].
  destruct (char_eqb_spec x c) as [->|Hne].
  - rewrite Join_cons, IH. done.
  - change (Join ((x :: p) :: ps) [c]) with (x :: Join (p :: ps) [c]). by rewrite IH.
Qed.

Lemma pieces_free_app d p s :
  free_of d p → pieces d (p ++ s) = match pieces d s with q :: qs => (p ++ q) :: qs | [] => [] end.
Proof.
  induction 1 as [|c p Hc Hp IH]; simpl.
  - destruct (pieces d s) eqn:E; [by apply pieces_ne in E|done].
  - rewrite Hc, IH. destruct (pieces d s) eqn:E; [by apply pieces_ne in E|done].
Qed.

Lemma pieces_Join c l :
  l ≠ [] → Forall (free_of [c]) l → pieces [c] (Join l [c]) = l.
Proof.
  intros Hne Hl. induction Hl as [|p ps Hp Hps IH]; [done|].
  destruct ps as [|q ps].
  - unfold Join. simpl.
    rewrite pieces_free_app by done. simpl. by rewrite app_nil_r.
  - rewrite Join_cons, pieces_free_app by done. cbn [app pieces].
    rewrite char_in_one, char_eqb_refl. cbn iota. rewrite app_nil_r. by rewrite (IH ltac:(done)).
Qed.

(** [Split] on one delimiter is characterised by [Join]: it always
    returns (the position loop ends), and its result is the only non-empty list
    of delimiter-free pieces that [Join] glues back into the string. *)
Theorem Split_iff_Join s c l :
  Split s [c] = Ret l ↔ l ≠ [] ∧ Forall (free_of [c]) l ∧ Join l [c] = s.
Proof.
  rewrite Split_pieces by done. split.
  - intros [= <-]. split_and!; [apply pieces_ne | apply pieces_free | apply Join_pieces].
  - intros (Hne & Hf & <-). by rewrite pieces_Join.
Qed.

(** ** Trim *)

Lemma skip_front_spec fuel s i :
  (length s - i ≤ fuel)%nat → (i ≤ length s)%nat →
  ∃ w, Forall (λ c, isspace c = true) w ∧ skip_front fuel s i = (i + length w)%nat ∧
    drop i s = w ++ drop (i + length w) s ∧
    (∀ c, s !! (i + length w)%nat = Some c → isspace c = false).
Proof.
  revert i. induction fuel as [|fuel IH]; intros i Hf Hi; simpl.
  - exists []. simpl. rewrite Nat.add_0_r. split_and!; try done.
    intros c Hc. apply lookup_lt_Some in Hc. lia.
  - destruct (s !! i) as [c|] eqn:Hc.
    + destruct (isspace c) eqn:Hs.
      * destruct (IH (i + 1)%nat) as (w & Hw & -> & Hd & Hn).
        { lia. } { apply lookup_lt_Some in Hc. lia. }
        exists (c :: w). simpl. replace (i + S (length w))%nat with (i + 1 + length w)%nat by lia.
        split_and!; try done; [by constructor|].
        rewrite (drop_S s c i) by done. f_equal. replace (S i) with (i + 1)%nat by lia. done.
      * exists []. simpl. rewrite Nat.add_0_r. split_and!; try done. intros c' Hc'. by simplify_eq.
    + exists []. simpl. rewrite Nat.add_0_r. split_and!; try done. intros c' Hc'. congruence.
Qed.

Lemma skip_back_spec fuel s i e :
  (e - i ≤ fuel)%nat → (e ≤ length s)%nat →
  ∃ w, Forall (λ c, isspace c = true) w ∧ skip_back fuel s i e = (e - length w)%nat ∧
    (length w ≤ e - i)%nat ∧ take e s = take (e - length w) s ++ w ∧
    (∀ c, (i < e - length w)%nat → s !! (e - length w - 1)%nat = Some c → isspace c = false).
Proof.
  revert e. induction fuel as [|fuel IH]; intros e Hf He; simpl.
  - exists []. simpl. rewrite Nat.sub_0_r, app_nil_r. split_and!; try done; [lia|]. intros; lia.
  - destruct (Nat.ltb_spec i e) as [Hie|Hie].
    + destruct (s !! (e - 1)%nat) as [c|] eqn:Hc.
      2: { apply lookup_ge_None in Hc. lia. }
      destruct (isspace c) eqn:Hs.
      * destruct (IH (e - 1)%nat) as (w & Hw & -> & Hl & Ht & Hn); [lia|lia|].
        exists (w ++ [c]). rewrite length_app. simpl.
        replace (e - (length w + 1))%nat with (e - 1 - length w)%nat by lia.
        split_and!; try done; [apply Forall_app; by repeat constructor | lia|].
        rewrite app_assoc, <-Ht. replace e with (S (e - 1)) at 1 by lia. by apply take_S_r.
      * exists []. simpl. rewrite Nat.sub_0_r, app_nil_r. split_and!; try done; [lia|].
        intros c' _ Hc'. by simplify_eq.
    + exists []. simpl. rewrite Nat.sub_0_r, app_nil_r. split_and!; try done; [lia|]. intros; lia.
Qed.

(** [Trim] removes exactly the white space around the string: what it
    returns neither starts nor ends with white space, and the string is white
    space, the result, and white space. *)
Theorem Trim_correct s :
  ∃ a b, s = a ++ Trim s ++ b ∧ Forall (λ c, isspace c = true) (a ++ b) ∧
    (∀ c, head (Trim s) = Some c ∨ last (Trim s) = Some c → isspace c = false).
Proof.
  unfold Trim. destruct (Nat.eqb_spec (length s) 0) as [H0|H0].
  { apply nil_length_inv in H0 as ->. exists [], []. split_and!; [done|done|]. intros c [|]; done. }
  destruct (skip_front_spec (length s) s 0) as (a & Ha & -> & Hd & Hf); [lia|lia|]. simpl in *.
  destruct (skip_back_spec (length s) s (length a) (length s)) as (b & Hb & -> & Hl & Ht & Hn); [lia|lia|].
  rewrite drop_0 in Hd. rewrite firstn_all in Ht.
  destruct (Nat.leb_spec (length s - length b) (length a)) as [Hle|Hgt].
  - exists s, []. rewrite !app_nil_r. split_and!; [done| |intros c [|]; done].
    rewrite Hd. apply Forall_app. split; [done|].
    assert (length a ≤ length s)%nat by (apply (f_equal length) in Hd; rewrite length_app in Hd; lia).
    assert (drop (length a) s = b) as ->; [|done].
    rewrite Ht at 1. assert (length a = length s - length b)%nat as -> by lia.
    rewrite drop_app_length'; [done|]. rewrite length_take. lia.
  - unfold substr. set (t := take _ _).
    assert (Hs : s = a ++ t ++ b).
    { rewrite Hd. f_equal. unfold t. rewrite Ht at 1.
      rewrite drop_app_le by (rewrite length_take; lia).
      by rewrite skipn_firstn_comm. }
    assert (Htl : length t = (length s - length b - length a)%nat).
    { unfold t. rewrite length_take, length_drop. lia. }
    exists a, b. split_and!; [done|by apply Forall_app|].
    intros c [Hc|Hc].
    + apply Hf. rewrite Hs, lookup_app_r, Nat.sub_diag by lia.
      rewrite lookup_app_l by lia. by rewrite <-head_lookup.
    + apply Hn; [lia|]. rewrite Hs at 2. rewrite lookup_app_r by lia. rewrite lookup_app_l by lia.
      rewrite last_lookup in Hc. rewrite <-Hc. f_equal. rewrite Htl. lia.
Qed.

(** ** Prefix and suffix tests *)

Lemma strncmp_eq_spec a b :
  nul_free a → nul_free b → strncmp_eq a b (length b) = prefix_of b a.
Proof.
  revert a. induction b as [|y b IH]; intros a Ha Hb; [done|]. simpl.
  unfold nul_free in *. rewrite not_elem_of_cons in Hb. destruct Hb as [Hy Hb].
  destruct a as [|x a]; simpl.
  - destruct (char_eqb_spec NUL y); [by subst|done].
  - rewrite not_elem_of_cons in Ha. destruct Ha as [Hx Ha].
    destruct (char_eqb_spec x y) as [->|Hne].
    + rewrite char_eqb_refl. destruct (char_eqb_spec y NUL); [by subst|]. simpl. by apply IH.
    + destruct (char_eqb_spec y x); [by subst|done].
Qed.

Lemma StartsWith_spec s p :
  nul_free s → nul_free p → StartsWith s p = true ↔ ∃ k, s = p ++ k.
Proof.
  intros Hs Hp. unfold StartsWith. rewrite !c_str_id by done. rewrite strncmp_eq_spec by done.
  apply prefix_of_spec.
Qed.

Lemma nul_free_app a b : nul_free (a ++ b) ↔ nul_free a ∧ nul_free b.
Proof. unfold nul_free. rewrite not_elem_of_app. done. Qed.

Lemma nul_free_drop n s : nul_free s → nul_free (drop n s).
Proof. intros Hs. rewrite <-(take_drop n s) in Hs. by apply nul_free_app in Hs as [_ Hs]. Qed.

Lemma EndsWith_spec s p :
  nul_free s → nul_free p → EndsWith s p = true ↔ ∃ k, s = k ++ p.
Proof.
  intros Hs Hp. unfold EndsWith, EndsWith_impl. destruct (Nat.ltb_spec (length s) (length p)) as [Hl|Hl].
  - split; [done|]. intros [k ->]. rewrite length_app in Hl. lia.
  - rewrite !c_str_id by auto using nul_free_drop.
    rewrite strncmp_eq_spec by auto using nul_free_drop. rewrite prefix_of_spec. split.
    + intros [k Hk]. exists (take (length s - length p) s).
      assert (k = []) as ->.
      { apply (f_equal length) in Hk. rewrite length_drop, length_app in Hk.
        destruct k; [done|simpl in Hk; lia]. }
      rewrite app_nil_r in Hk. by rewrite <-(take_drop (length s - length p) s), Hk at 1.
    + intros [k ->]. exists []. rewrite length_app, app_nil_r, Nat.add_sub.
      by rewrite drop_app_length.
Qed.

(** ** Numbers *)

Lemma int_base_numeral z : 0 ≤ z → int_base (numeral 10 z) = 10.
Proof.
  intros Hz. pose proof (numeral_all 10 z ltac:(lia)) as Ha.
  destruct (numeral 10 z) as [|c [|x l]]; simpl; try done.
  apply Forall_cons in Ha as [_ Ha]. apply Forall_cons in Ha as [Hx _].
  assert (is_Some (digit_val 16 x)) as Hx'.
  { destruct Hx as [d Hd]. exists d. by apply (digit_val_mono 10); [lia|]. }
  by rewrite (x_not_digit _ Hx'), andb_false_r.
Qed.

Lemma scan_int_numeral z rest :
  0 ≤ z → starts_digit 10 rest = false → scan_int 10 (numeral 10 z ++ rest) = Some (false, z, rest).
Proof.
  intros Hz Hr. rewrite scan_int_digits; [|lia|by apply numeral_all| |lia].
  - by rewrite scan_numeral by (done || lia).
  - pose proof (numeral_starts 10 ltac:(lia) z Hz). by destruct (numeral 10 z).
Qed.

Lemma print_dec_nonneg z : 0 ≤ z → print_dec z = numeral 10 z.
Proof. intros. unfold print_dec. by rewrite (proj2 (Z.ltb_ge _ _)). Qed.

Lemma print_dec_nul_free z : 0 ≤ z → nul_free (print_dec z).
Proof.
  intros Hz Hin. rewrite print_dec_nonneg in Hin by done.
  pose proof (numeral_all 10 z ltac:(lia)) as Ha. unfold all_digits in Ha. rewrite Forall_forall in Ha.
  by destruct (digit_not_special _ _ (Ha _ Hin)) as (_ & _ & _ & ? & _).
Qed.

Lemma strtoull_range base s : 0 ≤ ((strtoull base s).1).1 < 2 ^ 64.
Proof.
  unfold strtoull. destruct (scan_int base s) as [[[neg v] rest]|]; [|simpl; lia].
  destruct (2 ^ 64 <=? v); simpl; [lia|]. apply u64_range.
Qed.

(** [ParseUint] on a string.  It accepts the decimal form of every number
    up to [max] and no other number, and whatever it stores is between 0 and
    [max] (or 2^64 - 1). *)
Theorem ParseUint_correct z s max :
  0 ≤ z < 2 ^ 64 → 0 ≤ max →
  ParseUint (print_dec z) max = (if decide (z ≤ max) then Some z else None) ∧
  (∀ v, ParseUint s max = Some v → 0 ≤ v ≤ max ∧ v < 2 ^ 64).
Proof.
  intros Hz Hm. split.
  - unfold ParseUint. rewrite c_str_id by (apply print_dec_nul_free; lia).
    rewrite print_dec_nonneg, int_base_numeral by lia.
    pose proof (scan_int_numeral z [] ltac:(lia) eq_refl) as Hs. rewrite app_nil_r in Hs.
    unfold strtoull. rewrite Hs, (proj2 (Z.leb_gt _ _)), u64_small by lia. simpl.
    case_decide; destruct (Z.ltb_spec max z); lia || done.
  - intros v. unfold ParseUint. pose proof (strtoull_range (int_base (c_str s)) (c_str s)) as Hr.
    destruct (strtoull (int_base (c_str s)) (c_str s)) as [[r rest] e]. simpl in Hr.
    case_match; [done|]. destruct (Z.ltb_spec max r); [done|]. intros [= <-]. lia.
Qed.

Lemma ParseUint_correct_witness :
  ParseUint $"5555" 65535 = Some 5555 ∧ ParseUint $"65536" 65535 = None.
Proof.
  split.
  - exact (proj1 (ParseUint_correct 5555 [] 65535 ltac:(lia) ltac:(lia))).
  - exact (proj1 (ParseUint_correct 65536 [] 65535 ltac:(lia) ltac:(lia))).
Defined.

(** [strtoull] takes a sign, so a negative number wraps into the range. *)
Example ParseUint_negative : ParseUint $"-18446744073709551615" 65535 = Some 1.
Proof. reflexivity. Qed.

(** ** Network addresses *)

Lemma count_app c s t : count c (s ++ t) = count c s + count c t.
Proof. unfold count. by rewrite filter_app, zlen_app. Qed.

Lemma count_0 c s : c ∉ s → count c s = 0.
Proof.
  induction s as [|x s IH]; intros Hs; [done|]. rewrite not_elem_of_cons in Hs. destruct Hs as [Hx Hs].
  unfold count in *. rewrite filter_cons_False; [by apply IH|].
  destruct (char_eqb_spec x c); [by subst|done].
Qed.

Lemma count_nonneg c s : 0 ≤ count c s.
Proof. apply zlen_nonneg. Qed.

Lemma digits_not_in base s c : all_digits base s → isalnum c = false → c ∉ s.
Proof.
  intros Ha Hc Hin. unfold all_digits in Ha. rewrite Forall_forall in Ha.
  destruct (digit_not_special _ _ (Ha _ Hin)) as (_ & _ & _ & _ & ?). congruence.
Qed.

Lemma free_of_one c p : c ∉ p → free_of [c] p.
Proof.
  intros Hc. apply Forall_forall. intros x Hx. rewrite char_in_one.
  destruct (char_eqb_spec x c); [by subst|done].
Qed.

Lemma find2_skip a b s t :
  a ∉ s → find2 (s ++ a :: b :: t) a b = Some (length s).
Proof.
  induction s as [|x s IH]; intros Hs; simpl; [by rewrite !char_eqb_refl|].
  rewrite not_elem_of_cons in Hs. destruct Hs as [Hx Hs].
  destruct (char_eqb_spec x a); [by subst|]. simpl.
  rewrite IH by done. destruct s; done.
Qed.

Lemma rfind2_None a b s : a ∉ s → rfind2 s a b = None.
Proof.
  induction s as [|x s IH]; intros Hs; [done|]. rewrite not_elem_of_cons in Hs. destruct Hs as [Hx Hs].
  simpl. destruct s as [|y s]; [done|]. rewrite IH by done.
  by destruct (char_eqb_spec x a); [subst|].
Qed.

Lemma rfind2_skip a b s t :
  a ∉ s → a ∉ t → a ≠ b → rfind2 (s ++ a :: b :: t) a b = Some (length s).
Proof.
  intros Hs Ht Hab. induction s as [|x s IH].
  - assert (rfind2 (b :: t) a b = None) as Hn.
    { apply rfind2_None. by rewrite not_elem_of_cons. }
    change (rfind2 ([] ++ a :: b :: t) a b) with
      (match rfind2 (b :: t) a b with Some i => Some (S i)
       | None => if char_eqb a a && char_eqb b b then Some 0%nat else None end).
    by rewrite Hn, !char_eqb_refl.
  - rewrite not_elem_of_cons in Hs. destruct Hs as [Hx Hs].
    cbn [app rfind2 length]. rewrite IH by done. by destruct s.
Qed.

Lemma split_canonical_v6 host p :
  "]"%char ∉ host → "]"%char ∉ p →
  split_address ("["%char :: host ++ "]"%char :: ":"%char :: p) = Ret (inr (host, true, Some p)).
Proof.
  intros Hh Hp. unfold split_address. cbn [head default from_option]. rewrite char_eqb_refl.
  change ("["%char :: host ++ ?r) with (("["%char :: host) ++ r).
  assert ("]"%char ∉ "["%char :: host) by (rewrite not_elem_of_cons; by split).
  rewrite rfind2_skip, find2_skip by done. cbn [length]. do 4 f_equal.
  - unfold substr. rewrite Nat.sub_succ, Nat.sub_0_r. apply take_app_length.
  - unfold substr. replace (S (length host) + 2)%nat with (length ("["%char :: host) + 2)%nat by done.
    by rewrite <-drop_drop, drop_app_length.
Qed.

Lemma split_canonical_name host p :
  ":"%char ∉ host → ":"%char ∉ p → host ≠ [] → head host ≠ Some "["%char →
  split_address (host ++ ":"%char :: p) = Ret (inr (host, false, Some p)).
Proof.
  intros Hh Hp Hne Hhd. unfold split_address.
  destruct (char_eqb_spec (default NUL (head (host ++ ":"%char :: p))) "[") as [He|_].
  { destruct host; [done|]. simpl in *. congruence. }
  assert (Hc : count ":" (host ++ ":"%char :: p) = 1).
  { rewrite count_app, (count_0 ":" host) by done. change (":"%char :: p) with ([":"%char] ++ p).
    by rewrite count_app, (count_0 ":" p). }
  rewrite Hc. simpl (2 <=? 1). rewrite andb_false_r. cbn [andb Z.leb Z.compare Pos.compare Pos.compare_cont].
  rewrite Split_pieces by done.
  change (host ++ ":"%char :: p) with (host ++ [":"%char] ++ p).
  assert (Hj : host ++ [":"%char] ++ p = Join [host; p] [":"%char]).
  { rewrite Join_cons. unfold Join. simpl. by rewrite app_nil_r. }
  rewrite Hj. change ($":") with [":"%char].
  rewrite pieces_Join; [done|done|]. repeat constructor; by apply free_of_one.
Qed.

Lemma sscanf_print_dec z : 0 ≤ z < 2 ^ 31 → sscanf_d (print_dec z) = Some z.
Proof.
  intros Hz. rewrite print_dec_nonneg by lia. unfold sscanf_d, strtoll.
  pose proof (scan_int_numeral z [] ltac:(lia) eq_refl) as Hs. rewrite app_nil_r in Hs. rewrite Hs.
  rewrite (proj2 (Z.leb_gt _ _)), (proj2 (Z.ltb_ge _ _)) by lia. simpl. by rewrite s32_small by lia.
Qed.

Definition canonical (ipv6 : bool) (host : bytes) (port : Z) : bytes :=
  if ipv6 then "["%char :: host ++ "]"%char :: ":"%char :: print_dec port
  else host ++ ":"%char :: print_dec port.

Lemma ParseNetAddress_canonical_Ret ipv6 host port default_port :
  nul_free host → host ≠ [] → 1 ≤ port ≤ 65535 →
  (if ipv6 : bool then "]"%char ∉ host else (":"%char ∉ host) ∧ head host ≠ Some "["%char) →
  ParseNetAddress (canonical ipv6 host port) default_port =
    Ret (inr (mkNetAddress host port (canonical ipv6 host port))).
Proof.
  intros Hn Hne Hp Hhost. unfold ParseNetAddress.
  pose proof (numeral_all 10 port ltac:(lia)) as Ha. rewrite <-print_dec_nonneg in Ha by lia.
  assert (split_address (canonical ipv6 host port) = Ret (inr (host, ipv6, Some (print_dec port)))) as ->.
  { destruct ipv6; simpl.
    - apply split_canonical_v6; [done|by eapply digits_not_in].
    - destruct Hhost. apply split_canonical_name; try done. by eapply digits_not_in. }
  cbn [mbind outcome_bind]. rewrite bool_decide_eq_false_2 by done.
  rewrite c_str_id by (apply print_dec_nul_free; lia).
  rewrite sscanf_print_dec by lia. rewrite bool_decide_eq_true_2 by by eexists.
  rewrite (proj2 (Z.leb_gt port 0)), (proj2 (Z.ltb_ge 65535 port)) by lia. cbn.
  rewrite c_str_id by done. destruct ipv6; [|done].
  unfold canonical. do 3 f_equal.
Qed.

(** Canonical addresses are fixed points.  For a host without NULs that
    [ParseNetAddress] can name (a name or IPv4 address without colons, or an
    IPv6 address, which may hold anything but a closing bracket) and a port
    number, the canonical form is parsed back to the same host and port,
    whatever default port is given, and is its own canonical form. *)
Theorem ParseNetAddress_canonical ipv6 host port default_port :
  nul_free host → host ≠ [] → 1 ≤ port ≤ 65535 →
  (if ipv6 : bool then "]"%char ∉ host else (":"%char ∉ host) ∧ head host ≠ Some "["%char) →
  ParseNetAddress (canonical ipv6 host port) default_port =
    Ret (inr (mkNetAddress host port (canonical ipv6 host port))).
Proof. apply ParseNetAddress_canonical_Ret. Qed.

Lemma ParseNetAddress_canonical_witness :
  ParseNetAddress $"[fe80::1]:5555" 1 = Ret (inr (mkNetAddress $"fe80::1" 5555 $"[fe80::1]:5555")) ∧
  ParseNetAddress $"10.0.0.2:5555" 1 = Ret (inr (mkNetAddress $"10.0.0.2" 5555 $"10.0.0.2:5555")).
Proof.
  split.
  - apply (ParseNetAddress_canonical true $"fe80::1" 5555 1); try done.
    + intros H. apply list_elem_of_In in H. by repeat destruct H as [H|H].
    + intros H. apply list_elem_of_In in H. by repeat destruct H as [H|H].
  - apply (ParseNetAddress_canonical false $"10.0.0.2" 5555 1); try done.
    + intros H. apply list_elem_of_In in H. by repeat destruct H as [H|H].
    + split; [|done]. intros H. apply list_elem_of_In in H. by repeat destruct H as [H|H].
Defined.
