(* ===== verification/AdbIo.v ===== *)
(** * Exact reads and writes, and the smart-socket string protocol
    (src/src/adb_io.cpp)

    The operating system's answers are an environment: a file descriptor
    carries the script of what its next [adb_read] or [adb_write] calls do.
    A script that has run out stands for a closed peer.  The functions are the
    loops of the source over that environment, so a theorem over all scripts
    is a theorem over all ways the kernel may fragment the stream. *)

From Stdlib Require Import ZArith Lia List Ascii String.
From stdpp Require Import base numbers list strings.
From S2P Require Import Prelude.
From S2P Require Import Libc.

(** ** File descriptors *)

Inductive errno := EAGAIN | EPIPE | EOTHER.

#[export] Instance errno_eq_dec : EqDecision errno.
Proof. solve_decision. Defined.

(** What the peer has made available to [read]: a chunk, the end of the
    stream, or an error. *)
Inductive rd_event := RdData (d : bytes) | RdEof | RdErr (e : errno).
Abbreviation rd_fd := (list rd_event).

(** The [int] result of [adb_read] with the bytes stored: [r > 0], [r == 0] or
    [r == -1]. *)
Inductive rd_result := GotData (d : bytes) | GotEof | GotErr (e : errno).

(** A read of at most [len > 0] bytes takes them off the first chunk. *)
Definition adb_read (fd : rd_fd) (len : Z) : rd_result * rd_fd :=
  match fd with
  | [] => (GotEof, [])
  | RdEof :: fd => (GotEof, fd)
  | RdErr e :: fd => (GotErr e, fd)
  | RdData [] :: fd => (GotEof, fd)
  | RdData d :: fd =>
      if zlen d <=? len then (GotData d, fd)
      else (GotData (take (Z.to_nat len) d), RdData (drop (Z.to_nat len) d) :: fd)
  end.

(** What the kernel does with the next [write]: takes at most [n] bytes, or
    fails. *)
Inductive wr_event := WrTake (n : Z) | WrErr (e : errno).

Record wr_fd := mkWrFd { wr_script : list wr_event; wr_sent : bytes }.

Inductive wr_result := Wrote (n : Z) | WroteErr (e : errno).

Definition adb_write (fd : wr_fd) (buf : bytes) : wr_result * wr_fd :=
  match wr_script fd with
  | [] => (WroteErr EPIPE, fd)
  | WrErr e :: t => (WroteErr e, mkWrFd t (wr_sent fd))
  | WrTake n :: t =>
      let r := Z.min (Z.max 0 n) (zlen buf) in
      (Wrote r, mkWrFd t (wr_sent fd ++ take (Z.to_nat r) buf))
  end.

(** ** ReadFdExactly *)

(** The [while (len > 0)] loop; [p] is what has been stored so far.  Every
    round stores at least one byte or ends the loop. *)
Fixpoint read_loop (fuel : nat) (fd : rd_fd) (p : bytes) (len : Z) : outcome (bool * bytes * rd_fd) :=
  if 0 <? len then
    match fuel with
    | O => Abort "out of fuel"
    | S fuel =>
        match adb_read fd len with
        | (GotData d, fd) => read_loop fuel fd (p ++ d) (len - zlen d)
        | (GotErr _, fd) => Ret (false, p, fd)
        | (GotEof, fd) => Ret (false, p, fd)
        end
    end
  else Ret (true, p, fd).

Definition ReadFdExactly (fd : rd_fd) (len : Z) : outcome (bool * bytes * rd_fd) :=
  read_loop (Z.to_nat len) fd [] len.

(** ** WriteFdExactly *)

(** [EAGAIN] yields and retries; a round uses up an event of the script, and
    once it is used up the peer is gone, so its length bounds the rounds. *)
Fixpoint write_loop (fuel : nat) (fd : wr_fd) (p : bytes) : outcome (bool * wr_fd) :=
  if 0 <? zlen p then
    match fuel with
    | O => Abort "out of fuel"
    | S fuel =>
        match adb_write fd p with
        | (WroteErr EAGAIN, fd) => write_loop fuel fd p
        | (WroteErr EPIPE, fd) => Ret (false, fd)
        | (WroteErr _, fd) => Ret (false, fd)
        | (Wrote r, fd) => write_loop fuel fd (drop (Z.to_nat r) p)
        end
    end
  else Ret (true, fd).

Definition WriteFdExactly (fd : wr_fd) (buf : bytes) : outcome (bool * wr_fd) :=
  write_loop (S (length (wr_script fd))) fd buf.

(** [WriteFdFmt] formats first; the callers pass the formatted string. *)
Definition WriteFdFmt (fd : wr_fd) (formatted : bytes) : outcome (bool * wr_fd) :=
  WriteFdExactly fd formatted.

(** ** Protocol strings *)

Definition MAX_PAYLOAD_V1 : Z := 4 * 1024.
Definition MAX_PAYLOAD : Z := 1024 * 1024.

(** ["%.*s"] of [s.c_str()] stops at a NUL. *)
Definition SendProtocolString (fd : wr_fd) (s : bytes) : outcome (bool * wr_fd) :=
  let length := u32 (zlen s) in
  if MAX_PAYLOAD - 4 <? length then Ret (false, fd)
  else WriteFdFmt fd (print_hex_pad 4 length ++ take (Z.to_nat length) (c_str s)).

Definition SendOkay (fd : wr_fd) : outcome (bool * wr_fd) := WriteFdExactly fd $"OKAY".

Definition SendFail (fd : wr_fd) (reason : bytes) : outcome (bool * wr_fd) :=
  '(ok, fd) ← WriteFdExactly fd $"FAIL";
  if (ok : bool) then SendProtocolString fd reason else Ret (false, fd).

(** [std::string::max_size()]. *)
Definition string_max_size : Z := 2 ^ 63 - 1.

(** What [ReadProtocolString] returns: the string, or which of its two error
    messages; [resize] beyond [max_size()] throws, and nothing catches it. *)
Inductive protocol_error := FaultLength | FaultMessage.

Definition ReadProtocolString (fd : rd_fd) : outcome ((bytes + protocol_error) * rd_fd) :=
  '(ok, buf, fd) ← ReadFdExactly fd 4;
  if negb (ok : bool) then Ret (inr FaultLength, fd)
  else
    let len := ((strtoull 16 (c_str buf)).1).1 in
    CHECK (len <=? string_max_size) "std::length_error" ;;
    '(ok, s, fd) ← ReadFdExactly fd len;
    if negb (ok : bool) then Ret (inr FaultMessage, fd) else Ret (inl s, fd).

(** ** ReadOrderlyShutdown: the result, and whether the socket was shut down. *)
Definition ReadOrderlyShutdown (fd : rd_fd) : outcome (bool * bool * rd_fd) :=
  match adb_read fd 16 with
  | (GotErr e, fd) =>
      CHECK (bool_decide (e ≠ EAGAIN)) "errno != EAGAIN" ;; Ret (false, false, fd)
  | (GotEof, fd) => Ret (true, false, fd)
  | (GotData _, fd) => Ret (false, true, fd)
  end.

(** ** What a script delivers *)

(** The bytes a reader can still get before the stream ends or fails. *)
Fixpoint available (fd : rd_fd) : bytes :=
  match fd with
  | RdData (c :: d) :: fd => (c :: d) ++ available fd
  | _ => []
  end.

(** The number of bytes the kernel will take before it fails for good. *)
Fixpoint accepts (script : list wr_event) : Z :=
  match script with
  | WrTake n :: t => Z.max 0 n + accepts t
  | WrErr EAGAIN :: t => accepts t
  | _ => 0
  end.

Lemma adb_read_spec fd len :
  0 < len →
  match adb_read fd len with
  | (GotData d, fd') => 0 < zlen d ≤ len ∧ available fd = d ++ available fd'
  | (_, fd') => available fd = []
  end.
Proof.
  intros Hlen. destruct fd as [|[[|c d]| |e] fd]; simpl; try done.
  destruct (Z.leb_spec (zlen (c :: d)) len) as [H|H].
  - split; [|done]. rewrite zlen_cons in *. pose proof (zlen_nonneg d). lia.
  - rewrite zlen_take by lia. split; [lia|].
    change (c :: d ++ available fd) with ((c :: d) ++ available fd).
    rewrite <-(take_drop (Z.to_nat len) (c :: d)) at 1. rewrite <-app_assoc. f_equal.
    destruct (drop (Z.to_nat len) (c :: d)) eqn:Hd; [|done].
    apply (f_equal length) in Hd. rewrite length_drop in Hd. unfold zlen in H. simpl in *. lia.
Qed.

Lemma read_loop_spec fuel fd p len :
  len ≤ Z.of_nat fuel →
  ∃ ok got fd', read_loop fuel fd p len = Ret (ok, p ++ got, fd') ∧
    (ok = true → zlen got = Z.max 0 len ∧ available fd = got ++ available fd') ∧
    (ok = false → got = available fd ∧ zlen got < len).
Proof.
  revert fd p len. induction fuel as [|fuel IH]; intros fd p len Hf; simpl.
  { destruct (Z.ltb_spec 0 len); [lia|].
    exists true, [], fd. rewrite app_nil_r. split_and!; try done. intros _. split; [|done].
    change (zlen []) with 0. lia. }
  destruct (Z.ltb_spec 0 len).
  - pose proof (adb_read_spec fd len H) as Hr. destruct (adb_read fd len) as [[d| |e] fd'].
    + destruct Hr as [Hd Ha]. destruct (IH fd' (p ++ d) (len - zlen d)) as (ok & got & fd'' & -> & Hok & Hbad); [lia|].
      exists ok, (d ++ got), fd''. rewrite app_assoc, zlen_app, Ha. split; [done|]. split.
      * intros E. destruct (Hok E) as [Hg ->]. rewrite app_assoc. split; [lia|done].
      * intros E. destruct (Hbad E) as [-> Hg]. split; [done|lia].
    + exists false, [], fd'. rewrite app_nil_r. split_and!; [done..|]. intros _. by rewrite Hr.
    + exists false, [], fd'. rewrite app_nil_r. split_and!; [done..|]. intros _. by rewrite Hr.
  - exists true, [], fd. rewrite app_nil_r. split_and!; try done. intros _. split; [|done].
    change (zlen []) with 0. lia.
Qed.

(** However the stream is chopped up, the read returns its next [len] bytes or
    reports that there are fewer. *)
Lemma ReadFdExactly_Ret fd len :
  0 ≤ len →
  ∃ ok got fd', ReadFdExactly fd len = Ret (ok, got, fd') ∧
    (len ≤ zlen (available fd) → ok = true ∧ got = take (Z.to_nat len) (available fd) ∧
       available fd' = drop (Z.to_nat len) (available fd)) ∧
    (zlen (available fd) < len → ok = false ∧ got = available fd).
Proof.
  intros Hlen. destruct (read_loop_spec (Z.to_nat len) fd [] len) as (ok & got & fd' & Hr & Hok & Hbad); [lia|].
  exists ok, got, fd'. split; [exact Hr|]. destruct ok.
  - destruct (Hok eq_refl) as [Hg Ha]. rewrite Ha, zlen_app. pose proof (zlen_nonneg (available fd')).
    split; [|lia]. intros _. unfold zlen in Hg.
    replace (Z.to_nat len) with (length got) by lia. by rewrite take_app_length, drop_app_length.
  - destruct (Hbad eq_refl) as [Hg Ha]. rewrite Hg in *. split; [lia|done].
Qed.

Lemma write_loop_spec fuel fd p :
  (length (wr_script fd) < fuel)%nat →
  ∃ fd', write_loop fuel fd p = Ret (bool_decide (zlen p ≤ accepts (wr_script fd)), fd') ∧
    wr_sent fd' = wr_sent fd ++ take (Z.to_nat (accepts (wr_script fd))) p.
Proof.
  revert fd p. induction fuel as [|fuel IH]; intros fd p Hf; [lia|]. simpl.
  assert (Hacc : ∀ s, 0 ≤ accepts s) by (induction s as [|[n|[]] s IHs]; simpl; lia).
  destruct (Z.ltb_spec 0 (zlen p)) as [Hp|Hp].
  2: { rewrite (zlen_0 p) by (pose proof (zlen_nonneg p); lia).
       exists fd. rewrite bool_decide_eq_true_2, take_nil, app_nil_r by apply Hacc. done. }
  destruct fd as [script sent]. unfold adb_write. simpl in *. destruct script as [|[n|e] t]; simpl.
  - exists (mkWrFd [] sent). rewrite bool_decide_eq_false_2 by (simpl; lia).
    split; [done|]. by rewrite take_0, app_nil_r.
  - set (r := Z.min (Z.max 0 n) (zlen p)).
    destruct (IH (mkWrFd t (sent ++ take (Z.to_nat r) p)) (drop (Z.to_nat r) p)) as (fd' & -> & Hs);
      [simpl in *; lia|].
    exists fd'. simpl in *. rewrite Hs, zlen_drop by (unfold r; lia). split.
    + f_equal. f_equal. apply bool_decide_ext. specialize (Hacc t). unfold r. lia.
    + rewrite <-app_assoc. f_equal. specialize (Hacc t).
      destruct (decide (Z.max 0 n ≤ zlen p)).
      * replace r with (Z.max 0 n) by (unfold r; lia). rewrite Z2Nat.inj_add by lia.
        by rewrite <-(take_drop (Z.to_nat (Z.max 0 n)) (take (_ + _) p)), take_take, skipn_firstn_comm,
          Nat.min_l, Nat.add_comm, Nat.add_sub by lia.
      * replace r with (zlen p) by (unfold r; lia). unfold zlen in *. rewrite Nat2Z.id.
        rewrite drop_all, take_nil, app_nil_r, !take_ge by lia. done.
  - destruct e; simpl.
    + destruct (IH (mkWrFd t sent) p) as (fd' & -> & Hs); [simpl in *; lia|]. eauto.
    + eexists. split; [by rewrite bool_decide_eq_false_2 by lia|]. by rewrite take_0, app_nil_r.
    + eexists. split; [by rewrite bool_decide_eq_false_2 by lia|]. by rewrite take_0, app_nil_r.
Qed.

Lemma WriteFdExactly_Ret fd buf :
  ∃ fd', WriteFdExactly fd buf = Ret (bool_decide (zlen buf ≤ accepts (wr_script fd)), fd') ∧
    wr_sent fd' = wr_sent fd ++ take (Z.to_nat (accepts (wr_script fd))) buf.
Proof. apply write_loop_spec. lia. Qed.

(** Exact reads and writes.  Over every way the kernel may deliver or
    accept the bytes, [ReadFdExactly] terminates and returns the next [len]
    bytes of the stream, or fails when it ends short of them; and
    [WriteFdExactly] terminates and reports success exactly when the whole
    buffer went out, having otherwise sent the prefix that was accepted. *)
Theorem exact_io fd len wfd buf :
  0 ≤ len →
  (∃ ok got fd', ReadFdExactly fd len = Ret (ok, got, fd') ∧
    (len ≤ zlen (available fd) → ok = true ∧ got = take (Z.to_nat len) (available fd) ∧
       available fd' = drop (Z.to_nat len) (available fd)) ∧
    (zlen (available fd) < len → ok = false ∧ got = available fd)) ∧
  (∃ wfd', WriteFdExactly wfd buf = Ret (bool_decide (zlen buf ≤ accepts (wr_script wfd)), wfd') ∧
    wr_sent wfd' = wr_sent wfd ++ take (Z.to_nat (accepts (wr_script wfd))) buf).
Proof. intros. split; [by apply ReadFdExactly_Ret | apply WriteFdExactly_Ret]. Qed.

Lemma exact_io_witness :
  (∃ fd', ReadFdExactly [RdData $"ab"; RdData $"cde"] 4 = Ret (true, $"abcd", fd') ∧ available fd' = $"e") ∧
  (∃ wfd', WriteFdExactly (mkWrFd [WrTake 1; WrErr EAGAIN; WrTake 5] []) $"xyz" = Ret (true, wfd')).
Proof.
  destruct (exact_io [RdData $"ab"; RdData $"cde"] 4 (mkWrFd [WrTake 1; WrErr EAGAIN; WrTake 5] []) $"xyz")
    as [(ok & got & fd' & Hr & Hg & _) (wfd' & Hw & _)]; [lia|].
  split; [|by exists wfd'].
  destruct (Hg ltac:(vm_compute; discriminate)) as (-> & -> & Ha). by exists fd'.
Defined.

(** *** Protocol strings *)

Lemma strtoull_hex s : all_digits 16 s → (1 < length s)%nat →
  (scan_digits 16 0 s).1 < 2 ^ 64 → 0 ≤ (scan_digits 16 0 s).1 →
  ((strtoull 16 s).1).1 = (scan_digits 16 0 s).1.
Proof.
  intros Ha Hl Hv Hv0. unfold strtoull.
  rewrite <-(app_nil_r s) at 1.
  rewrite scan_int_digits, app_nil_r by (done || lia || (by destruct s; simpl in *; [lia|])).
  destruct (scan_digits 16 0 s) as [v r]. simpl in *.
  rewrite (proj2 (Z.leb_gt _ _)) by done. simpl. apply u64_small. lia.
Qed.

Lemma all_digits_nul_free base s : all_digits base s → nul_free s.
Proof.
  intros Ha Hin. unfold all_digits in Ha. rewrite Forall_forall in Ha.
  by destruct (digit_not_special _ _ (Ha _ Hin)) as (_ & _ & _ & ? & _).
Qed.

(** What the reader makes of four hex digits followed by [rest]. *)
Lemma ReadProtocolString_hex fd hdr v rest :
  available fd = hdr ++ rest → zlen hdr = 4 → all_digits 16 hdr →
  scan_digits 16 0 hdr = (v, []) → 0 ≤ v ≤ zlen rest → v < 2 ^ 16 →
  ∃ fd', ReadProtocolString fd = Ret (inl (take (Z.to_nat v) rest), fd') ∧
    available fd' = drop (Z.to_nat v) rest.
Proof.
  intros Hav Hl Ha Hv Hlen Hsmall. unfold ReadProtocolString.
  destruct (ReadFdExactly_Ret fd 4) as (ok & got & fd1 & -> & Hok & _); [lia|].
  assert (length hdr = 4%nat) as Hl4 by (unfold zlen in Hl; lia).
  pose proof (zlen_nonneg rest). rewrite Hav, zlen_app in Hok.
  destruct Hok as (-> & -> & Ha1); [lia|]. simpl.
  change (Z.to_nat 4) with 4%nat in *. rewrite <-Hl4, take_app_length.
  rewrite <-Hl4, drop_app_length in Ha1. rewrite c_str_id by by eapply all_digits_nul_free.
  rewrite strtoull_hex, Hv by (rewrite ?Hv; simpl; done || lia). simpl fst.
  rewrite (proj2 (Z.leb_le _ _)) by (unfold string_max_size; lia). simpl.
  destruct (ReadFdExactly_Ret fd1 v) as (ok & got & fd2 & -> & Hok & _); [lia|].
  rewrite Ha1 in Hok. destruct Hok as (-> & -> & Ha2); [lia|]. simpl. eauto.
Qed.

(** They return, whatever the descriptor takes. *)
Lemma SendOkay_total fd : ∃ ok fd', SendOkay fd = Ret (ok, fd').
Proof. unfold SendOkay. destruct (WriteFdExactly_Ret fd $"OKAY") as (fd' & -> & _). by eexists _, _. Qed.
Lemma SendProtocolString_total fd s : ∃ ok fd', SendProtocolString fd s = Ret (ok, fd').
Proof.
  unfold SendProtocolString. destruct (_ <? _); [by eexists _, _|]. unfold WriteFdFmt.
  match goal with |- context [WriteFdExactly fd ?b] => destruct (WriteFdExactly_Ret fd b) as (fd' & -> & _) end. by eexists _, _.
Qed.
Lemma SendFail_total fd s : ∃ ok fd', SendFail fd s = Ret (ok, fd').
Proof.
  unfold SendFail. destruct (WriteFdExactly_Ret fd $"FAIL") as (fd' & -> & _). cbn [mbind outcome_bind].
  case_bool_decide; [apply SendProtocolString_total|by eexists _, _].
Qed.

Lemma SendProtocolString_sent fd s :
  zlen s ≤ MAX_PAYLOAD - 4 → nul_free s → 
  zlen s + 5 ≤ accepts (wr_script fd) →
  ∃ fd', SendProtocolString fd s = Ret (true, fd') ∧
    wr_sent fd' = wr_sent fd ++ print_hex_pad 4 (zlen s) ++ s.
Proof.
  intros Hl Hn Ha. unfold SendProtocolString, MAX_PAYLOAD in *. pose proof (zlen_nonneg s).
  rewrite u32_small, (proj2 (Z.ltb_ge _ _)), c_str_id by (done || lia).
  assert (Hh : zlen (print_hex_pad 4 (zlen s)) ≤ 5).
  { destruct (decide (zlen s < 16 ^ 4)).
    - rewrite print_hex_pad_len by lia. lia.
    - unfold print_hex_pad. rewrite zlen_app.
      assert (zlen (print_hex (zlen s)) ≤ 5).
      { pose proof (digits_fuel_length 16 ltac:(lia) (S (Z.to_nat (Z.log2 (zlen s)))) 5 (zlen s) [])
          as Hd. change (length (@nil ascii)) with 0%nat in Hd.
        change (Z.of_nat (length (digits_fuel (S (Z.to_nat (Z.log2 (zlen s)))) 16 (zlen s) [])) ≤ 5).
        change (16 ^ Z.of_nat 5) with 1048576 in Hd.
        specialize (Hd ltac:(lia) ltac:(lia)). lia. }
      unfold zlen at 1. rewrite length_replicate. lia. }
  destruct (WriteFdExactly_Ret fd (print_hex_pad 4 (zlen s) ++ take (Z.to_nat (zlen s)) s)) as (fd' & Hw & Hs).
  rewrite (take_ge s) in * by (unfold zlen; lia). rewrite zlen_app in Hw.
  rewrite bool_decide_eq_true_2 in Hw by lia. exists fd'. split; [exact Hw|].
  rewrite Hs, take_ge; [done|]. pose proof (zlen_app (print_hex_pad 4 (zlen s)) s).
  unfold zlen in *. lia.
Qed.

Lemma scan_hex_pad w z : 0 ≤ z → scan_digits 16 0 (print_hex_pad w z) = (z, []).
Proof. intros. rewrite <-(app_nil_r (print_hex_pad w z)). by apply scan_print_hex_pad. Qed.

(** Protocol strings round-trip.  A string without NULs of at most 0xffff
    bytes that [SendProtocolString] writes to a peer is returned whole by
    [ReadProtocolString], however the stream is fragmented, and the reader
    stops right after it. *)
Theorem protocol_string_roundtrip wfd fd s more :
  zlen s < 2 ^ 16 → nul_free s → zlen s + 5 ≤ accepts (wr_script wfd) → wr_sent wfd = [] →
  ∃ wfd', SendProtocolString wfd s = Ret (true, wfd') ∧
    (available fd = wr_sent wfd' ++ more →
     ∃ fd', ReadProtocolString fd = Ret (inl s, fd') ∧ available fd' = more).
Proof.
  intros Hl Hn Ha Hs. pose proof (zlen_nonneg s).
  destruct (SendProtocolString_sent wfd s) as (wfd' & Hw & Hsent); [unfold MAX_PAYLOAD; lia|done..|].
  exists wfd'. split; [done|]. rewrite Hsent, Hs. simpl. rewrite <-app_assoc. intros Hav.
  destruct (ReadProtocolString_hex fd _ (zlen s) (s ++ more) Hav) as (fd' & -> & Hr).
  - apply print_hex_pad_len; lia.
  - apply print_hex_pad_all.
  - apply scan_hex_pad; lia.
  - rewrite zlen_app. pose proof (zlen_nonneg more). lia.
  - lia.
  - unfold zlen in *. rewrite Nat2Z.id, take_app_length, drop_app_length in *. eauto.
Qed.

(** C40: a string of 0x10000 bytes or more passes the length check of
    [SendProtocolString] but needs a fifth hex digit; the reader takes the
    first four as the length, and returns another, sixteen times shorter,
    string. *)
Theorem protocol_string_overflow wfd fd s more :
  2 ^ 16 ≤ zlen s ≤ MAX_PAYLOAD - 4 → nul_free s → zlen s + 5 ≤ accepts (wr_script wfd) →
  wr_sent wfd = [] →
  ∃ wfd', SendProtocolString wfd s = Ret (true, wfd') ∧
    (available fd = wr_sent wfd' ++ more →
     ∃ t fd', ReadProtocolString fd = Ret (inl t, fd') ∧ zlen t = zlen s / 16 ∧ t ≠ s).
Proof.
  intros [Hl1 Hl2] Hn Ha Hs.
  destruct (SendProtocolString_sent wfd s) as (wfd' & Hw & Hsent); [done..|].
  exists wfd'. split; [done|]. rewrite Hsent, Hs. simpl. rewrite <-app_assoc. intros Hav.
  unfold MAX_PAYLOAD in Hl2.
  assert (Hq : 2 ^ 12 ≤ zlen s / 16 < 2 ^ 16).
  { split; [apply Z.div_le_lower_bound; lia | apply Z.div_lt_upper_bound; lia]. }
  assert (Hpad : print_hex_pad 4 (zlen s) = print_hex_pad 4 (zlen s / 16) ++ [digit_char (zlen s mod 16)]).
  { unfold print_hex_pad, print_hex. rewrite (numeral_snoc 16 (zlen s)) by lia.
    rewrite zlen_app, (numeral_length 16 _ 3) by lia. done. }
  rewrite Hpad, <-app_assoc in Hav.
  destruct (ReadProtocolString_hex fd _ (zlen s / 16) _ Hav) as (fd' & -> & Hr).
  - apply print_hex_pad_len; lia.
  - apply print_hex_pad_all.
  - apply scan_hex_pad; lia.
  - rewrite !zlen_app. change (zlen [_]) with 1. pose proof (zlen_nonneg more).
    assert (zlen s / 16 ≤ zlen s) by (apply Z.div_le_upper_bound; lia). lia.
  - lia.
  - eexists _, _. split; [done|].
    assert (Hz : zlen (take (Z.to_nat (zlen s / 16)) ([digit_char (zlen s mod 16)] ++ s ++ more)) = zlen s / 16).
    { apply zlen_take. rewrite !zlen_app. change (zlen [_]) with 1. pose proof (zlen_nonneg more).
      assert (zlen s / 16 ≤ zlen s) by (apply Z.div_le_upper_bound; lia). lia. }
    split; [done|]. intros Heq. rewrite Heq in Hz.
    assert (zlen s / 16 < zlen s) by (apply Z.div_lt_upper_bound; lia). lia.
Qed.

(** A signed length field is accepted by [strtoul]; the wrapped value makes
    [resize] throw, which ends the process. *)
Lemma ReadProtocolString_negative fd :
  ReadProtocolString (RdData $"-001" :: fd) = Abort "std::length_error".
Proof. reflexivity. Qed.

(** [SendFail] writes the status and the reason, and a reader of the status
    line finds the reason. *)
Lemma SendFail_sent fd s :
  zlen s < 2 ^ 16 → nul_free s → wr_script fd = [WrTake 4; WrTake (zlen s + 5)] → wr_sent fd = [] →
  ∃ fd', SendFail fd s = Ret (true, fd') ∧ wr_sent fd' = $"FAIL" ++ print_hex_pad 4 (zlen s) ++ s.
Proof.
  intros Hl Hn Hs He. destruct fd as [script sent]. simpl in Hs, He. subst.
  unfold SendFail.
  change (WriteFdExactly _ _) with (Ret (true, mkWrFd [WrTake (zlen s + 5)] $"FAIL")).
  cbn [mbind outcome_bind].
  destruct (SendProtocolString_sent (mkWrFd [WrTake (zlen s + 5)] $"FAIL") s) as (fd' & -> & Hw);
    [unfold MAX_PAYLOAD; lia|done|simpl; lia|]. eauto.
Qed.

Lemma nul_free_b s : forallb (λ c, negb (char_eqb c NUL)) s = true → nul_free s.
Proof.
  intros Hf Hin. rewrite forallb_forall in Hf.
  apply list_elem_of_In in Hin. specialize (Hf _ Hin). by rewrite char_eqb_refl in Hf.
Qed.

Lemma protocol_string_roundtrip_witness :
  ∃ wfd', SendProtocolString (mkWrFd [WrTake 3; WrTake 100] []) $"host:version" = Ret (true, wfd') ∧
    ∃ fd', ReadProtocolString [RdData $"000"; RdData $"chost:"; RdData $"versionX"]
           = Ret (inl $"host:version", fd') ∧ available fd' = $"X".
Proof.
  destruct (protocol_string_roundtrip (mkWrFd [WrTake 3; WrTake 100] [])
    [RdData $"000"; RdData $"chost:"; RdData $"versionX"] $"host:version" $"X")
    as (wfd' & Hw & Hr).
  - reflexivity.
  - apply nul_free_b. reflexivity.
  - vm_compute. discriminate.
  - reflexivity.
  - exists wfd'. split; [exact Hw|]. apply Hr.
    injection Hw as <-. reflexivity.
Defined.

Lemma nul_free_replicate n c : c ≠ NUL → nul_free (replicate n c).
Proof. intros Hc Hin. apply elem_of_replicate in Hin as [Heq _]. congruence. Qed.

Lemma available_one d : available [RdData d] = d.
Proof. destruct d; [done|]. simpl. by rewrite app_nil_r. Qed.

Lemma protocol_string_overflow_witness :
  ∃ s wfd', zlen s = 65536 ∧ SendProtocolString (mkWrFd [WrTake 70000] []) s = Ret (true, wfd') ∧
    ∃ t fd', ReadProtocolString [RdData (wr_sent wfd')] = Ret (inl t, fd') ∧ zlen t = 4096 ∧ t ≠ s.
Proof.
  assert (Hz : zlen (replicate (Z.to_nat 65536) "a"%char) = 65536) by (apply zlen_replicate; lia).
  revert Hz. generalize (nul_free_replicate (Z.to_nat 65536) "a"%char ltac:(discriminate)).
  generalize (replicate (Z.to_nat 65536) "a"%char). intros s Hn Hz. exists s.
  assert (Hex : ∃ wfd1, SendProtocolString (mkWrFd [WrTake 70000] []) s = Ret (true, wfd1)).
  { destruct (SendProtocolString_sent (mkWrFd [WrTake 70000] []) s) as (w & Hw & _);
      rewrite ?Hz; [vm_compute; discriminate|done|vm_compute; discriminate|]. by exists w. }
  destruct Hex as [wfd1 Hw1].
  destruct (protocol_string_overflow (mkWrFd [WrTake 70000] []) [RdData (wr_sent wfd1)] s [])
    as (wfd' & Hw & Hr); rewrite ?Hz;
    [split; vm_compute; discriminate|done|vm_compute; discriminate|done|].
  rewrite Hw1 in Hw. injection Hw as <-. exists wfd1. rewrite Hz in Hr. split_and!; [done..|].
  apply Hr. by rewrite available_one, app_nil_r.
Defined.
