(* ===== verification/Wire.v ===== *)
(** * Little-endian layouts

    The structs the source reads and writes by address ([amessage] in
    types.h, the shell packet header of shell_protocol.h, the sync structs of
    file_sync_protocol.h) have 32-bit fields in little-endian order.  [Wire]
    is the interface such a struct offers to the code that moves it: a fixed
    size and a decoder inverse to its encoder. *)

From Stdlib Require Import ZArith Lia List Ascii String.
From stdpp Require Import base numbers list strings.
From S2P Require Import Prelude.

(** A [uint32_t] in memory. *)
Definition le32 (z : Z) : bytes :=
  [of_cval z; of_cval (Z.shiftr z 8); of_cval (Z.shiftr z 16); of_cval (Z.shiftr z 24)].

(** The value of up to four bytes; missing ones count as zero. *)
Fixpoint le_val (l : bytes) : Z :=
  match l with [] => 0 | c :: l => cval c + 256 * le_val l end.

Definition word_at (l : bytes) (off : Z) : Z := le_val (slice l off 4).

Lemma le32_length z : zlen (le32 z) = 4.
Proof. done. Qed.

Lemma le_val_le32 z : 0 ≤ z < 2 ^ 32 → le_val (le32 z) = z.
Proof.
  intros Hz. simpl. rewrite !cval_of_cval, !Z.shiftr_div_pow2 by lia.
  change (2 ^ 8) with 256. change (2 ^ 16) with (256 * 256). change (2 ^ 24) with (256 * 256 * 256).
  rewrite <-!Z.div_div by lia.
  pose proof (Z.div_mod z 256). pose proof (Z.div_mod (z / 256) 256).
  pose proof (Z.div_mod (z / 256 / 256) 256). 
  assert (z / 256 / 256 / 256 < 256) by (repeat (apply Z.div_lt_upper_bound; [lia|]); lia).
  assert (0 ≤ z / 256 / 256 / 256) by (repeat (apply Z.div_pos; [|lia]); lia).
  rewrite (Z.mod_small (z / 256 / 256 / 256)) by lia. lia.
Qed.

Lemma mod_digit z a b : 0 < a → 0 < b → (z mod (a * (256 * b)) / a) mod 256 = (z / a) mod 256.
Proof.
  intros Ha Hb. rewrite Z.rem_mul_r by lia. rewrite (Z.mul_comm a), Z.div_add, (Z.div_small (z mod a)) by (lia || apply Z.mod_pos_bound; lia).
  rewrite Z.add_0_l. apply Z.mod_mod_divide. by exists b; lia.
Qed.

(** A word is stored modulo 2{^32}. *)
Lemma le32_u32 z : le32 (u32 z) = le32 z.
Proof.
  assert (He : ∀ x y, x mod 256 = y mod 256 → of_cval x = of_cval y) by (unfold of_cval; by intros x y ->).
  pose proof (mod_digit z 1 (2 ^ 24)) as H0. rewrite !Z.div_1_r in H0. unfold le32, u32. rewrite !Z.shiftr_div_pow2 by lia.
  assert (Hl : ∀ a b c d a' b' c' d' : ascii, a = a' → b = b' → c = c' → d = d' → [a; b; c; d] = [a'; b'; c'; d']) by congruence.
  apply Hl; apply He; [by apply H0|by apply (mod_digit z (2 ^ 8) (2 ^ 16))|by apply (mod_digit z (2 ^ 16) (2 ^ 8))|by apply (mod_digit z (2 ^ 24) 1)].
Qed.

Lemma le_val_u32 z : le_val (le32 z) = u32 z.
Proof. rewrite <-le32_u32. apply le_val_le32, u32_range. Qed.

Lemma le_val_range l : 0 ≤ le_val l < 256 ^ zlen l.
Proof.
  induction l as [|c l IH]; [done|]. simpl. rewrite zlen_cons, Z.pow_add_r, Z.pow_1_r by (lia || apply zlen_nonneg).
  pose proof (cval_range c). lia.
Qed.

Lemma le_val_inj l k : length l = length k → le_val l = le_val k → l = k.
Proof.
  revert k. induction l as [|c l IH]; intros [|d k] Hl H; simpl in *; try done; try lia.
  pose proof (cval_range c). pose proof (cval_range d).
  assert (cval c = cval d ∧ le_val l = le_val k) as [Hc Hv] by lia.
  f_equal; [by apply cval_inj | apply IH; [lia|done]].
Qed.

(** The interface of a fixed-layout struct. *)
Class Wire (A : Type) := {
  wire_size : Z;
  wire_encode : A → bytes;
  wire_decode : bytes → A;
  wire_ok : A → Prop;
  wire_size_pos : 0 < wire_size;
  wire_encode_length a : zlen (wire_encode a) = wire_size;
  wire_decode_encode a rest : wire_ok a → wire_decode (wire_encode a ++ rest) = a;
  wire_encode_decode l : zlen l = wire_size → wire_encode (wire_decode l) = l ∧ wire_ok (wire_decode l)
}.
Arguments wire_size A {_}.

(** Reading field [i] of a layout that starts with 32-bit fields. *)
Fixpoint le32s (zs : list Z) : bytes :=
  match zs with [] => [] | z :: zs => le32 z ++ le32s zs end.

Lemma le32s_length zs : zlen (le32s zs) = 4 * Z.of_nat (length zs).
Proof.
  induction zs as [|z zs IH]; [done|]. change (le32s (z :: zs)) with (le32 z ++ le32s zs).
  rewrite zlen_app, IH, le32_length. simpl length. lia.
Qed.

Lemma word_at_le32s zs rest (i : nat) z :
  zs !! i = Some z → 0 ≤ z < 2 ^ 32 → word_at (le32s zs ++ rest) (4 * Z.of_nat i) = z.
Proof.
  revert i. induction zs as [|y zs IH]; [done|]; intros [|i] Hi Hz; cbn [le32s]; [change (Some y = Some z) in Hi; injection Hi as ->|change (zs !! i = Some z) in Hi].
  - unfold word_at. rewrite <-app_assoc. change (4 * Z.of_nat 0) with 0.
    rewrite slice_prefix, slice_all by (rewrite ?le32_length; lia). by apply le_val_le32.
  - unfold word_at. rewrite <-app_assoc, slice_suffix by (rewrite le32_length; lia).
    rewrite le32_length. rewrite <-(IH i Hi Hz). unfold word_at. f_equal. f_equal. lia.
Qed.

(** A buffer of [n] 32-bit fields is rebuilt from their values. *)
Lemma le32_word_at l : zlen l = 4 → le32 (le_val l) = l.
Proof.
  intros Hl. apply le_val_inj.
  - unfold zlen in Hl. simpl. lia.
  - apply le_val_le32. pose proof (le_val_range l) as H. rewrite Hl in H. lia.
Qed.

Lemma word_at_range l off : 0 ≤ word_at l off < 2 ^ 32.
Proof.
  unfold word_at. pose proof (le_val_range (slice l off 4)) as H.
  assert (zlen (slice l off 4) ≤ 4).
  { unfold slice, zlen. rewrite length_take. lia. }
  assert (256 ^ zlen (slice l off 4) ≤ 256 ^ 4) by (apply Z.pow_le_mono_r; lia). lia.
Qed.

Lemma le32s_words l (n : nat) :
  zlen l = 4 * Z.of_nat n →
  le32s ((λ i : nat, word_at l (4 * Z.of_nat i)) <$> seq 0 n) = l.
Proof.
  revert l. induction n as [|n IH]; intros l Hl.
  { simpl. symmetry. apply zlen_0. lia. }
  change (seq 0 (S n)) with (0%nat :: seq 1 n). rewrite fmap_cons, <-fmap_S_seq, <-list_fmap_compose.
  transitivity (slice l 0 (4 + 4 * Z.of_nat n)); [|by rewrite slice_all by lia].
  rewrite slice_split by lia. cbn [le32s]. f_equal.
  - unfold word_at. apply le32_word_at. rewrite zlen_slice; lia.
  - rewrite <-(IH (slice l (0 + 4) (4 * Z.of_nat n))) at 1 by (rewrite zlen_slice; lia).
    f_equal. apply list_fmap_ext. intros k i Hi. simpl. unfold word_at. f_equal.
    apply lookup_seq in Hi as [Hik Hi]. rewrite slice_slice by lia. f_equal. lia.
Qed.
