(* ===== verification/IOVector.v ===== *)
(** * Blocks and chains of blocks (src/src/types.h)

    [Block] is the owned buffer of [struct Block]; [IOVector] is the chain of
    shared blocks behind every socket queue and connection buffer.  The chain
    is viewed through two offsets; [bytes_of] is the byte sequence it denotes,
    and the theorems say that every operation is the corresponding list
    operation on that sequence, that no [CHECK] fires under the invariant
    [iov_wf], and that [iov_wf] is preserved. *)

From Stdlib Require Import ZArith Lia List Ascii String.
From stdpp Require Import base numbers list strings.
From S2P Require Import Prelude.

(** ** struct Block *)

(** [data_] is a [unique_ptr<char[]>]: null, or an array of [capacity_] chars. *)
Record Block := mkBlock { data_ : option bytes; capacity_ : Z; size_ : Z }.

Definition Block_empty : Block := mkBlock None 0 0.

Definition Block_clear (b : Block) : Block := mkBlock None 0 0.

Definition Block_allocate (b : Block) (size : Z) : outcome Block :=
  CHECK (bool_decide (data_ b = None)) "data_ == nullptr" ;;
  CHECK (0 =? capacity_ b) "0 == capacity_" ;;
  CHECK (0 =? size_ b) "0 == size_" ;;
  if size =? 0 then Ret b
  else Ret (mkBlock (Some (replicate (Z.to_nat size) NUL)) size size).

Definition Block_new (size : Z) : outcome Block := Block_allocate Block_empty size.

Definition Block_resize (b : Block) (new_size : Z) : outcome Block :=
  match data_ b with
  | None => Block_allocate b new_size
  | Some _ =>
      CHECK (new_size <=? capacity_ b) "capacity_ >= new_size" ;;
      Ret (mkBlock (data_ b) (capacity_ b) new_size)
  end.

(** [std::copy] / [memcpy] of [src] to offset [off] of a buffer; writing past
    its end is undefined behaviour. *)
Definition memcpy (dst : bytes) (off : Z) (src : bytes) : outcome bytes :=
  CHECK (off + zlen src <=? zlen dst) "memcpy past the end" ;;
  Ret (take (Z.to_nat off) dst ++ src ++ drop (Z.to_nat (off + zlen src)) dst).

(** The array behind [data()]. *)
Definition Block_data (b : Block) : bytes := default [] (data_ b).

Definition Block_fill (b : Block) (off : Z) (src : bytes) : outcome Block :=
  d ← memcpy (Block_data b) off src;
  Ret (mkBlock (if data_ b is Some _ then Some d else None) (capacity_ b) (size_ b)).

(** The iterator constructor [Block(begin, end)]. *)
Definition Block_of_range (r : bytes) : outcome Block :=
  b ← Block_new (zlen r); Block_fill b 0 r.

Definition Block_assign (b : Block) (r : bytes) : outcome Block :=
  b' ← Block_allocate (Block_clear b) (zlen r); Block_fill b' 0 r.

(** Move construction and assignment: (destination, moved-from source). *)
Definition Block_move (src : Block) : Block * Block := (src, Block_empty).

(** The chars between [begin()] and [end()]. *)
Definition Block_chars (b : Block) : bytes := take (Z.to_nat (size_ b)) (Block_data b).

Definition Block_eqb (a b : Block) : bool :=
  (size_ a =? size_ b) && bool_decide (Block_chars a = Block_chars b).

Definition block_wf (b : Block) : Prop :=
  zlen (Block_data b) = capacity_ b ∧ 0 ≤ size_ b ≤ capacity_ b ∧
  (data_ b = None → capacity_ b = 0).

(** ** struct IOVector *)

Record IOVector := mkIOVector {
  chain_length_ : Z;
  begin_offset_ : Z;
  end_offset_ : Z;
  chain_ : list Block
}.

Definition IOVector_empty : IOVector := mkIOVector 0 0 0 [].

(** [size_type] is [size_t]: the subtraction wraps. *)
Definition IOVector_size (v : IOVector) : Z :=
  u64 (chain_length_ v - begin_offset_ v - end_offset_ v).

Definition IOVector_is_empty (v : IOVector) : bool := IOVector_size v =? 0.

Definition IOVector_clear (v : IOVector) : IOVector := mkIOVector 0 0 0 [].

(** Move assignment: (destination, moved-from source). *)
Definition IOVector_move (src : IOVector) : IOVector * IOVector :=
  (src, mkIOVector 0 0 0 []).

Definition append_shared (v : IOVector) (b : Block) : outcome IOVector :=
  CHECK (negb (0 =? size_ b)) "0 != block->size()" ;;
  CHECK (0 =? end_offset_ v) "0 == end_offset_" ;;
  Ret (mkIOVector (u64 (chain_length_ v + size_ b)) (begin_offset_ v)
         (end_offset_ v) (chain_ v ++ [b])).

(** [append] only differs from [append_shared] in the pointer it takes. *)
Definition append (v : IOVector) (b : Block) : outcome IOVector :=
  CHECK (negb (0 =? size_ b)) "0 != block->size()" ;;
  CHECK (0 =? end_offset_ v) "0 == end_offset_" ;;
  Ret (mkIOVector (u64 (chain_length_ v + size_ b)) (begin_offset_ v)
         (end_offset_ v) (chain_ v ++ [b])).

(** [chain_.front()] of an empty deque is undefined. *)
Definition front (v : IOVector) : outcome Block :=
  match chain_ v with b :: _ => Ret b | [] => Abort "front of an empty deque" end.

Definition pop_front_block (v : IOVector) : outcome IOVector :=
  b ← front v;
  Ret (mkIOVector (u64 (chain_length_ v - size_ b)) 0 (end_offset_ v) (tail (chain_ v))).

(** The [while (head.size() < len)] loop of [take_front]; a round pops a block
    of the chain, so its length bounds the number of rounds. *)
Fixpoint take_front_loop (fuel : nat) (head v : IOVector) (len : Z)
  : outcome (IOVector * IOVector) :=
  if IOVector_size head <? len then
    match fuel with
    | O => Abort "out of fuel"
    | S fuel =>
        v ← pop_front_block v;
        CHECK (negb (bool_decide (chain_ v = []))) "!chain_.empty()" ;;
        b ← front v;
        head ← append_shared head b;
        take_front_loop fuel head v len
    end
  else Ret (head, v).

(** What follows the loop: the head takes its last block whole, or shares it
    with what is left. *)
Definition take_front_finish (head v : IOVector) (len : Z) : outcome (IOVector * IOVector) :=
  if IOVector_size head =? len then
    let head := mkIOVector (chain_length_ head) (begin_offset_ head) 0 (chain_ head) in
    let v := mkIOVector (chain_length_ v) 0 (end_offset_ v) (chain_ v) in
    v ← pop_front_block v;
    Ret (head, v)
  else
    let bytes_taken := u64 (IOVector_size head - len) in
    let head := mkIOVector (chain_length_ head) (begin_offset_ head) bytes_taken (chain_ head) in
    b ← front v;
    CHECK (bytes_taken <=? size_ b) "chain_.front()->size() >= bytes_taken" ;;
    Ret (head, mkIOVector (chain_length_ v) (u64 (size_ b - bytes_taken)) (end_offset_ v) (chain_ v)).

(** Returns the new head and what is left of the chain. *)
Definition take_front (v : IOVector) (len : Z) : outcome (IOVector * IOVector) :=
  let head := IOVector_empty in
  if len =? 0 then Ret (head, v)
  else
    CHECK (len <=? IOVector_size v) "size() >= len" ;;
    first_block ← front v;
    CHECK (begin_offset_ v <=? size_ first_block) "first_block->size() >= begin_offset_" ;;
    head ← append_shared head first_block;
    let head := mkIOVector (chain_length_ head) (begin_offset_ v) (end_offset_ head) (chain_ head) in
    r ← take_front_loop (length (chain_ v)) head v len;
    take_front_finish r.1 r.2 len.

Definition trim_front (v : IOVector) : outcome IOVector :=
  if begin_offset_ v =? 0 then Ret v
  else
    first_block ← front v;
    copy ← Block_new (u64 (size_ first_block - begin_offset_ v));
    copy ← Block_fill copy 0
      (slice (Block_data first_block) (begin_offset_ v) (size_ copy));
    Ret (mkIOVector (u64 (chain_length_ v - begin_offset_ v)) 0 (end_offset_ v)
           (copy :: tail (chain_ v))).

(** The [for] loop of [iterate_blocks] from index [i] of a chain of [n] blocks;
    the callback threads a state [s] and receives the chars of its slice. *)
Fixpoint iterate_from {S} (callback : S → bytes → outcome S) (v : IOVector)
    (n i : nat) (blocks : list Block) (s : S) : outcome S :=
  match blocks with
  | [] => Ret s
  | block :: rest =>
      let '(begin, len) := (0, size_ block) in
      r ← (if (i =? 0)%nat then
             CHECK (begin_offset_ v <=? size_ block) "block->size() >= begin_offset_" ;;
             Ret (begin + begin_offset_ v, u64 (len - begin_offset_ v))
           else Ret (begin, len));
      let '(begin, len) := r in
      len ← (if (i =? n - 1)%nat then
               CHECK (end_offset_ v <=? len) "length >= end_offset_" ;;
               Ret (u64 (len - end_offset_ v))
             else Ret len);
      s ← callback s (slice (Block_data block) begin len);
      iterate_from callback v n (Datatypes.S i) rest s
  end.

Definition iterate_blocks {S} (callback : S → bytes → outcome S) (v : IOVector) (s : S)
  : outcome S :=
  iterate_from callback v (length (chain_ v)) 0 (chain_ v) s.

Definition coalesce (v : IOVector) : outcome Block :=
  if IOVector_size v =? 0 then Ret Block_empty
  else
    result ← Block_resize Block_empty (IOVector_size v);
    r ← iterate_blocks
      (λ '(offset, result) data,
         result ← Block_fill result offset data;
         Ret (offset + zlen data, result)) v (0, result);
    Ret (r.2).

Definition coalesced {R} (f : bytes → R) (v : IOVector) : outcome R :=
  match chain_ v with
  | [b] => Ret (f (slice (Block_data b) (begin_offset_ v) (IOVector_size v)))
  | _ => data ← coalesce v; Ret (f (Block_chars data))
  end.

(** The [iov_base]/[iov_len] pairs handed to [writev], as the chars they span. *)
Definition iovecs (v : IOVector) : outcome (list bytes) :=
  iterate_blocks (λ result data, Ret (result ++ [data])) v [].

(** ** The byte sequence a chain denotes, and its invariant *)

Definition flat (l : list Block) : bytes := concat (Block_chars <$> l).

Definition bytes_of (v : IOVector) : bytes :=
  slice (flat (chain_ v)) (begin_offset_ v)
    (chain_length_ v - begin_offset_ v - end_offset_ v).

Definition live (b : Block) : Prop := block_wf b ∧ 0 < size_ b.

Record iov_wf (v : IOVector) : Prop := {
  wf_blocks : Forall live (chain_ v);
  wf_length : chain_length_ v = zlen (flat (chain_ v));
  wf_bound : chain_length_ v < 2 ^ 64;
  wf_begin : 0 ≤ begin_offset_ v ∧
    match head (chain_ v) with Some b => begin_offset_ v < size_ b | None => begin_offset_ v = 0 end;
  wf_end : 0 ≤ end_offset_ v ∧
    match last (chain_ v) with Some b => end_offset_ v ≤ size_ b | None => end_offset_ v = 0 end;
  wf_view : begin_offset_ v + end_offset_ v ≤ chain_length_ v
}.

Lemma zlen_chars b : block_wf b → zlen (Block_chars b) = size_ b.
Proof. intros (H1&H2&_). unfold Block_chars. apply zlen_take. lia. Qed.

Lemma flat_cons b l : flat (b :: l) = Block_chars b ++ flat l.
Proof. done. Qed.
Lemma flat_app l k : flat (l ++ k) = flat l ++ flat k.
Proof. unfold flat. by rewrite fmap_app, concat_app. Qed.
Lemma flat_one b : flat [b] = Block_chars b.
Proof. unfold flat. simpl. by rewrite app_nil_r. Qed.

Lemma live_size b : live b → zlen (Block_chars b) = size_ b ∧ 0 < size_ b.
Proof. intros [??]. split; [by apply zlen_chars | done]. Qed.

Lemma Block_new_Ret n : 0 ≤ n →
  ∃ b, Block_new n = Ret b ∧ block_wf b ∧ size_ b = n ∧ capacity_ b = n ∧ Block_chars b = replicate (Z.to_nat n) NUL.
Proof.
  intros Hn. unfold Block_new, Block_allocate. simpl.
  destruct (Z.eqb_spec n 0) as [->|]; (eexists; split; [done|]).
  - unfold block_wf. simpl. unfold zlen. simpl. repeat split; lia || done.
  - unfold block_wf, Block_chars, Block_data, zlen. simpl. rewrite length_replicate.
    repeat split; try lia; [done|]. rewrite take_ge; [done | rewrite length_replicate; lia].
Qed.

Lemma memcpy_Ret dst off src :
  0 ≤ off → off + zlen src ≤ zlen dst →
  ∃ d, memcpy dst off src = Ret d ∧ zlen d = zlen dst ∧
    d = take (Z.to_nat off) dst ++ src ++ drop (Z.to_nat (off + zlen src)) dst.
Proof.
  intros Ho Hl. unfold memcpy. rewrite (proj2 (Z.leb_le _ _) Hl). simpl.
  eexists. split; [done|]. split; [|done].
  pose proof (zlen_nonneg src).
  rewrite !zlen_app, zlen_take, zlen_drop by lia. lia.
Qed.

Lemma memcpy_at (pre mid post src : bytes) :
  length src = length mid → memcpy (pre ++ mid ++ post) (zlen pre) src = Ret (pre ++ src ++ post).
Proof.
  intros Hl. destruct (memcpy_Ret (pre ++ mid ++ post) (zlen pre) src) as (d & -> & _ & ->).
  - apply zlen_nonneg.
  - rewrite !zlen_app. unfold zlen. lia.
  - f_equal. unfold zlen. rewrite Nat2Z.id, take_app_length. f_equal. f_equal.
    replace (Z.to_nat (Z.of_nat (length pre) + Z.of_nat (length src))) with (length (pre ++ mid)) by (rewrite length_app; lia).
    by rewrite app_assoc, drop_app_length.
Qed.

(** Filling a fresh block whose first [zlen pre] chars are [pre]. *)
Lemma Block_fill_Ret b pre src :
  block_wf b → size_ b = capacity_ b →
  take (length pre) (Block_chars b) = pre → zlen pre + zlen src ≤ size_ b →
  ∃ b', Block_fill b (zlen pre) src = Ret b' ∧ block_wf b' ∧ size_ b' = capacity_ b' ∧
    size_ b' = size_ b ∧ take (length (pre ++ src)) (Block_chars b') = pre ++ src.
Proof.
  intros Hwf Hcap Hpre Hlen. pose proof (zlen_nonneg pre) as Hp.
  destruct Hwf as (H1 & H2 & H3).
  destruct (memcpy_Ret (Block_data b) (zlen pre) src) as (d & Hd & Hdl & Hde); [done|lia|].
  unfold Block_fill. rewrite Hd. simpl. eexists. split; [done|].
  assert (Hchars : Block_chars b = Block_data b).
  { unfold Block_chars. apply take_ge. unfold zlen in H1. lia. }
  rewrite Hchars in Hpre. clear Hchars.
  assert (Hpre' : d = pre ++ src ++ drop (Z.to_nat (zlen pre + zlen src)) (Block_data b)).
  { rewrite Hde. f_equal. unfold zlen. by rewrite Nat2Z.id. }
  unfold block_wf, Block_chars, Block_data in *. simpl in *.
  destruct (data_ b) as [d0|] eqn:Hb; simpl in *.
  - rewrite Hdl. repeat split; try lia; [done|].
    rewrite take_take, Hpre', app_assoc.
    rewrite Nat.min_l by (rewrite length_app; unfold zlen in *; lia).
    apply take_app_length.
  - rewrite H3 in * by done. change (zlen []) with 0 in *.
    pose proof (zlen_nonneg src).
    assert (pre = []) as -> by (apply zlen_0; lia).
    assert (src = []) as -> by (apply zlen_0; lia).
    repeat split; simpl; try lia; try done.
Qed.

Lemma slice_chars b (n m : Z) :
  0 ≤ n → 0 ≤ m → n + m ≤ size_ b →
  slice (Block_data b) n m = slice (Block_chars b) n m.
Proof.
  intros ???. unfold slice, Block_chars. rewrite skipn_firstn_comm, take_take.
  f_equal. lia.
Qed.

Lemma Block_of_range_Ret data :
  ∃ b, Block_of_range data = Ret b ∧ block_wf b ∧ Block_chars b = data ∧ size_ b = zlen data.
Proof.
  unfold Block_of_range. destruct (Block_new_Ret (zlen data)) as (b & -> & Hwf & Hs & Hc & Hch); [apply zlen_nonneg|].
  cbn [mbind outcome_bind]. destruct (Block_fill_Ret b [] data Hwf) as (b' & Hf & Hwf' & Hsc & Hs' & Ht).
  - congruence.
  - done.
  - change (zlen []) with 0. lia.
  - change (zlen []) with 0 in Hf. rewrite Hf. exists b'. split_and!; try done; [|congruence].
    simpl in Ht. rewrite take_ge in Ht; [done|].
    pose proof (zlen_chars b' Hwf') as Hz. unfold zlen in *. lia.
Qed.

Lemma append_Ret v b :
  iov_wf v → live b → end_offset_ v = 0 → chain_length_ v + size_ b < 2 ^ 64 →
  ∃ v', append v b = Ret v' ∧ iov_wf v' ∧ end_offset_ v' = 0 ∧
    bytes_of v' = bytes_of v ++ Block_chars b.
Proof.
  intros Hwf Hb He Hlt. destruct (live_size b Hb) as [Hbl Hbp].
  unfold append. rewrite (proj2 (Z.eqb_neq 0 (size_ b))), He by lia.
  eexists. split; [done|].
  destruct Hwf as [H1 H2 H3 [H4 H4'] H5 H6].
  pose proof (zlen_nonneg (flat (chain_ v))).
  rewrite u64_small by lia.
  split; [|split; [reflexivity|]].
  - constructor; simpl.
    + apply Forall_app. split; [done|]. by apply Forall_singleton.
    + rewrite flat_app, zlen_app, flat_one. lia.
    + done.
    + split; [done|]. destruct (chain_ v); simpl in *; lia.
    + rewrite last_snoc. lia.
    + lia.
  - unfold bytes_of. simpl. rewrite flat_app, flat_one, He.
    replace (_ + size_ b - _ - 0) with ((chain_length_ v - begin_offset_ v - 0) + size_ b) by lia.
    rewrite slice_split, slice_prefix, slice_suffix by lia. f_equal.
    rewrite <-(slice_all (Block_chars b) (size_ b)) at 2 by lia. f_equal. lia.
Qed.

Lemma size_view v : iov_wf v → IOVector_size v = zlen (bytes_of v).
Proof.
  intros [H1 H2 H3 [H4 _] [H5 _] H6]. unfold IOVector_size, bytes_of.
  by rewrite u64_small, zlen_slice by lia.
Qed.

(** What holds at each test of the loop of [take_front], run on the blocks
    [bs]: [head] owns a prefix of them and shares its last block with the
    front of the remaining chain. *)
Record loop_inv (bs : list Block) (b0 e len : Z) (head v : IOVector) (b : Block)
    (rest : list Block) : Prop := {
  li_v : chain_ v = b :: rest;
  li_last : last (chain_ head) = Some b;
  li_split : chain_ head ++ rest = bs;
  li_hlen : chain_length_ head = zlen (flat (chain_ head));
  li_vlen : chain_length_ v = zlen (flat (chain_ v));
  li_begin : begin_offset_ head = b0 ∧ 0 ≤ b0 < chain_length_ head;
  li_hend : end_offset_ head = 0;
  li_vend : end_offset_ v = e;
  li_need : chain_length_ head - b0 - size_ b < len
}.

Lemma take_front_loop_Ret bs b0 e len (fuel : nat) head v b rest :
  Forall live bs → zlen (flat bs) < 2 ^ 64 → len ≤ zlen (flat bs) - b0 →
  loop_inv bs b0 e len head v b rest → (length rest ≤ fuel)%nat →
  ∃ head' v' b' rest', take_front_loop fuel head v len = Ret (head', v') ∧
    loop_inv bs b0 e len head' v' b' rest' ∧ len ≤ IOVector_size head'.
Proof.
  intros Hlive Hbnd Hlen. revert head v b rest.
  induction fuel as [|fuel IH]; intros head v b rest [I1 I2 I3 I4 I5 [I6 I6'] I7 I8 I9] Hf.
  all: assert (Hsplit : zlen (flat (chain_ head)) + zlen (flat rest) = zlen (flat bs))
    by (by rewrite <-I3, flat_app, zlen_app).
  all: assert (Hsz : IOVector_size head = chain_length_ head - b0)
    by (unfold IOVector_size; pose proof (zlen_nonneg (flat rest)); rewrite u64_small; lia).
  all: simpl; destruct (Z.ltb_spec (IOVector_size head) len).
  2, 4: by eauto 10 using Build_loop_inv.
  - destruct rest; simpl in Hf; [|lia]. change (zlen (flat [])) with 0 in Hsplit. lia.
  - destruct rest as [|b2 rest]; [change (zlen (flat [])) with 0 in Hsplit; lia|].
    assert (Hl : live b ∧ live b2).
    { rewrite <-I3 in Hlive. apply Forall_app in Hlive as [Hh Hr].
      split; [|by inversion Hr].
      rewrite Forall_forall in Hh. apply Hh. by apply last_Some_elem_of. }
    destruct Hl as [Hlb Hlb2].
    destruct (live_size b Hlb) as [Hb1 Hb2], (live_size b2 Hlb2) as [Hb3 Hb4].
    rewrite I1, flat_cons, flat_cons, !zlen_app in I5.
    rewrite flat_cons, zlen_app in Hsplit.
    pose proof (zlen_nonneg (flat rest)).
    assert (size_ b ≤ zlen (flat (chain_ head))).
    { apply last_Some in I2 as [l' ->]. rewrite flat_app, zlen_app, flat_one.
      pose proof (zlen_nonneg (flat l')). lia. }
    unfold pop_front_block, front. rewrite I1. simpl.
    unfold append_shared. rewrite (proj2 (Z.eqb_neq 0 (size_ b2))), I7 by lia. simpl.
    rewrite (u64_small (chain_length_ head + _)), (u64_small (chain_length_ v - _)) by lia.
    eapply (IH _ _ b2 rest); [|simpl in Hf; lia].
    constructor; simpl; try done; try lia.
    + by rewrite last_snoc.
    + by rewrite <-app_assoc.
    + rewrite flat_app, zlen_app, flat_one. lia.
    + rewrite flat_cons, zlen_app. lia.
Qed.

Lemma live_in bs b : Forall live bs → b ∈ bs → zlen (Block_chars b) = size_ b ∧ 0 < size_ b.
Proof. rewrite Forall_forall. intros H Hb. by apply live_size, H. Qed.

(** The two ways [take_front] leaves its loop. *)
Lemma take_front_whole v head v' b rest len :
  iov_wf v → loop_inv (chain_ v) (begin_offset_ v) (end_offset_ v) len head v' b rest →
  len = chain_length_ head - begin_offset_ v → 0 < len → len ≤ zlen (bytes_of v) →
  let h := mkIOVector (chain_length_ head) (begin_offset_ head) 0 (chain_ head) in
  let r := mkIOVector (u64 (chain_length_ v' - size_ b)) 0 (end_offset_ v') rest in
  iov_wf h ∧ iov_wf r ∧ bytes_of h = slice (bytes_of v) 0 len ∧
  bytes_of r = drop (Z.to_nat len) (bytes_of v).
Proof.
  intros Hwf Hli Hlen Hpos Hle h r.
  pose proof (size_view v Hwf) as Hsv.
  destruct Hwf as [W1 W2 W3 [W4 W4'] [W5 W5'] W6], Hli as [I1 I2 I3 I4 I5 [I6 I6'] I7 I8 I9].
  unfold IOVector_size in Hsv. rewrite u64_small in Hsv by lia.
  apply last_Some in I2 as [l' Hch].
  assert (Hb : zlen (Block_chars b) = size_ b ∧ 0 < size_ b).
  { apply (live_in (chain_ v)); [done|]. rewrite <-I3, Hch, !elem_of_app, list_elem_of_singleton. auto. }
  destruct Hb as [Hb1 Hb2].
  assert (HT : zlen (flat (chain_ v)) = zlen (flat (chain_ head)) + zlen (flat rest))
    by by rewrite <-I3, flat_app, zlen_app.
  rewrite I1, flat_cons, zlen_app in I5.
  pose proof (zlen_nonneg (flat rest)).
  assert (He : rest = [] → end_offset_ v = 0).
  { intros ->. change (zlen (flat [])) with 0 in *. lia. }
  assert (Hbound : zlen (Block_chars b) ≤ zlen (flat (chain_ head))).
  { rewrite Hch, flat_app, zlen_app, flat_one. pose proof (zlen_nonneg (flat l')). lia. }
  rewrite <-I3 in W1. apply Forall_app in W1 as [W1 W1r].
  subst h r. rewrite u64_small by lia. split; [|split; [|split]].
  - constructor; simpl; try done; try lia.
    + rewrite I6. split; [lia|]. rewrite <-I3 in W4'.
      destruct (chain_ head) as [|? ?]; [by destruct l'|done].
    + rewrite Hch, last_snoc. lia.
  - constructor; simpl; try done; try lia.
    + split; [lia|]. destruct rest as [|b2 rest]; [done|].
      inversion_clear W1r as [|?? Hl2 _]. destruct (live_size _ Hl2). simpl. lia.
    + rewrite I8. split; [done|]. rewrite <-I3, last_app in W5'.
      destruct (last rest) eqn:Hr; [done|]. apply last_None in Hr. auto.
  - unfold bytes_of. simpl. unfold slice at 2. rewrite drop_0, take_slice by lia.
    rewrite <-I3, flat_app, slice_prefix, I6 by lia. f_equal. lia.
  - unfold bytes_of. simpl. rewrite drop_slice by lia.
    rewrite <-I3, flat_app, slice_suffix, I8 by lia. f_equal; lia.
Qed.

Lemma take_front_partial v head v' b rest len :
  iov_wf v → loop_inv (chain_ v) (begin_offset_ v) (end_offset_ v) len head v' b rest →
  len < chain_length_ head - begin_offset_ v → 0 < len → len ≤ zlen (bytes_of v) →
  let bt := chain_length_ head - begin_offset_ v - len in
  let h := mkIOVector (chain_length_ head) (begin_offset_ head) bt (chain_ head) in
  let r := mkIOVector (chain_length_ v') (u64 (size_ b - bt)) (end_offset_ v') (chain_ v') in
  bt ≤ size_ b ∧
  iov_wf h ∧ iov_wf r ∧ bytes_of h = slice (bytes_of v) 0 len ∧
  bytes_of r = drop (Z.to_nat len) (bytes_of v).
Proof.
  intros Hwf Hli Hlen Hpos Hle bt h r.
  pose proof (size_view v Hwf) as Hsv.
  destruct Hwf as [W1 W2 W3 [W4 W4'] [W5 W5'] W6], Hli as [I1 I2 I3 I4 I5 [I6 I6'] I7 I8 I9].
  unfold IOVector_size in Hsv. rewrite u64_small in Hsv by lia.
  apply last_Some in I2 as [l' Hch].
  assert (Hb : zlen (Block_chars b) = size_ b ∧ 0 < size_ b).
  { apply (live_in (chain_ v)); [done|]. rewrite <-I3, Hch, !elem_of_app, list_elem_of_singleton. auto. }
  destruct Hb as [Hb1 Hb2].
  assert (HT : zlen (flat (chain_ v)) = zlen (flat l') + zlen (Block_chars b) + zlen (flat rest)).
  { rewrite <-I3, Hch, !flat_app, !zlen_app, flat_one. lia. }
  rewrite Hch, flat_app, zlen_app, flat_one in I4.
  rewrite I1, flat_cons, zlen_app in I5.
  pose proof (zlen_nonneg (flat rest)). pose proof (zlen_nonneg (flat l')).
  pose proof W1 as W1'. rewrite <-I3 in W1'. apply Forall_app in W1' as [W1h W1r].
  assert (live b) as Hlb by (rewrite Hch in W1h; apply Forall_app in W1h as [_ Hx]; by inversion Hx).
  subst bt h r. rewrite u64_small by lia. split; [lia|split; [|split; [|split]]].
  - constructor; simpl; try done; try lia.
    + rewrite Hch, flat_app, zlen_app, flat_one. lia.
    + rewrite I6. split; [lia|]. rewrite <-I3 in W4'.
      destruct (chain_ head) as [|? ?]; [by destruct l'|done].
    + rewrite Hch, last_snoc. lia.
  - constructor; simpl; rewrite ?I1; try done; try lia.
    + by constructor.
    + by rewrite flat_cons, zlen_app.
    + simpl. lia.
    + rewrite I8. split; [done|]. rewrite <-I3, Hch, <-app_assoc in W5'.
      change ([b] ++ rest) with (b :: rest) in W5'. by rewrite last_app_cons in W5'.
  - unfold bytes_of. simpl. unfold slice at 2. rewrite drop_0, take_slice by lia.
    rewrite <-I3, flat_app, slice_prefix, I6; [f_equal; lia | lia |].
    rewrite Hch, flat_app, zlen_app, flat_one. lia.
  - unfold bytes_of. simpl. rewrite drop_slice by lia.
    rewrite <-I3, Hch, I1, flat_app, flat_app, flat_one, <-app_assoc, <-flat_cons.
    rewrite slice_suffix, I8 by lia. f_equal; lia.
Qed.

Lemma take_front_finish_Ret v head v' b rest len :
  iov_wf v → loop_inv (chain_ v) (begin_offset_ v) (end_offset_ v) len head v' b rest →
  len ≤ IOVector_size head → 0 < len → len ≤ zlen (bytes_of v) →
  ∃ h r, take_front_finish head v' len = Ret (h, r) ∧ iov_wf h ∧ iov_wf r ∧
    bytes_of h = take (Z.to_nat len) (bytes_of v) ∧
    bytes_of r = drop (Z.to_nat len) (bytes_of v).
Proof.
  intros Hwf Hli Hge Hpos Hle.
  assert (Hsz : IOVector_size head = chain_length_ head - begin_offset_ v).
  { destruct Hwf as [W1 W2 W3 _ _ _], Hli as [L1 L2 L3 L4 L5 [L6 L6'] L7 L8 L9].
    unfold IOVector_size. rewrite <-L3, flat_app, zlen_app in W2.
    pose proof (zlen_nonneg (flat rest)). rewrite u64_small; lia. }
  unfold take_front_finish. rewrite Hsz in *. pose proof (li_v _ _ _ _ _ _ _ _ Hli) as Hcv.
  destruct (Z.eqb_spec (chain_length_ head - begin_offset_ v) len) as [Heq|Hneq].
  - unfold pop_front_block, front. cbn [chain_]. rewrite Hcv. cbn.
    destruct (take_front_whole v head v' b rest len) as (?&?&Hh&?); try done; try lia.
    eexists _, _. split; [done|]. rewrite Hh. unfold slice. rewrite drop_0. by split_and!.
  - destruct (take_front_partial v head v' b rest len) as (Hbt&?&?&Hh&?); try done; try lia.
    pose proof (li_begin _ _ _ _ _ _ _ _ Hli). pose proof (wf_bound _ Hwf).
    rewrite (u64_small (_ - len)); [|split; [lia|]].
    { unfold front. rewrite Hcv. cbn [mbind outcome_bind].
      rewrite (proj2 (Z.leb_le _ _)) by lia. cbn. rewrite <-Hcv.
      eexists _, _. split; [done|]. rewrite Hh. unfold slice. rewrite drop_0. by split_and!. }
    pose proof (wf_length _ Hwf) as HT. rewrite <-(li_split _ _ _ _ _ _ _ _ Hli) in HT.
    rewrite flat_app, zlen_app, <-(li_hlen _ _ _ _ _ _ _ _ Hli) in HT.
    pose proof (zlen_nonneg (flat rest)). lia.
Qed.

Lemma take_front_Ret v len :
  iov_wf v → 0 ≤ len ≤ zlen (bytes_of v) →
  ∃ h r, take_front v len = Ret (h, r) ∧ iov_wf h ∧ iov_wf r ∧
    bytes_of h = take (Z.to_nat len) (bytes_of v) ∧
    bytes_of r = drop (Z.to_nat len) (bytes_of v).
Proof.
  intros Hwf Hlen. unfold take_front. destruct (Z.eqb_spec len 0) as [->|Hne].
  { exists IOVector_empty, v. by split_and!. }
  pose proof (size_view v Hwf) as Hsv. rewrite Hsv, (proj2 (Z.leb_le _ _)) by lia.
  pose proof Hwf as [W1 W2 W3 [W4 W4'] [W5 _] W6].
  unfold IOVector_size in Hsv. rewrite u64_small in Hsv by lia.
  unfold front. destruct (chain_ v) as [|b0 bs] eqn:Hc.
  { change (zlen (flat [])) with 0 in W2. lia. }
  simpl in W4'. destruct (live_in _ b0 W1) as [Hb1 Hb2]; [by left|].
  rewrite flat_cons, zlen_app in W2. pose proof (zlen_nonneg (flat bs)).
  cbn [mbind outcome_bind CHECK]. rewrite (proj2 (Z.leb_le _ _)) by lia.
  unfold append_shared. rewrite (proj2 (Z.eqb_neq 0 (size_ b0))) by lia.
  cbn -[take_front_loop take_front_finish u64]. rewrite (u64_small (0 + size_ b0)) by lia.
  change (0 + size_ b0) with (size_ b0).
  destruct (take_front_loop_Ret (chain_ v) (begin_offset_ v) (end_offset_ v) len
    (S (length bs)) (mkIOVector (size_ b0) (begin_offset_ v) 0 [b0]) v b0 bs)
    as (head & v' & b & rest & Hloop & Hli & Hge); rewrite ?Hc in *; try done.
  1, 2: rewrite flat_cons, zlen_app; lia.
  { constructor; simpl; try done; try lia; [by rewrite flat_one; lia | by apply Hwf]. }
  { simpl. lia. }
  rewrite Hloop. cbn [mbind outcome_bind fst snd].
  rewrite <-Hc in Hli. apply (take_front_finish_Ret v head v' b rest len); try done; lia.
Qed.

(** A length beyond the size of the chain fails the [CHECK]. *)
Lemma take_front_too_long v len :
  iov_wf v → zlen (bytes_of v) < len → ∃ w, take_front v len = Abort w.
Proof.
  intros Hwf Hlen. unfold take_front. pose proof (zlen_nonneg (bytes_of v)).
  rewrite (proj2 (Z.eqb_neq _ _)), (size_view _ Hwf), (proj2 (Z.leb_gt _ _)) by lia.
  by eexists.
Qed.

(** C12: [take_front] splits the byte sequence.  For a well-formed chain and a
    length it can serve, the call returns (no [CHECK] fires and the loop ends
    within the fuel), the head denotes the first [len] bytes, what is left
    denotes the others, and both are well formed; a longer request fails its
    [CHECK]. *)
Theorem take_front_refines v len :
  iov_wf v → 0 ≤ len →
  if decide (len ≤ zlen (bytes_of v)) then
    ∃ h r, take_front v len = Ret (h, r) ∧ iov_wf h ∧ iov_wf r ∧
      bytes_of h = take (Z.to_nat len) (bytes_of v) ∧
      bytes_of r = drop (Z.to_nat len) (bytes_of v)
  else ∃ w, take_front v len = Abort w.
Proof.
  intros. case_decide; [by apply take_front_Ret | apply take_front_too_long; [done|lia]].
Qed.

(** ** Walking the chain *)

(** The slices [iterate_blocks] hands to its callback. *)
Fixpoint slices_from (v : IOVector) (n i : nat) (blocks : list Block) : list bytes :=
  match blocks with
  | [] => []
  | b :: rest =>
      let begin := if (i =? 0)%nat then begin_offset_ v else 0 in
      let stop := if (i =? n - 1)%nat then size_ b - end_offset_ v else size_ b in
      slice (Block_chars b) begin (stop - begin) :: slices_from v n (S i) rest
  end.

Definition offsets_ok (v : IOVector) (n i : nat) (blocks : list Block) : Prop :=
  0 ≤ begin_offset_ v ∧ 0 ≤ end_offset_ v ∧
  (∀ b, i = 0%nat → head blocks = Some b → begin_offset_ v ≤ size_ b) ∧
  (∀ b, last blocks = Some b →
    end_offset_ v ≤ size_ b - (if bool_decide (i = 0%nat ∧ length blocks = 1%nat)
                               then begin_offset_ v else 0)) ∧
  (i + length blocks = n)%nat.

Lemma foldl_Abort {S} (callback : S → bytes → outcome S) w l :
  foldl (λ m d, s ← m; callback s d) (Abort w) l = Abort w.
Proof. by induction l. Qed.

Lemma offsets_ok_next v n i b rest :
  offsets_ok v n i (b :: rest) → offsets_ok v n (S i) rest.
Proof.
  intros (O1 & O2 & O3 & O4 & O5). simpl in O5. repeat split; try done; try lia.
  intros b' Hb. rewrite bool_decide_eq_false_2 by lia. destruct rest as [|b0 rest]; [done|].
  specialize (O4 b' Hb). case_bool_decide; simpl in *; lia.
Qed.

Lemma offsets_ok_last v n i b rest :
  offsets_ok v n i (b :: rest) → i = (n - 1)%nat →
  end_offset_ v ≤ size_ b - (if (i =? 0)%nat then begin_offset_ v else 0).
Proof.
  intros (O1 & O2 & O3 & O4 & O5) ->. destruct rest; simpl in O5; [|lia].
  specialize (O4 b eq_refl). destruct (Nat.eqb_spec (n - 1) 0); case_bool_decide; simpl in *; lia.
Qed.

(** [iterate_blocks] passes no [CHECK] it could fail, and folds the callback
    over the slices. *)
Lemma iterate_from_Ret {S} (callback : S → bytes → outcome S) v n i blocks s :
  Forall live blocks → Forall (λ b, size_ b < 2 ^ 64) blocks → offsets_ok v n i blocks →
  iterate_from callback v n i blocks s =
  foldl (λ m d, s ← m; callback s d) (Ret s) (slices_from v n i blocks).
Proof.
  intros Hl Hb. revert i s.
  induction Hl as [|b rest Hlb Hl IH]; intros i s Hok; [done|].
  inversion_clear Hb as [|?? Hbb Hb']. destruct (live_size b Hlb) as [Hs1 Hs2].
  pose proof (offsets_ok_next _ _ _ _ _ Hok) as Hnext.
  pose proof (offsets_ok_last _ _ _ _ _ Hok) as Hend.
  destruct Hok as (O1 & O2 & O3 & _). specialize (O3 b).
  cbn [iterate_from slices_from foldl].
  assert (Hstep : ∀ d, (s ← callback s d; iterate_from callback v n (Datatypes.S i) rest s) =
    foldl (λ m d, s ← m; callback s d) (callback s d) (slices_from v n (Datatypes.S i) rest)).
  { intros d. destruct (callback s d) as [s'|w]; simpl; [by apply IH|].
    by rewrite foldl_Abort. }
  destruct (Nat.eqb_spec i 0) as [Hi0|Hi0], (Nat.eqb_spec i (n - 1)) as [Hin|Hin];
    try specialize (O3 Hi0 eq_refl); try specialize (Hend Hin);
    repeat first [ progress cbn [mbind outcome_bind CHECK]
                 | rewrite u64_small by lia | rewrite (proj2 (Z.leb_le _ _)) by lia ];
    rewrite Hstep, slice_chars by lia; (do 3 f_equal; lia).
Qed.

Lemma concat_slices_S v n i blocks :
  Forall live blocks → offsets_ok v n (S i) blocks →
  concat (slices_from v n (S i) blocks) = slice (flat blocks) 0 (zlen (flat blocks) - end_offset_ v)
  ∧ (blocks ≠ [] → end_offset_ v ≤ zlen (flat blocks)).
Proof.
  intros Hl. revert i. induction Hl as [|b rest Hlb Hl IH]; intros i Hok.
  { split; [|done]. change (flat []) with (@nil ascii). by rewrite slice_nil. }
  destruct (live_size b Hlb) as [Hs1 Hs2].
  pose proof (offsets_ok_last _ _ _ _ _ Hok) as Hend.
  destruct (IH _ (offsets_ok_next _ _ _ _ _ Hok)) as [Heq He].
  destruct Hok as (_ & Hpos & _ & _ & Hn). simpl in Hn.
  cbn [slices_from concat]. change (S i =? 0)%nat with false in *. cbn iota in *.
  rewrite Heq, flat_cons, zlen_app.
  destruct (Nat.eqb_spec (S i) (n - 1)) as [Hi|Hi].
  - destruct rest; simpl in Hn; [|lia]. specialize (Hend Hi).
    change (flat []) with (@nil ascii). rewrite app_nil_r, slice_nil, app_nil_r.
    change (zlen (@nil ascii)) with 0. split; [f_equal; lia|lia].
  - assert (rest ≠ []) as Hne by (intros ->; simpl in Hn; lia). specialize (He Hne).
    split; [|intros; lia].
    replace (_ + _ - end_offset_ v) with (size_ b + (zlen (flat rest) - end_offset_ v)) by lia.
    rewrite slice_split, slice_prefix, slice_suffix by lia. do 2 f_equal; lia.
Qed.

Lemma offsets_ok_0 v : iov_wf v → offsets_ok v (length (chain_ v)) 0 (chain_ v).
Proof.
  intros Hwf. pose proof Hwf as [W1 W2 W3 [W4 W4'] [W5 W5'] W6].
  repeat split; try done.
  - intros b _ Hb. rewrite Hb in W4'. lia.
  - intros b Hb. rewrite Hb in W5'.
    case_bool_decide as Hd; [|lia]. destruct Hd as [_ Hd].
    destruct (chain_ v) as [|b' [|]]; simpl in *; try done. injection Hb as ->.
    rewrite flat_one in W2. inversion_clear W1 as [|?? Hlb _]. apply live_size in Hlb. lia.
Qed.

Lemma concat_slices v :
  iov_wf v → concat (slices_from v (length (chain_ v)) 0 (chain_ v)) = bytes_of v.
Proof.
  intros Hwf. pose proof (offsets_ok_0 v Hwf) as Hok.
  pose proof Hwf as [W1 W2 W3 [W4 W4'] [W5 W5'] W6].
  unfold bytes_of. rewrite W2 in W6 |- *. revert Hok W1 W4' W6.
  generalize (length (chain_ v)) as n. destruct (chain_ v) as [|b rest].
  { intros. change (flat []) with (@nil ascii). by rewrite slice_nil. }
  intros n Hok W1 W4' W6. simpl in W4'.
  inversion_clear W1 as [|?? Hlb Hl]. destruct (live_size b Hlb) as [Hs1 Hs2].
  pose proof (offsets_ok_last _ _ _ _ _ Hok) as Hend.
  pose proof (offsets_ok_next _ _ _ _ _ Hok) as Hnext.
  destruct (concat_slices_S _ _ _ _ Hl Hnext) as [Heq He].
  destruct Hok as (_ & _ & _ & _ & Hn). simpl in Hn.
  cbn [slices_from concat]. change (0 =? 0)%nat with true in *. cbn iota in *.
  rewrite Heq, flat_cons, zlen_app.
  destruct (Nat.eqb_spec 0 (n - 1)) as [Hi|Hi].
  - destruct rest; simpl in Hn; [|lia]. specialize (Hend Hi).
    change (flat []) with (@nil ascii). rewrite app_nil_r, slice_nil, app_nil_r.
    change (zlen (@nil ascii)) with 0. f_equal. lia.
  - assert (rest ≠ []) as Hne by (intros ->; simpl in Hn; lia). specialize (He Hne).
    replace (_ + _ - _ - end_offset_ v)
      with ((size_ b - begin_offset_ v) + (zlen (flat rest) - end_offset_ v)) by lia.
    rewrite slice_split, slice_prefix, slice_suffix by lia. do 2 f_equal; lia.
Qed.

Lemma sizes_bounded v : iov_wf v → Forall (λ b, size_ b < 2 ^ 64) (chain_ v).
Proof.
  intros [W1 W2 W3 _ _ _]. rewrite W2 in W3. clear W2.
  induction W1 as [|b rest Hb Hl IH]; constructor;
    rewrite flat_cons, zlen_app in W3; apply live_size in Hb;
    pose proof (zlen_nonneg (flat rest)); [lia|apply IH; lia].
Qed.

Lemma iterate_blocks_Ret {S} (callback : S → bytes → outcome S) v s :
  iov_wf v →
  iterate_blocks callback v s =
  foldl (λ m d, s ← m; callback s d) (Ret s) (slices_from v (length (chain_ v)) 0 (chain_ v)).
Proof.
  intros Hwf. apply iterate_from_Ret; [apply Hwf | by apply sizes_bounded | by apply offsets_ok_0].
Qed.

Lemma foldl_push (l acc : list bytes) :
  foldl (λ m d, s ← m; Ret (s ++ [d])) (Ret acc) l = Ret (acc ++ l).
Proof.
  revert acc. induction l as [|d l IH]; intros acc; [by rewrite app_nil_r|].
  etrans; [apply (IH (acc ++ [d]))|]. by rewrite <-app_assoc.
Qed.

Lemma iovecs_Ret v :
  iov_wf v → ∃ l, iovecs v = Ret l ∧ concat l = bytes_of v.
Proof.
  intros Hwf. exists (slices_from v (length (chain_ v)) 0 (chain_ v)). split; [|by apply concat_slices].
  unfold iovecs. rewrite iterate_blocks_Ret by done. apply (foldl_push _ []).
Qed.

(** The [iovec]s handed to [writev] span exactly the bytes of the chain, in
    order, and no [CHECK] of [iterate_blocks] fires. *)
Theorem iovecs_span v :
  iov_wf v → ∃ l, iovecs v = Ret l ∧ concat l = bytes_of v ∧ length l = length (chain_ v).
Proof.
  intros Hwf. exists (slices_from v (length (chain_ v)) 0 (chain_ v)).
  split; [|split; [by apply concat_slices|]].
  - unfold iovecs. rewrite iterate_blocks_Ret by done.
    apply (foldl_push _ []).
  - generalize 0%nat, (length (chain_ v)) at 1.
    induction (chain_ v); intros; simpl; auto.
Qed.

(** The copying loop of [coalesce]: after the slices [l], the first bytes of
    the result are theirs. *)
Lemma coalesce_fold l b pre :
  block_wf b → size_ b = capacity_ b → take (length pre) (Block_chars b) = pre →
  zlen pre + zlen (concat l) ≤ size_ b →
  ∃ b', foldl (λ m d, s ← m; (λ '(offset, result) data,
           result ← Block_fill result offset data;
           Ret (offset + zlen data, result)) s d) (Ret (zlen pre, b)) l
        = Ret (zlen (pre ++ concat l), b') ∧
    block_wf b' ∧ size_ b' = size_ b ∧
    take (length (pre ++ concat l)) (Block_chars b') = pre ++ concat l.
Proof.
  revert b pre. induction l as [|d l IH]; intros b pre Hwf Hcap Hpre Hlen; simpl in *.
  { rewrite app_nil_r. eauto. }
  rewrite zlen_app in Hlen. pose proof (zlen_nonneg (concat l)).
  destruct (Block_fill_Ret b pre d) as (b' & Hfill & Hwf' & Hcap' & Hsz & Htk); try done; [lia|].
  rewrite Hfill. cbn [mbind outcome_bind]. rewrite <-zlen_app, app_assoc, <-Hsz.
  apply IH; try done. rewrite zlen_app. lia.
Qed.

Lemma trim_slice (P Q : bytes) b n :
  0 ≤ b ≤ zlen P → slice (slice P b (zlen P - b) ++ Q) 0 n = slice (P ++ Q) b n.
Proof.
  intros Hb. unfold slice, zlen in *. rewrite (drop_app_le P) by lia.
  rewrite (take_ge (drop _ P)); [done|]. rewrite length_drop. lia.
Qed.

Lemma coalesce_Ret v :
  iov_wf v → ∃ b, coalesce v = Ret b ∧ block_wf b ∧ Block_chars b = bytes_of v.
Proof.
  intros Hwf. unfold coalesce. rewrite size_view by done.
  pose proof (zlen_nonneg (bytes_of v)).
  destruct (Z.eqb_spec (zlen (bytes_of v)) 0) as [H0|H0].
  { eexists. split; [done|]. rewrite (zlen_0 _ H0). by split. }
  change (Block_resize Block_empty) with Block_new.
  destruct (Block_new_Ret (zlen (bytes_of v))) as (b & -> & Hb & Hs & Hcap & _); [lia|].
  cbn [mbind outcome_bind]. rewrite iterate_blocks_Ret by done.
  rewrite <-(concat_slices v Hwf) in *.
  set (l := slices_from _ _ _ _) in *.
  destruct (coalesce_fold l b []) as (b' & Hf & Hb' & Hs' & Htk); try done; [lia | change (zlen []) with 0; lia |].
  change (zlen []) with 0 in Hf. setoid_rewrite Hf.
  eexists. split; [done|]. split; [done|].
  rewrite take_ge in Htk; [done|]. simpl.
  pose proof (zlen_chars _ Hb'). unfold zlen in *. lia.
Qed.

(** [coalesced] hands its argument the bytes of the chain, copied or not. *)
Lemma coalesced_Ret {R} (f : bytes → R) v : iov_wf v → coalesced f v = Ret (f (bytes_of v)).
Proof.
  intros Hwf. destruct (coalesce_Ret v Hwf) as (b' & Hco & _ & Hb').
  pose proof (size_view v Hwf) as Hs. unfold coalesced. rewrite Hco.
  destruct (chain_ v) as [|b [|]] eqn:Hc; simpl; try by rewrite Hb'.
  do 2 f_equal.
  destruct Hwf as [W1 W2 W3 [W4 W4'] [W5 W5'] W6].
  unfold IOVector_size in Hs. rewrite u64_small in Hs by lia.
  rewrite Hc, flat_one in *. inversion_clear W1 as [|?? Hlb _]. apply live_size in Hlb.
  unfold IOVector_size, bytes_of. rewrite u64_small, slice_chars, Hc, flat_one by lia. done.
Qed.

(** [trim_front] only reallocates the first block. *)
Lemma trim_front_Ret v :
  iov_wf v → ∃ v', trim_front v = Ret v' ∧ iov_wf v' ∧ begin_offset_ v' = 0 ∧
    bytes_of v' = bytes_of v.
Proof.
  intros Hwf. unfold trim_front. destruct (Z.eqb_spec (begin_offset_ v) 0) as [|Hne]; [by eauto|].
  pose proof Hwf as [W1 W2 W3 [W4 W4'] [W5 W5'] W6].
  unfold front. destruct (chain_ v) as [|b rest] eqn:Hc; [done|]. simpl in W4'.
  inversion_clear W1 as [|?? Hlb Hl]. destruct (live_size b Hlb) as [Hs1 Hs2].
  rewrite flat_cons, zlen_app in W2. pose proof (zlen_nonneg (flat rest)).
  cbn [mbind outcome_bind]. rewrite (u64_small (size_ b - _)) by lia.
  destruct (Block_new_Ret (size_ b - begin_offset_ v)) as (c & -> & Hcw & Hcs & Hcc & _); [lia|].
  cbn [mbind outcome_bind]. rewrite Hcs, slice_chars by lia.
  destruct (Block_fill_Ret c [] (slice (Block_chars b) (begin_offset_ v) (size_ b - begin_offset_ v)))
    as (c' & Hf & Hcw' & Hcc' & Hcs' & Htk); try done; [lia| |].
  { change (zlen []) with 0. rewrite zlen_slice; lia. }
  change (zlen []) with 0 in Hf. rewrite Hf. cbn [mbind outcome_bind tail].
  assert (Hchars : Block_chars c' = slice (Block_chars b) (begin_offset_ v) (size_ b - begin_offset_ v)).
  { rewrite take_ge in Htk; [done|]. simpl. pose proof (zlen_chars c' Hcw').
    pose proof (zlen_slice (Block_chars b) (begin_offset_ v) (size_ b - begin_offset_ v)).
    unfold zlen in *. lia. }
  rewrite u64_small by lia.
  assert (size_ c' = size_ b - begin_offset_ v) as Hsz by lia.
  eexists. split; [done|]. split; [|split; [done|]].
  - constructor; simpl.
    + constructor; [split; [done|lia]|done].
    + rewrite flat_cons, zlen_app, Hchars, zlen_slice; lia.
    + lia.
    + lia.
    + split; [done|]. destruct rest as [|b2 rest]; simpl in *; [|done].
      change (zlen (flat [])) with 0 in *. lia.
    + lia.
  - unfold bytes_of. simpl. rewrite Hc, !flat_cons, Hchars.
    replace (_ - _ - 0 - _) with (chain_length_ v - begin_offset_ v - end_offset_ v) by lia.
    rewrite <-Hs1. apply trim_slice; lia.
Qed.

(** Copying a chain.  [coalesce] returns one block holding exactly the
    bytes of the chain (every [memcpy] stays inside the block allocated for
    [size()] bytes), [coalesced] hands its argument the same bytes whether it
    copies or not, and [trim_front] reallocates the first block without
    changing the bytes. *)
Theorem coalesce_correct {R} (f : bytes → R) v :
  iov_wf v →
  (∃ b, coalesce v = Ret b ∧ block_wf b ∧ Block_chars b = bytes_of v) ∧
  coalesced f v = Ret (f (bytes_of v)) ∧
  (∃ v', trim_front v = Ret v' ∧ iov_wf v' ∧ begin_offset_ v' = 0 ∧ bytes_of v' = bytes_of v).
Proof. auto using coalesce_Ret, coalesced_Ret, trim_front_Ret. Qed.

(** ** A concrete chain: two blocks, two chars dropped, one hidden. *)
Definition sample_block (s : bytes) : Block := mkBlock (Some s) (zlen s) (zlen s).
Definition sample_iov : IOVector := mkIOVector 8 2 1 [sample_block $"abcd"; sample_block $"efgh"].

Lemma sample_iov_wf : iov_wf sample_iov.
Proof.
  constructor; [|done..].
  repeat constructor; simpl; lia || done.
Qed.

Example sample_iov_bytes : bytes_of sample_iov = $"cdefg".
Proof. reflexivity. Qed.

Lemma take_front_refines_witness :
  ∃ h r, take_front sample_iov 3 = Ret (h, r) ∧ bytes_of h = $"cde" ∧ bytes_of r = $"fg".
Proof.
  destruct (take_front_refines sample_iov 3 sample_iov_wf ltac:(lia)) as (h & r & H & _ & _ & Hh & Hr).
  exists h, r. split; [exact H|]. split; [exact Hh | exact Hr].
Defined.

Lemma iovecs_span_witness : ∃ l, iovecs sample_iov = Ret l ∧ concat l = $"cdefg".
Proof.
  destruct (iovecs_span sample_iov sample_iov_wf) as (l & H & Hl & _).
  exists l. split; [exact H | exact Hl].
Defined.

Lemma coalesce_correct_witness : coalesced length sample_iov = Ret 5%nat.
Proof. exact (proj1 (proj2 (coalesce_correct length sample_iov sample_iov_wf))). Defined.
