(* ===== verification/Packet.v ===== *)
(** * Packets: the 24-byte header, its checks, and the blocking connection
    (src/src/adb.h, types.h, adb.cpp, transport.cpp)

    The header is an instance of [Wire]; [send_packet] completes it and
    [check_header] validates it on the other side.  [FdConnection] moves whole
    packets over a byte stream. *)

From Stdlib Require Import ZArith Lia List Ascii String.
From stdpp Require Import base numbers list strings.
From S2P Require Import Prelude.
From S2P Require Import Libc.
From S2P Require Import AdbIo.
From S2P Require Import Wire.

(** ** Constants of adb.h *)

Definition A_SYNC : Z := 0x434e5953.
Definition A_CNXN : Z := 0x4e584e43.
Definition A_OPEN : Z := 0x4e45504f.
Definition A_OKAY : Z := 0x59414b4f.
Definition A_CLSE : Z := 0x45534c43.
Definition A_WRTE : Z := 0x45545257.
Definition A_AUTH : Z := 0x48545541.

Definition A_VERSION_MIN : Z := 0x01000000.
Definition A_VERSION_SKIP_CHECKSUM : Z := 0x01000001.
Definition A_VERSION : Z := 0x01000001.

(** ** struct amessage, struct apacket *)

Record amessage := mkMsg {
  command : Z; arg0 : Z; arg1 : Z; data_length : Z; data_check : Z; magic : Z
}.

(** The payload is a [Block]; what is read of it are its chars. *)
Record apacket := mkPacket { msg : amessage; payload : bytes }.

Definition u32_ok (z : Z) : Prop := 0 ≤ z < 2 ^ 32.

Definition msg_ok (m : amessage) : Prop :=
  u32_ok (command m) ∧ u32_ok (arg0 m) ∧ u32_ok (arg1 m) ∧
  u32_ok (data_length m) ∧ u32_ok (data_check m) ∧ u32_ok (magic m).

Definition msg_fields (m : amessage) : list Z :=
  [command m; arg0 m; arg1 m; data_length m; data_check m; magic m].

(** The 24 bytes of the struct, as written and read by address. *)
Definition encode_msg (m : amessage) : bytes := le32s (msg_fields m).

Definition decode_msg (l : bytes) : amessage :=
  mkMsg (word_at l 0) (word_at l 4) (word_at l 8) (word_at l 12) (word_at l 16) (word_at l 20).

#[export] Program Instance amessage_wire : Wire amessage := {|
  wire_size := 24; wire_encode := encode_msg; wire_decode := decode_msg; wire_ok := msg_ok
|}.
Next Obligation. lia. Qed.
Next Obligation. done. Qed.
Next Obligation.
  intros [c a b d k m] rest (H1 & H2 & H3 & H4 & H5 & H6).
  unfold encode_msg, decode_msg, msg_fields.
  cbn [command arg0 arg1 data_length data_check magic] in *.
  pose proof (λ i z, word_at_le32s [c; a; b; d; k; m] rest i z) as Hw.
  pose proof (Hw 0%nat c eq_refl H1) as W0. pose proof (Hw 1%nat a eq_refl H2) as W1.
  pose proof (Hw 2%nat b eq_refl H3) as W2. pose proof (Hw 3%nat d eq_refl H4) as W3.
  pose proof (Hw 4%nat k eq_refl H5) as W4. pose proof (Hw 5%nat m eq_refl H6) as W5.
  change (4 * Z.of_nat 0) with 0 in W0. change (4 * Z.of_nat 1) with 4 in W1.
  change (4 * Z.of_nat 2) with 8 in W2. change (4 * Z.of_nat 3) with 12 in W3.
  change (4 * Z.of_nat 4) with 16 in W4. change (4 * Z.of_nat 5) with 20 in W5.
  f_equal; assumption.
Qed.
Next Obligation.
  intros l Hl. simpl. split; [exact (le32s_words l 6 Hl)|].
  unfold msg_ok, u32_ok. simpl. split_and!; apply word_at_range.
Qed.

(** [get_apacket]: a zeroed header and an empty payload. *)
Definition get_apacket : apacket := mkPacket (mkMsg 0 0 0 0 0 0) [].

(** ** Checksum and header completion *)

(** The loop of [calculate_apacket_checksum] from index [i]; reading past the
    payload is undefined. *)
Fixpoint checksum_loop (n : nat) (p : bytes) (sum : Z) : outcome Z :=
  match n with
  | O => Ret sum
  | S n => match p with
           | c :: p => checksum_loop n p (u32 (sum + cval c))
           | [] => Abort "payload read out of bounds"
           end
  end.

Definition calculate_apacket_checksum (p : apacket) : outcome Z :=
  checksum_loop (Z.to_nat (data_length (msg p))) (payload p) 0.

(** The header part of [send_packet] on a transport that negotiated
    [protocol_version]. *)
Definition complete_header (p : apacket) (protocol_version : Z) : outcome apacket :=
  let m := msg p in
  let magic := Z.lxor (command m) 0xffffffff in
  check ← (if A_VERSION_SKIP_CHECKSUM <=? protocol_version then Ret 0
           else calculate_apacket_checksum p);
  Ret (mkPacket (mkMsg (command m) (arg0 m) (arg1 m) (data_length m) check magic) (payload p)).

(** [check_header] against the transport's [max_payload]. *)
Definition check_header (p : apacket) (max_payload : Z) : bool :=
  if negb (magic (msg p) =? Z.lxor (command (msg p)) 0xffffffff) then false
  else if max_payload <? data_length (msg p) then false
  else true.

(** ** FdConnection *)

Definition FdConnection_Read (fd : rd_fd) : outcome (option apacket * rd_fd) :=
  '(ok, header, fd) ← ReadFdExactly fd (wire_size amessage);
  if negb (ok : bool) then Ret (None, fd)
  else
    let m : amessage := wire_decode header in
    if MAX_PAYLOAD <? data_length m then Ret (None, fd)
    else
      '(ok, data, fd) ← ReadFdExactly fd (data_length m);
      if negb (ok : bool) then Ret (None, fd) else Ret (Some (mkPacket m data), fd).

Definition FdConnection_Write (fd : wr_fd) (p : apacket) : outcome (bool * wr_fd) :=
  '(ok, fd) ← WriteFdExactly fd (wire_encode (msg p));
  if negb (ok : bool) then Ret (false, fd)
  else if negb (data_length (msg p) =? 0) then
    '(ok, fd) ← WriteFdExactly fd (take (Z.to_nat (data_length (msg p))) (payload p));
    if negb (ok : bool) then Ret (false, fd) else Ret (true, fd)
  else Ret (true, fd).

(** ** Theorems *)

(** A packet whose length field is the size of its payload. *)
Definition packet_ok (p : apacket) : Prop :=
  msg_ok (msg p) ∧ data_length (msg p) = zlen (payload p).

Fixpoint byte_sum (l : bytes) : Z := match l with [] => 0 | c :: l => cval c + byte_sum l end.

Lemma byte_sum_bound l : 0 ≤ byte_sum l ≤ 255 * zlen l.
Proof.
  induction l as [|c l IH]; [done|]. simpl. rewrite zlen_cons. pose proof (cval_range c). lia.
Qed.

Lemma byte_sum_app l k : byte_sum (l ++ k) = byte_sum l + byte_sum k.
Proof. induction l; simpl; lia. Qed.

Lemma checksum_loop_Ret p sum :
  0 ≤ sum < 2 ^ 32 → checksum_loop (length p) p sum = Ret (u32 (sum + byte_sum p)).
Proof.
  revert sum. induction p as [|c p IH]; intros sum Hs; simpl.
  - by rewrite Z.add_0_r, u32_small.
  - rewrite IH by apply u32_range. f_equal. unfold u32.
    rewrite Zplus_mod_idemp_l. f_equal. lia.
Qed.

Lemma checksum_Ret p :
  packet_ok p → calculate_apacket_checksum p = Ret (u32 (byte_sum (payload p))).
Proof.
  intros [_ Hl]. unfold calculate_apacket_checksum. rewrite Hl. unfold zlen. rewrite Nat2Z.id.
  by apply checksum_loop_Ret.
Qed.

(** The checksum of a packet is the sum of its payload bytes: within
    [MAX_PAYLOAD] the 32-bit accumulator cannot wrap, so replacing one payload
    byte by another always changes it. *)
Theorem checksum_exact p l c d r :
  packet_ok p → zlen (payload p) ≤ MAX_PAYLOAD → payload p = l ++ c :: r → c ≠ d →
  let q := mkPacket (msg p) (l ++ d :: r) in
  calculate_apacket_checksum p = Ret (byte_sum (payload p)) ∧
  calculate_apacket_checksum q ≠ calculate_apacket_checksum p.
Proof.
  intros Hok Hmax Hp Hne q. unfold MAX_PAYLOAD in Hmax.
  assert (Hq : packet_ok q).
  { destruct Hok as [Hm Hl]. split; [done|]. simpl. rewrite Hl, Hp, !zlen_app, !zlen_cons. done. }
  rewrite !checksum_Ret by done.
  pose proof (byte_sum_bound (payload p)). pose proof (byte_sum_bound (payload q)).
  assert (zlen (payload q) = zlen (payload p)) by (rewrite Hp; simpl; rewrite !zlen_app, !zlen_cons; done).
  rewrite !u32_small by lia. split; [done|]. intros [= Heq].
  rewrite Hp in Heq. simpl in Heq. rewrite !byte_sum_app in Heq. simpl in Heq.
  apply Hne, cval_inj. lia.
Qed.

Lemma checksum_exact_witness :
  let p := mkPacket (mkMsg A_WRTE 1 2 3 0 0) $"abc" in
  calculate_apacket_checksum p = Ret 294 ∧
  calculate_apacket_checksum (mkPacket (msg p) $"abd") ≠ calculate_apacket_checksum p.
Proof.
  intros p. apply (checksum_exact p $"ab" "c" "d" []); [|vm_compute; discriminate|reflexivity|discriminate].
  split; [|reflexivity]. unfold msg_ok, u32_ok. repeat split; by vm_compute.
Defined.

(** A bit flip of all 32 bits is its own inverse, and stays in range. *)
Lemma lxor_ones_u32 z : u32_ok z → u32_ok (Z.lxor z 0xffffffff).
Proof.
  intros [H1 H2]. change 0xffffffff with (Z.ones 32). split.
  - apply Z.lxor_nonneg. split; [intros _; by vm_compute | done].
  - destruct (decide (Z.lxor z (Z.ones 32) = 0)) as [->|Hn]; [done|].
    assert (0 ≤ Z.lxor z (Z.ones 32)) by (apply Z.lxor_nonneg; split; [by vm_compute|done]).
    apply Z.log2_lt_pow2; [lia|].
    eapply Z.le_lt_trans; [apply Z.log2_lxor; [done|by vm_compute]|].
    apply Z.max_lub_lt; [|by vm_compute].
    destruct (decide (z = 0)) as [->|]; [done|]. apply Z.log2_lt_pow2; lia.
Qed.

(** What [send_packet] completes, [check_header] accepts: the completed
    packet is unchanged but for [magic] and [data_check], carries the checksum
    exactly for peers older than [A_VERSION_SKIP_CHECKSUM], and passes the
    receiver's test exactly when its payload fits the negotiated maximum; a
    header whose magic differs in any bit is refused. *)
Theorem send_packet_header p version max_payload :
  packet_ok p → zlen (payload p) ≤ MAX_PAYLOAD →
  ∃ q, complete_header p version = Ret q ∧ packet_ok q ∧ payload q = payload p ∧
    command (msg q) = command (msg p) ∧ arg0 (msg q) = arg0 (msg p) ∧ arg1 (msg q) = arg1 (msg p) ∧
    data_check (msg q) = (if A_VERSION_SKIP_CHECKSUM <=? version then 0 else byte_sum (payload p)) ∧
    check_header q max_payload = (zlen (payload p) <=? max_payload) ∧
    (∀ m, m ≠ magic (msg q) → check_header
       (mkPacket (mkMsg (command (msg q)) (arg0 (msg q)) (arg1 (msg q)) (data_length (msg q))
          (data_check (msg q)) m) (payload q)) max_payload = false).
Proof.
  intros Hok Hmax. unfold MAX_PAYLOAD in Hmax.
  pose proof Hok as [(M1 & M2 & M3 & M4 & M5 & M6) Hl].
  pose proof (byte_sum_bound (payload p)) as Hb.
  assert (Hcheck : (if A_VERSION_SKIP_CHECKSUM <=? version then Ret 0 else calculate_apacket_checksum p)
    = Ret (if A_VERSION_SKIP_CHECKSUM <=? version then 0 else byte_sum (payload p))).
  { case_match; [done|]. rewrite checksum_Ret, u32_small by (done || lia). done. }
  unfold complete_header. rewrite Hcheck. cbn [mbind outcome_bind].
  eexists. split; [done|]. cbn. split_and!; try done.
  - split; [|done]. unfold msg_ok. cbn. split_and!; try done; [|by apply lxor_ones_u32].
    case_match; unfold u32_ok; lia.
  - unfold check_header. cbn. rewrite Z.eqb_refl. cbn. rewrite Hl.
    destruct (Z.ltb_spec max_payload (zlen (payload p))), (Z.leb_spec (zlen (payload p)) max_payload); lia || done.
  - intros m Hm. unfold check_header. cbn. by rewrite (proj2 (Z.eqb_neq _ _)).
Qed.

Lemma send_packet_header_witness :
  ∃ q, complete_header (mkPacket (mkMsg A_WRTE 1 2 3 0 0) $"abc") A_VERSION_MIN = Ret q ∧
    data_check (msg q) = 294 ∧ check_header q 4096 = true.
Proof.
  destruct (send_packet_header (mkPacket (mkMsg A_WRTE 1 2 3 0 0) $"abc") A_VERSION_MIN 4096)
    as (q & Hq & _ & _ & _ & _ & _ & Hc & Hh & _).
  - split; [|reflexivity]. unfold msg_ok, u32_ok. repeat split; by vm_compute.
  - vm_compute. discriminate.
  - exists q. split; [exact Hq|]. split; [exact Hc | exact Hh].
Defined.

Lemma WriteFdExactly_true fd buf fd' :
  WriteFdExactly fd buf = Ret (true, fd') → wr_sent fd' = wr_sent fd ++ buf.
Proof.
  destruct (WriteFdExactly_Ret fd buf) as (fd1 & -> & Hs). intros [= Hb <-].
  apply bool_decide_eq_true in Hb. rewrite Hs. f_equal. apply take_ge. unfold zlen in Hb. lia.
Qed.

(** The connection writes the header and the payload, or fails having sent a
    proper prefix of them. *)
Lemma FdConnection_Write_Ret fd p :
  packet_ok p →
  ∃ ok fd' k, FdConnection_Write fd p = Ret (ok, fd') ∧
    wr_sent fd' = wr_sent fd ++ take k (wire_encode (msg p) ++ payload p) ∧
    (ok = true → (length (wire_encode (msg p) ++ payload p) ≤ k)%nat).
Proof.
  intros [_ Hl]. unfold FdConnection_Write.
  destruct (WriteFdExactly_Ret fd (wire_encode (msg p))) as (fd1 & -> & Hs1). cbn [mbind outcome_bind].
  case_bool_decide as Hok; cbn [negb].
  2: { exists false, fd1, (Z.to_nat (accepts (wr_script fd))). split; [done|]. split; [|done].
       rewrite Hs1, take_app_le; [done|]. unfold zlen in Hok. lia. }
  rewrite take_ge in Hs1 by (unfold zlen in Hok; lia).
  rewrite Hl. destruct (Z.eqb_spec (zlen (payload p)) 0) as [H0|H0]; cbn [negb].
  { exists true, fd1, (length (wire_encode (msg p) ++ payload p)). rewrite firstn_all, (zlen_0 _ H0), app_nil_r.
    by split_and!. }
  rewrite take_ge by (unfold zlen; lia).
  destruct (WriteFdExactly_Ret fd1 (payload p)) as (fd2 & -> & Hs2). cbn [mbind outcome_bind].
  set (k := (length (wire_encode (msg p)) + Z.to_nat (accepts (wr_script fd1)))%nat).
  exists (bool_decide (zlen (payload p) ≤ accepts (wr_script fd1))), fd2, k.
  split; [by case_bool_decide|].
  unfold k. rewrite Hs2, Hs1, take_app_add, <-app_assoc. split; [done|].
  rewrite bool_decide_eq_true, length_app. unfold zlen. lia.
Qed.

(** A connection that has a whole packet ahead of it reads that packet. *)
Lemma FdConnection_Read_Ret fd p more :
  packet_ok p → zlen (payload p) ≤ MAX_PAYLOAD → available fd = wire_encode (msg p) ++ payload p ++ more →
  ∃ fd', FdConnection_Read fd = Ret (Some p, fd') ∧ available fd' = more.
Proof.
  intros [Hm Hl] Hmax Hav. pose proof (wire_encode_length (msg p)) as Hh. unfold FdConnection_Read.
  destruct (ReadFdExactly_Ret fd (wire_size amessage)) as (ok & got & fd1 & -> & Hr & _); [done|].
  rewrite Hav, zlen_app, Hh in Hr. pose proof (zlen_nonneg (payload p ++ more)).
  assert (Hn : Z.to_nat (wire_size amessage) = length (wire_encode (msg p)))
    by (unfold zlen in Hh; lia).
  rewrite Hn, take_app_length, drop_app_length in Hr.
  destruct Hr as (-> & -> & Ha1); [lia|]. cbn [mbind outcome_bind negb].
  pose proof (wire_decode_encode (msg p) [] Hm) as Hd. rewrite app_nil_r in Hd.
  rewrite Hd, (proj2 (Z.ltb_ge _ _)) by lia.
  destruct (ReadFdExactly_Ret fd1 (data_length (msg p))) as (ok & got & fd2 & -> & Hr & _);
    [rewrite Hl; apply zlen_nonneg|].
  rewrite Ha1, zlen_app, Hl in Hr. pose proof (zlen_nonneg more).
  destruct Hr as (-> & -> & Ha2); [lia|]. cbn [mbind outcome_bind negb].
  unfold zlen in *. rewrite Nat2Z.id, take_app_length, ?drop_app_length in *.
  exists fd2. split; [by destruct p|done].
Qed.

(** C11: packets round-trip through a connection.  Writing always returns; when
    it reports success, a connection reading those bytes, in whatever chunks
    they arrive, returns the same packet and leaves the rest of the stream. *)
Theorem packet_roundtrip wfd fd p more :
  packet_ok p → zlen (payload p) ≤ MAX_PAYLOAD → wr_sent wfd = [] →
  ∃ ok wfd', FdConnection_Write wfd p = Ret (ok, wfd') ∧
    (ok = true → available fd = wr_sent wfd' ++ more →
     ∃ fd', FdConnection_Read fd = Ret (Some p, fd') ∧ available fd' = more).
Proof.
  intros Hok Hmax He.
  destruct (FdConnection_Write_Ret wfd p Hok) as (ok & wfd' & k & -> & Hs & Hk).
  exists ok, wfd'. split; [done|]. intros -> Hav. specialize (Hk eq_refl).
  rewrite take_ge, He, app_nil_l in Hs by done. rewrite Hs, <-app_assoc in Hav.
  by apply FdConnection_Read_Ret.
Qed.

Lemma packet_roundtrip_witness :
  let p := mkPacket (mkMsg A_WRTE 1 2 3 0 0) $"abc" in
  ∃ wfd', FdConnection_Write (mkWrFd [WrTake 10; WrTake 20; WrTake 2; WrTake 9] []) p = Ret (true, wfd') ∧
    ∃ fd', FdConnection_Read [RdData (wr_sent wfd' ++ $"more")] = Ret (Some p, fd') ∧ available fd' = $"more".
Proof.
  intros p.
  destruct (packet_roundtrip (mkWrFd [WrTake 10; WrTake 20; WrTake 2; WrTake 9] [])
    [RdData ((encode_msg (msg p) ++ $"abc") ++ $"more")] p $"more") as (ok & wfd' & Hw & Hr).
  - split; [|reflexivity]. unfold msg_ok, u32_ok. repeat split; by vm_compute.
  - vm_compute. discriminate.
  - reflexivity.
  - assert (Hc : Ret (ok, wfd') = Ret (true, mkWrFd [] (encode_msg (msg p) ++ $"abc"))).
    { rewrite <-Hw. reflexivity. }
    injection Hc as -> ->. eexists. split; [exact Hw|]. apply Hr; reflexivity.
Defined.
