(* ===== verification/Connection.v ===== *)
(** * The connection adapter and its threads
    (src/src/transport.cpp, transport.h: BlockingConnectionAdapter, ConnectionWaitable)

    A [BlockingConnectionAdapter] owns a read thread and a write thread, which
    share its fields with whoever calls [Start], [Write] and [Stop].  Each
    piece of the source that runs without another thread interfering (a
    critical section, a call of the underlying connection, a [call_once]) is
    one operation below; [conn_step] interleaves them. *)

From Stdlib Require Import ZArith Lia List Ascii String.
From stdpp Require Import base numbers list strings relations.
From S2P Require Import Prelude.
From S2P Require Import Packet.

(** ** State *)

(** Where the read thread is: in [Read], past the loop, or returned. *)
Inductive reader := RNone | RReading | RFailed | RExited.
(** The write thread: waiting on the condition variable, inside [Write] of a
    packet it took off the queue, past the loop, or returned. *)
Inductive writer := WNone | WWaiting | WSending (p : apacket) | WFailed | WExited.
(** A call of [Stop]: not made, past the first critical section (the underlying
    connection closed), past the joins, complete. *)
Inductive stopper := SNone | SClosing | SJoined | SDone.

Record BlockingConnectionAdapter := mkAdapter {
  started_ : bool;
  stopped_ : bool;
  write_queue_ : list apacket;
  read_thread_ : reader;
  write_thread_ : writer;
  stopping : stopper;
  error_flag_ : bool;
  (** What the connection has done: packets handed to [Write], packets the
      underlying connection sent, packets given to [read_callback_], errors
      given to [error_callback_]. *)
  accepted : list apacket;
  sent : list apacket;
  received : list apacket;
  errors : list string
}.

Definition adapter_new : BlockingConnectionAdapter :=
  mkAdapter false false [] RNone WNone SNone false [] [] [] [].

(** [std::call_once(error_flag_, error_callback_(this, why))]. *)
Definition call_error (why : string) (c : BlockingConnectionAdapter) : BlockingConnectionAdapter :=
  if error_flag_ c then c
  else mkAdapter (started_ c) (stopped_ c) (write_queue_ c) (read_thread_ c) (write_thread_ c)
         (stopping c) true (accepted c) (sent c) (received c) (errors c ++ [why]).

Definition with_read (r : reader) (c : BlockingConnectionAdapter) : BlockingConnectionAdapter :=
  mkAdapter (started_ c) (stopped_ c) (write_queue_ c) r (write_thread_ c)
    (stopping c) (error_flag_ c) (accepted c) (sent c) (received c) (errors c).
Definition with_write (w : writer) (c : BlockingConnectionAdapter) : BlockingConnectionAdapter :=
  mkAdapter (started_ c) (stopped_ c) (write_queue_ c) (read_thread_ c) w
    (stopping c) (error_flag_ c) (accepted c) (sent c) (received c) (errors c).
Definition with_stop (s : stopper) (c : BlockingConnectionAdapter) : BlockingConnectionAdapter :=
  mkAdapter (started_ c) (stopped_ c) (write_queue_ c) (read_thread_ c) (write_thread_ c)
    s (error_flag_ c) (accepted c) (sent c) (received c) (errors c).

(** ** The operations *)

Definition Start (c : BlockingConnectionAdapter) : outcome BlockingConnectionAdapter :=
  if started_ c then Abort "started multiple times"
  else Ret (mkAdapter true (stopped_ c) (write_queue_ c) RReading WWaiting (stopping c)
         (error_flag_ c) (accepted c) (sent c) (received c) (errors c)).

Definition Write (p : apacket) (c : BlockingConnectionAdapter) : bool * BlockingConnectionAdapter :=
  (true, mkAdapter (started_ c) (stopped_ c) (write_queue_ c ++ [p]) (read_thread_ c)
           (write_thread_ c) (stopping c) (error_flag_ c) (accepted c ++ [p]) (sent c)
           (received c) (errors c)).

(** The first critical section of [Stop], and the [Close] that follows it; the
    call returns at once when there is nothing to stop. *)
Definition Stop_enter (c : BlockingConnectionAdapter) : BlockingConnectionAdapter :=
  if negb (started_ c) then c
  else if stopped_ c then c
  else mkAdapter (started_ c) true (write_queue_ c) (read_thread_ c) (write_thread_ c)
         SClosing (error_flag_ c) (accepted c) (sent c) (received c) (errors c).

(** The joins return once both threads have. *)
Definition Stop_join (c : BlockingConnectionAdapter) : option BlockingConnectionAdapter :=
  match stopping c, read_thread_ c, write_thread_ c with
  | SClosing, RExited, WExited => Some (with_stop SJoined c)
  | _, _, _ => None
  end.

Definition Stop_finish (c : BlockingConnectionAdapter) : option BlockingConnectionAdapter :=
  match stopping c with
  | SJoined => Some (with_stop SDone (call_error "requested stop" c))
  | _ => None
  end.

(** One round of the read thread, on what [underlying_->Read] returns. *)
Definition read_round (result : option apacket) (c : BlockingConnectionAdapter) : option BlockingConnectionAdapter :=
  match read_thread_ c with
  | RReading =>
      Some match result with
           | Some p => mkAdapter (started_ c) (stopped_ c) (write_queue_ c) RReading (write_thread_ c)
                         (stopping c) (error_flag_ c) (accepted c) (sent c) (received c ++ [p]) (errors c)
           | None => with_read RFailed c
           end
  | _ => None
  end.
Definition read_exit (c : BlockingConnectionAdapter) : option BlockingConnectionAdapter :=
  match read_thread_ c with
  | RFailed => Some (with_read RExited (call_error "read failed" c))
  | _ => None
  end.

(** The critical section of the write thread: [None] while the wait goes on. *)
Definition write_take (c : BlockingConnectionAdapter) : option BlockingConnectionAdapter :=
  match write_thread_ c with
  | WWaiting =>
      if stopped_ c then Some (with_write WExited c)
      else match write_queue_ c with
           | [] => None
           | p :: queue =>
               Some (mkAdapter (started_ c) (stopped_ c) queue (read_thread_ c) (WSending p)
                 (stopping c) (error_flag_ c) (accepted c) (sent c) (received c) (errors c))
           end
  | _ => None
  end.
Definition write_send (ok : bool) (c : BlockingConnectionAdapter) : option BlockingConnectionAdapter :=
  match write_thread_ c with
  | WSending p =>
      Some (if ok
            then mkAdapter (started_ c) (stopped_ c) (write_queue_ c) (read_thread_ c) WWaiting
                   (stopping c) (error_flag_ c) (accepted c) (sent c ++ [p]) (received c) (errors c)
            else with_write WFailed c)
  | _ => None
  end.
Definition write_exit (c : BlockingConnectionAdapter) : option BlockingConnectionAdapter :=
  match write_thread_ c with
  | WFailed => Some (with_write WExited (call_error "write failed" c))
  | _ => None
  end.

(** Every interleaving of the callers and the two threads. *)
Inductive conn_step : BlockingConnectionAdapter → BlockingConnectionAdapter → Prop :=
| step_Start c c' : Start c = Ret c' → conn_step c c'
| step_Write p c : conn_step c (Write p c).2
| step_Stop_enter c : conn_step c (Stop_enter c)
| step_Stop_join c c' : Stop_join c = Some c' → conn_step c c'
| step_Stop_finish c c' : Stop_finish c = Some c' → conn_step c c'
| step_read r c c' : read_round r c = Some c' → conn_step c c'
| step_read_exit c c' : read_exit c = Some c' → conn_step c c'
| step_take c c' : write_take c = Some c' → conn_step c c'
| step_send ok c c' : write_send ok c = Some c' → conn_step c c'
| step_write_exit c c' : write_exit c = Some c' → conn_step c c'.

(** ** Invariant *)

(** The packet the write thread holds. *)
Definition in_hand (c : BlockingConnectionAdapter) : list apacket :=
  match write_thread_ c with WSending p => [p] | _ => [] end.

(** The threads exist once started. *)
Definition threads_ok (c : BlockingConnectionAdapter) : Prop :=
  if started_ c then read_thread_ c ≠ RNone ∧ write_thread_ c ≠ WNone
  else read_thread_ c = RNone ∧ write_thread_ c = WNone ∧ stopped_ c = false ∧ stopping c = SNone.

(** A packet is lost only by a failed write, which ends the thread. *)
Definition queue_ok (c : BlockingConnectionAdapter) : Prop :=
  match write_thread_ c with
  | WFailed | WExited => ∃ lost, accepted c = sent c ++ lost ++ write_queue_ c
  | _ => accepted c = sent c ++ in_hand c ++ write_queue_ c
  end.

Definition errors_ok (c : BlockingConnectionAdapter) : Prop :=
  length (errors c) = (if error_flag_ c then 1 else 0)%nat ∧
  (read_thread_ c = RExited → error_flag_ c = true).

Definition stop_ok (c : BlockingConnectionAdapter) : Prop :=
  match stopping c with
  | SNone => stopped_ c = false
  | SClosing => stopped_ c = true
  | SJoined | SDone => stopped_ c = true ∧ read_thread_ c = RExited ∧ write_thread_ c = WExited
  end.

Definition conn_inv (c : BlockingConnectionAdapter) : Prop :=
  threads_ok c ∧ queue_ok c ∧ errors_ok c ∧ stop_ok c.

Lemma conn_inv_new : conn_inv adapter_new.
Proof. by repeat split. Qed.

(** Opens the invariant of a connection given by its fields. *)
Ltac open_conn c :=
  let st := fresh "st" in let sp := fresh "sp" in let q := fresh "q" in let r := fresh "r" in
  let w := fresh "w" in let s := fresh "s" in let e := fresh "e" in let acc := fresh "acc" in
  let snt := fresh "snt" in let rcv := fresh "rcv" in let errs := fresh "errs" in
  destruct c as [st sp q r w s e acc snt rcv errs];
  unfold conn_inv, threads_ok, queue_ok, errors_ok, stop_ok, in_hand in *; simpl in *.

Lemma conn_inv_Start c c' : Start c = Ret c' → conn_inv c → conn_inv c'.
Proof.
  open_conn c. destruct st; [discriminate|]. intros [= <-] ((-> & -> & -> & ->) & Hq & (? & ?) & ?).
  simpl. naive_solver.
Qed.

Lemma conn_inv_Write p c : conn_inv c → conn_inv (Write p c).2.
Proof.
  open_conn c. intros (? & Hq & (? & ?) & ?). split_and!; try done.
  destruct w; try (rewrite Hq, <-?app_assoc; done);
    destruct Hq as [lost ->]; exists lost; by rewrite <-!app_assoc.
Qed.

Lemma conn_inv_Stop_enter c : conn_inv c → conn_inv (Stop_enter c).
Proof.
  unfold Stop_enter. open_conn c. destruct st; simpl; [|done]. destruct sp; simpl; [done|].
  intros (? & ? & (? & ?) & Hst). destruct s; naive_solver.
Qed.

Lemma conn_inv_Stop_join c c' : Stop_join c = Some c' → conn_inv c → conn_inv c'.
Proof.
  unfold Stop_join. open_conn c. destruct s, r, w; try discriminate.
  intros [= <-] (? & ? & ? & ?). simpl. destruct st; naive_solver.
Qed.

Lemma conn_inv_error why c : conn_inv c → conn_inv (call_error why c).
Proof.
  unfold call_error. open_conn c. destruct e; simpl; [done|].
  intros (? & ? & (? & ?) & ?). split_and!; try done. rewrite length_app. simpl. lia.
Qed.

Lemma conn_inv_Stop_finish c c' : Stop_finish c = Some c' → conn_inv c → conn_inv c'.
Proof.
  unfold Stop_finish. destruct (stopping c) eqn:Hs; try discriminate. intros [= <-] Hc.
  assert (stopping (call_error "requested stop" c) = SJoined) as Hj
    by (unfold call_error; by destruct (error_flag_ c)).
  apply (conn_inv_error "requested stop") in Hc. revert Hj Hc.
  generalize (call_error "requested stop" c). clear c Hs. intros c Hj. unfold with_stop.
  open_conn c. subst s. intros (? & ? & ? & ?). destruct st; naive_solver.
Qed.

Lemma conn_inv_read x c c' : read_round x c = Some c' → conn_inv c → conn_inv c'.
Proof.
  unfold read_round, with_read. open_conn c. destruct r; try discriminate.
  intros [= <-] (Ht & ? & (? & ?) & ?).
  destruct x, st; simpl in *; try naive_solver; destruct s; naive_solver.
Qed.

Lemma conn_inv_read_exit c c' : read_exit c = Some c' → conn_inv c → conn_inv c'.
Proof.
  unfold read_exit, with_read, call_error. open_conn c. destruct r; try discriminate.
  intros [= <-] (Ht & ? & (He & ?) & ?).
  destruct e, st, s; simpl in *; rewrite ?length_app; simpl; naive_solver lia.
Qed.

Lemma conn_inv_take c c' : write_take c = Some c' → conn_inv c → conn_inv c'.
Proof.
  unfold write_take, with_write. open_conn c. destruct w; try discriminate.
  destruct sp.
  - intros [= <-] (Ht & Hq & ? & ?). simpl. split_and!; try naive_solver.
    + destruct st; naive_solver.
    + by exists [].
    + destruct s; naive_solver.
  - destruct q as [|p q]; [discriminate|]. intros [= <-] (Ht & Hq & ? & ?). simpl.
    split_and!; try naive_solver; [destruct st; naive_solver | destruct s; naive_solver].
Qed.

Lemma conn_inv_send ok c c' : write_send ok c = Some c' → conn_inv c → conn_inv c'.
Proof.
  unfold write_send, with_write. open_conn c. destruct w as [| |p| |]; try discriminate.
  intros [= <-] (Ht & Hq & (? & ?) & ?).
  assert (Ht' : ∀ w', w' ≠ WNone → if st then r ≠ RNone ∧ w' ≠ WNone
    else r = RNone ∧ w' = WNone ∧ sp = false ∧ s = SNone) by (destruct st; naive_solver).
  destruct ok; simpl; (split; [by apply Ht'|]).
  - split; [by rewrite <-app_assoc|]. destruct s; naive_solver.
  - split; [by exists [p]|]. destruct s; naive_solver.
Qed.

Lemma conn_inv_write_exit c c' : write_exit c = Some c' → conn_inv c → conn_inv c'.
Proof.
  unfold write_exit. destruct (write_thread_ c) eqn:Hw; try discriminate. intros [= <-] Hc.
  assert (write_thread_ (call_error "write failed" c) = WFailed) as Hj
    by (unfold call_error; by destruct (error_flag_ c)).
  apply (conn_inv_error "write failed") in Hc. revert Hj Hc.
  generalize (call_error "write failed" c). clear c Hw. intros c Hj. unfold with_write.
  open_conn c. subst w. intros (? & ? & ? & ?). destruct st, s; naive_solver.
Qed.

Lemma conn_inv_step c c' : conn_step c c' → conn_inv c → conn_inv c'.
Proof.
  destruct 1; eauto using conn_inv_Start, conn_inv_Write, conn_inv_Stop_enter, conn_inv_Stop_join,
    conn_inv_Stop_finish, conn_inv_read, conn_inv_read_exit, conn_inv_take, conn_inv_send,
    conn_inv_write_exit.
Qed.

Lemma conn_inv_steps c c' : rtc conn_step c c' → conn_inv c → conn_inv c'.
Proof. induction 1; eauto using conn_inv_step. Qed.

(** C3: whatever the interleaving of [Start], [Write], [Stop] and the two
    threads, the packets the underlying connection sent are a prefix of the
    packets given to [Write], in that order; the error callback has been called
    at most once, and exactly once when a [Stop] has completed; and once the
    threads are joined nothing more is sent or received. *)
Theorem adapter_safe c c' :
  rtc conn_step adapter_new c → conn_step c c' →
  (∃ unsent, accepted c = sent c ++ unsent) ∧
  (length (errors c) ≤ 1)%nat ∧
  (stopping c = SDone → length (errors c) = 1%nat) ∧
  (stopping c = SJoined ∨ stopping c = SDone → sent c' = sent c ∧ received c' = received c).
Proof.
  intros Hr Hs. pose proof (conn_inv_steps _ _ Hr conn_inv_new) as Hc.
  destruct Hc as (Ht & Hq & (He & Hx) & Hst). split_and!.
  - unfold queue_ok in Hq. destruct (write_thread_ c); first [by eexists | destruct Hq as [lost Hq]; by eexists].
  - rewrite He. destruct (error_flag_ c); lia.
  - intros Hd. unfold stop_ok in Hst. rewrite Hd in Hst. destruct Hst as (_ & Hr' & _).
    by rewrite He, Hx.
  - intros Hd. unfold stop_ok, threads_ok in *.
    assert (read_thread_ c = RExited ∧ write_thread_ c = WExited) as [Hr' Hw'].
    { destruct Hd as [Hd|Hd]; rewrite Hd in Hst; naive_solver. }
    clear He Hx Hr. destruct Hs as [? ? H|? ?|?|? ? H|? ? H|? ? ? H|? ? H|? ? H|? ? ? H|? ? H];
      unfold Start, Stop_enter, Stop_join, Stop_finish, read_round, read_exit, write_take,
        write_send, write_exit, call_error in *; rewrite ?Hr', ?Hw' in *; try discriminate H;
      repeat (case_match; simplify_eq/=); done.
Qed.

Lemma adapter_safe_witness :
  let p := get_apacket in
  ∃ c, rtc conn_step adapter_new c ∧ sent c = [p] ∧ errors c = ["read failed"%string] ∧
    (∃ unsent, accepted c = sent c ++ unsent) ∧ (stopping c = SDone → length (errors c) = 1%nat).
Proof.
  intros p.
  set (c1 := mkAdapter true false [] RReading WWaiting SNone false [] [] [] []).
  set (c2 := mkAdapter true false [p] RReading WWaiting SNone false [p] [] [] []).
  set (c3 := mkAdapter true false [] RReading (WSending p) SNone false [p] [] [] []).
  set (c4 := mkAdapter true false [] RReading WWaiting SNone false [p] [p] [] []).
  set (c5 := mkAdapter true true [] RReading WWaiting SClosing false [p] [p] [] []).
  set (c6 := mkAdapter true true [] RFailed WWaiting SClosing false [p] [p] [] []).
  set (c7 := mkAdapter true true [] RExited WWaiting SClosing true [p] [p] [] ["read failed"%string]).
  set (c8 := mkAdapter true true [] RExited WExited SClosing true [p] [p] [] ["read failed"%string]).
  set (c9 := with_stop SJoined c8). set (c10 := with_stop SDone c8).
  assert (Hr : rtc conn_step adapter_new c10).
  { apply rtc_l with c1; [by apply step_Start|]. apply rtc_l with c2; [apply (step_Write p c1)|].
    apply rtc_l with c3; [by apply step_take|]. apply rtc_l with c4; [by apply (step_send true)|].
    apply rtc_l with c5; [apply (step_Stop_enter c4)|]. apply rtc_l with c6; [by apply (step_read None)|].
    apply rtc_l with c7; [by apply step_read_exit|]. apply rtc_l with c8; [by apply step_take|].
    apply rtc_l with c9; [by apply step_Stop_join|]. apply rtc_once. by apply step_Stop_finish. }
  exists c10. split; [done|]. split; [done|]. split; [done|].
  destruct (adapter_safe c10 _ Hr (step_Write p c10)) as (? & _ & ? & _). done.
Defined.

Lemma reader_can_exit c :
  read_thread_ c ≠ RNone →
  ∃ c', rtc conn_step c c' ∧ read_thread_ c' = RExited ∧
    write_thread_ c' = write_thread_ c ∧ stopping c' = stopping c ∧ stopped_ c' = stopped_ c.
Proof.
  intros Hr.
  assert (Hf : ∀ c, read_thread_ c = RFailed → ∃ c', rtc conn_step c c' ∧ read_thread_ c' = RExited ∧
    write_thread_ c' = write_thread_ c ∧ stopping c' = stopping c ∧ stopped_ c' = stopped_ c).
  { intros d Hd. exists (with_read RExited (call_error "read failed" d)). split.
    - apply rtc_once, step_read_exit. unfold read_exit. by rewrite Hd.
    - unfold call_error. by destruct (error_flag_ d). }
  destruct (read_thread_ c) eqn:E; [done| |by apply Hf|by exists c].
  destruct (Hf (with_read RFailed c)) as (c' & Hc' & ?); [done|].
  exists c'. split; [|done]. apply rtc_l with (with_read RFailed c); [|done].
  apply (step_read None). unfold read_round. by rewrite E.
Qed.

Lemma writer_can_exit c :
  write_thread_ c ≠ WNone → stopped_ c = true →
  ∃ c', rtc conn_step c c' ∧ write_thread_ c' = WExited ∧
    read_thread_ c' = read_thread_ c ∧ stopping c' = stopping c.
Proof.
  intros Hw Hs.
  assert (Hf : ∀ c, write_thread_ c = WFailed → ∃ c', rtc conn_step c c' ∧ write_thread_ c' = WExited ∧
    read_thread_ c' = read_thread_ c ∧ stopping c' = stopping c).
  { intros d Hd. exists (with_write WExited (call_error "write failed" d)). split.
    - apply rtc_once, step_write_exit. unfold write_exit. by rewrite Hd.
    - unfold call_error. by destruct (error_flag_ d). }
  destruct (write_thread_ c) as [| |p| |] eqn:E; [done| | |by apply Hf|by exists c].
  - exists (with_write WExited c). split; [|done].
    apply rtc_once, step_take. unfold write_take. by rewrite E, Hs.
  - destruct (Hf (with_write WFailed c)) as (c' & Hc' & ?); [done|].
    exists c'. split; [|done]. apply rtc_l with (with_write WFailed c); [|done].
    apply (step_send false). unfold write_send. by rewrite E.
Qed.



(** A [Stop] before [Start] does nothing: the connection runs afterwards. *)
Example Stop_before_Start c' :
  Start (Stop_enter adapter_new) = Ret c' → stopped_ c' = false ∧ read_thread_ c' = RReading.
Proof. intros [= <-]. done. Qed.

(** ** ConnectionWaitable *)

Record ConnectionWaitable := mkWaitable {
  connection_established_ : bool; connection_established_ready_ : bool
}.
Definition waitable_new : ConnectionWaitable := mkWaitable false false.

Definition Waitable_SetConnectionEstablished (success : bool) (w : ConnectionWaitable) : ConnectionWaitable :=
  if connection_established_ready_ w then w else mkWaitable success true.

(** What [WaitForConnection] returns in the state it wakes up in: the wait ends
    when the flag is ready, or with the timeout. *)
Definition WaitForConnection (w : ConnectionWaitable) : bool :=
  connection_established_ready_ w && connection_established_ w.

Lemma waitable_first success rest :
  WaitForConnection (fold_left (λ w b, Waitable_SetConnectionEstablished b w) (success :: rest) waitable_new) = success.
Proof.
  simpl. unfold Waitable_SetConnectionEstablished at 2. simpl.
  assert (∀ w, connection_established_ready_ w = true →
    fold_left (λ w b, Waitable_SetConnectionEstablished b w) rest w = w) as H.
  { induction rest as [|b rest IH]; intros w Hw; [done|]. simpl. unfold Waitable_SetConnectionEstablished at 2. rewrite Hw. by apply IH. }
  by rewrite H.
Qed.
