(* ===== verification/Transport.v ===== *)
(** * Transports: what a connected device is to the server
    (src/src/adb.h, transport.h, transport.cpp, adb.cpp; lib/diagnose_usb)

    The [atransport] record, feature sets, version negotiation, the matching of
    a client's request against the transports ([MatchesTarget],
    [acquire_one_transport]), the device listing, and the banner of the
    connection handshake. *)

From Stdlib Require Import ZArith Lia List Ascii String.
From stdpp Require Import base numbers list strings gmap sorting.
From S2P Require Import Prelude.
From S2P Require Import Libc.
From S2P Require Import Strings.
From S2P Require Import AdbIo.
From S2P Require Import Packet.
From S2P Require Import Connection.

(** ** Enumerations of adb.h *)

Inductive TransportType := kTransportUsb | kTransportLocal | kTransportAny | kTransportHost.

Inductive ConnectionState :=
| kCsAny | kCsConnecting | kCsAuthorizing | kCsUnauthorized | kCsNoPerm | kCsOffline
| kCsBootloader | kCsDevice | kCsHost | kCsRecovery | kCsSideload.

#[export] Instance TransportType_eq_dec : EqDecision TransportType.
Proof. solve_decision. Defined.
#[export] Instance ConnectionState_eq_dec : EqDecision ConnectionState.
Proof. solve_decision. Defined.

Definition ConnectionStateIsOnline (state : ConnectionState) : bool :=
  match state with
  | kCsBootloader | kCsDevice | kCsHost | kCsRecovery | kCsSideload => true
  | _ => false
  end.

(** The enumerators' values, for [x->type < y->type]. *)
Definition type_value (t : TransportType) : Z :=
  match t with kTransportUsb => 0 | kTransportLocal => 1 | kTransportAny => 2 | kTransportHost => 3 end.

(** ** Feature sets *)

#[export] Instance ascii_countable : Countable ascii.
Proof. refine (inj_countable' N_of_ascii ascii_of_N _). intros c. apply ascii_N_embedding. Defined.

Abbreviation FeatureSet := (gset bytes).

Definition kFeatureShell2 : bytes := $"shell_v2".
Definition kFeatureCmd : bytes := $"cmd".
Definition kFeatureStat2 : bytes := $"stat_v2".
Definition kFeatureLibusb : bytes := $"libusb".
Definition kFeaturePushSync : bytes := $"push_sync".

Definition supported_features : FeatureSet := {[ kFeatureShell2; kFeatureCmd; kFeatureStat2 ]}.

(** [android::base::Join] over an [unordered_set]: [names] is the order its
    iterator happens to visit the elements in. *)
Definition FeatureSetToString (names : list bytes) : bytes := Join names $",".

Definition StringToFeatureSet (features_string : bytes) : outcome FeatureSet :=
  if bool_decide (features_string = []) then Ret ∅
  else names ← Split features_string $","; Ret (list_to_set names).

Definition CanUseFeature (feature_set : FeatureSet) (feature : bytes) : bool :=
  bool_decide (feature ∈ feature_set) && bool_decide (feature ∈ supported_features).

(** ** class atransport

    [keys_] holds shared pointers to the private keys that are still to be tried,
    and the null pointer after the last.  [token] belongs to the daemon, and
    [reconnect_] to the environment of a reconnection. *)

Record atransport := mkTransport {
  id : Z;
  ref_count : Z;
  online : bool;
  type : TransportType;
  serial : bytes;
  product : bytes;
  model : bytes;
  device : bytes;
  devpath : bytes;
  failed_auth_attempts : Z;
  kicked_ : bool;
  features_ : FeatureSet;
  protocol_version : Z;
  max_payload : Z;
  connection_state_ : ConnectionState;
  connection_ : option BlockingConnectionAdapter;
  keys_ : list (option Z);
  connection_waitable_ : ConnectionWaitable
}.
Definition set_ref_count (v : Z) (t : atransport) : atransport :=
  mkTransport (id t) v (online t) (type t) (serial t) (product t) (model t) (device t) (devpath t) (failed_auth_attempts t) (kicked_ t) (features_ t) (protocol_version t) (max_payload t) (connection_state_ t) (connection_ t) (keys_ t) (connection_waitable_ t).
Definition set_online (v : bool) (t : atransport) : atransport :=
  mkTransport (id t) (ref_count t) v (type t) (serial t) (product t) (model t) (device t) (devpath t) (failed_auth_attempts t) (kicked_ t) (features_ t) (protocol_version t) (max_payload t) (connection_state_ t) (connection_ t) (keys_ t) (connection_waitable_ t).
Definition set_type (v : TransportType) (t : atransport) : atransport :=
  mkTransport (id t) (ref_count t) (online t) v (serial t) (product t) (model t) (device t) (devpath t) (failed_auth_attempts t) (kicked_ t) (features_ t) (protocol_version t) (max_payload t) (connection_state_ t) (connection_ t) (keys_ t) (connection_waitable_ t).
Definition set_serial (v : bytes) (t : atransport) : atransport :=
  mkTransport (id t) (ref_count t) (online t) (type t) v (product t) (model t) (device t) (devpath t) (failed_auth_attempts t) (kicked_ t) (features_ t) (protocol_version t) (max_payload t) (connection_state_ t) (connection_ t) (keys_ t) (connection_waitable_ t).
Definition set_product (v : bytes) (t : atransport) : atransport :=
  mkTransport (id t) (ref_count t) (online t) (type t) (serial t) v (model t) (device t) (devpath t) (failed_auth_attempts t) (kicked_ t) (features_ t) (protocol_version t) (max_payload t) (connection_state_ t) (connection_ t) (keys_ t) (connection_waitable_ t).
Definition set_model (v : bytes) (t : atransport) : atransport :=
  mkTransport (id t) (ref_count t) (online t) (type t) (serial t) (product t) v (device t) (devpath t) (failed_auth_attempts t) (kicked_ t) (features_ t) (protocol_version t) (max_payload t) (connection_state_ t) (connection_ t) (keys_ t) (connection_waitable_ t).
Definition set_device (v : bytes) (t : atransport) : atransport :=
  mkTransport (id t) (ref_count t) (online t) (type t) (serial t) (product t) (model t) v (devpath t) (failed_auth_attempts t) (kicked_ t) (features_ t) (protocol_version t) (max_payload t) (connection_state_ t) (connection_ t) (keys_ t) (connection_waitable_ t).
Definition set_devpath (v : bytes) (t : atransport) : atransport :=
  mkTransport (id t) (ref_count t) (online t) (type t) (serial t) (product t) (model t) (device t) v (failed_auth_attempts t) (kicked_ t) (features_ t) (protocol_version t) (max_payload t) (connection_state_ t) (connection_ t) (keys_ t) (connection_waitable_ t).
Definition set_failed_auth_attempts (v : Z) (t : atransport) : atransport :=
  mkTransport (id t) (ref_count t) (online t) (type t) (serial t) (product t) (model t) (device t) (devpath t) v (kicked_ t) (features_ t) (protocol_version t) (max_payload t) (connection_state_ t) (connection_ t) (keys_ t) (connection_waitable_ t).
Definition set_kicked_ (v : bool) (t : atransport) : atransport :=
  mkTransport (id t) (ref_count t) (online t) (type t) (serial t) (product t) (model t) (device t) (devpath t) (failed_auth_attempts t) v (features_ t) (protocol_version t) (max_payload t) (connection_state_ t) (connection_ t) (keys_ t) (connection_waitable_ t).
Definition set_features_ (v : FeatureSet) (t : atransport) : atransport :=
  mkTransport (id t) (ref_count t) (online t) (type t) (serial t) (product t) (model t) (device t) (devpath t) (failed_auth_attempts t) (kicked_ t) v (protocol_version t) (max_payload t) (connection_state_ t) (connection_ t) (keys_ t) (connection_waitable_ t).
Definition set_protocol_version (v : Z) (t : atransport) : atransport :=
  mkTransport (id t) (ref_count t) (online t) (type t) (serial t) (product t) (model t) (device t) (devpath t) (failed_auth_attempts t) (kicked_ t) (features_ t) v (max_payload t) (connection_state_ t) (connection_ t) (keys_ t) (connection_waitable_ t).
Definition set_max_payload (v : Z) (t : atransport) : atransport :=
  mkTransport (id t) (ref_count t) (online t) (type t) (serial t) (product t) (model t) (device t) (devpath t) (failed_auth_attempts t) (kicked_ t) (features_ t) (protocol_version t) v (connection_state_ t) (connection_ t) (keys_ t) (connection_waitable_ t).
Definition set_connection_state_ (v : ConnectionState) (t : atransport) : atransport :=
  mkTransport (id t) (ref_count t) (online t) (type t) (serial t) (product t) (model t) (device t) (devpath t) (failed_auth_attempts t) (kicked_ t) (features_ t) (protocol_version t) (max_payload t) v (connection_ t) (keys_ t) (connection_waitable_ t).
Definition set_connection_ (v : option BlockingConnectionAdapter) (t : atransport) : atransport :=
  mkTransport (id t) (ref_count t) (online t) (type t) (serial t) (product t) (model t) (device t) (devpath t) (failed_auth_attempts t) (kicked_ t) (features_ t) (protocol_version t) (max_payload t) (connection_state_ t) v (keys_ t) (connection_waitable_ t).
Definition set_keys_ (v : list (option Z)) (t : atransport) : atransport :=
  mkTransport (id t) (ref_count t) (online t) (type t) (serial t) (product t) (model t) (device t) (devpath t) (failed_auth_attempts t) (kicked_ t) (features_ t) (protocol_version t) (max_payload t) (connection_state_ t) (connection_ t) v (connection_waitable_ t).
Definition set_connection_waitable_ (v : ConnectionWaitable) (t : atransport) : atransport :=
  mkTransport (id t) (ref_count t) (online t) (type t) (serial t) (product t) (model t) (device t) (devpath t) (failed_auth_attempts t) (kicked_ t) (features_ t) (protocol_version t) (max_payload t) (connection_state_ t) (connection_ t) (keys_ t) v.

(** The constructor; [new_id] is what [NextTransportId] returned. *)
Definition atransport_new (new_id : Z) (state : ConnectionState) : atransport :=
  mkTransport new_id 0 false kTransportAny [] [] [] [] [] 0 false ∅ A_VERSION_MIN MAX_PAYLOAD state None [] waitable_new.

Definition IsTcpDevice (t : atransport) : bool := bool_decide (type t = kTransportLocal).
Definition serial_name (t : atransport) : bytes :=
  if bool_decide (serial t = []) then $"<unknown>" else serial t.

Definition GetConnectionState (t : atransport) : ConnectionState := connection_state_ t.
Definition SetConnectionState (state : ConnectionState) (t : atransport) : atransport :=
  set_connection_state_ state t.
Definition SetConnectionEstablished (success : bool) (t : atransport) : atransport :=
  set_connection_waitable_ (Waitable_SetConnectionEstablished success (connection_waitable_ t)) t.

(** [version] arrives as an [unsigned] and is converted to [int]. *)
Definition update_version (version payload : Z) (t : atransport) : atransport :=
  set_max_payload (Z.min payload MAX_PAYLOAD)
    (set_protocol_version (Z.min (s32 version) A_VERSION) t).

Definition has_feature (feature : bytes) (t : atransport) : bool :=
  bool_decide (feature ∈ features_ t).
Definition SetFeatures (features_string : bytes) (t : atransport) : outcome atransport :=
  f ← StringToFeatureSet features_string; Ret (set_features_ f t).

(** ** Matching a request *)

(** [*ptr++] over a C string that starts [to_test.c_str()]. *)
Definition deref (ptr : bytes) : outcome (ascii * bytes) :=
  match ptr with c :: ptr => Ret (c, ptr) | [] => Abort "read past the end of a string" end.

(** The two loops of [qual_match]; [Some ptr] when they fall through. *)
Fixpoint match_prefix (prefix ptr : bytes) : outcome (option bytes) :=
  match prefix with
  | [] => Ret (Some ptr)
  | p :: prefix =>
      '(c, ptr) ← deref ptr;
      if negb (char_eqb p c) then Ret None else match_prefix prefix ptr
  end.

Definition sanitized (sanitize_qual : bool) (ch : ascii) : ascii :=
  if sanitize_qual && negb (isalnum ch) then "_"%char else ch.

Fixpoint match_qual (sanitize_qual : bool) (qual ptr : bytes) : outcome (option bytes) :=
  match qual with
  | [] => Ret (Some ptr)
  | ch :: qual =>
      '(c, ptr) ← deref ptr;
      if negb (char_eqb (sanitized sanitize_qual ch) c) then Ret None
      else match_qual sanitize_qual qual ptr
  end.

Definition qual_match (to_test prefix qual : bytes) (sanitize_qual : bool) : outcome bool :=
  if bool_decide (to_test = []) then Ret (bool_decide (qual = []))
  else if bool_decide (qual = []) then Ret false
  else
    ptr ← match_prefix (c_str prefix) (to_test ++ [NUL]);
    match ptr with
    | None => Ret false
    | Some ptr =>
        ptr ← match_qual sanitize_qual qual ptr;
        match ptr with
        | None => Ret false
        | Some ptr => '(c, _) ← deref ptr; Ret (char_eqb c NUL)
        end
    end.

(** The part of [MatchesTarget] for a transport with a serial. *)
Definition matches_serial (t : atransport) (target : bytes) : outcome bool :=
  if bool_decide (target = serial t) then Ret true
  else if bool_decide (type t = kTransportLocal) then
    let local_target :=
      if StartsWith target $"tcp:" || StartsWith target $"udp:" then drop 4 (c_str target)
      else c_str target in
    r ← ParseNetAddress (serial t) (-1);
    match r with
    | inl _ => Ret false
    | inr s =>
        r ← ParseNetAddress local_target (na_port s);
        match r with
        | inl _ => Ret false
        | inr g => Ret (bool_decide (na_host s = na_host g) && (na_port s =? na_port g))
        end
    end
  else Ret false.

Definition MatchesTarget (t : atransport) (target : bytes) : outcome bool :=
  m ← (if bool_decide (serial t = []) then Ret false else matches_serial t target);
  if (m : bool) then Ret true
  else if bool_decide (target = devpath t) then Ret true
  else
    m ← qual_match target $"product:" (product t) false;
    if (m : bool) then Ret true
    else
      m ← qual_match target $"model:" (model t) true;
      if (m : bool) then Ret true
      else qual_match target $"device:" (device t) false.

(** ** Help texts of lib/diagnose_usb; [problem] is what [GetUdevProblem] found *)

Definition kPermissionsHelpUrl : bytes := $"http://developer.android.com/tools/device.html".
Definition UsbNoPermissionsShortHelpText (problem : bytes) : bytes :=
  let help_text := $"no permissions" ++
    (if bool_decide (problem = []) then [] else $" (" ++ problem ++ $")") in
  c_str help_text ++ $"; see [" ++ kPermissionsHelpUrl ++ $"]".
Definition UsbNoPermissionsLongHelpText (problem : bytes) : bytes :=
  let header := $"insufficient permissions for device" ++
    (if bool_decide (problem = []) then [] else $": " ++ problem) in
  c_str header ++ [of_cval 10] ++ $"See [" ++ kPermissionsHelpUrl ++ $"] for more information".

(** ** acquire_one_transport *)

Inductive want :=
| WantId (transport_id : Z)
| WantSerial (serial : bytes)
| WantType (ty : TransportType).

(** Which of its three arguments the function goes by. *)
Definition wanted (ty : TransportType) (serial : option bytes) (transport_id : Z) : want :=
  if negb (transport_id =? 0) then WantId transport_id
  else match serial with Some s => WantSerial s | None => WantType ty end.

Definition initial_error (w : want) : bytes :=
  match w with
  | WantId i => $"no device with transport id '" ++ print_dec i ++ $"'"
  | WantSerial s => $"device '" ++ c_str s ++ $"' not found"
  | WantType kTransportLocal => $"no emulators found"
  | WantType kTransportAny => $"no devices/emulators found"
  | WantType _ => $"no devices found"
  end.

(** Does the loop take this transport?  It is also the branch that says how an
    ambiguity is reported. *)
Definition wants (w : want) (t : atransport) : outcome bool :=
  match w with
  | WantId i => Ret (id t =? i)
  | WantSerial s => MatchesTarget t (c_str s)
  | WantType ty =>
      Ret (bool_decide (ty = kTransportAny) ||
        ((bool_decide (ty = kTransportUsb) || bool_decide (ty = kTransportLocal)) &&
         bool_decide (type t = ty)))
  end.
Definition ambiguous_error (w : want) : bytes :=
  match w with
  | WantType kTransportLocal => $"more than one emulator"
  | WantType kTransportAny => $"more than one device/emulator"
  | _ => $"more than one device"
  end.

(** [A] is what the list holds, [obj] the transport that a member is. *)
Record acquired (A : Type) := mkAcquired {
  aq_result : option A; aq_ambiguous : bool; aq_error : bytes
}.
Arguments mkAcquired {_}.
Arguments aq_result {_}.
Arguments aq_ambiguous {_}.
Arguments aq_error {_}.

Section acquire.
Context {A : Type} (obj : A → atransport).

(** The loop over [transport_list]; a transport id stops at the first match. *)
Fixpoint acquire_loop (w : want) (problem : bytes) (ts : list A) (st : acquired A) : outcome (acquired A) :=
  match ts with
  | [] => Ret st
  | t :: ts =>
      if bool_decide (connection_state_ (obj t) = kCsNoPerm) then
        acquire_loop w problem ts
          (mkAcquired (aq_result st) (aq_ambiguous st) (UsbNoPermissionsLongHelpText problem))
      else
        m ← wants w (obj t);
        if negb (m : bool) then acquire_loop w problem ts st
        else match w, aq_result st with
             | WantId _, _ => Ret (mkAcquired (Some t) (aq_ambiguous st) (aq_error st))
             | _, Some _ => Ret (mkAcquired None true (ambiguous_error w))
             | _, None => acquire_loop w problem ts (mkAcquired (Some t) (aq_ambiguous st) (aq_error st))
             end
  end.

Definition unauthorized_error (vendor_keys : option bytes) : bytes :=
  $"device unauthorized." ++ [of_cval 10] ++
  $"This adb server's $ADB_VENDOR_KEYS is " ++ default $"not set" (c_str <$> vendor_keys) ++
  [of_cval 10] ++ $"Try 'adb kill-server' if that seems wrong." ++ [of_cval 10] ++
  $"Otherwise check for a confirmation dialog on your device.".

(** Why a transport in this state cannot be used, if it cannot. *)
Definition inactive_error (vendor_keys : option bytes) (state : ConnectionState) : option bytes :=
  match state with
  | kCsConnecting => Some $"device still connecting"
  | kCsAuthorizing => Some $"device still authorizing"
  | kCsUnauthorized => Some (unauthorized_error vendor_keys)
  | kCsOffline => Some $"device offline"
  | _ => None
  end.

Definition acquire_one_transport (vendor_keys : option bytes) (problem : bytes)
    (transport_list : list A) (ty : TransportType) (serial : option bytes)
    (transport_id : Z) (accept_any_state : bool) : outcome (acquired A) :=
  let w := wanted ty serial transport_id in
  st ← acquire_loop w problem transport_list (mkAcquired None false (initial_error w));
  let st :=
    match aq_result st with
    | Some t =>
        if accept_any_state then st
        else match inactive_error vendor_keys (connection_state_ (obj t)) with
             | Some e => mkAcquired None (aq_ambiguous st) e
             | None => st
             end
    | None => st
    end in
  Ret (match aq_result st with
       | Some _ => mkAcquired (aq_result st) (aq_ambiguous st) $"success"
       | None => st
       end).
End acquire.

(** ** The device listing *)

Definition connection_state_name (problem : bytes) (t : atransport) : bytes :=
  match connection_state_ t with
  | kCsOffline => $"offline"
  | kCsBootloader => $"bootloader"
  | kCsDevice => $"device"
  | kCsHost => $"host"
  | kCsRecovery => $"recovery"
  | kCsNoPerm => UsbNoPermissionsShortHelpText problem
  | kCsSideload => $"sideload"
  | kCsUnauthorized => $"unauthorized"
  | kCsAuthorizing => $"authorizing"
  | kCsConnecting => $"connecting"
  | kCsAny => $"unknown"
  end.

Definition newline : ascii := of_cval 10.

Definition sanitize (str : bytes) (alphanumeric : bool) : bytes :=
  if alphanumeric then (λ c, if isalnum c then c else "_"%char) <$> str
  else (λ c, if char_eqb c newline then "_"%char else c) <$> str.

Definition append_transport_info (result key value : bytes) (alphanumeric : bool) : bytes :=
  if bool_decide (value = []) then result
  else result ++ $" " ++ key ++ sanitize value alphanumeric.

(** [%-22s]. *)
Definition pad_right (w : nat) (s : bytes) : bytes := s ++ replicate (w - length s) " "%char.

Definition append_transport (problem : bytes) (t : atransport) (result : bytes) (long_listing : bool) : bytes :=
  let serial := if bool_decide (serial t = []) then $"(no serial number)" else serial t in
  (if negb long_listing then
     result ++ serial ++ [of_cval 9] ++ connection_state_name problem t
   else
     let result := result ++ pad_right 22 (c_str serial) ++ $" " ++ c_str (connection_state_name problem t) in
     let result := append_transport_info result [] (devpath t) false in
     let result := append_transport_info result $"product:" (product t) false in
     let result := append_transport_info result $"model:" (model t) true in
     let result := append_transport_info result $"device:" (device t) false in
     result ++ $" transport_id:" ++ print_dec (id t)) ++ [newline].

(** [std::string]'s [operator<]: [char_traits<char>] compares as [unsigned char]. *)
Fixpoint bytes_ltb (a b : bytes) : bool :=
  match a, b with
  | _, [] => false
  | [], _ => true
  | x :: a, y :: b => if cval x <? cval y then true else if cval y <? cval x then false else bytes_ltb a b
  end.

Definition transport_ltb (x y : atransport) : bool :=
  if negb (bool_decide (type x = type y)) then type_value (type x) <? type_value (type y)
  else bytes_ltb (serial x) (serial y).

(** [std::list::sort], a stable sort by [comp]. *)
Fixpoint sort_insert {A} (comp : A → A → bool) (x : A) (l : list A) : list A :=
  match l with
  | [] => [x]
  | y :: l => if comp y x then y :: sort_insert comp x l else x :: y :: l
  end.
Definition list_sort {A} (comp : A → A → bool) (l : list A) : list A := foldr (sort_insert comp) [] l.

Definition list_transports (problem : bytes) (transport_list : list atransport) (long_listing : bool) : bytes :=
  fold_left (λ result t, append_transport problem t result long_listing)
    (list_sort transport_ltb transport_list) [].

(** ** The banner of the handshake *)

(** [cnxn_props] and their values; the host sends none. *)
Definition get_connection_string (adb_device_banner : bytes) (cnxn_props : list (bytes * bytes))
    (feature_names : list bytes) : bytes :=
  let connection_properties :=
    ((λ '(prop, value), prop ++ $"=" ++ value) <$> cnxn_props) ++
    [$"features=" ++ c_str (FeatureSetToString feature_names)] in
  c_str adb_device_banner ++ $"::" ++ c_str (Join connection_properties $";").

Definition parse_property (prop : bytes) (t : atransport) : outcome atransport :=
  if bool_decide (prop = []) then Ret t
  else
    key_value ← Split prop $"=";
    match key_value with
    | [key; value] =>
        if bool_decide (key = $"ro.product.name") then Ret (set_product value t)
        else if bool_decide (key = $"ro.product.model") then Ret (set_model value t)
        else if bool_decide (key = $"ro.product.device") then Ret (set_device value t)
        else if bool_decide (key = $"features") then SetFeatures value t
        else Ret t
    | _ => Ret t
    end.

Fixpoint parse_properties (props : list bytes) (t : atransport) : outcome atransport :=
  match props with
  | [] => Ret t
  | prop :: props => t ← parse_property prop t; parse_properties props t
  end.

Definition banner_state (ty : bytes) : ConnectionState :=
  if bool_decide (ty = $"bootloader") then kCsBootloader
  else if bool_decide (ty = $"device") then kCsDevice
  else if bool_decide (ty = $"recovery") then kCsRecovery
  else if bool_decide (ty = $"sideload") then kCsSideload
  else kCsHost.

Definition parse_banner (banner : bytes) (t : atransport) : outcome atransport :=
  pieces ← Split banner $":";
  t ← SetFeatures [] t;
  t ← (match pieces !! 2%nat with
       | Some props => ps ← Split props $";"; parse_properties ps t
       | None => Ret t
       end);
  Ret (SetConnectionState (banner_state (default [] (pieces !! 0%nat))) t).

(** Examples. *)
Example parse_banner_ex :
  (λ t, (product t, model t, connection_state_ t, bool_decide (features_ t = {[$"cmd"; $"shell_v2"]}))) <$>
    parse_banner $"device::ro.product.name=x;ro.product.model=y;features=shell_v2,cmd" (atransport_new 1 kCsOffline)
  = Ret ($"x", $"y", kCsDevice, true).
Proof. vm_compute. reflexivity. Qed.

(** ** Matching *)

Lemma match_prefix_spec prefix s rest :
  nul_free prefix → nul_free s →
  match_prefix prefix (s ++ NUL :: rest) =
    Ret (if decide (take (length prefix) s = prefix) then Some (drop (length prefix) s ++ NUL :: rest) else None).
Proof.
  revert s. induction prefix as [|p prefix IH]; intros s Hp Hs; simpl.
  { by rewrite drop_0. }
  unfold nul_free in *. rewrite not_elem_of_cons in Hp. destruct Hp as [Hp1 Hp2].
  destruct s as [|c s]; simpl.
  - destruct (char_eqb_spec p NUL); [congruence|]. done.
  - rewrite not_elem_of_cons in Hs. destruct Hs as [Hs1 Hs2].
    destruct (char_eqb_spec p c) as [->|Hne]; simpl.
    + rewrite IH by done. repeat case_decide; congruence.
    + case_decide; congruence.
Qed.

Lemma sanitized_nul b c : c ≠ NUL → sanitized b c ≠ NUL.
Proof. unfold sanitized. by destruct (b && _)%bool. Qed.

Lemma match_qual_spec b qual ptr :
  match_qual b qual ptr = match_prefix (sanitized b <$> qual) ptr.
Proof.
  revert ptr. induction qual as [|c qual IH]; intros ptr; [done|]. simpl.
  destruct ptr as [|d ptr]; [done|]. simpl. by destruct (char_eqb _ d); simpl.
Qed.

Lemma nul_free_sanitized b q : nul_free q → nul_free (sanitized b <$> q).
Proof.
  unfold nul_free. intros Hq Hin. apply list_elem_of_fmap in Hin as (c & Hc & Hin).
  apply (sanitized_nul b c); [by intros ->|done].
Qed.

Lemma qual_match_Ret to_test prefix qual san :
  nul_free to_test → nul_free prefix → nul_free qual →
  qual_match to_test prefix qual san =
    Ret (bool_decide (to_test = [] ∧ qual = [] ∨
                      to_test ≠ [] ∧ qual ≠ [] ∧ to_test = prefix ++ (sanitized san <$> qual))).
Proof.
  intros Ht Hp Hq. unfold qual_match.
  case_bool_decide as He; [f_equal; apply bool_decide_ext; naive_solver|].
  case_bool_decide as Hqe; [f_equal; symmetry; apply bool_decide_eq_false; naive_solver|].
  rewrite c_str_id by done.
  rewrite match_prefix_spec by done. cbn [mbind outcome_bind].
  destruct (decide (take (length prefix) to_test = prefix)) as [H1|H1].
  - rewrite match_qual_spec, match_prefix_spec by auto using nul_free_sanitized, nul_free_drop.
    cbn [mbind outcome_bind].
    destruct (decide (take _ (drop _ _) = _)) as [H2|H2].
    + destruct (drop (length (sanitized san <$> qual)) (drop (length prefix) to_test)) as [|c rest] eqn:H3; simpl.
      * rewrite char_eqb_refl. f_equal. symmetry. apply bool_decide_eq_true. right. split_and!; try done.
        rewrite <-H1 at 1. rewrite <-H2, <-(take_drop (length prefix) to_test) at 1. f_equal.
        rewrite <-(take_drop (length (sanitized san <$> qual)) (drop (length prefix) to_test)) at 1.
        by rewrite H3, app_nil_r.
      * assert (c ≠ NUL) as Hc.
        { intros ->. assert (nul_free (NUL :: rest)) as Hn by (rewrite <-H3; auto using nul_free_drop).
          apply Hn. by left. }
        destruct (char_eqb_spec c NUL); [done|]. f_equal. symmetry. apply bool_decide_eq_false.
        intros [[? ?]|(_ & _ & ->)]; [done|]. rewrite drop_app_length, drop_all in H3. done.
    + f_equal. symmetry. apply bool_decide_eq_false.
      intros [[? ?]|(_ & _ & ->)]; [done|]. rewrite drop_app_length, firstn_all in H2. done.
  - f_equal. symmetry. apply bool_decide_eq_false.
    intros [[? ?]|(_ & _ & ->)]; [done|]. by rewrite take_app_length in H1.
Qed.

(** What the banner leaves in a transport holds no NUL. *)
Definition names_ok (t : atransport) : Prop :=
  nul_free (product t) ∧ nul_free (model t) ∧ nul_free (device t).

(** A NUL in a name runs the comparison past the end of the request. *)
Example qual_match_overread : qual_match $"product:" $"product:" [NUL] false = Abort "read past the end of a string".
Proof. reflexivity. Qed.

Lemma ParseNetAddress_total a p : ∃ r, ParseNetAddress a p = Ret r.
Proof.
  unfold ParseNetAddress, split_address.
  repeat (case_match; simpl; try (by eexists)); try (rewrite Split_pieces by done; simpl);
    repeat (case_match; simpl; try (by eexists)).
Qed.

Lemma ParseNetAddress_host host p :
  ":"%char ∉ host → host ≠ [] → head host ≠ Some "["%char →
  ∃ c, ParseNetAddress host p = Ret (inr (mkNetAddress host p c)).
Proof.
  intros Hc Hne Hhd. unfold ParseNetAddress, split_address.
  destruct (char_eqb_spec (default NUL (head host)) "[") as [He|_].
  { destruct host; [done|]. simpl in *. congruence. }
  rewrite (count_0 ":" host) by done. simpl (2 <=? 0). rewrite andb_false_r.
  cbn [andb Z.leb Z.compare]. rewrite Split_pieces by done. change ($":") with [":"%char].
  replace (pieces [":"%char] host) with [host].
  2:{ symmetry. rewrite <-(app_nil_r host) at 1. rewrite pieces_free_app by (by apply free_of_one).
      simpl. by rewrite app_nil_r. }
  cbn. rewrite bool_decide_eq_false_2 by done. by eexists.
Qed.

Lemma StartsWith_four p s :
  length p = 4%nat → nul_free p → nul_free s → StartsWith (p ++ s) p = true.
Proof.
  intros _ Hp Hs. apply StartsWith_spec; [by apply nul_free_app|done|by eexists].
Qed.

Lemma StartsWith_no_colon s p :
  nul_free s → nul_free p → ":"%char ∉ s → ":"%char ∈ p → StartsWith s p = false.
Proof.
  intros Hs Hp Hc Hin. destruct (StartsWith s p) eqn:E; [|done].
  apply StartsWith_spec in E as [k ->]; [|done|done]. rewrite not_elem_of_app in Hc. naive_solver.
Qed.

(** The address part of a target, as a client may write it. *)
Definition address_form (host : bytes) (port : Z) (target : bytes) : Prop :=
  target = host ∨ target = canonical false host port.

Lemma address_form_parse host port target :
  nul_free host → host ≠ [] → ":"%char ∉ host → head host ≠ Some "["%char → 1 ≤ port ≤ 65535 →
  address_form host port target →
  nul_free target ∧ ∃ c, ParseNetAddress target port = Ret (inr (mkNetAddress host port c)).
Proof.
  intros Hn Hne Hc Hhd Hp [->| ->]; [by eauto using ParseNetAddress_host|]. split.
  - unfold canonical. apply nul_free_app. split; [done|]. unfold nul_free. rewrite not_elem_of_cons.
    split; [done|]. apply print_dec_nul_free. lia.
  - eexists. apply (ParseNetAddress_canonical_Ret false host port port); done.
Qed.

(** A network transport answers to the names its header promises: its own
    serial, its host alone, and either of them behind [tcp:] or [udp:]. *)
Theorem MatchesTarget_network t host port target :
  type t = kTransportLocal → serial t = canonical false host port →
  nul_free host → host ≠ [] → ":"%char ∉ host → head host ≠ Some "["%char → 1 ≤ port ≤ 65535 →
  address_form host port target →
  MatchesTarget t target = Ret true ∧ MatchesTarget t ($"tcp:" ++ target) = Ret true ∧
  MatchesTarget t ($"udp:" ++ target) = Ret true.
Proof.
  intros Hty Hs Hn Hne Hc Hhd Hp Hf.
  destruct (address_form_parse host port target) as [Hnt [c Hpt]]; try done.
  assert (Hser : ∃ c, ParseNetAddress (serial t) (-1) = Ret (inr (mkNetAddress host port c))).
  { eexists. rewrite Hs. by apply (ParseNetAddress_canonical_Ret false host port (-1)). }
  destruct Hser as [cs Hser].
  assert (Hne' : serial t ≠ []) by (rewrite Hs; unfold canonical; by destruct host).
  assert (Hgo : ∀ local_target, ParseNetAddress local_target port = Ret (inr (mkNetAddress host port c)) →
    ∀ target', (if StartsWith target' $"tcp:" || StartsWith target' $"udp:" then drop 4 (c_str target')
      else c_str target') = local_target → MatchesTarget t target' = Ret true).
  { intros lt Hlt target' Ht'. unfold MatchesTarget, matches_serial.
    rewrite (bool_decide_eq_false_2 (serial t = [])), (bool_decide_eq_true_2 (type t = _)) by done.
    destruct (bool_decide (target' = serial t)); [done|]. rewrite Ht', Hser. cbn [mbind outcome_bind na_port]. rewrite Hlt.
    cbn [mbind outcome_bind na_port na_host]. by rewrite bool_decide_eq_true_2, Z.eqb_refl. }
  assert (Hpre : ∀ p, (p = $"tcp:" ∨ p = $"udp:") → MatchesTarget t (p ++ target) = Ret true).
  { intros p Hp'. apply (Hgo target Hpt).
    assert (length p = 4%nat ∧ nul_free p) as [Hl Hnp].
    { destruct Hp' as [->| ->]; (split; [done|]); intros Hin; apply list_elem_of_In in Hin;
        by repeat destruct Hin as [Hin|Hin]. }
    replace (StartsWith (p ++ target) $"tcp:" || StartsWith (p ++ target) $"udp:")%bool with true.
    - rewrite c_str_id by (by apply nul_free_app). rewrite <-Hl. apply drop_app_length.
    - symmetry. apply orb_true_iff. destruct Hp' as [->| ->]; [left|right]; by apply StartsWith_four. }
  split; [|split; apply Hpre; tauto].
  destruct Hf as [->| ->].
  - apply (Hgo host Hpt). rewrite !StartsWith_no_colon by
      (done || (intros Hin; apply list_elem_of_In in Hin; by repeat destruct Hin as [Hin|Hin])
       || (apply list_elem_of_In; simpl; tauto)). simpl. by apply c_str_id.
  - unfold MatchesTarget, matches_serial. rewrite <-Hs.
    rewrite (bool_decide_eq_false_2 (serial t = [])) by done.
    by rewrite (bool_decide_eq_true_2 (serial t = serial t)).
Qed.

Lemma MatchesTarget_network_witness :
  let t := set_type kTransportLocal (set_serial $"10.0.0.2:5555" (atransport_new 1 kCsDevice)) in
  MatchesTarget t $"10.0.0.2" = Ret true ∧ MatchesTarget t $"tcp:10.0.0.2" = Ret true ∧
  MatchesTarget t $"udp:10.0.0.2" = Ret true.
Proof.
  intros t. apply (MatchesTarget_network t $"10.0.0.2" 5555 $"10.0.0.2"); try done; try lia.
  - intros H. apply list_elem_of_In in H. by repeat destruct H as [H|H].
  - intros H. apply list_elem_of_In in H. by repeat destruct H as [H|H].
  - by left.
Defined.

(** ** acquire_one_transport *)

Lemma MatchesTarget_total t target :
  names_ok t → nul_free target → ∃ b, MatchesTarget t target = Ret b.
Proof.
  intros (Hp & Hm & Hd) Ht. unfold MatchesTarget.
  assert (∃ b, (if bool_decide (serial t = []) then Ret false else matches_serial t target) = Ret b) as [b ->].
  { case_bool_decide; [by eexists|]. unfold matches_serial.
    destruct (bool_decide _); [by eexists|]. destruct (bool_decide _); [|by eexists].
    destruct (ParseNetAddress_total (serial t) (-1)) as [[e|s] ->]; cbn [mbind outcome_bind]; [by eexists|].
    match goal with |- context [ParseNetAddress ?a ?p] =>
      destruct (ParseNetAddress_total a p) as [[e|g] ->] end; cbn [mbind outcome_bind]; by eexists. }
  cbn [mbind outcome_bind]. destruct b; [by eexists|]. destruct (bool_decide _); [by eexists|].
  assert (∀ p, p ∈ [$"product:"; $"model:"; $"device:"] → nul_free p) as Hn.
  { apply Forall_forall. repeat constructor; by apply nul_free_b. }
  rewrite !qual_match_Ret by (try done; apply Hn; set_solver).
  cbn [mbind outcome_bind]. destruct (bool_decide _); [by eexists|].
  cbn [mbind outcome_bind]. destruct (bool_decide _); by eexists.
Qed.

(** The transports a request designates, by the reading of [acquire_one_transport]. *)
Definition candidate (w : want) (t : atransport) : Prop :=
  connection_state_ t ≠ kCsNoPerm ∧ wants w t = Ret true.
#[export] Instance outcome_bool_eq_dec : EqDecision (outcome bool).
Proof. solve_decision. Defined.
#[export] Instance candidate_dec w t : Decision (candidate w t).
Proof. unfold candidate. apply _. Defined.

Lemma wants_total w t : names_ok t → ∃ b, wants w t = Ret b.
Proof.
  intros Ht. destruct w; simpl; try by eexists.
  apply MatchesTarget_total; [done|apply c_str_nul_free].
Qed.

Definition by_id (w : want) : bool := match w with WantId _ => true | _ => false end.

Section acquiring.
Context {A : Type} (obj : A → atransport).

(** The reference: a transport id designates the first transport that has it;
    any other request must designate exactly one. *)
Definition designated (w : want) (ts : list A) : list A := filter (λ t, candidate w (obj t)) ts.
Definition chosen (w : want) (ts : list A) : option A :=
  match designated w ts with
  | [] => None
  | [t] => Some t
  | t :: _ => if by_id w then Some t else None
  end.

Definition acquire_spec (w : want) (st : acquired A) (ts : list A) (r : acquired A) : Prop :=
  let all := option_list (aq_result st) ++ designated w ts in
  aq_result r = match all with [] => None | [t] => Some t | t :: _ => if by_id w then Some t else None end ∧
  aq_ambiguous r = aq_ambiguous st || (negb (by_id w) && bool_decide (2 ≤ length all)%nat) ∧
  (aq_error st ≠ $"success" → aq_error r ≠ $"success").

Lemma acquire_loop_spec w problem ts st :
  Forall (λ t, names_ok (obj t)) ts → (by_id w = true → aq_result st = None) →
  ∃ r, acquire_loop obj w problem ts st = Ret r ∧ acquire_spec w st ts r.
Proof.
  intros Hts. revert st. induction Hts as [|t ts Ht Hts IH]; intros st Hst; simpl.
  { exists st. split; [done|]. unfold acquire_spec, designated. simpl. rewrite app_nil_r.
    destruct (aq_result st); simpl; rewrite andb_false_r, orb_false_r; by split_and!. }
  case_bool_decide as Hno.
  { destruct (IH (mkAcquired (aq_result st) (aq_ambiguous st) (UsbNoPermissionsLongHelpText problem)) Hst)
      as (r & -> & Hr). exists r. split; [done|]. unfold acquire_spec, designated in *. simpl in *.
    rewrite filter_cons_False by (by intros [? _]).
    destruct Hr as (? & ? & He). split_and!; try done. intros _. apply He.
    unfold UsbNoPermissionsLongHelpText. case_bool_decide; discriminate. }
  destruct (wants_total w (obj t) Ht) as [b Hb]. rewrite Hb. cbn [mbind outcome_bind].
  destruct b; simpl.
  2:{ destruct (IH st Hst) as (r & -> & Hr). exists r. split; [done|]. unfold acquire_spec, designated in *.
      rewrite filter_cons_False; [exact Hr|]. intros [_ H]. rewrite Hb in H. discriminate H. }
  assert (Hc : candidate w (obj t)) by (by split).
  unfold acquire_spec, designated. rewrite filter_cons_True by done.
  destruct (by_id w) eqn:Hid.
  { destruct w; try discriminate. rewrite Hst by done. eexists. split; [done|]. simpl.
    rewrite orb_false_r. split_and!; try done. by destruct (filter _ ts). }
  assert (Hgo : ∀ (B : Type) (x y : B), match w with WantId _ => x | _ => y end = y)
    by (by destruct w).
  rewrite Hgo. destruct (aq_result st) as [u|] eqn:Hu.
  - eexists. split; [done|]. simpl. rewrite orb_true_r.
    split_and!; try done. intros _. destruct w as [|?|[]]; discriminate.
  - destruct (IH (mkAcquired (Some t) (aq_ambiguous st) (aq_error st))) as (r & -> & Hr); [done|].
    exists r. split; [done|]. unfold acquire_spec, designated in Hr. by rewrite Hid in Hr.
Qed.

Lemma initial_error_not_success w : initial_error w ≠ $"success".
Proof. destruct w as [|?|[]]; discriminate. Qed.

Lemma inactive_error_not_success vendor_keys state e :
  inactive_error vendor_keys state = Some e → e ≠ $"success".
Proof. destruct state; intros [= <-]; discriminate. Qed.

Lemma acquire_Ret vendor_keys problem ts ty serial transport_id accept_any_state :
  Forall (λ t, names_ok (obj t)) ts →
  let w := wanted ty serial transport_id in
  ∃ r, acquire_one_transport obj vendor_keys problem ts ty serial transport_id accept_any_state = Ret r ∧
    aq_result r =
      (t ← chosen w ts;
       if accept_any_state || bool_decide (inactive_error vendor_keys (connection_state_ (obj t)) = None)
       then Some t else None) ∧
    aq_ambiguous r = (negb (by_id w) && bool_decide (2 ≤ length (designated w ts))%nat) ∧
    (aq_error r = $"success" ↔ is_Some (aq_result r)).
Proof.
  intros Hts w. unfold acquire_one_transport. fold w.
  destruct (acquire_loop_spec w problem ts (mkAcquired None false (initial_error w)) Hts ltac:(done))
    as (r & -> & Hres & Ham & Herr).
  simpl in Hres, Ham, Herr. specialize (Herr (initial_error_not_success w)).
  change (match designated w ts with [] => None | [t] => Some t
    | t :: _ :: _ => if by_id w then Some t else None end) with (chosen w ts) in Hres.
  rewrite <-Hres. cbn [mbind outcome_bind].
  destruct (aq_result r) as [t|] eqn:Hr; simpl.
  - destruct accept_any_state; simpl.
    + rewrite Hr. eexists. split; [done|]. simpl. split_and!; done.
    + destruct (inactive_error vendor_keys (connection_state_ (obj t))) as [e|] eqn:He; simpl.
      * eexists. split; [done|]. simpl. split_and!; try done.
        split; [intros ->; by apply inactive_error_not_success in He|by intros [? ?]].
      * rewrite Hr. eexists. split; [done|]. simpl. split_and!; done.
  - rewrite Hr. eexists. split; [done|]. split_and!; try done.
    split; [done|by rewrite Hr; intros [? ?]].
Qed.

(** C23: [acquire_one_transport] over transports whose names hold no NUL.  It
    returns the one transport the request designates (the first one with the
    id, if it is by id) when its state is acceptable; it reports an ambiguity
    exactly when a request that is not by id designates several; and the
    message is [success] exactly when a transport is returned. *)
Theorem acquire_one_transport_correct vendor_keys problem ts ty serial transport_id accept_any_state :
  Forall (λ t, names_ok (obj t)) ts →
  let w := wanted ty serial transport_id in
  ∃ r, acquire_one_transport obj vendor_keys problem ts ty serial transport_id accept_any_state = Ret r ∧
    aq_result r =
      (t ← chosen w ts;
       if accept_any_state || bool_decide (inactive_error vendor_keys (connection_state_ (obj t)) = None)
       then Some t else None) ∧
    aq_ambiguous r = (negb (by_id w) && bool_decide (2 ≤ length (designated w ts))%nat) ∧
    (aq_error r = $"success" ↔ is_Some (aq_result r)).
Proof. exact (acquire_Ret vendor_keys problem ts ty serial transport_id accept_any_state). Qed.

End acquiring.

Lemma acquire_one_transport_correct_witness :
  let a := set_serial $"A" (atransport_new 1 kCsDevice) in
  let b := set_serial $"B" (atransport_new 2 kCsOffline) in
  (∃ r, acquire_one_transport (λ t, t) None [] [a; b] kTransportAny None 0 false = Ret r ∧
     aq_result r = None ∧ aq_ambiguous r = true) ∧
  (∃ r, acquire_one_transport (λ t, t) None [] [a; b] kTransportAny (Some $"A") 0 false = Ret r ∧
     aq_result r = Some a ∧ aq_ambiguous r = false).
Proof.
  intros a b. assert (Forall (λ t, names_ok t) [a; b]) as H.
  { repeat constructor; apply not_elem_of_nil. }
  split.
  - destruct (acquire_one_transport_correct (λ t, t) None [] [a; b] kTransportAny None 0 false H) as (r & ? & Hr & Ha & _).
    exists r. split; [done|]. rewrite Hr, Ha. split; vm_compute; reflexivity.
  - destruct (acquire_one_transport_correct (λ t, t) None [] [a; b] kTransportAny (Some $"A") 0 false H) as (r & ? & Hr & Ha & _).
    exists r. split; [done|]. rewrite Hr, Ha. split; vm_compute; reflexivity.
Defined.

(** ** The listing *)

Section sorting.
Context {A : Type} (comp : A → A → bool).
Context (comp_asym : ∀ x y, comp x y = true → comp y x = false).

Lemma sort_insert_perm x l : sort_insert comp x l ≡ₚ x :: l.
Proof.
  induction l as [|y l IH]; simpl; [done|]. destruct (comp y x); [|done].
  rewrite IH. apply Permutation_swap.
Qed.

Lemma list_sort_perm l : list_sort comp l ≡ₚ l.
Proof. induction l as [|x l IH]; simpl; [done|]. by rewrite sort_insert_perm, IH. Qed.

Lemma sort_insert_sorted x l :
  Sorted (λ a b, comp b a = false) l → Sorted (λ a b, comp b a = false) (sort_insert comp x l).
Proof.
  induction 1 as [|y l Hl IH Hd]; simpl; [by repeat constructor|].
  destruct (comp y x) eqn:E.
  - constructor; [done|]. destruct l as [|z l]; simpl; [by constructor; apply comp_asym|].
    destruct (comp z x); constructor; [by inversion Hd|by apply comp_asym].
  - constructor; [by constructor|]. by constructor.
Qed.

Lemma list_sort_sorted l : Sorted (λ a b, comp b a = false) (list_sort comp l).
Proof. induction l; simpl; [constructor|]. by apply sort_insert_sorted. Qed.
End sorting.

Lemma bytes_ltb_asym a b : bytes_ltb a b = true → bytes_ltb b a = false.
Proof.
  revert b. induction a as [|x a IH]; intros [|y b]; simpl; try done.
  destruct (Z.ltb_spec (cval x) (cval y)), (Z.ltb_spec (cval y) (cval x)); try lia; try done. apply IH.
Qed.

Lemma transport_ltb_asym x y : transport_ltb x y = true → transport_ltb y x = false.
Proof.
  unfold transport_ltb. rewrite (bool_decide_ext (type y = type x) (type x = type y)) by done.
  destruct (bool_decide _); simpl; [apply bytes_ltb_asym|]. rewrite Z.ltb_lt, Z.ltb_ge. lia.
Qed.

Lemma append_info_app result key value b :
  append_transport_info result key value b = result ++ append_transport_info [] key value b.
Proof. unfold append_transport_info. case_bool_decide; by rewrite ?app_nil_r. Qed.

Lemma append_transport_app problem t result long :
  append_transport problem t result long = result ++ append_transport problem t [] long.
Proof.
  unfold append_transport. destruct long; simpl.
  - rewrite (append_info_app _ $"device:"), (append_info_app _ $"model:"),
      (append_info_app _ $"product:"), (append_info_app _ []).
    rewrite (append_info_app (append_transport_info _ _ _ _) $"device:"),
      (append_info_app (append_transport_info _ _ _ _) $"model:"),
      (append_info_app (append_transport_info _ _ _ _) $"product:"), (append_info_app (pad_right _ _ ++ _) []).
    by rewrite <-!app_assoc.
  - by rewrite <-!app_assoc.
Qed.

Lemma list_transports_concat problem ts long :
  list_transports problem ts long =
    concat ((λ t, append_transport problem t [] long) <$> list_sort transport_ltb ts).
Proof.
  unfold list_transports. generalize (list_sort transport_ltb ts). clear ts. intros ts.
  change (fold_left _ ts []) with
    (fold_left (λ result t, append_transport problem t result long) ts ([] : bytes)).
  enough (∀ r, fold_left (λ result t, append_transport problem t result long) ts r =
    r ++ concat ((λ t, append_transport problem t [] long) <$> ts)) as -> by done.
  induction ts as [|t ts IH]; intros r; simpl; [by rewrite app_nil_r|].
  by rewrite IH, append_transport_app, <-app_assoc.
Qed.

Lemma not_in_sanitize str b : newline ∉ sanitize str b.
Proof.
  unfold sanitize. destruct b; intros Hin; apply list_elem_of_fmap in Hin as (c & Hc & _).
  - destruct (isalnum c) eqn:E; [subst c; by vm_compute in E|by vm_compute in Hc].
  - destruct (char_eqb_spec c newline); [by vm_compute in Hc|done].
Qed.

Lemma not_in_info key value b : newline ∉ key → newline ∉ append_transport_info [] key value b.
Proof.
  intros Hk. unfold append_transport_info. case_bool_decide; [apply not_elem_of_nil|].
  simpl. rewrite not_elem_of_cons, not_elem_of_app. split; [done|]. split; [done|apply not_in_sanitize].
Qed.

Lemma not_in_c_str c s : c ∉ s → c ∉ c_str s.
Proof.
  destruct (c_str_prefix s) as [k Hk]. rewrite Hk at 1. rewrite not_elem_of_app. tauto.
Qed.

Lemma not_in_b c s : forallb (λ x, negb (char_eqb x c)) s = true → c ∉ s.
Proof.
  intros H Hin. rewrite forallb_forall in H. apply list_elem_of_In in Hin.
  specialize (H _ Hin). by rewrite char_eqb_refl in H.
Qed.

(** A transport whose line can be read back. *)
Definition line_ok (t : atransport) : Prop := newline ∉ serial t ∧ 0 ≤ id t.

Lemma not_in_state_name problem t : newline ∉ problem → newline ∉ connection_state_name problem t.
Proof.
  intros Hp. unfold connection_state_name. destruct (connection_state_ t); try (by apply not_in_b).
  unfold UsbNoPermissionsShortHelpText. rewrite not_elem_of_app. split; [|by apply not_in_b].
  apply not_in_c_str. rewrite not_elem_of_app. split; [by apply not_in_b|].
  case_bool_decide; [apply not_elem_of_nil|]. rewrite !not_elem_of_app.
  split_and!; [by apply not_in_b|done|by apply not_in_b].
Qed.

Lemma append_transport_line problem t long :
  newline ∉ problem → line_ok t → ∃ l, append_transport problem t [] long = l ++ [newline] ∧ newline ∉ l.
Proof.
  intros Hp [Hs Hid]. unfold append_transport. eexists. split; [done|].
  set (s := if bool_decide (serial t = []) then $"(no serial number)" else serial t).
  assert (newline ∉ s) by (subst s; case_bool_decide; [by apply not_in_b|done]).
  destruct long; cbn [negb].
  - rewrite (append_info_app _ $"device:"), (append_info_app _ $"model:"),
      (append_info_app _ $"product:"), (append_info_app _ []).
    rewrite !not_elem_of_app. split_and!; try (apply not_in_info; by apply not_in_b); try (by apply not_in_b).
    + unfold pad_right. rewrite not_elem_of_app. split; [by apply not_in_c_str|].
      intros Hin. by apply elem_of_replicate in Hin as [? _].
    + by apply not_in_c_str, not_in_state_name.
    + rewrite print_dec_nonneg by done. eapply digits_not_in; [apply numeral_all; lia|done].
  - rewrite !not_elem_of_app. split_and!; [apply not_elem_of_nil|done|by apply not_in_b|by apply not_in_state_name].
Qed.

(** [list_transports] prints one line per transport, ordered by type and
    serial: the listing is the concatenation of one newline-terminated text
    for each transport of a sorted permutation of the list, and no text holds
    another newline, as long as no serial does. *)
Theorem list_transports_lines problem ts long :
  newline ∉ problem → Forall line_ok ts →
  let sorted := list_sort transport_ltb ts in
  list_transports problem ts long = concat ((λ t, append_transport problem t [] long) <$> sorted) ∧
  sorted ≡ₚ ts ∧ Sorted (λ x y, transport_ltb y x = false) sorted ∧
  Forall (λ t, ∃ l, append_transport problem t [] long = l ++ [newline] ∧ newline ∉ l) sorted.
Proof.
  intros Hp Hts sorted. split_and!.
  - apply list_transports_concat.
  - apply list_sort_perm.
  - apply list_sort_sorted, transport_ltb_asym.
  - subst sorted. rewrite list_sort_perm. eapply Forall_impl; [done|].
    intros t Ht. by apply append_transport_line.
Qed.

Lemma list_transports_lines_witness :
  let ts := [set_serial $"B" (atransport_new 1 kCsDevice); set_serial $"A" (atransport_new 2 kCsOffline)] in
  list_transports [] ts false =
    $"A" ++ [of_cval 9] ++ $"offline" ++ [newline] ++ $"B" ++ [of_cval 9] ++ $"device" ++ [newline].
Proof.
  intros ts. rewrite (proj1 (list_transports_lines [] ts false (not_elem_of_nil _) ltac:(
    repeat constructor; [by apply not_in_b|done|by apply not_in_b|done]))). vm_compute. reflexivity.
Defined.

(** The serial itself is printed as it is: one with a newline makes the client
    see a device that does not exist. *)
Example list_transports_newline :
  list_transports [] [set_serial ($"A" ++ [of_cval 9] ++ $"device" ++ [newline] ++ $"B") (atransport_new 1 kCsOffline)] false
  = list_transports [] [set_serial $"A" (atransport_new 1 kCsDevice); set_serial $"B" (atransport_new 2 kCsOffline)] false.
Proof. vm_compute. reflexivity. Qed.

(** ** Feature sets and the banner *)

(** A name the banner can carry: the header forbids [:;=,] in features. *)
Definition clean (specials s : bytes) : Prop := Forall (λ c, char_in c specials = false ∧ c ≠ NUL) s.

Lemma clean_free specials c s : clean specials s → char_in c specials = true → free_of [c] s.
Proof.
  intros Hs Hc. eapply Forall_impl; [exact Hs|]. intros x [Hx _]. rewrite char_in_one.
  destruct (char_eqb_spec x c); [congruence|done].
Qed.

Lemma clean_nul specials s : clean specials s → nul_free s.
Proof. intros Hs Hin. eapply Forall_forall in Hs; [|done]. by destruct Hs. Qed.

Lemma clean_app specials a b : clean specials (a ++ b) ↔ clean specials a ∧ clean specials b.
Proof. apply Forall_app. Qed.

Lemma clean_Join specials l sep :
  Forall (clean specials) l → clean specials sep → clean specials (Join l sep).
Proof.
  intros Hl Hs. induction Hl as [|s l Hs' Hl IH]; [constructor|].
  destruct l as [|q l]; [by unfold Join; simpl; rewrite app_nil_r|].
  rewrite Join_cons. apply clean_app. split; [done|]. by apply clean_app.
Qed.

Lemma clean_weaken s1 s2 s :
  (∀ c, char_in c s1 = true → char_in c s2 = true) → clean s2 s → clean s1 s.
Proof.
  intros H Hs. eapply Forall_impl; [exact Hs|]. intros c [Hc ?]. split; [|done].
  destruct (char_in c s1) eqn:E; [|done]. rewrite (H _ E) in Hc. done.
Qed.

Definition feature_ok (s : bytes) : Prop := clean $":;=," s ∧ s ≠ [].

Lemma Join_eq_nil l sep : Join l sep = [] → l = [] ∨ ∃ k, l = [] :: k.
Proof. destruct l as [|[|c s] l]; [by left|intros _; right; by eexists|done]. Qed.

Lemma StringToFeatureSet_Join names :
  Forall feature_ok names → StringToFeatureSet (FeatureSetToString names) = Ret (list_to_set names).
Proof.
  intros Hn. unfold StringToFeatureSet, FeatureSetToString. case_bool_decide as He.
  - apply Join_eq_nil in He as [->|[k ->]]; [done|]. apply Forall_cons in Hn as [[_ Hn] _]. done.
  - rewrite Split_pieces by done. change ($",") with [","%char]. rewrite pieces_Join; [done|by intros ->|].
    eapply Forall_impl; [exact Hn|]. intros s [Hs _]. by eapply clean_free.
Qed.

(** A feature set survives its string form, whatever order the set's
    iterator produces, if its names are non-empty and free of the characters
    the header reserves; a feature can then be used exactly when both sides
    have it. *)
Theorem FeatureSet_roundtrip (features : FeatureSet) names feature :
  Permutation names (elements features) → set_Forall feature_ok features →
  StringToFeatureSet (FeatureSetToString names) = Ret features ∧
  (CanUseFeature features feature = true ↔ feature ∈ features ∩ supported_features).
Proof.
  intros Hp Hf. split.
  - rewrite StringToFeatureSet_Join.
    + f_equal. apply leibniz_equiv. intros x. rewrite elem_of_list_to_set, Hp. apply elem_of_elements.
    + rewrite Hp. apply Forall_forall. intros x Hx. apply Hf. by apply elem_of_elements.
  - unfold CanUseFeature. rewrite andb_true_iff, !bool_decide_eq_true. set_solver.
Qed.

Lemma clean_b specials s :
  forallb (λ c, negb (char_in c specials) && negb (char_eqb c NUL)) s = true → clean specials s.
Proof.
  intros H. apply Forall_forall. intros c Hin. rewrite forallb_forall in H.
  apply list_elem_of_In in Hin. specialize (H _ Hin). apply andb_prop in H as [H1 H2].
  split; [by apply negb_true_iff|]. intros ->. by rewrite char_eqb_refl in H2.
Qed.

Lemma FeatureSet_roundtrip_witness :
  StringToFeatureSet (FeatureSetToString (elements supported_features)) = Ret supported_features ∧
  (CanUseFeature supported_features $"cmd" = true ↔ $"cmd" ∈ supported_features ∩ supported_features).
Proof.
  apply FeatureSet_roundtrip; [done|]. intros x. unfold supported_features.
  rewrite !elem_of_union, !elem_of_singleton.
  intros [[->| ->]| ->]; (split; [by apply clean_b|done]).
Defined.

(** ** The handshake banner *)

Lemma Split_Join_free c l :
  l ≠ [] → Forall (free_of [c]) l → Split (Join l [c]) [c] = Ret l.
Proof. intros. rewrite Split_pieces by done. by rewrite pieces_Join. Qed.

(** Decides the comparisons of two literals in the goal. *)
Ltac decide_literals :=
  repeat match goal with
  | |- context [bool_decide ($?a = $?b)] =>
      first [ rewrite (bool_decide_eq_true_2 ($a = $b)) by reflexivity
            | rewrite (bool_decide_eq_false_2 ($a = $b)) by discriminate ]
  end.

(** What one [key=value] of the banner does. *)
Lemma parse_property_Ret key value t :
  clean $":;=" key → clean $":;=" value → key ≠ [] →
  parse_property (key ++ $"=" ++ value) t =
    (if bool_decide (key = $"ro.product.name") then Ret (set_product value t)
     else if bool_decide (key = $"ro.product.model") then Ret (set_model value t)
     else if bool_decide (key = $"ro.product.device") then Ret (set_device value t)
     else if bool_decide (key = $"features") then SetFeatures value t
     else Ret t).
Proof.
  intros Hk Hv Hne. unfold parse_property. rewrite bool_decide_eq_false_2 by (by destruct key).
  assert (key ++ $"=" ++ value = Join [key; value] ["="%char]) as ->.
  { unfold Join. simpl. by rewrite app_nil_r. }
  change ($"=") with ["="%char]. rewrite Split_Join_free; [done|done|].
  repeat constructor; by eapply clean_free.
Qed.

Definition device_props (name model device : bytes) : list (bytes * bytes) :=
  [($"ro.product.name", name); ($"ro.product.model", model); ($"ro.product.device", device)].

(** C24: the banner a daemon sends is understood as it was meant: parsing
    [get_connection_string] sets the three names and the feature set it was
    made of, and the state its type denotes, and changes nothing else. *)
Theorem banner_roundtrip banner name mdl dev names t :
  clean $":" banner → clean $":;=" name → clean $":;=" mdl → clean $":;=" dev →
  Forall feature_ok names →
  parse_banner (get_connection_string banner (device_props name mdl dev) names) t =
    Ret (SetConnectionState (banner_state banner)
           (set_features_ (list_to_set names)
              (set_device dev (set_model mdl (set_product name t))))).
Proof.
  intros Hb Hn Hm Hd Hf.
  set (F := FeatureSetToString names).
  assert (HF : clean $":;=" F).
  { apply clean_Join; [|by apply clean_b]. eapply Forall_impl; [exact Hf|]. intros s [Hs _].
    eapply clean_weaken; [|exact Hs]. intros c. unfold char_in. simpl.
    rewrite !orb_true_iff. tauto. }
  set (props := [$"ro.product.name" ++ $"=" ++ name; $"ro.product.model" ++ $"=" ++ mdl;
    $"ro.product.device" ++ $"=" ++ dev; $"features" ++ $"=" ++ F]).
  assert (Hprops : Forall (clean $":;") props).
  { assert (∀ s, clean $":;=" s → clean $":;" s) as Hw.
    { intros s Hs. eapply clean_weaken; [|exact Hs]. intros c. unfold char_in. simpl.
      rewrite !orb_true_iff. tauto. }
    subst props. repeat (constructor; [apply clean_app; split; [by apply clean_b|];
      apply clean_app; split; [by apply clean_b|by apply Hw]|]). constructor. }
  assert (HJ : clean $":" (Join props $";")).
  { apply clean_Join; [|by apply clean_b]. eapply Forall_impl; [exact Hprops|]. intros s Hs.
    eapply clean_weaken; [|exact Hs]. intros c. unfold char_in. simpl. rewrite !orb_true_iff. tauto. }
  assert (get_connection_string banner (device_props name mdl dev) names = Join [banner; []; Join props $";"] [":"%char]) as ->.
  { unfold get_connection_string. rewrite (c_str_id banner), (c_str_id (FeatureSetToString _)), c_str_id
      by (eapply clean_nul; done).
    cbn [device_props fmap list_fmap app]. unfold Join at 2. cbn [join_rest]. by rewrite app_nil_r. }
  unfold parse_banner. change ($":") with [":"%char]. rewrite Split_Join_free; [|done|].
  2:{ constructor; [by eapply clean_free|]. constructor; [constructor|].
      constructor; [by eapply clean_free|constructor]. }
  cbn [mbind outcome_bind SetFeatures StringToFeatureSet list_lookup lookup default from_option].
  change ($";") with [";"%char] in *. rewrite Split_Join_free; [|done|].
  2:{ eapply Forall_impl; [exact Hprops|]. intros s Hs. by eapply clean_free. }
  subst props. cbn [mbind outcome_bind parse_properties].
  change (SetFeatures [] t) with (Ret (set_features_ ∅ t)). cbn [mbind outcome_bind].
  repeat (rewrite parse_property_Ret by (done || by apply clean_b); cbn [mbind outcome_bind];
    decide_literals; cbn [mbind outcome_bind]).
  unfold SetFeatures. subst F. by rewrite StringToFeatureSet_Join.
Qed.

Lemma banner_roundtrip_witness :
  (λ t, (product t, model t, device t, connection_state_ t)) <$>
    parse_banner (get_connection_string $"device" (device_props $"hammerhead" $"Nexus 5" [])
      [$"shell_v2"; $"cmd"]) (atransport_new 1 kCsOffline) =
  Ret ($"hammerhead", $"Nexus 5", [], kCsDevice).
Proof.
  rewrite (banner_roundtrip $"device" $"hammerhead" $"Nexus 5" [] [$"shell_v2"; $"cmd"]); try by apply clean_b.
  - reflexivity.
  - repeat constructor; try (by apply clean_b); done.
Defined.

(** ** Version negotiation *)

(** [update_version] on the two words of a CNXN packet: a version from 2^31 on
    is negative as an [int], hence an old peer. *)
Lemma update_version_spec version payload t :
  0 ≤ version < 2 ^ 32 → 0 ≤ payload →
  let t' := update_version version payload t in
  protocol_version t' = (if version <? 2 ^ 31 then Z.min version A_VERSION else version - 2 ^ 32) ∧
  (A_VERSION_SKIP_CHECKSUM ≤ protocol_version t' ↔ A_VERSION_SKIP_CHECKSUM ≤ version < 2 ^ 31) ∧
  max_payload t' = Z.min payload MAX_PAYLOAD.
Proof.
  intros Hv Hp. simpl. unfold A_VERSION, A_VERSION_SKIP_CHECKSUM.
  assert (s32 version = if version <? 2 ^ 31 then version else version - 2 ^ 32) as ->.
  { unfold s32. destruct (Z.ltb_spec version (2 ^ 31)).
    - rewrite Z.mod_small; lia.
    - rewrite <-(Z.mod_unique (version + 2 ^ 31) (2 ^ 32) 1 (version - 2 ^ 31)); lia. }
  destruct (Z.ltb_spec version (2 ^ 31)); split_and!; lia.
Qed.
