(* ===== verification/SocketSpec.v ===== *)
(** * Socket specifications (src/src/socket_spec.cpp)

    The strings that name where to listen or connect: [tcp:<port>],
    [tcp:<host>:<port>] and [local...:<path>].  What the network functions do
    with the parsed address is the interface [Network]. *)

From Stdlib Require Import ZArith Lia List Ascii String.
From stdpp Require Import base numbers list strings.
From S2P Require Import Prelude.
From S2P Require Import Libc.
From S2P Require Import AdbIo.
From S2P Require Import Strings.

(** ** Addresses and the functions that open them *)

Definition ANDROID_SOCKET_NAMESPACE_ABSTRACT : Z := 0.
Definition ANDROID_SOCKET_NAMESPACE_RESERVED : Z := 1.
Definition ANDROID_SOCKET_NAMESPACE_FILESYSTEM : Z := 2.

Inductive net_call :=
  | LoopbackClient (port : Z) | NetworkConnect (host : bytes) (port : Z) | LocalClient (name : bytes) (ns : Z)
  | InaddrAnyServer (port : Z) | LoopbackServer (port : Z) | LocalServer (name : bytes) (ns : Z).

(** A descriptor, or [-1] with a message; and [adb_socket_get_local_port]. *)
Class Network := {
  open_socket : net_call → Z * bytes;
  adb_socket_get_local_port : Z → Z
}.

(** ** Parsing *)

Record LocalSocketType := mkLocalSocketType { socket_namespace : Z; available_here : bool }.

(** The table of a host on Linux; its order is not specified. *)
Definition kLocalSocketTypes : list (bytes * LocalSocketType) :=
  [($"local", mkLocalSocketType ANDROID_SOCKET_NAMESPACE_FILESYSTEM true);
   ($"localreserved", mkLocalSocketType ANDROID_SOCKET_NAMESPACE_RESERVED false);
   ($"localabstract", mkLocalSocketType ANDROID_SOCKET_NAMESPACE_ABSTRACT true);
   ($"localfilesystem", mkLocalSocketType ANDROID_SOCKET_NAMESPACE_FILESYSTEM true)].

(** The message [ParseNetAddress] leaves. *)
Definition net_error_text (address : bytes) (e : net_error) : bytes :=
  match e with
  | BadIPv6 => $"bad IPv6 address '" ++ c_str address ++ $"'"
  | NoHost => $"no host in '" ++ c_str address ++ $"'"
  | BadPort =>
      match split_address address with
      | Ret (inr (_, _, Some port_str)) => $"bad port number '" ++ c_str port_str ++ $"' in '" ++ c_str address ++ $"'"
      | _ => []
      end
  end.

Definition INT_MIN : Z := - 2 ^ 31.
Definition INT_MAX : Z := 2 ^ 31 - 1.

(** An error message, or the host and port. *)
Definition parse_tcp_socket_spec (spec : bytes) : outcome (bytes + (bytes * Z)) :=
  if negb (StartsWith spec $"tcp:") then Ret (inl ($"specification is not tcp: '" ++ c_str spec ++ $"'"))
  else
    match ParseInt (c_str (drop 4 spec)) INT_MIN INT_MAX with
    | Some port_value =>
        if (port_value <? 0) || (65535 <? port_value) then Ret (inl ($"bad port number '" ++ print_dec port_value ++ $"'"))
        else Ret (inr ([], port_value))
    | None =>
        let addr := drop 4 spec in
        r ← ParseNetAddress addr (-1);
        match r with
        | inl e => Ret (inl (net_error_text addr e))
        | inr a =>
            if na_port a =? -1 then Ret (inl ($"missing port in specification: '" ++ c_str spec ++ $"'"))
            else Ret (inr (na_host a, na_port a))
        end
    end.

Definition tcp_host_is_local (hostname : bytes) : bool := bool_decide (hostname = []) || bool_decide (hostname = $"localhost").

(** The entry of the table whose name and a colon start [spec]. *)
Definition local_type (spec : bytes) : option (bytes * LocalSocketType) :=
  find (λ it, StartsWith spec (it.1 ++ $":")) kLocalSocketTypes.

Definition is_socket_spec (spec : bytes) : bool :=
  if local_type spec then true else StartsWith spec $"tcp:".

Definition is_local_socket_spec (spec : bytes) : outcome bool :=
  if local_type spec then Ret true
  else
    r ← parse_tcp_socket_spec spec;
    Ret (match r with inl _ => false | inr (hostname, _) => tcp_host_is_local hostname end).

(** ** Opening *)

Section open.
Context `{Network} (gListenAll : bool).

(** The descriptor or a negative number with a message; what
    [disable_tcp_nagle] does to the descriptor does not show. *)
Definition socket_spec_connect (spec : bytes) : outcome (Z * bytes) :=
  if StartsWith spec $"tcp:" then
    r ← parse_tcp_socket_spec spec;
    match r with
    | inl error => Ret (-1, error)
    | inr (hostname, port) =>
        Ret (open_socket (if tcp_host_is_local hostname then LoopbackClient port else NetworkConnect hostname port))
    end
  else
    match local_type spec with
    | Some (name, t) =>
        if negb (available_here t) then Ret (-1, $"socket type " ++ name ++ $" is unavailable on this platform")
        else Ret (open_socket (LocalClient (c_str (drop (length (name ++ $":")) spec)) (socket_namespace t)))
    | None => Ret (-1, $"unknown socket specification '" ++ c_str spec ++ $"'")
    end.

(** The descriptor, the message, and what [*resolved_tcp_port] is set to, if it is. *)
Definition socket_spec_listen (spec : bytes) : outcome (Z * bytes * option Z) :=
  if StartsWith spec $"tcp:" then
    r ← parse_tcp_socket_spec spec;
    match r with
    | inl error => Ret (-1, error, None)
    | inr (hostname, port) =>
        if bool_decide (hostname = []) && gListenAll || tcp_host_is_local hostname then
          let '(result, error) := open_socket (if bool_decide (hostname = []) && gListenAll then InaddrAnyServer port else LoopbackServer port) in
          Ret (result, error, if (0 <=? result) && (port =? 0) then Some (adb_socket_get_local_port result) else None)
        else Ret (-1, $"listening on specified hostname currently unsupported", None)
    end
  else
    match local_type spec with
    | Some (name, t) =>
        if negb (available_here t) then Ret (-1, $"attempted to listen on unavailable socket type: '" ++ c_str spec ++ $"'", None)
        else Ret (open_socket (LocalServer (c_str (drop (length (name ++ $":")) spec)) (socket_namespace t)), None)
    | None => Ret (-1, $"unknown socket specification '" ++ c_str spec ++ $"'", None)
    end.
End open.

Example parse_tcp_ex :
  parse_tcp_socket_spec $"tcp:5037" = Ret (inr ([], 5037)) ∧ parse_tcp_socket_spec $"tcp:65536" = Ret (inl $"bad port number '65536'") ∧
  parse_tcp_socket_spec $"tcp:localhost:1234" = Ret (inr ($"localhost", 1234)) ∧
  parse_tcp_socket_spec $"tcp:foo" = Ret (inl $"missing port in specification: 'tcp:foo'").
Proof. by vm_compute. Qed.

(** ** What is parsed *)

Lemma skip_spaces_keeps c s : isspace c = false → c ∈ s → c ∈ skip_spaces s.
Proof. intros Hc. induction s as [|x s IH]; [done|]. cbn [skip_spaces]. destruct (isspace x) eqn:E; [|done]. intros [->|?]%elem_of_cons; [congruence|auto]. Qed.

Lemma scan_digits_keeps base c s acc : digit_val base c = None → c ∈ s → c ∈ (scan_digits base acc s).2.
Proof.
  intros Hc. revert acc. induction s as [|x s IH]; intros acc; [done|]. cbn [scan_digits]. destruct (digit_val base x) eqn:E; [|done].
  intros [->|?]%elem_of_cons; [congruence|auto].
Qed.

(** A colon is part of no number. *)
Lemma scan_int_colon base s neg v rest : (":"%char) ∈ s → scan_int base s = Some (neg, v, rest) → (":"%char) ∈ rest.
Proof.
  intros Hin. unfold scan_int. pose proof (skip_spaces_keeps ":" s eq_refl Hin) as H1.
  assert (H2 : (":"%char) ∈ (scan_sign (skip_spaces s)).2).
  { unfold scan_sign. destruct (skip_spaces s) as [|x t]; [done|]. destruct (char_eqb_spec x "-") as [->|]; [apply elem_of_cons in H1 as [H1|H1]; [discriminate H1|exact H1]|].
    destruct (char_eqb_spec x "+") as [->|]; [apply elem_of_cons in H1 as [H1|H1]; [discriminate H1|exact H1]|]. done. }
  destruct (scan_sign _) as [n t]. cbn [snd] in H2.
  assert (H3 : (":"%char) ∈ skip_0x base t).
  { unfold skip_0x. destruct t as [|z [|x t]]; [done|done|]. destruct (_ && _)%bool eqn:E; [|done].
    apply andb_prop in E as [E _]. apply andb_prop in E as [E1 E2]. apply andb_prop in E1 as [_ E1].
    destruct (char_eqb_spec z "0") as [->|]; [|done]. apply elem_of_cons in H2 as [H2|H2]; [discriminate H2|].
    apply elem_of_cons in H2 as [<-|H2]; [discriminate E2|exact H2]. }
  destruct (starts_digit _ _); [|done].
  pose proof (scan_digits_keeps base ":" (skip_0x base t) 0) as H4. destruct (scan_digits base 0 (skip_0x base t)). cbn [snd] in H4.
  intros [= _ _ <-]. apply H4; [|done]. unfold digit_val. done.
Qed.

Lemma ParseInt_colon s lo hi : (":"%char) ∈ c_str s → ParseInt s lo hi = None.
Proof.
  intros Hin. unfold ParseInt. destruct (scan_int _ (c_str s)) as [[[neg v] rest]|] eqn:E.
  2:{ destruct (strtoll _ _) as [[? ?] e]. rewrite (bool_decide_eq_true_2 (None = None)) by done. by rewrite orb_true_r. }
  pose proof (scan_int_colon _ _ _ _ _ Hin E) as Hr. assert (Hne : rest ≠ []) by (intros ->; by apply elem_of_nil in Hr).
  assert (∃ z e, strtoll (int_base (c_str s)) (c_str s) = (z, rest, e)) as (z & e & ->).
  { unfold strtoll. rewrite E. repeat case_match; eauto. }
  rewrite (bool_decide_eq_false_2 (rest = [])) by done. by rewrite orb_true_r.
Qed.

Lemma ParseInt_range s lo hi v : ParseInt s lo hi = Some v → lo ≤ v ≤ hi.
Proof. unfold ParseInt. intros H. repeat case_match; try done. simplify_eq. apply orb_false_iff in H2 as [? ?]. reflect_Z. lia. Qed.

Lemma ParseInt_print z lo hi : 0 ≤ z < 2 ^ 31 → lo ≤ z ≤ hi → ParseInt (print_dec z) lo hi = Some z.
Proof.
  intros Hz Hr. unfold ParseInt. rewrite c_str_id by (apply print_dec_nul_free; lia).
  rewrite print_dec_nonneg, int_base_numeral by lia.
  pose proof (scan_int_numeral z [] ltac:(lia) eq_refl) as Hs. rewrite app_nil_r in Hs.
  unfold strtoll. rewrite Hs, (proj2 (Z.leb_gt _ _)), (proj2 (Z.ltb_ge z _)) by lia. cbn.
  rewrite (proj2 (Z.ltb_ge z lo)), (proj2 (Z.ltb_ge hi z)) by lia. done.
Qed.

Lemma ParseNetAddress_Ret address port :
  ∃ r, ParseNetAddress address port = Ret r ∧ match r with inr a => na_port a = port ∨ 1 ≤ na_port a ≤ 65535 | inl _ => True end.
Proof.
  unfold ParseNetAddress. assert (∃ r, split_address address = Ret r) as [r ->].
  { unfold split_address. repeat case_match; try (by eexists). }
  cbn [mbind outcome_bind]. destruct r as [e|[[host ipv6] port_str]]; [by eexists|]. case_bool_decide; [by eexists|].
  destruct port_str as [p|].
  - destruct (sscanf_d (c_str p)) as [n|]; [|by eexists]. rewrite bool_decide_eq_true_2 by by eexists. cbn [andb].
    destruct (_ || _)%bool eqn:E; [by eexists|]. eexists. split; [done|]. right. apply orb_false_iff in E as [? ?]. reflect_Z. cbn. lia.
  - rewrite bool_decide_eq_false_2 by (by intros []). cbn [andb]. eexists. split; [done|]. by left.
Qed.


Lemma tcp_prefix s : nul_free s → StartsWith ($"tcp:" ++ s) $"tcp:" = true.
Proof.
  intros Hs. apply StartsWith_spec; [|by apply nul_free_b|by exists s]. apply nul_free_app. split; [by apply nul_free_b|done].
Qed.

Lemma canonical_nul_free ipv6 host port : nul_free host → 0 ≤ port → nul_free (canonical ipv6 host port).
Proof.
  intros Hh Hp. pose proof (print_dec_nul_free port Hp) as Hd. unfold canonical, nul_free in *.
  destruct ipv6; rewrite ?not_elem_of_cons, ?not_elem_of_app, ?not_elem_of_cons; by repeat split.
Qed.

Lemma canonical_colon ipv6 host port : (":"%char) ∈ canonical ipv6 host port.
Proof. unfold canonical. destruct ipv6; rewrite ?elem_of_cons, ?elem_of_app, ?elem_of_cons; auto. Qed.

Lemma parse_tcp_Ret spec :
  ∃ r, parse_tcp_socket_spec spec = Ret r ∧
    match r with inr (_, port) => StartsWith spec $"tcp:" = true ∧ 0 ≤ port ≤ 65535 | inl _ => True end.
Proof.
  unfold parse_tcp_socket_spec. destruct (StartsWith spec $"tcp:"); cbn [negb]; [|by eexists].
  destruct (ParseInt _ _ _) as [v|]; [destruct (_ || _)%bool eqn:E; [by eexists|]|].
  - eexists. split; [done|]. split; [done|]. apply orb_false_iff in E as [? ?]. reflect_Z. lia.
  - destruct (ParseNetAddress_Ret (drop 4 spec) (-1)) as (r & -> & Hr). cbn [mbind outcome_bind]. destruct r as [e|a]; [by eexists|].
    destruct (Z.eqb_spec (na_port a) (-1)); [by eexists|]. eexists. split; [done|]. split; [done|]. lia.
Qed.

(** Connecting returns: with what opening a socket gave, or a negative number. *)
Lemma socket_spec_connect_Ret `{Network} spec :
  ∃ r, socket_spec_connect spec = Ret r ∧ (r.1 < 0 ∨ ∃ c, r = open_socket c).
Proof.
  unfold socket_spec_connect. destruct (StartsWith spec $"tcp:").
  - destruct (parse_tcp_Ret spec) as (r & -> & _). cbn [mbind outcome_bind]. destruct r as [e|[host port]]; eexists; (split; [done|]); cbn; [left; lia|].
    right. by eexists.
  - destruct (local_type spec) as [[name t]|]; [destruct (negb _)|]; eexists; (split; [done|]); cbn; try (left; lia). right. by eexists.
Qed.

(** [parse_tcp_socket_spec] always returns, with a message or with a port from
    0 to 65535 of a string that starts with [tcp:].  [tcp:<port>] is parsed to no
    host and that port, zero included, and [tcp:] before a canonical network address
    to its host and port. *)
Theorem parse_tcp_socket_spec_correct spec p ipv6 host q :
  0 ≤ p ≤ 65535 → nul_free host → host ≠ [] → 1 ≤ q ≤ 65535 →
  (if ipv6 : bool then "]"%char ∉ host else (":"%char ∉ host) ∧ head host ≠ Some "["%char) →
  (∃ r, parse_tcp_socket_spec spec = Ret r ∧
     match r with inr (_, port) => StartsWith spec $"tcp:" = true ∧ 0 ≤ port ≤ 65535 | inl _ => True end) ∧
  parse_tcp_socket_spec ($"tcp:" ++ print_dec p) = Ret (inr ([], p)) ∧
  parse_tcp_socket_spec ($"tcp:" ++ canonical ipv6 host q) = Ret (inr (host, q)).
Proof.
  intros Hp Hn Hne Hq Hhost. split_and!.
  - apply parse_tcp_Ret.
  - assert (Hd : nul_free (print_dec p)) by (apply print_dec_nul_free; lia).
    unfold parse_tcp_socket_spec. rewrite tcp_prefix by done. cbn [negb]. change (drop 4 ($"tcp:" ++ print_dec p)) with (print_dec p).
    rewrite c_str_id by done. rewrite ParseInt_print by (unfold INT_MIN, INT_MAX; lia).
    rewrite (proj2 (Z.ltb_ge p 0)), (proj2 (Z.ltb_ge 65535 p)) by lia. done.
  - assert (Hc : nul_free (canonical ipv6 host q)) by (apply canonical_nul_free; [done|lia]).
    unfold parse_tcp_socket_spec. rewrite tcp_prefix by done. cbn [negb]. change (drop 4 ($"tcp:" ++ canonical ipv6 host q)) with (canonical ipv6 host q).
    rewrite ParseInt_colon by (rewrite !c_str_id by (rewrite ?c_str_id; done); apply canonical_colon).
    rewrite ParseNetAddress_canonical_Ret by done. cbn [mbind outcome_bind na_port na_host].
    rewrite (proj2 (Z.eqb_neq q (-1))) by lia. done.
Qed.

Lemma parse_tcp_socket_spec_correct_witness :
  parse_tcp_socket_spec $"tcp:0" = Ret (inr ([], 0)) ∧ parse_tcp_socket_spec $"tcp:[::1]:5037" = Ret (inr ($"::1", 5037)).
Proof.
  destruct (parse_tcp_socket_spec_correct [] 0 true $"::1" 5037) as (_ & H1 & H2).
  - lia.
  - apply nul_free_b. reflexivity.
  - discriminate.
  - lia.
  - intros H. apply list_elem_of_In in H. by repeat destruct H as [H|H].
  - split; [exact H1|exact H2].
Defined.
