(* ===== verification/Listeners.v ===== *)
(** * Listeners and forward requests
    (src/src/adb_listeners.cpp, src/src/adb.cpp: handle_forward_request)

    A listener is a local socket whose connections go to a service of a
    transport.  It is registered with the transport by address, to be removed
    when the transport goes away.  The state is the list of listeners, what each
    transport has registered, and the polled descriptors; following a pointer to
    a transport or listener that is gone is [Abort].  World.v has this state as a view
    of the server's. *)

From Stdlib Require Import ZArith Lia List Ascii String.
From stdpp Require Import base numbers list strings gmap.
From S2P Require Import Prelude.
From S2P Require Import Libc.
From S2P Require Import AdbIo.
From S2P Require Import Strings.
From S2P Require Import Packet.
From S2P Require Import Connection.
From S2P Require Import Transport.
From S2P Require Import SocketSpec.

(** ** State *)

(** [l_addr] is the address of the object; [l_disconnect] says whether the
    members of [disconnect] have been set. *)
Record alistener := mkListener {
  l_addr : Z; l_fd : Z; local_name : bytes; connect_to : bytes; l_transport : option Z; l_disconnect : bool
}.

(** [l_transports] holds the live transports with their [disconnects_]. *)
Record lstate := mkLState {
  listener_list : list alistener;
  l_transports : gmap Z (atransport * list Z);
  l_polled : gset Z;
  l_next : Z
}.
Definition set_listeners (v : list alistener) (s : lstate) : lstate := mkLState v (l_transports s) (l_polled s) (l_next s).
Definition set_l_transports (v : gmap Z (atransport * list Z)) (s : lstate) : lstate := mkLState (listener_list s) v (l_polled s) (l_next s).
Definition set_l_polled (v : gset Z) (s : lstate) : lstate := mkLState (listener_list s) (l_transports s) v (l_next s).

Definition live_transport (t : Z) (s : lstate) : outcome (atransport * list Z) :=
  match l_transports s !! t with Some a => Ret a | None => Abort "use after free" end.
Definition the_transport (l : alistener) : outcome Z :=
  match l_transport l with Some t => Ret t | None => Abort "null pointer" end.

Definition AddDisconnect (t addr : Z) (s : lstate) : outcome lstate :=
  '(a, d) ← live_transport t s; Ret (set_l_transports (<[t := (a, d ++ [addr])]> (l_transports s)) s).
Definition RemoveDisconnect (t addr : Z) (s : lstate) : outcome lstate :=
  '(a, d) ← live_transport t s; Ret (set_l_transports (<[t := (a, filter (λ x, x ≠ addr) d)]> (l_transports s)) s).

(** The destructor: the descriptor is closed with its fdevent. *)
Definition alistener_destroy (l : alistener) (s : lstate) : outcome lstate :=
  let s := set_l_polled (l_polled s ∖ {[l_fd l]}) s in
  match l_transport l with Some t => RemoveDisconnect t (l_addr l) s | None => Ret s end.

Definition smartsocket : bytes := $"*smartsocket*".

(** The first byte of a [std::string], NUL if it is empty. *)
Definition special (s : bytes) : bool := char_eqb (default NUL (head s)) "*".

(** ** Operations *)

(** The listener [f] finds first, taken out of the list. *)
Fixpoint take_listener (f : alistener → bool) (l : list alistener) : option (alistener * list alistener) :=
  match l with
  | [] => None
  | x :: l =>
      if f x then Some (x, l)
      else match take_listener f l with Some (y, l) => Some (y, x :: l) | None => None end
  end.

(** The callback registered as [addr]: its members are read first. *)
Definition listener_disconnect (addr : Z) (s : lstate) : outcome lstate :=
  match take_listener (λ l, l_addr l =? addr) (listener_list s) with
  | Some (l, rest) =>
      if l_disconnect l then
        alistener_destroy (mkListener (l_addr l) (l_fd l) (local_name l) (connect_to l) None (l_disconnect l)) (set_listeners rest s)
      else Abort "uninitialised pointer"
  | None => Abort "use after free"
  end.

Fixpoint run_disconnects (d : list Z) (s : lstate) : outcome lstate :=
  match d with [] => Ret s | addr :: d => s ← listener_disconnect addr s; run_disconnects d s end.

(** [atransport::RunDisconnects]. *)
Definition RunDisconnects (t : Z) (s : lstate) : outcome lstate :=
  '(_, d) ← live_transport t s;
  s ← run_disconnects d s;
  '(a, _) ← live_transport t s;
  Ret (set_l_transports (<[t := (a, [])]> (l_transports s)) s).

Definition newline : bytes := [of_cval 10].

Fixpoint format_from (l : list alistener) (s : lstate) (result : bytes) : outcome bytes :=
  match l with
  | [] => Ret result
  | x :: l =>
      if special (connect_to x) then format_from l s result
      else
        t ← the_transport x;
        '(a, _) ← live_transport t s;
        format_from l s (result ++ (if bool_decide (serial a = []) then $"(reverse)" else c_str (serial a)) ++
          $" " ++ c_str (local_name x) ++ $" " ++ c_str (connect_to x) ++ newline)
  end.
Definition format_listeners (s : lstate) : outcome bytes := format_from (listener_list s) s [].

Inductive InstallStatus := INSTALL_STATUS_OK | INSTALL_STATUS_INTERNAL_ERROR | INSTALL_STATUS_CANNOT_BIND | INSTALL_STATUS_CANNOT_REBIND | INSTALL_STATUS_LISTENER_NOT_FOUND.
#[export] Instance InstallStatus_dec : EqDecision InstallStatus.
Proof. solve_decision. Defined.

(** The second parameter is not used. *)
Definition remove_listener (name : bytes) (transport : Z) (s : lstate) : outcome (InstallStatus * lstate) :=
  match take_listener (λ l, bool_decide (local_name l = name)) (listener_list s) with
  | Some (l, rest) => s ← alistener_destroy l (set_listeners rest s); Ret (INSTALL_STATUS_OK, s)
  | None => Ret (INSTALL_STATUS_LISTENER_NOT_FOUND, s)
  end.

(** Erases what [keep] does not hold of, from the front. *)
Fixpoint erase_unless (keep : alistener → bool) (l : list alistener) (s : lstate) : outcome (list alistener * lstate) :=
  match l with
  | [] => Ret ([], s)
  | x :: l =>
      if keep x then '(kept, s) ← erase_unless keep l s; Ret (x :: kept, s)
      else s ← alistener_destroy x s; erase_unless keep l s
  end.
Definition remove_all_listeners (s : lstate) : outcome lstate :=
  '(kept, s) ← erase_unless (λ l, special (connect_to l)) (listener_list s) s; Ret (set_listeners kept s).
Definition close_smartsockets (s : lstate) : outcome lstate :=
  '(kept, s) ← erase_unless (λ l, negb (bool_decide (local_name l = $"*smartsocket*"))) (listener_list s) s; Ret (set_listeners kept s).

(** The rest of [install_listener] for a listener [l] that has the name already. *)
Definition rebind (l : alistener) (to : bytes) (transport : option Z) (no_rebind : bool) (s : lstate)
  : outcome (InstallStatus * bytes * alistener * lstate) :=
  if special (connect_to l) then Ret (INSTALL_STATUS_INTERNAL_ERROR, $"cannot repurpose smartsocket", l, s)
  else if no_rebind then Ret (INSTALL_STATUS_CANNOT_REBIND, $"cannot rebind", l, s)
  else if bool_decide (l_transport l = transport) then
    Ret (INSTALL_STATUS_OK, [], mkListener (l_addr l) (l_fd l) (local_name l) to (l_transport l) (l_disconnect l), s)
  else
    old ← the_transport l;
    s ← RemoveDisconnect old (l_addr l) s;
    match transport with
    | None => Abort "null pointer"
    | Some t =>
        s ← AddDisconnect t (l_addr l) s;
        Ret (INSTALL_STATUS_OK, [], mkListener (l_addr l) (l_fd l) (local_name l) to transport (l_disconnect l), s)
    end.

(** The loop over the list: the first listener of that name is rebound in place. *)
Fixpoint rebind_in (l : list alistener) (name to : bytes) (transport : option Z) (no_rebind : bool) (s : lstate)
  : outcome (option (InstallStatus * bytes * list alistener * lstate)) :=
  match l with
  | [] => Ret None
  | x :: l =>
      if bool_decide (local_name x = name) then
        '(st, error, x, s) ← rebind x to transport no_rebind s; Ret (Some (st, error, x :: l, s))
      else
        r ← rebind_in l name to transport no_rebind s;
        Ret (match r with Some (st, error, l, s) => Some (st, error, x :: l, s) | None => None end)
  end.

(** The status, the error message, the resolved port (0 if there is none). *)
Definition install_listener (gListenAll : bool) (net : Network) (name to : bytes) (transport : option Z) (no_rebind : bool) (s : lstate)
  : outcome (InstallStatus * bytes * Z * lstate) :=
  r ← rebind_in (listener_list s) name to transport no_rebind s;
  match r with
  | Some (st, error, l, s) => Ret (st, error, 0, set_listeners l s)
  | None =>
      '(fd, error, port) ← socket_spec_listen gListenAll name;
      let resolved := default 0 port in
      if fd <? 0 then Ret (INSTALL_STATUS_CANNOT_BIND, error, 0, s)
      else
        let name := if negb (resolved =? 0) then $"tcp:" ++ print_dec resolved else name in
        CHECK (negb (bool_decide (fd ∈ l_polled s))) "install existing fd" ;;
        let l := mkListener (l_next s) fd name to transport (bool_decide (is_Some transport)) in
        let s := mkLState (listener_list s) (l_transports s) ({[fd]} ∪ l_polled s) (l_next s + 1) in
        s ← (match transport with Some t => AddDisconnect t (l_addr l) s | None => Ret s end);
        Ret (INSTALL_STATUS_OK, error, resolved, set_listeners (listener_list s ++ [l]) s)
  end.

(** ** Forward requests *)

(** A client's descriptor takes what it takes; the results of the writes are
    not looked at. *)
Definition send (f : wr_fd → outcome (bool * wr_fd)) (fd : wr_fd) : outcome wr_fd := '(_, fd) ← f fd; Ret fd.

Definition install_message (r : InstallStatus) (error service : bytes) : bytes :=
  match r with
  | INSTALL_STATUS_OK => $"success (!)"
  | INSTALL_STATUS_INTERNAL_ERROR => $"internal error"
  | INSTALL_STATUS_CANNOT_BIND => $"cannot bind listener: " ++ c_str error
  | INSTALL_STATUS_CANNOT_REBIND => $"cannot rebind existing socket"
  | INSTALL_STATUS_LISTENER_NOT_FOUND => $"listener '" ++ service ++ $"' not found"
  end.

(** A [forward:] or [killforward:] request, past the word: whether it is the
    latter, [no_rebind], and what [service] points to then. *)
Definition forward_args (service : bytes) : bool * bool * bytes :=
  if StartsWith service $"killforward:" then (true, false, drop 12 service)
  else
    let service := drop 8 service in
    if StartsWith service $"norebind:" then (false, true, drop 9 service) else (false, false, service).

(** The pieces, or [None] for a bad request. *)
Definition forward_pieces (kill_forward : bool) (pieces : list bytes) : option (bytes * bytes) :=
  match pieces with
  | [local] => if kill_forward && negb (bool_decide (local = [])) then Some (local, []) else None
  | [local; remote] =>
      if negb kill_forward && negb (bool_decide (local = [])) && negb (bool_decide (remote = [])) && negb (special remote)
      then Some (local, remote) else None
  | _ => None
  end.

(** [acquire] is what [transport_acquirer] returns, with its message. *)
Definition handle_forward_request (gListenAll : bool) (net : Network) (service : bytes) (acquire : outcome (option Z * bytes))
    (fd : wr_fd) (s : lstate) : outcome (bool * wr_fd * lstate) :=
  if bool_decide (service = $"list-forward") then
    listeners ← format_listeners s;
    fd ← send SendOkay fd;
    fd ← send (λ fd, SendProtocolString fd listeners) fd;
    Ret (true, fd, s)
  else if bool_decide (service = $"killforward-all") then
    s ← remove_all_listeners s;
    fd ← send SendOkay fd;
    fd ← send SendOkay fd;
    Ret (true, fd, s)
  else if prefix_of $"forward:" service || prefix_of $"killforward:" service then
    '(transport, error) ← acquire;
    match transport with
    | None => fd ← send (λ fd, SendFail fd error) fd; Ret (true, fd, s)
    | Some t =>
        let '(kill_forward, no_rebind, service) := forward_args service in
        pieces ← Split service $";";
        match forward_pieces kill_forward pieces with
        | None =>
            fd ← send (λ fd, SendFail fd ((if (kill_forward : bool) then $"bad killforward: " else $"bad forward: ") ++ service)) fd;
            Ret (true, fd, s)
        | Some (local, remote) =>
            '(r, error, resolved_tcp_port, s) ←
              (if (kill_forward : bool) then '(r, s) ← remove_listener local t s; Ret (r, error, 0, s)
               else install_listener gListenAll net local remote (Some t) no_rebind s);
            match r with
            | INSTALL_STATUS_OK =>
                fd ← send SendOkay fd;
                fd ← send SendOkay fd;
                fd ← (if negb (resolved_tcp_port =? 0) then send (λ fd, SendProtocolString fd (print_dec resolved_tcp_port)) fd else Ret fd);
                Ret (true, fd, s)
            | _ => fd ← send (λ fd, SendFail fd (install_message r error service)) fd; Ret (true, fd, s)
            end
        end
    end
  else Ret (false, fd, s).

(** ** Events *)

(** What happens to the listeners: a request of a client, the server's own
    listener, transports that come, disconnect and are deleted.  [net] is what the
    kernel does when the event opens a socket. *)
Inductive l_event :=
  | LForward (net : Network) (service : bytes) (t : option Z) (error : bytes) (fd : wr_fd)
  | LSmart (net : Network) (name : bytes)
  | LNew (t : Z) (a : atransport) | LDisconnect (t : Z) | LDelete (t : Z) | LCloseSmart.

Section events.
Context (gListenAll : bool).

Definition l_run (e : l_event) (s : lstate) : outcome lstate :=
  match e with
  | LForward net service t error fd => '(_, _, s) ← handle_forward_request gListenAll net service (Ret (t, error)) fd s; Ret s
  | LSmart net name => '(_, _, _, s) ← install_listener gListenAll net name $"*smartsocket*" None false s; Ret s
  | LNew t a => Ret (set_l_transports (<[t := (a, [])]> (l_transports s)) s)
  | LDisconnect t => RunDisconnects t s
  | LDelete t => Ret (set_l_transports (delete t (l_transports s)) s)
  | LCloseSmart => close_smartsockets s
  end.

(** The kernel opens a descriptor that is not open, and the port it chooses is
    not one a listener has. *)
Definition net_ok (net : Network) (s : lstate) : Prop :=
  (∀ c, (open_socket c).1 ∉ l_polled s) ∧
  (∀ c, Forall (λ l, local_name l ≠ $"tcp:" ++ print_dec (adb_socket_get_local_port (open_socket c).1)) (listener_list s)).

(** A request has acquired a transport that is there; the server's own listener
    is the first one; a transport is deleted after its disconnects have run. *)
Definition l_enabled (e : l_event) (s : lstate) : Prop :=
  match e with
  | LForward net _ t _ _ => net_ok net s ∧ match t with Some t => is_Some (l_transports s !! t) | None => True end
  | LSmart net _ => net_ok net s ∧ listener_list s = []
  | LNew t _ => l_transports s !! t = None
  | LDisconnect t => is_Some (l_transports s !! t)
  | LDelete t => ∃ a, l_transports s !! t = Some (a, [])
  | LCloseSmart => True
  end.

Definition l_init : lstate := mkLState [] ∅ ∅ 0.

Inductive l_reachable : lstate → Prop :=
  | l_reach_init : l_reachable l_init
  | l_reach_next s e s' : l_reachable s → l_enabled e s → l_run e s = Ret s' → l_reachable s'.
End events.

(** ** The invariant

    Of the listeners [L], the transports [T], the polled descriptors [P] and the
    next address [n]. *)
Record linv (L : list alistener) (T : gmap Z (atransport * list Z)) (P : gset Z) (n : Z) : Prop := {
  lv_addr : NoDup (l_addr <$> L);
  lv_next : Forall (λ l, l_addr l < n) L;
  lv_fd : NoDup (l_fd <$> L);
  lv_polled : Forall (λ l, l_fd l ∈ P) L;
  lv_name : NoDup (local_name <$> L);
  lv_special : Forall (λ l, l_transport l = None ↔ special (connect_to l) = true) L;
  lv_live : ∀ l t, l ∈ L → l_transport l = Some t → is_Some (T !! t) ∧ l_disconnect l = true;
  lv_reg : ∀ t a d, T !! t = Some (a, d) → NoDup d ∧ ∀ x, x ∈ d ↔ ∃ l, l ∈ L ∧ l_addr l = x ∧ l_transport l = Some t;
  lv_smart : Forall (λ l, special (connect_to l) = true → connect_to l = smartsocket) L
}.

Lemma linv_perm L L' T P n : L ≡ₚ L' → linv L T P n → linv L' T P n.
Proof.
  intros Hp []. constructor; try (by rewrite <-Hp).
  - intros l t. rewrite <-Hp. apply lv_live0.
  - intros t a d Hd. destruct (lv_reg0 t a d Hd) as [? Hx]. split; [done|]. intros x. rewrite Hx. by setoid_rewrite Hp.
Qed.

(** What taking a listener away leaves of the transports. *)
Definition unregistered (l : alistener) (T : gmap Z (atransport * list Z)) : gmap Z (atransport * list Z) :=
  match l_transport l with
  | Some t => alter (λ e, (e.1, filter (λ x, x ≠ l_addr l) e.2)) t T
  | None => T
  end.

Lemma alter_same {A} (f : A → A) t (m : gmap Z A) a : m !! t = Some a → alter f t m = <[t := f a]> m.
Proof. intros Ha. apply map_eq. intros k. destruct (decide (k = t)) as [->|]; [by rewrite lookup_alter_eq, Ha, lookup_insert_eq|by rewrite lookup_alter_ne, lookup_insert_ne]. Qed.

Lemma linv_remove l L T P n : linv (l :: L) T P n → linv L (unregistered l T) (P ∖ {[l_fd l]}) n.
Proof.
  intros []. cbn in *. apply NoDup_cons in lv_addr0 as [Ha Haddr], lv_fd0 as [Hf Hfd], lv_name0 as [_ Hname].
  apply Forall_cons in lv_next0 as [_ Hnext], lv_polled0 as [_ Hpol], lv_special0 as [_ Hspec], lv_smart0 as [_ Hsmart].
  assert (Hne : ∀ k, k ∈ L → l_addr k ≠ l_addr l).
  { intros k Hk He. apply Ha. rewrite <-He. by apply list_elem_of_fmap_2. }
  constructor; try done.
  - apply Forall_forall. intros k Hk. apply elem_of_difference. split; [by eapply Forall_forall in Hpol|].
    rewrite elem_of_singleton. intros He. apply Hf. rewrite <-He. by apply list_elem_of_fmap_2.
  - intros k t Hk Ht. destruct (lv_live0 k t ltac:(by right) Ht) as [Hl ?]. split; [|done]. unfold unregistered.
    destruct (l_transport l) as [u|]; [|done]. by rewrite lookup_alter_is_Some.
  - intros t a d Hd. unfold unregistered in Hd. destruct (l_transport l) as [u|] eqn:El.
    + destruct (decide (t = u)) as [->|Hu].
      * rewrite lookup_alter_eq in Hd. destruct (T !! u) as [[a' d']|] eqn:ET; cbn in Hd; [|done]. simplify_eq.
        destruct (lv_reg0 u a d' ET) as [Hnd Hx]. split; [by apply NoDup_filter|]. intros x. rewrite list_elem_of_filter, Hx. split.
        -- intros [Hxl (k & [->|Hk]%elem_of_cons & <- & Hk2)]; [done|]. eauto.
        -- intros (k & Hk & <- & Hk2). split; [by apply Hne|]. exists k. split_and!; [by right|done|done].
      * rewrite lookup_alter_ne in Hd by done. destruct (lv_reg0 t a d Hd) as [Hnd Hx]. split; [done|]. intros x. rewrite Hx. split.
        -- intros (k & [->|Hk]%elem_of_cons & <- & Hk2); [congruence|eauto].
        -- intros (k & Hk & <- & Hk2). exists k. split_and!; [by right|done|done].
    + destruct (lv_reg0 t a d Hd) as [Hnd Hx]. split; [done|]. intros x. rewrite Hx. split.
      -- intros (k & [->|Hk]%elem_of_cons & <- & Hk2); [congruence|eauto].
      -- intros (k & Hk & <- & Hk2). exists k. split_and!; [by right|done|done].
Qed.

Lemma l_destroy_ok l L X T P n :
  linv (l :: L) T P n → alistener_destroy l (mkLState X T P n) = Ret (mkLState X (unregistered l T) (P ∖ {[l_fd l]}) n).
Proof.
  intros Hi. unfold alistener_destroy, unregistered. destruct (l_transport l) as [t|] eqn:El; [|done].
  destruct (lv_live _ _ _ _ Hi l t ltac:(by left) El) as [[[a d] Hd] _]. unfold RemoveDisconnect, live_transport. cbn. rewrite Hd. cbn.
  by rewrite (alter_same _ t T (a, d)).
Qed.

Lemma take_listener_Some f L l R : take_listener f L = Some (l, R) → L ≡ₚ l :: R ∧ f l = true ∧ R `sublist_of` L.
Proof.
  revert R. induction L as [|x L IH]; intros R; cbn [take_listener]; [done|]. destruct (f x) eqn:E.
  - intros [= <- <-]. split_and!; [done|done|by apply sublist_cons].
  - destruct (take_listener f L) as [[y R']|]; [|done]. intros [= <- <-]. destruct (IH R' eq_refl) as (Hp & ? & ?).
    split_and!; [rewrite Hp; constructor|done|by apply sublist_skip].
Qed.

Lemma take_listener_None f L : take_listener f L = None → Forall (λ l, f l = false) L.
Proof.
  induction L as [|x L IH]; cbn [take_listener]; [done|]. destruct (f x) eqn:E; [done|]. destruct (take_listener f L) as [[y R']|]; [done|].
  intros _. constructor; [done|auto].
Qed.

(** The listeners of [t] go, one callback after the other. *)
Lemma run_disconnects_ok t a d0 d L T P n :
  T !! t = Some (a, d0) → linv L (<[t := (a, d)]> T) P n →
  ∃ L' P', run_disconnects d (mkLState L T P n) = Ret (mkLState L' T P' n) ∧ linv L' (<[t := (a, [])]> T) P' n ∧
    L' = filter (λ l, l_transport l ≠ Some t) L.
Proof.
  intros Ht. revert L P. induction d as [|x d IH]; intros L P Hi; cbn [run_disconnects].
  { exists L, P. split_and!; [done|done|]. symmetry. apply filter_all. intros l Hl Hlt.
    destruct (lv_reg _ _ _ _ Hi t a [] ltac:(by rewrite lookup_insert_eq)) as [_ Hx]. by apply (elem_of_nil (l_addr l)), Hx; eauto. }
  destruct (lv_reg _ _ _ _ Hi t a (x :: d) ltac:(by rewrite lookup_insert_eq)) as [Hnd Hx].
  destruct (proj1 (Hx x) ltac:(by left)) as (l & Hl & Hla & Hlt).
  unfold listener_disconnect. cbn [listener_list]. destruct (take_listener _ L) as [[l0 R]|] eqn:Htake.
  2:{ apply take_listener_None in Htake. rewrite Forall_forall in Htake. specialize (Htake l Hl). reflect_Z. done. }
  pose proof (take_listener_Some _ _ _ _ Htake) as (Hp & Hl0 & _). cbn beta in Hl0. reflect_Z.
  assert (Hi' : linv (l0 :: R) (<[t := (a, x :: d)]> T) P n) by by eapply linv_perm.
  assert (l0 = l) as ->.
  { rewrite Hp in Hl. apply elem_of_cons in Hl as [->|Hl]; [done|]. pose proof (lv_addr _ _ _ _ Hi') as Ha. cbn in Ha. apply NoDup_cons in Ha as [Ha _].
    destruct Ha. rewrite Hl0, <-Hla. by apply list_elem_of_fmap_2. }
  destruct (lv_live _ _ _ _ Hi' l t ltac:(by left) Hlt) as [_ ->].
  unfold alistener_destroy. cbn [l_transport l_fd l_polled set_l_polled set_listeners]. cbn [mbind outcome_bind].
  pose proof (linv_remove _ _ _ _ _ Hi') as Hr. unfold unregistered in Hr. rewrite Hlt, (alter_same _ t _ (a, x :: d)) in Hr by by rewrite lookup_insert_eq.
  rewrite insert_insert_eq in Hr. cbn [fst snd] in Hr. rewrite filter_cons_False in Hr by naive_solver.
  apply NoDup_cons in Hnd as [Hnx _]. rewrite filter_all in Hr by (intros y Hy; rewrite Hla; by intros ->).
  destruct (IH R _ Hr) as (L' & P' & Hrun & HL & HLeq). exists L', P'. split_and!; [exact Hrun|exact HL|].
  rewrite HLeq. clear -Htake Hlt Hp. revert R Htake Hp. induction L as [|y L IHL]; intros R; cbn [take_listener]; [done|].
  destruct (l_addr y =? x) eqn:E.
  - intros [= -> ->] _. by rewrite filter_cons_False by naive_solver.
  - destruct (take_listener _ L) as [[z R']|] eqn:Ez; [|done]. intros [= -> <-] _.
    pose proof (take_listener_Some _ _ _ _ Ez) as (Hp' & _). specialize (IHL R' eq_refl Hp').
    rewrite !filter_cons. by rewrite IHL.
Qed.

Definition attrs (T : gmap Z (atransport * list Z)) : gmap Z atransport := fst <$> T.

Lemma unregistered_attrs l T : attrs (unregistered l T) = attrs T.
Proof.
  unfold attrs, unregistered. destruct (l_transport l) as [t|]; [|done]. apply map_eq. intros k. rewrite !lookup_fmap.
  destruct (decide (k = t)) as [->|]; [rewrite lookup_alter_eq; by destruct (T !! t)|by rewrite lookup_alter_ne].
Qed.

Lemma erase_ok keep K L X T P n :
  linv (L ++ K) T P n →
  ∃ T' P', erase_unless keep L (mkLState X T P n) = Ret (filter (λ l, keep l = true) L, mkLState X T' P' n) ∧
    linv (filter (λ l, keep l = true) L ++ K) T' P' n ∧ attrs T' = attrs T.
Proof.
  revert K T P. induction L as [|x L IH]; intros K T P Hi; cbn [erase_unless]; [by exists T, P|].
  destruct (keep x) eqn:E.
  - destruct (IH (x :: K) T P) as (T' & P' & -> & Hi' & Ha). { eapply linv_perm; [|exact Hi]. cbn. by rewrite Permutation_middle. }
    exists T', P'. rewrite filter_cons_True by done. split_and!; [done| |done]. eapply linv_perm; [|exact Hi']. cbn. by rewrite Permutation_middle.
  - cbn in Hi. rewrite (l_destroy_ok x (L ++ K)) by done. cbn [mbind outcome_bind].
    destruct (IH K _ _ (linv_remove _ _ _ _ _ Hi)) as (T' & P' & -> & Hi' & Ha). exists T', P'. rewrite filter_cons_False by congruence.
    split_and!; [done|done|]. by rewrite Ha, unregistered_attrs.
Qed.

(** ** Adding and rebinding *)

Definition registered (l : alistener) (T : gmap Z (atransport * list Z)) : gmap Z (atransport * list Z) :=
  match l_transport l with Some t => alter (λ e, (e.1, e.2 ++ [l_addr l])) t T | None => T end.

Lemma registered_attrs l T : attrs (registered l T) = attrs T.
Proof.
  unfold attrs, registered. destruct (l_transport l) as [t|]; [|done]. apply map_eq. intros k. rewrite !lookup_fmap.
  destruct (decide (k = t)) as [->|]; [rewrite lookup_alter_eq; by destruct (T !! t)|by rewrite lookup_alter_ne].
Qed.

Lemma attrs_live T T' t : attrs T' = attrs T → is_Some (T !! t) → is_Some (T' !! t).
Proof. intros Ha [e He]. assert (attrs T' !! t = Some e.1) as H by (rewrite Ha; unfold attrs; by rewrite lookup_fmap, He). unfold attrs in H. rewrite lookup_fmap in H. destruct (T' !! t); [eauto|done]. Qed.

(** [l_transport l] is there. *)
Definition transport_live (l : alistener) (T : gmap Z (atransport * list Z)) : Prop :=
  match l_transport l with Some t => is_Some (T !! t) | None => True end.

Lemma linv_add l L T P n m :
  linv L T P n → l_addr l ∉ l_addr <$> L → l_addr l < m → n ≤ m → l_fd l ∉ l_fd <$> L → local_name l ∉ local_name <$> L →
  (l_transport l = None ↔ special (connect_to l) = true) → transport_live l T → (is_Some (l_transport l) → l_disconnect l = true) →
  (special (connect_to l) = true → connect_to l = smartsocket) →
  linv (l :: L) (registered l T) ({[l_fd l]} ∪ P) m.
Proof.
  intros [] Ha Hm Hnm Hf Hn Hs Hl Hd Hsm. constructor; cbn.
  - by constructor.
  - constructor; [done|]. eapply Forall_impl; [exact lv_next0|]. cbn. lia.
  - by constructor.
  - constructor; [set_solver|]. eapply Forall_impl; [exact lv_polled0|]. set_solver.
  - by constructor.
  - by constructor.
  - intros k t [->|Hk]%elem_of_cons Ht; [split; [|apply Hd; rewrite Ht; eauto]|].
    + eapply attrs_live; [apply registered_attrs|]. unfold transport_live in Hl. by rewrite Ht in Hl.
    + destruct (lv_live0 k t Hk Ht). split; [|done]. by eapply attrs_live; [apply registered_attrs|].
  - intros t a d Htd. unfold registered in Htd. destruct (l_transport l) as [u|] eqn:El.
    + destruct (decide (t = u)) as [->|Hu].
      * rewrite lookup_alter_eq in Htd. destruct (T !! u) as [[a' d']|] eqn:ET; cbn in Htd; [|done]. simplify_eq.
        destruct (lv_reg0 u a d' ET) as [Hnd Hx]. assert (l_addr l ∉ d').
        { rewrite Hx. intros (k & Hk & Hka & _). apply Ha. rewrite <-Hka. by apply list_elem_of_fmap_2. }
        split; [apply NoDup_app; split_and!; [done| |apply NoDup_singleton]|].
        { intros x Hxd ->%list_elem_of_singleton. done. }
        intros x. rewrite elem_of_app, list_elem_of_singleton, Hx. split.
        -- intros [(k & Hk & <- & Hk2)| ->]; [exists k; split_and!; [by right|done|done]|exists l; split_and!; [by left|done|done]].
        -- intros (k & [->|Hk]%elem_of_cons & <- & Hk2); [by right|left; eauto].
      * rewrite lookup_alter_ne in Htd by done. destruct (lv_reg0 t a d Htd) as [Hnd Hx]. split; [done|]. intros x. rewrite Hx. split.
        -- intros (k & Hk & <- & Hk2). exists k. split_and!; [by right|done|done].
        -- intros (k & [->|Hk]%elem_of_cons & <- & Hk2); [congruence|eauto].
    + destruct (lv_reg0 t a d Htd) as [Hnd Hx]. split; [done|]. intros x. rewrite Hx. split.
      -- intros (k & Hk & <- & Hk2). exists k. split_and!; [by right|done|done].
      -- intros (k & [->|Hk]%elem_of_cons & <- & Hk2); [congruence|eauto].
  - by constructor.
Qed.

Lemma l_add_ok l X T P n : transport_live l T →
  match l_transport l with Some t => AddDisconnect t (l_addr l) (mkLState X T P n) | None => Ret (mkLState X T P n) end =
  Ret (mkLState X (registered l T) P n).
Proof.
  unfold transport_live, registered. destruct (l_transport l) as [t|]; [|done]. intros [[a d] Hd]. unfold AddDisconnect, live_transport. cbn. rewrite Hd. cbn.
  by rewrite (alter_same _ t T (a, d)).
Qed.

(** What a listener is after a rebinding that succeeds. *)
Definition rebound (l : alistener) (to : bytes) (t : Z) : alistener :=
  mkListener (l_addr l) (l_fd l) (local_name l) to (Some t) (l_disconnect l).
Definition rebinds (l : alistener) (no_rebind : bool) : bool := negb (special (connect_to l)) && negb no_rebind.

Lemma rebind_ok l to t nr L X T P n :
  linv (l :: L) T P n → is_Some (T !! t) → special to = false →
  ∃ st error T', rebind l to (Some t) nr (mkLState X T P n) = Ret (st, error, if rebinds l nr then rebound l to t else l, mkLState X T' P n) ∧
    linv ((if rebinds l nr then rebound l to t else l) :: L) T' P n ∧ attrs T' = attrs T ∧ (st = INSTALL_STATUS_OK ↔ rebinds l nr = true).
Proof.
  intros Hi Hlive Hto. unfold rebind, rebinds. destruct (special (connect_to l)) eqn:Es; cbn [negb andb].
  { eexists _, _, T. split_and!; done. }
  destruct nr; cbn [negb]. { eexists _, _, T. split_and!; done. }
  pose proof (Forall_inv (lv_special _ _ _ _ Hi)) as Hsp. cbn beta in Hsp. rewrite Es in Hsp.
  destruct (l_transport l) as [old|] eqn:El; [|by discriminate (proj1 Hsp eq_refl)].
  destruct (lv_live _ _ _ _ Hi l old ltac:(by left) El) as [[[a d] Hold] Hdisc].
  pose proof Hi as [Ha Hn Hf Hp Hnm Hs Hlv Hrg Hsm]. cbn in Ha, Hf, Hnm. apply NoDup_cons in Ha as [Ha1 Ha2], Hf as [Hf1 Hf2], Hnm as [Hn1 Hn2].
  assert (Hgo : linv (rebound l to t :: L) (registered (rebound l to t) (unregistered l T)) P n).
  { pose proof (linv_remove _ _ _ _ _ Hi) as Hr.
    replace P with ({[l_fd l]} ∪ (P ∖ {[l_fd l]})) at 1.
    2:{ apply Forall_cons in Hp as [Hp _]. apply set_eq. intros z. destruct (decide (z = l_fd l)); set_solver. }
    apply Forall_cons in Hn as [Hn _]. apply (linv_add (rebound l to t) L _ _ n n Hr); cbn; try done; try lia.
    - by rewrite Hto.
    - unfold transport_live. cbn. eapply attrs_live; [apply unregistered_attrs|done].
    - by rewrite Hto. }
  case_bool_decide as Heq.
  - simplify_eq. eexists _, _, T. split_and!; [done| |done|done].
    destruct Hgo as [G1 G2 G3 G4 G5 G6 G7 G8 G9]. constructor; try done.
    + intros k u [->|Hk]%elem_of_cons Hu; [cbn in *; simplify_eq; split; [eauto|done]|]. apply Hlv; [by right|done].
    + intros u b e Hu. destruct (Hrg u b e Hu) as [Hnd Hx]. split; [done|]. intros x. rewrite Hx. split.
      * intros (k & [->|Hk]%elem_of_cons & <- & Hk2); [exists (rebound l to t); split_and!; [by left|done|cbn; congruence]|exists k; split_and!; [by right|done|done]].
      * intros (k & [->|Hk]%elem_of_cons & <- & Hk2); [exists l; cbn in *; split_and!; [by left|done|congruence]|exists k; split_and!; [by right|done|done]].
  - unfold the_transport. rewrite El. cbn [mbind outcome_bind]. unfold RemoveDisconnect at 1, live_transport. cbn [l_transports]. rewrite Hold. cbn [mbind outcome_bind].
    pose proof (l_add_ok (rebound l to t) X (unregistered l T) P n) as Hadd. cbn [l_transport rebound l_addr] in Hadd.
    assert (HT : unregistered l T = <[old := (a, filter (λ x, x ≠ l_addr l) d)]> T).
    { unfold unregistered. rewrite El. by rewrite (alter_same _ old T (a, d)). }
    rewrite HT in Hadd. unfold set_l_transports. cbn [listener_list l_transports l_polled l_next].
    rewrite Hadd by (unfold transport_live; cbn; rewrite <-HT; eapply attrs_live; [apply unregistered_attrs|done]). cbn [mbind outcome_bind].
    rewrite <-HT. eexists _, _, _. split_and!; [done|exact Hgo|by rewrite registered_attrs, unregistered_attrs|done].
Qed.

Lemma rebind_in_ok K L name to t nr X T P n :
  linv (K ++ L) T P n → is_Some (T !! t) → special to = false →
  (Forall (λ l, local_name l ≠ name) L ∧ rebind_in L name to (Some t) nr (mkLState X T P n) = Ret None) ∨
  ∃ L1 l L2 st error T', L = L1 ++ l :: L2 ∧ local_name l = name ∧
    rebind_in L name to (Some t) nr (mkLState X T P n) =
      Ret (Some (st, error, L1 ++ (if rebinds l nr then rebound l to t else l) :: L2, mkLState X T' P n)) ∧
    linv (K ++ L1 ++ (if rebinds l nr then rebound l to t else l) :: L2) T' P n ∧ attrs T' = attrs T ∧ (st = INSTALL_STATUS_OK ↔ rebinds l nr = true).
Proof.
  intros Hi Hlive Hto. revert K Hi. induction L as [|x L IH]; intros K Hi; [by left|]. cbn [rebind_in]. case_bool_decide as Hname.
  - right. assert (Hi' : linv (x :: K ++ L) T P n) by (eapply linv_perm; [|exact Hi]; by rewrite Permutation_middle).
    destruct (rebind_ok x to t nr (K ++ L) X T P n Hi' Hlive Hto) as (st & error & T' & -> & Hr & Ha & Hst). cbn [mbind outcome_bind].
    exists [], x, L, st, error, T'. split_and!; try done. cbn. eapply linv_perm; [|exact Hr]. by rewrite Permutation_middle.
  - destruct (IH (K ++ [x])) as [[Hall ->]|(L1 & l & L2 & st & error & T' & -> & Hn & -> & Hr & Ha & Hst)]; [by rewrite <-app_assoc| |].
    + left. split; [by constructor|done].
    + right. exists (x :: L1), l, L2, st, error, T'. split_and!; try done. by rewrite <-app_assoc in Hr.
Qed.

(** The state is in order. *)
Definition l_inv (s : lstate) : Prop := linv (listener_list s) (l_transports s) (l_polled s) (l_next s).

(** The redirections the listeners stand for, by local name. *)
Definition forwards (L : list alistener) : gmap bytes (bytes * option Z) :=
  list_to_map ((λ l, (local_name l, (connect_to l, l_transport l))) <$> L).

Lemma names_fst L : ((λ l, (local_name l, (connect_to l, l_transport l))) <$> L).*1 = local_name <$> L.
Proof. rewrite <-list_fmap_compose. done. Qed.

Lemma forwards_perm L L' : NoDup (local_name <$> L) → L ≡ₚ L' → forwards L = forwards L'.
Proof. intros Hnd Hp. unfold forwards. apply list_to_map_proper; [by rewrite names_fst|by rewrite Hp]. Qed.

Lemma forwards_None L name : name ∉ local_name <$> L → forwards L !! name = None.
Proof. intros Hn. apply not_elem_of_list_to_map. by rewrite names_fst. Qed.

Lemma names_middle L1 l L2 l' :
  NoDup (local_name <$> L1 ++ l :: L2) → local_name l' = local_name l →
  forwards (L1 ++ l' :: L2) = <[local_name l := (connect_to l', l_transport l')]> (forwards (L1 ++ l :: L2)).
Proof.
  intros Hnd He. assert (Hnd' : NoDup (local_name <$> L1 ++ l' :: L2)) by (rewrite fmap_app, fmap_cons, He; by rewrite fmap_app, fmap_cons in Hnd).
  rewrite (forwards_perm _ (l' :: L1 ++ L2) Hnd'), (forwards_perm _ (l :: L1 ++ L2) Hnd) by (by rewrite Permutation_middle).
  unfold forwards. cbn. rewrite He. by rewrite insert_insert_eq.
Qed.

(** The name a new listener gets. *)
Definition bound_name (name : bytes) (port : Z) : bytes := if negb (port =? 0) then $"tcp:" ++ print_dec port else name.

Lemma listen_fresh gListenAll net s name :
  net_ok net s → ∃ fd error port, socket_spec_listen gListenAll name = Ret (fd, error, port) ∧
    (0 ≤ fd → fd ∉ l_polled s) ∧ (default 0 port ≠ 0 → $"tcp:" ++ print_dec (default 0 port) ∉ local_name <$> listener_list s).
Proof.
  intros [Hfd Hport]. unfold socket_spec_listen.
  assert (Hopen : ∀ c, ∃ fd error, open_socket c = (fd, error) ∧ fd ∉ l_polled s).
  { intros c. specialize (Hfd c). destruct (open_socket c) as [fd error]. eauto. }
  destruct (StartsWith name $"tcp:").
  - destruct (parse_tcp_Ret name) as (r & -> & _). cbn [mbind outcome_bind]. destruct r as [e|[host p]].
    { eexists _, _, _. split_and!; [done|lia|done]. }
    destruct (_ || _)%bool; [|eexists _, _, _; split_and!; [done|lia|done]].
    match goal with |- context [open_socket ?c] => specialize (Hport c); destruct (Hopen c) as (fd & e & Hc & Hf); rewrite Hc in * end.
    eexists _, _, _. split_and!; [done|done|]. destruct ((0 <=? fd) && (p =? 0))%bool; cbn [default]; [|done]. intros _ Hin.
    apply list_elem_of_fmap in Hin as (l & Hl & Hin). rewrite Forall_forall in Hport. by destruct (Hport l Hin).
  - destruct (local_type name) as [[nm ty]|]; [|eexists _, _, _; split_and!; [done|lia|done]].
    destruct (negb _); [eexists _, _, _; split_and!; [done|lia|done]|].
    match goal with |- context [open_socket ?c] => destruct (Hopen c) as (fd & e & Hc & Hf); rewrite Hc end.
    eexists _, _, _. by split_and!.
Qed.

Lemma forwards_snoc L l : NoDup (local_name <$> l :: L) → forwards (L ++ [l]) = <[local_name l := (connect_to l, l_transport l)]> (forwards L).
Proof.
  intros Hnd. rewrite (forwards_perm (L ++ [l]) (l :: L)); [done| |by rewrite Permutation_app_comm].
  by rewrite Permutation_app_comm.
Qed.

(** The end of [install_listener]: no listener has the name. *)
Lemma install_new gListenAll net name to transport no_rebind s :
  l_inv s → net_ok net s → rebind_in (listener_list s) name to transport no_rebind s = Ret None → name ∉ local_name <$> listener_list s →
  (transport = None ↔ special to = true) → (special to = true → to = smartsocket) → match transport with Some t => is_Some (l_transports s !! t) | None => True end →
  ∃ st error port s', install_listener gListenAll net name to transport no_rebind s = Ret (st, error, port, s') ∧ l_inv s' ∧
    attrs (l_transports s') = attrs (l_transports s) ∧ (st ≠ INSTALL_STATUS_OK → port = 0) ∧
    forwards (listener_list s') =
      if decide (st = INSTALL_STATUS_OK) then <[bound_name name port := (to, transport)]> (forwards (listener_list s)) else forwards (listener_list s).
Proof.
  intros Hi Hnet Hnone Hname Hto Hsm Hlive. unfold install_listener. rewrite Hnone. cbn [mbind outcome_bind].
  destruct (listen_fresh gListenAll net s name Hnet) as (fd & error & port & -> & Hfd & Hport). cbn [mbind outcome_bind].
  destruct (Z.ltb_spec fd 0) as [Hneg|Hpos]; [eexists _, _, _, s; split_and!; try done; by rewrite decide_False|]. specialize (Hfd Hpos).
  rewrite (bool_decide_eq_false_2 (fd ∈ l_polled s)) by done. cbn [negb CHECK mbind outcome_bind].
  set (l := mkListener (l_next s) fd _ to transport _).
  assert (Hl : transport_live l (l_transports s)) by done.
  pose proof (l_add_ok l (listener_list s) (l_transports s) ({[fd]} ∪ l_polled s) (l_next s + 1) Hl) as Hadd. cbn [l_transport l l_addr] in Hadd. cbn [l_addr l].
  rewrite Hadd. cbn [mbind outcome_bind].
  assert (Hin : linv (l :: listener_list s) (registered l (l_transports s)) ({[fd]} ∪ l_polled s) (l_next s + 1)).
  { pose proof Hi as [H1 H2 H3 H4 H5 H6 H7 H8 H9]. apply (linv_add l (listener_list s) _ _ (l_next s)); cbn; try done; try lia.
    - intros (k & Hk & Hin)%list_elem_of_fmap. rewrite Forall_forall in H2. specialize (H2 k Hin). cbn in H2. lia.
    - intros (k & -> & Hin)%list_elem_of_fmap. apply Hfd. rewrite Forall_forall in H4. exact (H4 k Hin).
    - destruct (Z.eqb_spec (default 0 port) 0); cbn [negb]; [done|by apply Hport].
    - by apply bool_decide_eq_true_2. }
  eexists _, _, _, _. split_and!; [done| |exact (registered_attrs l (l_transports s))|done|].
  - unfold l_inv. cbn. eapply linv_perm; [|exact Hin]. by rewrite Permutation_app_comm.
  - rewrite decide_True by done. cbn [listener_list set_listeners]. rewrite forwards_snoc by apply Hin. done.
Qed.

Lemma forwards_lookup L l : NoDup (local_name <$> L) → l ∈ L → forwards L !! local_name l = Some (connect_to l, l_transport l).
Proof.
  intros Hnd Hin. apply elem_of_list_to_map_1; [by rewrite names_fst|]. apply list_elem_of_fmap. by exists l.
Qed.

Lemma install_ok gListenAll net name to t no_rebind s :
  l_inv s → net_ok net s → is_Some (l_transports s !! t) → special to = false →
  ∃ st error port s', install_listener gListenAll net name to (Some t) no_rebind s = Ret (st, error, port, s') ∧ l_inv s' ∧
    attrs (l_transports s') = attrs (l_transports s) ∧ (st ≠ INSTALL_STATUS_OK → port = 0) ∧
    (∀ old u, forwards (listener_list s) !! name = Some (old, u) → port = 0 ∧ (st = INSTALL_STATUS_OK ↔ special old || no_rebind = false)) ∧
    forwards (listener_list s') =
      if decide (st = INSTALL_STATUS_OK) then <[bound_name name port := (to, Some t)]> (forwards (listener_list s)) else forwards (listener_list s).
Proof.
  intros Hi Hnet Hlive Hto. pose proof (rebind_in_ok [] (listener_list s) name to t no_rebind (listener_list s) _ _ _ Hi Hlive Hto) as Hr.
  replace (mkLState (listener_list s) (l_transports s) (l_polled s) (l_next s)) with s in Hr by by destruct s.
  destruct Hr as [[Hall Hnone]|(L1 & l & L2 & st & error & T' & HL & Hn & Hrun & Hinv & Ha & Hst)].
  - assert (Hnot : name ∉ local_name <$> listener_list s).
    { intros (l & -> & Hin)%list_elem_of_fmap. rewrite Forall_forall in Hall. by apply (Hall l Hin). }
    destruct (install_new gListenAll net name to (Some t) no_rebind s) as (st & error & port & s' & H1 & H2 & H3 & H4 & H5); try done; [by rewrite Hto..|].
    exists st, error, port, s'. split_and!; try done. intros old u. by rewrite forwards_None.
  - unfold install_listener. rewrite Hrun. cbn [mbind outcome_bind]. eexists _, _, _, _. split_and!; [done|exact Hinv|done|done| |].
    + intros old u Hold. split; [done|]. rewrite <-Hn, forwards_lookup in Hold by (try apply Hi; rewrite HL, elem_of_app, elem_of_cons; auto).
      simplify_eq. rewrite Hst. unfold rebinds. destruct (special (connect_to l)), no_rebind; cbn; by split.
    + cbn [listener_list set_listeners]. rewrite HL. unfold bound_name. cbn [negb Z.eqb]. destruct (rebinds l no_rebind) eqn:Er.
      * rewrite decide_True by tauto. rewrite (names_middle L1 l L2 (rebound l to t)); [by rewrite Hn| |done]. rewrite <-HL. apply Hi.
      * rewrite decide_False; [done|]. intros ?. rewrite Hst in *. done.
Qed.

(** ** Removing *)

Lemma remove_ok name u s : l_inv s →
  ∃ st s', remove_listener name u s = Ret (st, s') ∧ l_inv s' ∧ attrs (l_transports s') = attrs (l_transports s) ∧
    forwards (listener_list s') = delete name (forwards (listener_list s)) ∧
    st = (if decide (is_Some (forwards (listener_list s) !! name)) then INSTALL_STATUS_OK else INSTALL_STATUS_LISTENER_NOT_FOUND).
Proof.
  intros Hi. unfold remove_listener. destruct (take_listener _ _) as [[l R]|] eqn:E.
  - apply take_listener_Some in E as (Hp & Hn & _). apply bool_decide_eq_true in Hn. pose proof (linv_perm _ _ _ _ _ Hp Hi) as Hi'.
    unfold set_listeners. rewrite (l_destroy_ok l R) by done. cbn [mbind outcome_bind]. eexists _, _. split_and!; [done|exact (linv_remove _ _ _ _ _ Hi')|apply unregistered_attrs| |].
    + cbn [listener_list]. pose proof (lv_name _ _ _ _ Hi') as Hnd. rewrite (forwards_perm (listener_list s) (l :: R) (lv_name _ _ _ _ Hi) Hp).
      cbn in Hnd. apply NoDup_cons in Hnd as [Hnl _]. unfold forwards at 2. cbn. rewrite Hn in *.
      change (list_to_map _) with (forwards R). by rewrite delete_insert_id by by apply forwards_None.
    + rewrite decide_True; [done|]. rewrite <-Hn, forwards_lookup; [eauto|apply Hi|rewrite Hp; by left].
  - apply take_listener_None in E. assert (Hnot : name ∉ local_name <$> listener_list s).
    { intros (l & -> & Hin)%list_elem_of_fmap. rewrite Forall_forall in E. specialize (E l Hin). by apply bool_decide_eq_false in E. }
    eexists _, _. split_and!; [done|done|done| |].
    + by rewrite delete_id by by apply forwards_None.
    + rewrite forwards_None by done. by rewrite decide_False by (by intros []).
Qed.

Lemma forwards_filter (P : alistener → Prop) `{∀ l, Decision (P l)} (Q : bytes * (bytes * option Z) → Prop) `{∀ e, Decision (Q e)} L :
  NoDup (local_name <$> L) → (∀ l, P l ↔ Q (local_name l, (connect_to l, l_transport l))) →
  forwards (filter P L) = filter Q (forwards L).
Proof.
  intros Hnd HPQ. induction L as [|x L IH]; [done|]. cbn in Hnd. apply NoDup_cons in Hnd as [Hx Hnd].
  change (forwards (x :: L)) with (<[local_name x := (connect_to x, l_transport x)]> (forwards L)). rewrite filter_cons. case_decide as HP.
  - rewrite map_filter_insert_True by by apply HPQ. rewrite <-IH by done. done.
  - rewrite map_filter_insert_False by by rewrite <-HPQ. rewrite delete_id by by apply forwards_None. by apply IH.
Qed.

(** Erasing what [keep] does not hold of. *)
Lemma erase_all keep s : l_inv s →
  ∃ s', ('(kept, s) ← erase_unless keep (listener_list s) s; Ret (set_listeners kept s)) = Ret s' ∧ l_inv s' ∧
    attrs (l_transports s') = attrs (l_transports s) ∧ listener_list s' = filter (λ l, keep l = true) (listener_list s).
Proof.
  intros Hi. destruct (erase_ok keep [] (listener_list s) (listener_list s) (l_transports s) (l_polled s) (l_next s)) as (T' & P' & Hr & Hi' & Ha).
  { by rewrite app_nil_r. }
  replace (mkLState (listener_list s) (l_transports s) (l_polled s) (l_next s)) with s in Hr by by destruct s. rewrite Hr. cbn [mbind outcome_bind].
  eexists. split_and!; [done| |done|done]. unfold l_inv. cbn. by rewrite app_nil_r in Hi'.
Qed.

Lemma disconnects_ok t s : l_inv s → is_Some (l_transports s !! t) →
  ∃ s', RunDisconnects t s = Ret s' ∧ l_inv s' ∧ attrs (l_transports s') = attrs (l_transports s) ∧
    snd <$> l_transports s' !! t = Some [] ∧ listener_list s' = filter (λ l, l_transport l ≠ Some t) (listener_list s).
Proof.
  intros Hi [[a d] Hd]. unfold RunDisconnects, live_transport. rewrite Hd. cbn [mbind outcome_bind].
  destruct (run_disconnects_ok t a d d (listener_list s) (l_transports s) (l_polled s) (l_next s) Hd) as (L' & P' & Hr & Hi' & HL).
  { by rewrite insert_id. }
  replace (mkLState (listener_list s) (l_transports s) (l_polled s) (l_next s)) with s in Hr by by destruct s. rewrite Hr. cbn [mbind outcome_bind l_transports].
  rewrite Hd. cbn [mbind outcome_bind]. eexists. split_and!; [done|exact Hi'| |cbn; by rewrite lookup_insert_eq|done].
  cbn. unfold attrs. rewrite fmap_insert, insert_id; [done|]. by rewrite lookup_fmap, Hd.
Qed.

(** ** Requests *)

Lemma send_okay fd : ∃ fd', send SendOkay fd = Ret fd'.
Proof. unfold send. destruct (SendOkay_total fd) as (ok & fd' & ->). by eexists. Qed.
Lemma send_string m fd : ∃ fd', send (λ fd, SendProtocolString fd m) fd = Ret fd'.
Proof. unfold send. destruct (SendProtocolString_total fd m) as (ok & fd' & ->). by eexists. Qed.
Lemma send_fail m fd : ∃ fd', send (λ fd, SendFail fd m) fd = Ret fd'.
Proof. unfold send. destruct (SendFail_total fd m) as (ok & fd' & ->). by eexists. Qed.

(** Replies always return. *)
Ltac replies :=
  repeat match goal with
  | |- context [send SendOkay ?fd] => let E := fresh in destruct (send_okay fd) as [? E]; rewrite E; clear E; cbn [mbind outcome_bind]
  | |- context [send (λ fd, SendProtocolString fd ?m) ?fd] => let E := fresh in destruct (send_string m fd) as [? E]; rewrite E; clear E; cbn [mbind outcome_bind]
  | |- context [send (λ fd, SendFail fd ?m) ?fd] => let E := fresh in destruct (send_fail m fd) as [? E]; rewrite E; clear E; cbn [mbind outcome_bind]
  end.

Lemma format_ok s : l_inv s → ∃ r, format_listeners s = Ret r.
Proof.
  intros Hi. unfold format_listeners. pose proof (lv_special _ _ _ _ Hi) as Hs. pose proof (lv_live _ _ _ _ Hi) as Hl. clear Hi.
  generalize (@nil ascii). induction (listener_list s) as [|x L IH]; intros result; cbn [format_from]; [by eexists|].
  apply Forall_cons in Hs as [Hx Hs]. assert (Hl' : ∀ l t, l ∈ L → l_transport l = Some t → is_Some (l_transports s !! t) ∧ l_disconnect l = true).
  { intros l t Hin. apply Hl. by right. }
  destruct (special (connect_to x)); [by apply IH|]. unfold the_transport. destruct (l_transport x) as [t|] eqn:Et; [|by discriminate (proj1 Hx eq_refl)].
  cbn [mbind outcome_bind]. destruct (Hl x t ltac:(by left) Et) as [[[a d] Hd] _]. unfold live_transport. rewrite Hd. cbn [mbind outcome_bind]. by apply IH.
Qed.

(** What a request does to the redirections, on behalf of the transport [t]. *)
Definition forward_effect (service : bytes) (t : Z) (fw fw' : gmap bytes (bytes * option Z)) : Prop :=
  if bool_decide (service = $"killforward-all") then fw' = filter (λ e, special e.2.1 = true) fw
  else if bool_decide (service ≠ $"list-forward") && (prefix_of $"forward:" service || prefix_of $"killforward:" service) then
    let '(kill_forward, no_rebind, rest) := forward_args service in
    match forward_pieces kill_forward (pieces $";" rest) with
    | None => fw' = fw
    | Some (local, remote) =>
        if (kill_forward : bool) then fw' = delete local fw
        else match fw !! local with
             | Some (old, _) => fw' = if special old || no_rebind then fw else <[local := (remote, Some t)]> fw
             | None => fw' = fw ∨ ∃ port, fw' = <[bound_name local port := (remote, Some t)]> fw
             end
    end
  else fw' = fw.
Definition forward_service (service : bytes) : bool :=
  bool_decide (service = $"list-forward") || bool_decide (service = $"killforward-all") || (prefix_of $"forward:" service || prefix_of $"killforward:" service).

Lemma forward_pieces_remote kill l local remote : forward_pieces kill l = Some (local, remote) → kill = false → special remote = false.
Proof.
  unfold forward_pieces. intros H ->. destruct l as [|x [|y [|]]]; try done; cbn in H. case_match eqn:E; [|done]. simplify_eq.
  apply andb_prop in E as [_ E]. by apply negb_true_iff in E.
Qed.

Lemma forward_ok gListenAll net service t error fd s :
  l_inv s → net_ok net s → is_Some (l_transports s !! t) →
  ∃ fd' s', handle_forward_request gListenAll net service (Ret (Some t, error)) fd s = Ret (forward_service service, fd', s') ∧ l_inv s' ∧
    attrs (l_transports s') = attrs (l_transports s) ∧ forward_effect service t (forwards (listener_list s)) (forwards (listener_list s')).
Proof.
  intros Hi Hnet Hlive. unfold handle_forward_request, forward_service, forward_effect.
  destruct (decide (service = $"list-forward")) as [->|Hlist].
  { destruct (format_ok s Hi) as [r Hr]. rewrite Hr. cbn -[send]. replies. eexists _, s. by split_and!. }
  rewrite (bool_decide_eq_false_2 (service = $"list-forward")), (bool_decide_eq_true_2 (service ≠ _)) by done. cbn [orb andb].
  case_bool_decide as Hall.
  { destruct (erase_all (λ l, special (connect_to l)) s Hi) as (s' & Hr & Hi' & Ha & HL). unfold remove_all_listeners. rewrite Hr. cbn [mbind outcome_bind orb].
    replies. eexists _, s'. split_and!; [done|done|done|]. rewrite HL. apply forwards_filter; [apply Hi|done]. }
  cbn [orb]. destruct (_ || _)%bool; [|by eexists _, s; split_and!]. cbn [mbind outcome_bind].
  destruct (forward_args service) as [[kill nr] rest]. rewrite Split_pieces by done. cbn [mbind outcome_bind].
  destruct (forward_pieces kill _) as [[local remote]|] eqn:Hpieces; [|replies; by eexists _, s; split_and!].
  destruct kill.
  - destruct (remove_ok local t s Hi) as (st & s' & -> & Hi' & Ha & Hf & Hst). cbn [mbind outcome_bind].
    destruct st; cbn [negb Z.eqb mbind outcome_bind]; replies; by eexists _, s'.
  - destruct (install_ok gListenAll net local remote t nr s Hi Hnet Hlive (forward_pieces_remote _ _ _ _ Hpieces eq_refl))
      as (st & e & port & s' & -> & Hi' & Ha & Hport & Hold & Hf). cbn [mbind outcome_bind].
    assert (Heff : match forwards (listener_list s) !! local with
      | Some (old, _) => forwards (listener_list s') = if special old || nr then forwards (listener_list s) else <[local := (remote, Some t)]> (forwards (listener_list s))
      | None => forwards (listener_list s') = forwards (listener_list s) ∨ ∃ port, forwards (listener_list s') = <[bound_name local port := (remote, Some t)]> (forwards (listener_list s))
      end).
    { rewrite Hf. destruct (forwards (listener_list s) !! local) as [[old u]|].
      - destruct (Hold old u eq_refl) as [-> Hst]. case_decide as Hd.
        + rewrite Hst in Hd. by rewrite Hd.
        + destruct (special old || nr); [done|]. by destruct Hd; apply Hst.
      - case_decide; [right; by eexists|by left]. }
    destruct st; cbn [mbind outcome_bind]; try (replies; by eexists _, s'). replies. destruct (negb _); cbn [mbind outcome_bind]; replies; by eexists _, s'.
Qed.

Lemma forward_none gListenAll net service error fd s :
  l_inv s → net_ok net s →
  ∃ fd' s', handle_forward_request gListenAll net service (Ret (None, error)) fd s = Ret (forward_service service, fd', s') ∧ l_inv s' ∧
    attrs (l_transports s') = attrs (l_transports s).
Proof.
  intros Hi Hnet. unfold handle_forward_request, forward_service.
  destruct (decide (service = $"list-forward")) as [->|Hlist].
  { destruct (format_ok s Hi) as [r Hr]. rewrite Hr. cbn -[send]. replies. eexists _, s. by split_and!. }
  rewrite (bool_decide_eq_false_2 (service = $"list-forward")) by done. cbn [orb].
  case_bool_decide as Hall.
  { destruct (erase_all (λ l, special (connect_to l)) s Hi) as (s' & Hr & Hi' & Ha & HL). unfold remove_all_listeners. rewrite Hr. cbn [mbind outcome_bind orb].
    replies. by eexists _, s'. }
  cbn [orb]. destruct (_ || _)%bool; [|by eexists _, s; split_and!]. cbn [mbind outcome_bind]. replies. by eexists _, s.
Qed.

(** ** Descriptors of others

    What the listeners do leaves the polled descriptors of others polled, and a
    new listener does not get one of them. *)
Definition keeps (s s' : lstate) : Prop :=
  ∀ n, n ∈ l_polled s → n ∉ l_fd <$> listener_list s → n ∈ l_polled s' ∧ n ∉ l_fd <$> listener_list s'.

Lemma keeps_refl s : keeps s s.
Proof. by intros n. Qed.
Lemma keeps_trans s1 s2 s3 : keeps s1 s2 → keeps s2 s3 → keeps s1 s3.
Proof. intros H1 H2 n Hn Hf. destruct (H1 n Hn Hf). by apply H2. Qed.

Lemma disconnect_polled t addr s s' :
  RemoveDisconnect t addr s = Ret s' ∨ AddDisconnect t addr s = Ret s' → listener_list s' = listener_list s ∧ l_polled s' = l_polled s.
Proof. unfold RemoveDisconnect, AddDisconnect, live_transport. destruct (_ !! _) as [[a d]|]; cbn; intros [H|H]; by simplify_eq. Qed.

Lemma destroy_polled l s s' :
  alistener_destroy l s = Ret s' → listener_list s' = listener_list s ∧ l_polled s' = l_polled s ∖ {[l_fd l]}.
Proof.
  unfold alistener_destroy. destruct (l_transport l) as [t|]; [|by intros [= <-]].
  intros H. by destruct (disconnect_polled t (l_addr l) (set_l_polled (l_polled s ∖ {[l_fd l]}) s) s' (or_introl H)).
Qed.

Lemma destroy_keeps l rest s s' :
  listener_list s ≡ₚ l :: rest → ∀ k, l_fd k = l_fd l → alistener_destroy k (set_listeners rest s) = Ret s' → keeps s s'.
Proof.
  intros Hp k Hk [HL HP]%destroy_polled n Hn Hf. rewrite HL, HP, Hk. cbn. rewrite Hp in Hf. cbn in Hf.
  rewrite not_elem_of_cons in Hf. set_solver.
Qed.

Lemma erase_polled keep L s kept s' :
  erase_unless keep L s = Ret (kept, s') →
  (∀ n, n ∈ l_polled s → n ∉ l_fd <$> L → n ∈ l_polled s' ∧ n ∉ l_fd <$> kept).
Proof.
  revert s kept s'. induction L as [|x L IH]; intros s kept s'; cbn [erase_unless]; [by intros [= <- <-]|].
  intros H n Hn Hf. cbn in Hf. rewrite not_elem_of_cons in Hf. destruct Hf as [Hx Hf]. destruct (keep x).
  - destruct (erase_unless keep L s) as [[kept0 s0]|] eqn:E; cbn in H; [|done]. simplify_eq.
    destruct (IH _ _ _ E n Hn Hf). split; [done|]. cbn. by rewrite not_elem_of_cons.
  - destruct (alistener_destroy x s) as [s0|] eqn:E; cbn in H; [|done]. apply destroy_polled in E as [_ HP].
    apply (IH _ _ _ H n); [|done]. rewrite HP. set_solver.
Qed.

Lemma rebind_polled l to t nr s st e l' s' :
  rebind l to t nr s = Ret (st, e, l', s') → l_fd l' = l_fd l ∧ listener_list s' = listener_list s ∧ l_polled s' = l_polled s.
Proof.
  unfold rebind. destruct (special _); [by intros; simplify_eq|]. destruct nr; [by intros; simplify_eq|]. case_bool_decide; [by intros; simplify_eq|].
  destruct (the_transport l) as [old|]; cbn [mbind outcome_bind]; [|done]. destruct (RemoveDisconnect _ _ _) as [s1|] eqn:E1; cbn [mbind outcome_bind]; [|done].
  destruct t as [t|]; [|done]. destruct (AddDisconnect _ _ _) as [s2|] eqn:E2; cbn [mbind outcome_bind]; [|done]. intros; simplify_eq/=.
  destruct (disconnect_polled _ _ _ _ (or_introl E1)), (disconnect_polled _ _ _ _ (or_intror E2)). split; [done|]. by split; etrans.
Qed.

Lemma rebind_in_polled L name to t nr s r st e L' s' :
  rebind_in L name to t nr s = Ret r → r = Some (st, e, L', s') → l_fd <$> L' = l_fd <$> L ∧ l_polled s' = l_polled s.
Proof.
  revert r L'. induction L as [|x L IH]; intros r L'; cbn [rebind_in]; [by intros; simplify_eq|]. case_bool_decide.
  - destruct (rebind x to t nr s) as [[[[st0 e0] x0] s0]|] eqn:E; cbn; [|done]. intros; simplify_eq. apply rebind_polled in E as (? & _ & ?). cbn. by split; [f_equal|].
  - destruct (rebind_in L name to t nr s) as [[[[[st0 e0] L0] s0]|]|] eqn:E; cbn; [|by intros; simplify_eq..]. intros; simplify_eq.
    destruct (IH _ _ eq_refl eq_refl). cbn. by split; [f_equal|].
Qed.

Lemma install_keeps gListenAll net name to t nr s st e port s' :
  install_listener gListenAll net name to t nr s = Ret (st, e, port, s') → keeps s s'.
Proof.
  unfold install_listener. destruct (rebind_in _ _ _ _ _ _) as [[[[[st0 e0] L0] s0]|]|] eqn:E; cbn [mbind outcome_bind]; [| |done].
  { intros; simplify_eq. destruct (rebind_in_polled _ _ _ _ _ _ _ _ _ _ _ E eq_refl) as [HL HP]. intros n. cbn. by rewrite HL, HP. }
  destruct (socket_spec_listen _ _) as [[[fd e1] p1]|]; cbn [mbind outcome_bind]; [|done]. destruct (_ <? 0); [intros; simplify_eq; apply keeps_refl|].
  destruct (bool_decide_reflect (fd ∈ l_polled s)) as [|Hfd]; cbn [negb CHECK mbind outcome_bind]; [done|]. intros H.
  match type of H with context [mkListener ?a ?b ?c ?d ?f ?g] => set (l := mkListener a b c d f g) in * end.
  set (s1 := mkLState (listener_list s) _ _ _) in *.
  apply bind_Ret in H as (s2 & E2 & H). injection H as <- <- <- <-.
  assert (listener_list s2 = listener_list s ∧ l_polled s2 = l_polled s1) as [HL HP].
  { destruct t as [t|]; [exact (disconnect_polled _ _ _ _ (or_intror E2))|by injection E2 as <-]. }
  intros n Hn Hf. cbn. rewrite HP, HL, fmap_app, not_elem_of_app. cbn. rewrite list_elem_of_singleton. set_solver.
Qed.

Lemma remove_keeps name t s st s' : remove_listener name t s = Ret (st, s') → keeps s s'.
Proof.
  unfold remove_listener. destruct (take_listener _ _) as [[l R]|] eqn:E; [|intros; simplify_eq; apply keeps_refl].
  apply take_listener_Some in E as (Hp & _). destruct (alistener_destroy l _) as [s0|] eqn:Ed; cbn; [|done]. intros; simplify_eq. by eapply destroy_keeps.
Qed.

Lemma erase_keeps keep s s' :
  ('(kept, s) ← erase_unless keep (listener_list s) s; Ret (set_listeners kept s)) = Ret s' → keeps s s'.
Proof.
  destruct (erase_unless _ _ _) as [[kept s0]|] eqn:E; cbn; [|done]. intros; simplify_eq. intros n Hn Hf. by apply (erase_polled _ _ _ _ _ E n).
Qed.

Lemma run_disconnects_keeps d s s' : run_disconnects d s = Ret s' → keeps s s'.
Proof.
  revert s. induction d as [|x d IH]; intros s; cbn [run_disconnects]; [intros; simplify_eq; apply keeps_refl|].
  unfold listener_disconnect. destruct (take_listener _ _) as [[l R]|] eqn:E; [|done]. apply take_listener_Some in E as (Hp & _).
  destruct (l_disconnect l); [|done]. destruct (alistener_destroy _ _) as [s0|] eqn:Ed; cbn; [|done]. intros H%IH. eapply keeps_trans; [|exact H]. by eapply (destroy_keeps l R s s0 Hp); [|exact Ed].
Qed.

Lemma disconnects_keeps t s s' : RunDisconnects t s = Ret s' → keeps s s'.
Proof.
  unfold RunDisconnects, live_transport. destruct (_ !! t) as [[a d]|]; cbn [mbind outcome_bind]; [|done].
  destruct (run_disconnects d s) as [s0|] eqn:E; cbn [mbind outcome_bind]; [|done]. destruct (_ !! t) as [[a0 d0]|]; cbn [mbind outcome_bind]; [|done].
  intros; simplify_eq. by apply run_disconnects_keeps in E.
Qed.

Lemma forward_keeps gListenAll net service acquire fd s b fd' s' :
  handle_forward_request gListenAll net service acquire fd s = Ret (b, fd', s') → keeps s s'.
Proof.
  unfold handle_forward_request. case_bool_decide.
  { destruct (format_listeners s); cbn [mbind outcome_bind]; [|done]. replies. intros; simplify_eq. apply keeps_refl. }
  case_bool_decide.
  { destruct (remove_all_listeners s) as [s0|] eqn:E; cbn [mbind outcome_bind]; [|done]. replies. intros; simplify_eq. by eapply erase_keeps. }
  destruct (_ || _)%bool; [|intros; simplify_eq; apply keeps_refl]. destruct acquire as [[[t|] error]|]; cbn [mbind outcome_bind]; [| |done].
  2:{ replies. intros; simplify_eq. apply keeps_refl. }
  destruct (forward_args service) as [[kill nr] rest]. destruct (Split _ _) as [ps|]; cbn [mbind outcome_bind]; [|done].
  destruct (forward_pieces kill ps) as [[local remote]|]; [|replies; intros; simplify_eq; apply keeps_refl].
  match goal with |- context [mbind _ ?m] => destruct m as [[[[st e] port] s0]|] eqn:E end; cbn [mbind outcome_bind]; [|done].
  assert (Hk : keeps s s0).
  { destruct kill; [|by eapply install_keeps]. destruct (remove_listener _ _ _) as [[st0 s1]|] eqn:Er; cbn in E; [|done]. simplify_eq. by eapply remove_keeps. }
  destruct st; replies; try destruct (negb _); cbn [mbind outcome_bind]; replies; intros; simplify_eq; exact Hk.
Qed.

(** ** All events *)

Lemma linv_new L T P n t a : linv L T P n → T !! t = None → linv L (<[t := (a, [])]> T) P n.
Proof.
  intros [] Ht. assert (Hno : ∀ l, l ∈ L → l_transport l ≠ Some t).
  { intros l Hl Hlt. destruct (lv_live0 l t Hl Hlt) as [[? ?] _]. congruence. }
  constructor; try done.
  - intros l u Hl Hu. destruct (lv_live0 l u Hl Hu). split; [|done]. rewrite lookup_insert_ne; [done|]. intros <-. by apply (Hno l).
  - intros u b d. rewrite lookup_insert_Some. intros [[<- [= <- <-]]|[_ Hu]]; [|by eapply lv_reg0]. split; [apply NoDup_nil_2|].
    intros x. rewrite elem_of_nil. split; [done|]. intros (l & Hl & _ & Hlt). by apply (Hno l).
Qed.

Lemma linv_delete L T P n t a : linv L T P n → T !! t = Some (a, []) → linv L (delete t T) P n.
Proof.
  intros [] Ht. constructor; try done.
  - intros l u Hl Hu. destruct (lv_live0 l u Hl Hu). split; [|done]. rewrite lookup_delete_ne; [done|]. intros <-.
    destruct (lv_reg0 t a [] Ht) as [_ Hx]. apply (elem_of_nil (l_addr l)), Hx. eauto.
  - intros u b d [_ Hu]%lookup_delete_Some. by eapply lv_reg0.
Qed.

(** The invariant reads of the transports which there are and what they have
    registered; new ones have nothing registered. *)
Lemma linv_frame L T T' P P' n :
  linv L T P n → (∀ l, l ∈ L → l_fd l ∈ P') → (∀ t, is_Some (T !! t) → is_Some (T' !! t)) →
  (∀ t e, T' !! t = Some e → e.2 = default [] (snd <$> T !! t)) → linv L T' P' n.
Proof.
  intros [] HP HT Hd. constructor; try done.
  - by apply Forall_forall.
  - intros l t Hl Ht. destruct (lv_live0 l t Hl Ht). auto.
  - intros t a d Htd. specialize (Hd t _ Htd). cbn in Hd. destruct (T !! t) as [[a0 d0]|] eqn:E; cbn in Hd; subst d; [by apply (lv_reg0 t a0)|].
    split; [apply NoDup_nil_2|]. intros x. rewrite elem_of_nil. split; [done|]. intros (l & Hl & _ & Ht).
    destruct (lv_live0 l t Hl Ht) as [[? ?] _]. congruence.
Qed.

Lemma l_init_inv : l_inv l_init.
Proof. constructor; cbn; try apply NoDup_nil_2; try done; try (by constructor). by intros ? ? ?%elem_of_nil. Qed.

Section events.
Context (gListenAll : bool).

Lemma event_ok e s : l_inv s → l_enabled e s → ∃ s', l_run gListenAll e s = Ret s' ∧ l_inv s'.
Proof.
  intros Hi He. destruct e as [net service t error fd|net name|t a|t|t|]; cbn [l_run l_enabled] in *.
  - destruct He as [Hnet Hlive]. destruct t as [t|].
    + destruct (forward_ok gListenAll net service t error fd s Hi Hnet Hlive) as (fd' & s' & -> & Hi' & _). cbn. eauto.
    + destruct (forward_none gListenAll net service error fd s Hi Hnet) as (fd' & s' & -> & Hi' & _). cbn. eauto.
  - destruct He as [Hnet Hnil]. destruct (install_new gListenAll net name $"*smartsocket*" None false s) as (st & e & port & s' & -> & Hi' & _);
      try done; rewrite ?Hnil; try done; [by apply not_elem_of_nil|]. cbn. eauto.
  - eexists. split; [done|]. by apply linv_new.
  - destruct (disconnects_ok t s Hi He) as (s' & ? & ? & _). eauto.
  - destruct He as [a Ha]. eexists. split; [done|]. by eapply linv_delete.
  - destruct (erase_all (λ l, negb (bool_decide (local_name l = $"*smartsocket*"))) s Hi) as (s' & ? & ? & _). eauto.
Qed.

Lemma l_reachable_inv s : l_reachable gListenAll s → l_inv s.
Proof.
  induction 1 as [|s e s' _ IH He Hr]; [apply l_init_inv|].
  destruct (event_ok e s IH He) as (s2 & ? & ?). congruence.
Qed.
End events.

(** C21: In every reachable state every event on the listeners returns: no request,
    rebinding, disconnect or deletion of a transport follows a null or dangling
    pointer or polls a descriptor twice.  Local names are unique, every listener's
    transport is alive and has it registered exactly once, and once the disconnects
    of a transport have run no listener refers to it. *)
Theorem listeners_safe gListenAll s e :
  l_reachable gListenAll s → l_enabled e s →
  (∃ s', l_run gListenAll e s = Ret s' ∧
     match e with LDisconnect t => Forall (λ l, l_transport l ≠ Some t) (listener_list s') | _ => True end) ∧
  NoDup (local_name <$> listener_list s) ∧
  ∀ l t, l ∈ listener_list s → l_transport l = Some t →
    ∃ a d, l_transports s !! t = Some (a, d) ∧ NoDup d ∧ l_addr l ∈ d.
Proof.
  intros Hs He. pose proof (l_reachable_inv gListenAll s Hs) as Hi. split_and!; [|apply Hi|].
  - destruct (event_ok gListenAll e s Hi He) as (s' & Hr & _). exists s'. split; [done|]. destruct e as [| | |t| |]; try done.
    cbn in Hr, He. destruct (disconnects_ok t s Hi He) as (s2 & Hr2 & _ & _ & _ & HL). assert (s2 = s') as -> by congruence.
    rewrite HL. apply Forall_forall. intros l. rewrite list_elem_of_filter. tauto.
  - intros l t Hl Ht. destruct (lv_live _ _ _ _ Hi l t Hl Ht) as [[[a d] Ha] _]. exists a, d.
    destruct (lv_reg _ _ _ _ Hi t a d Ha) as [Hnd Hx]. split_and!; [done|done|]. apply Hx. eauto.
Qed.


(** *** A run *)

Definition a_network (fd port : Z) : Network := {| open_socket := λ _, (fd, []); adb_socket_get_local_port := λ _, port |}.
Definition a_client : wr_fd := mkWrFd [WrTake 100; WrTake 100; WrTake 100] [].

(** The server's listener, a device, a redirection to it from a port the kernel chooses. *)
Definition l_run_events : list l_event :=
  [LSmart (a_network 3 0) $"tcp:5037"; LNew 1 (set_serial $"emulator-5554" (atransport_new 1 kCsDevice));
   LForward (a_network 4 40001) $"forward:tcp:0;tcp:80" (Some 1) [] a_client].
Fixpoint l_runs (es : list l_event) (s : lstate) : outcome lstate :=
  match es with [] => Ret s | e :: es => s ← l_run false e s; l_runs es s end.
Definition l_state : lstate := match l_runs l_run_events l_init with Ret s => s | Abort _ => l_init end.

Example l_state_ex :
  format_listeners l_state = Ret ($"emulator-5554 tcp:40001 tcp:80" ++ newline) ∧
  map_to_list (forwards (listener_list l_state)) = [($"tcp:5037", ($"*smartsocket*", None)); ($"tcp:40001", ($"tcp:80", Some 1))].
Proof. by vm_compute. Qed.

(** [close_smartsockets] looks for the wrong member: the server's listener stays. *)
Example smartsocket_stays : (length ∘ listener_list <$> close_smartsockets l_state) = Ret 2%nat.
Proof. by vm_compute. Qed.
(** A request can remove the server's own listener. *)
Example smartsocket_killed :
  (λ r, local_name <$> listener_list r.2) <$> handle_forward_request false (a_network 9 0) $"killforward:tcp:5037" (Ret (Some 1, [])) a_client l_state = Ret [$"tcp:40001"].
Proof. by vm_compute. Qed.

Definition after (k : nat) : lstate := match l_runs (take k l_run_events) l_init with Ret s => s | Abort _ => l_init end.

Lemma a_network_ok fd port s :
  bool_decide (fd ∉ l_polled s) = true → bool_decide (Forall (λ l, local_name l ≠ $"tcp:" ++ print_dec port) (listener_list s)) = true → net_ok (a_network fd port) s.
Proof. intros H1%bool_decide_eq_true H2%bool_decide_eq_true. by split. Qed.

Lemma l_state_reachable : l_reachable false l_state.
Proof.
  assert (H1 : l_reachable false (after 1)).
  { apply (l_reach_next false l_init (LSmart (a_network 3 0) $"tcp:5037") (after 1)); [constructor| |reflexivity].
    split; [|reflexivity]. apply a_network_ok; vm_compute; reflexivity. }
  assert (H2 : l_reachable false (after 2)).
  { apply (l_reach_next false (after 1) (LNew 1 (set_serial $"emulator-5554" (atransport_new 1 kCsDevice))) (after 2)); [exact H1| |reflexivity]. reflexivity. }
  apply (l_reach_next false (after 2) (LForward (a_network 4 40001) $"forward:tcp:0;tcp:80" (Some 1) [] a_client)); [exact H2| |reflexivity].
  split; [apply a_network_ok; vm_compute; reflexivity|]. cbn [l_enabled]. eexists. reflexivity.
Qed.

Lemma a_network_free : net_ok (a_network 9 40002) l_state.
Proof. apply a_network_ok; vm_compute; reflexivity. Qed.

Lemma listeners_safe_witness :
  l_enabled (LDisconnect 1) l_state ∧
  ((∃ s', l_run false (LDisconnect 1) l_state = Ret s' ∧ Forall (λ l, l_transport l ≠ Some 1) (listener_list s')) ∧
   NoDup (local_name <$> listener_list l_state) ∧
   ∀ l t, l ∈ listener_list l_state → l_transport l = Some t →
     ∃ a d, l_transports l_state !! t = Some (a, d) ∧ NoDup d ∧ l_addr l ∈ d).
Proof.
  assert (He : l_enabled (LDisconnect 1) l_state) by (cbn [l_enabled]; eexists; reflexivity).
  split; [exact He|]. exact (listeners_safe false l_state (LDisconnect 1) l_state_reachable He).
Defined.

