(* ===== verification/World.v ===== *)
(** * The main thread's shared state
    (src/src/socket.h, sockets.cpp, fdevent.h, transport.cpp)

    Sockets are objects on a heap that point to each other, hold function
    pointers and are deleted by the handlers that run on them; the model keeps
    that heap.  A pointer is a key of [sockets]; following one that has been
    deleted is [Abort], so a theorem that a handler returns is a theorem that
    it never touches freed memory. *)

From Stdlib Require Import ZArith Lia List Ascii String.
From stdpp Require Import base numbers list strings gmap.
From S2P Require Import Prelude.
From S2P Require Import Libc.
From S2P Require Import AdbIo.
From S2P Require Import Wire.
From S2P Require Import IOVector.
From S2P Require Import Packet.
From S2P Require Import Connection.
From S2P Require Import Transport.
From S2P Require Listeners.

Abbreviation ptr := Z.

(** ** struct asocket *)

(** The functions the four function pointers of a socket can hold. *)
Inductive enqueue_fn := local_socket_enqueue_fn | remote_socket_enqueue_fn | smart_socket_enqueue_fn | device_tracker_enqueue_fn.
Inductive ready_fn := local_socket_ready_fn | local_socket_ready_notify_fn | remote_socket_ready_fn | smart_socket_ready_fn | device_tracker_ready_fn.
Inductive shutdown_fn := no_shutdown | remote_socket_shutdown_fn.
Inductive close_fn := local_socket_close_fn | local_socket_close_notify_fn | remote_socket_close_fn | smart_socket_close_fn | device_tracker_close_fn.

(** The bits of an [fdevent] that sockets use: what is asked of [poll]. *)
Record fdevent := mkFde { fde_read : bool; fde_write : bool; force_eof : bool }.

Record asocket := mkSocket {
  s_id : Z;
  closing : bool;
  has_write_error : bool;
  exit_on_close : bool;
  peer : option ptr;
  fde : option fdevent;
  fd : Z;
  packet_queue : IOVector;
  smart_socket_data : bytes;
  enqueue : enqueue_fn;
  ready : ready_fn;
  shutdown : shutdown_fn;
  close : close_fn;
  transport : option Z
}.
Definition set_s_id (v : Z) (s : asocket) : asocket :=
  mkSocket v (closing s) (has_write_error s) (exit_on_close s) (peer s) (fde s) (fd s) (packet_queue s) (smart_socket_data s) (enqueue s) (ready s) (shutdown s) (close s) (transport s).
Definition set_closing (v : bool) (s : asocket) : asocket :=
  mkSocket (s_id s) v (has_write_error s) (exit_on_close s) (peer s) (fde s) (fd s) (packet_queue s) (smart_socket_data s) (enqueue s) (ready s) (shutdown s) (close s) (transport s).
Definition set_has_write_error (v : bool) (s : asocket) : asocket :=
  mkSocket (s_id s) (closing s) v (exit_on_close s) (peer s) (fde s) (fd s) (packet_queue s) (smart_socket_data s) (enqueue s) (ready s) (shutdown s) (close s) (transport s).
Definition set_exit_on_close (v : bool) (s : asocket) : asocket :=
  mkSocket (s_id s) (closing s) (has_write_error s) v (peer s) (fde s) (fd s) (packet_queue s) (smart_socket_data s) (enqueue s) (ready s) (shutdown s) (close s) (transport s).
Definition set_peer (v : option ptr) (s : asocket) : asocket :=
  mkSocket (s_id s) (closing s) (has_write_error s) (exit_on_close s) v (fde s) (fd s) (packet_queue s) (smart_socket_data s) (enqueue s) (ready s) (shutdown s) (close s) (transport s).
Definition set_fde (v : option fdevent) (s : asocket) : asocket :=
  mkSocket (s_id s) (closing s) (has_write_error s) (exit_on_close s) (peer s) v (fd s) (packet_queue s) (smart_socket_data s) (enqueue s) (ready s) (shutdown s) (close s) (transport s).
Definition set_fd (v : Z) (s : asocket) : asocket :=
  mkSocket (s_id s) (closing s) (has_write_error s) (exit_on_close s) (peer s) (fde s) v (packet_queue s) (smart_socket_data s) (enqueue s) (ready s) (shutdown s) (close s) (transport s).
Definition set_packet_queue (v : IOVector) (s : asocket) : asocket :=
  mkSocket (s_id s) (closing s) (has_write_error s) (exit_on_close s) (peer s) (fde s) (fd s) v (smart_socket_data s) (enqueue s) (ready s) (shutdown s) (close s) (transport s).
Definition set_smart_socket_data (v : bytes) (s : asocket) : asocket :=
  mkSocket (s_id s) (closing s) (has_write_error s) (exit_on_close s) (peer s) (fde s) (fd s) (packet_queue s) v (enqueue s) (ready s) (shutdown s) (close s) (transport s).
Definition set_enqueue (v : enqueue_fn) (s : asocket) : asocket :=
  mkSocket (s_id s) (closing s) (has_write_error s) (exit_on_close s) (peer s) (fde s) (fd s) (packet_queue s) (smart_socket_data s) v (ready s) (shutdown s) (close s) (transport s).
Definition set_ready (v : ready_fn) (s : asocket) : asocket :=
  mkSocket (s_id s) (closing s) (has_write_error s) (exit_on_close s) (peer s) (fde s) (fd s) (packet_queue s) (smart_socket_data s) (enqueue s) v (shutdown s) (close s) (transport s).
Definition set_shutdown (v : shutdown_fn) (s : asocket) : asocket :=
  mkSocket (s_id s) (closing s) (has_write_error s) (exit_on_close s) (peer s) (fde s) (fd s) (packet_queue s) (smart_socket_data s) (enqueue s) (ready s) v (close s) (transport s).
Definition set_close (v : close_fn) (s : asocket) : asocket :=
  mkSocket (s_id s) (closing s) (has_write_error s) (exit_on_close s) (peer s) (fde s) (fd s) (packet_queue s) (smart_socket_data s) (enqueue s) (ready s) (shutdown s) v (transport s).
Definition set_transport (v : option Z) (s : asocket) : asocket :=
  mkSocket (s_id s) (closing s) (has_write_error s) (exit_on_close s) (peer s) (fde s) (fd s) (packet_queue s) (smart_socket_data s) (enqueue s) (ready s) (shutdown s) (close s) v.

(** [new asocket()]: the member initialisers. *)
Definition asocket_new (e : enqueue_fn) (r : ready_fn) (sh : shutdown_fn) (c : close_fn) : asocket :=
  mkSocket 0 false false false None None (-1) IOVector_empty [] e r sh c None.

Record device_tracker := mkTracker { update_needed : bool; long_output : bool }.

(** ** The world

    [transports] holds every transport object and [transport_list] the
    registered ones; [device_trackers] is the linked list from its head; [poll_fds] is
    [g_poll_node_map]; [rds] and [wrs] are what the kernel will do with reads
    and writes of each descriptor (AdbIo.v).  [listeners] is [listener_list], and
    [disconnects] the lists of that name of the transports. *)
Record world := mkWorld {
  sockets : gmap ptr asocket;
  next_ptr : Z;
  local_socket_next_id : Z;
  local_socket_list : list ptr;
  local_socket_closing_list : list ptr;
  transports : gmap Z atransport;
  transport_list : list Z;
  device_trackers : list (ptr * device_tracker);
  poll_fds : gset Z;
  rds : gmap Z rd_fd;
  wrs : gmap Z wr_fd;
  listeners : list Listeners.alistener;
  disconnects : gmap Z (list Z);
  next_listener : Z
}.
Definition set_sockets (v : gmap ptr asocket) (w : world) : world :=
  mkWorld v (next_ptr w) (local_socket_next_id w) (local_socket_list w) (local_socket_closing_list w) (transports w) (transport_list w) (device_trackers w) (poll_fds w) (rds w) (wrs w) (listeners w) (disconnects w) (next_listener w).
Definition set_next_ptr (v : Z) (w : world) : world :=
  mkWorld (sockets w) v (local_socket_next_id w) (local_socket_list w) (local_socket_closing_list w) (transports w) (transport_list w) (device_trackers w) (poll_fds w) (rds w) (wrs w) (listeners w) (disconnects w) (next_listener w).
Definition set_local_socket_next_id (v : Z) (w : world) : world :=
  mkWorld (sockets w) (next_ptr w) v (local_socket_list w) (local_socket_closing_list w) (transports w) (transport_list w) (device_trackers w) (poll_fds w) (rds w) (wrs w) (listeners w) (disconnects w) (next_listener w).
Definition set_local_socket_list (v : list ptr) (w : world) : world :=
  mkWorld (sockets w) (next_ptr w) (local_socket_next_id w) v (local_socket_closing_list w) (transports w) (transport_list w) (device_trackers w) (poll_fds w) (rds w) (wrs w) (listeners w) (disconnects w) (next_listener w).
Definition set_local_socket_closing_list (v : list ptr) (w : world) : world :=
  mkWorld (sockets w) (next_ptr w) (local_socket_next_id w) (local_socket_list w) v (transports w) (transport_list w) (device_trackers w) (poll_fds w) (rds w) (wrs w) (listeners w) (disconnects w) (next_listener w).
Definition set_transports (v : gmap Z atransport) (w : world) : world :=
  mkWorld (sockets w) (next_ptr w) (local_socket_next_id w) (local_socket_list w) (local_socket_closing_list w) v (transport_list w) (device_trackers w) (poll_fds w) (rds w) (wrs w) (listeners w) (disconnects w) (next_listener w).
Definition set_transport_list (v : list Z) (w : world) : world :=
  mkWorld (sockets w) (next_ptr w) (local_socket_next_id w) (local_socket_list w) (local_socket_closing_list w) (transports w) v (device_trackers w) (poll_fds w) (rds w) (wrs w) (listeners w) (disconnects w) (next_listener w).
Definition set_device_trackers (v : list (ptr * device_tracker)) (w : world) : world :=
  mkWorld (sockets w) (next_ptr w) (local_socket_next_id w) (local_socket_list w) (local_socket_closing_list w) (transports w) (transport_list w) v (poll_fds w) (rds w) (wrs w) (listeners w) (disconnects w) (next_listener w).
Definition set_poll_fds (v : gset Z) (w : world) : world :=
  mkWorld (sockets w) (next_ptr w) (local_socket_next_id w) (local_socket_list w) (local_socket_closing_list w) (transports w) (transport_list w) (device_trackers w) v (rds w) (wrs w) (listeners w) (disconnects w) (next_listener w).
Definition set_rds (v : gmap Z rd_fd) (w : world) : world :=
  mkWorld (sockets w) (next_ptr w) (local_socket_next_id w) (local_socket_list w) (local_socket_closing_list w) (transports w) (transport_list w) (device_trackers w) (poll_fds w) v (wrs w) (listeners w) (disconnects w) (next_listener w).
Definition set_wrs (v : gmap Z wr_fd) (w : world) : world :=
  mkWorld (sockets w) (next_ptr w) (local_socket_next_id w) (local_socket_list w) (local_socket_closing_list w) (transports w) (transport_list w) (device_trackers w) (poll_fds w) (rds w) v (listeners w) (disconnects w) (next_listener w).

(** What the listeners see of the world (Listeners.v), and the world they
    leave: the transports themselves they do not change. *)
Definition listener_transports (w : world) : gmap Z (atransport * list Z) :=
  map_imap (λ t a, Some (a, default [] (disconnects w !! t))) (transports w).
Definition listener_view (w : world) : Listeners.lstate :=
  Listeners.mkLState (listeners w) (listener_transports w) (poll_fds w) (next_listener w).
Definition set_listener_view (s : Listeners.lstate) (w : world) : world :=
  mkWorld (sockets w) (next_ptr w) (local_socket_next_id w) (local_socket_list w) (local_socket_closing_list w) (transports w) (transport_list w) (device_trackers w) (Listeners.l_polled s) (rds w) (wrs w) (Listeners.listener_list s) (snd <$> Listeners.l_transports s) (Listeners.l_next s).
Definition set_disconnects (v : gmap Z (list Z)) (w : world) : world :=
  mkWorld (sockets w) (next_ptr w) (local_socket_next_id w) (local_socket_list w) (local_socket_closing_list w) (transports w) (transport_list w) (device_trackers w) (poll_fds w) (rds w) (wrs w) (listeners w) v (next_listener w).

(** ** The monad of the handlers *)

Definition M (A : Type) : Type := world → outcome (A * world).
#[export] Instance M_ret : MRet M := λ A a w, Ret (a, w).
#[export] Instance M_bind : MBind M := λ A B f m w,
  match m w with Ret (a, w) => f a w | Abort why => Abort why end.

Lemma bind_run {A B} (m : M A) (f : A → M B) w w' x : m w = Ret (x, w') → mbind f m w = f x w'.
Proof. unfold mbind, M_bind. by intros ->. Qed.

Definition fail {A} (why : string) : M A := λ w, Abort why.
Definition lift {A} (m : outcome A) : M A := λ w,
  match m with Ret a => Ret (a, w) | Abort why => Abort why end.
Definition gets {A} (f : world → A) : M A := λ w, Ret (f w, w).
Definition modify (f : world → world) : M unit := λ w, Ret (tt, f w).
Definition on_listeners {A} (f : Listeners.lstate → outcome (A * Listeners.lstate)) : M A := λ w,
  match f (listener_view w) with Ret (a, s) => Ret (a, set_listener_view s w) | Abort why => Abort why end.
Definition check (b : bool) (why : string) : M unit := lift (CHECK b why).

(** The reasons of a memory error. *)
Definition use_after_free : string := "use after free".
Definition null_pointer : string := "null pointer".

(** [*s] of a socket. *)
Definition get_sock (p : ptr) : M asocket := λ w,
  match sockets w !! p with Some s => Ret (s, w) | None => Abort use_after_free end.
Definition put_sock (p : ptr) (s : asocket) : M unit := modify (λ w, set_sockets (<[p := s]> (sockets w)) w).
Definition upd_sock (p : ptr) (f : asocket → asocket) : M unit :=
  s ← get_sock p; put_sock p (f s).
Definition deref_ptr {A} (o : option A) : M A :=
  match o with Some a => mret a | None => fail null_pointer end.
Definition delete_sock (p : ptr) : M unit :=
  _ ← get_sock p; modify (λ w, set_sockets (delete p (sockets w)) w).
Definition new_sock (s : asocket) : M ptr :=
  p ← gets next_ptr;
  modify (λ w, set_next_ptr (p + 1) (set_sockets (<[p := s]> (sockets w)) w)) ;;
  mret p.

Definition get_transport (t : Z) : M atransport := λ w,
  match transports w !! t with Some a => Ret (a, w) | None => Abort use_after_free end.
Definition put_transport (t : Z) (a : atransport) : M unit :=
  modify (λ w, set_transports (<[t := a]> (transports w)) w).

Definition upd_transport (t : Z) (f : atransport → atransport) : M unit :=
  a ← get_transport t; put_transport t (f a).

(** ** fdevents of sockets *)

(** [fdevent_create]: the descriptor must not be polled already. *)
Definition fdevent_create (n : Z) : M fdevent :=
  check (0 <=? n) "fd >= 0" ;;
  fds ← gets poll_fds;
  check (negb (bool_decide (n ∈ fds))) "install existing fd" ;;
  modify (λ w, set_poll_fds ({[n]} ∪ poll_fds w) w) ;;
  mret (mkFde false false false).

(** [fdevent_add], [fdevent_del] on [s->fde]. *)
Definition fdevent_update (p : ptr) (f : fdevent → fdevent) : M unit :=
  s ← get_sock p;
  e ← deref_ptr (fde s);
  put_sock p (set_fde (Some (f e)) s).
Definition add_read (e : fdevent) : fdevent := mkFde true (fde_write e) (force_eof e).
Definition add_write (e : fdevent) : fdevent := mkFde (fde_read e) true (force_eof e).
Definition del_read (e : fdevent) : fdevent := mkFde false (fde_write e) (force_eof e).
Definition del_write (e : fdevent) : fdevent := mkFde (fde_read e) false (force_eof e).

(** [fdevent_destroy] closes the descriptor. *)
Definition fdevent_destroy (n : Z) : M unit :=
  modify (λ w, set_poll_fds (poll_fds w ∖ {[n]})
    (set_rds (delete n (rds w)) (set_wrs (delete n (wrs w)) w))).

(** ** Reads and writes of a descriptor *)

Definition read_fd (n len : Z) : M rd_result := λ w,
  let '(r, fd') := adb_read (default [] (rds w !! n)) len in
  Ret (r, set_rds (<[n := fd']> (rds w)) w).
(** [adb_writev]: one write of the concatenated buffers. *)
Definition adb_writev (n : Z) (iov : list bytes) : M wr_result := λ w,
  let '(r, fd') := adb_write (default (mkWrFd [] []) (wrs w !! n)) (concat iov) in
  Ret (r, set_wrs (<[n := fd']> (wrs w)) w).
Definition send_okay (n : Z) : M bool := λ w,
  match SendOkay (default (mkWrFd [] []) (wrs w !! n)) with
  | Ret (ok, fd') => Ret (ok, set_wrs (<[n := fd']> (wrs w)) w)
  | Abort why => Abort why
  end.
Definition send_fail (n : Z) (reason : bytes) : M bool := λ w,
  match SendFail (default (mkWrFd [] []) (wrs w !! n)) reason with
  | Ret (ok, fd') => Ret (ok, set_wrs (<[n := fd']> (wrs w)) w)
  | Abort why => Abort why
  end.

(** ** Sending a packet *)

(** [atransport::Kick]: what the calling thread does before the joins. *)
Definition Kick (t : Z) : M unit :=
  a ← get_transport t;
  if kicked_ a then mret tt
  else
    c ← deref_ptr (connection_ a);
    put_transport t (set_connection_ (Some (Stop_enter c)) (set_kicked_ true a)).

Definition transport_write (t : Z) (p : apacket) : M Z :=
  a ← get_transport t;
  c ← deref_ptr (connection_ a);
  let '(ok, c) := Write p c in
  put_transport t (set_connection_ (Some c) a) ;;
  mret (if (ok : bool) then 0 else -1).

Definition send_packet (p : apacket) (t : Z) : M unit :=
  a ← get_transport t;
  p ← lift (complete_header p (protocol_version a));
  r ← transport_write t p;
  if negb (r =? 0) then Kick t else mret tt.

(** A packet of [command] with its two ids and [data] as payload. *)
Definition make_packet (cmd a0 a1 : Z) (data : bytes) : apacket :=
  mkPacket (mkMsg cmd a0 a1 (u32 (zlen data)) 0 0) data.

(** Nothing that is not draining uses the transport. *)
Definition unused (w : world) (t : Z) : Prop :=
  ∀ p s, sockets w !! p = Some s → closing s = false → transport s ≠ Some t.

