(* ===== verification/Sockets.v ===== *)
(** * Sockets
    (src/src/sockets.cpp, the device tracker of transport.cpp)

    The handlers of local and remote sockets and of the device tracker, on the
    heap of World.v.  A call through a function pointer is a dispatch on its
    field.  [close] handlers call each other; how deep is bounded by
    [close_fuel], which SocketsInv.v proves is enough. *)

From Stdlib Require Import ZArith Lia List Ascii String.
From stdpp Require Import base numbers list strings gmap.
From S2P Require Import Prelude.
From S2P Require Import Libc.
From S2P Require Import AdbIo.
From S2P Require Import IOVector.
From S2P Require Import Packet.
From S2P Require Import Transport.
From S2P Require Import World.

(** ** The socket lists *)

(** Walks the list to the first socket with the id. *)
Fixpoint find_in (ps : list ptr) (local_id peer_id : Z) : M (option ptr) :=
  match ps with
  | [] => mret None
  | p :: ps =>
      s ← get_sock p;
      if negb (s_id s =? local_id) then find_in ps local_id peer_id
      else if peer_id =? 0 then mret (Some p)
      else match peer s with
           | None => mret None
           | Some q => sq ← get_sock q; mret (if s_id sq =? peer_id then Some p else None)
           end
  end.
Definition find_local_socket (local_id peer_id : Z) : M (option ptr) :=
  ps ← gets local_socket_list; find_in ps local_id peer_id.

Definition install_local_socket (p : ptr) : M unit :=
  i ← gets local_socket_next_id;
  upd_sock p (set_s_id i) ;;
  modify (set_local_socket_next_id (u32 (i + 1))) ;;
  check (negb (u32 (i + 1) =? 0)) "local socket id overflow" ;;
  modify (λ w, set_local_socket_list (local_socket_list w ++ [p]) w).

Definition without (p : ptr) (l : list ptr) : list ptr := filter (λ x, x ≠ p) l.
#[global] Arguments without : simpl never.
Definition remove_socket (p : ptr) : M unit :=
  modify (λ w, set_local_socket_list (without p (local_socket_list w)) w) ;;
  modify (λ w, set_local_socket_closing_list (without p (local_socket_closing_list w)) w).

(** [asocket::get_max_payload]. *)
Definition get_max_payload (p : ptr) : M Z :=
  s ← get_sock p;
  m ← (match transport s with
       | Some t => a ← get_transport t; mret (Z.min MAX_PAYLOAD (max_payload a))
       | None => mret MAX_PAYLOAD
       end);
  match peer s with
  | None => mret m
  | Some q =>
      sq ← get_sock q;
      match transport sq with
      | Some t => a ← get_transport t; mret (Z.min m (max_payload a))
      | None => mret m
      end
  end.

(** ** Remote sockets *)

Definition peer_id (s : asocket) : M Z := q ← deref_ptr (peer s); sq ← get_sock q; mret (s_id sq).

Definition remote_socket_enqueue (p : ptr) (data : bytes) : M Z :=
  s ← get_sock p;
  i ← peer_id s;
  if MAX_PAYLOAD <? zlen data then mret (-1)
  else
    t ← deref_ptr (transport s);
    send_packet (make_packet A_WRTE i (s_id s) data) t ;;
    mret 1.

Definition remote_socket_ready (p : ptr) : M unit :=
  s ← get_sock p;
  i ← peer_id s;
  t ← deref_ptr (transport s);
  send_packet (make_packet A_OKAY i (s_id s) []) t.

Definition remote_socket_shutdown (p : ptr) : M unit :=
  s ← get_sock p;
  i ← (match peer s with Some q => sq ← get_sock q; mret (s_id sq) | None => mret 0 end);
  t ← deref_ptr (transport s);
  send_packet (make_packet A_CLSE i (s_id s) []) t.

Definition create_remote_socket (i t : Z) : M ptr :=
  check (negb (i =? 0)) "invalid remote socket id (0)" ;;
  new_sock (set_transport (Some t) (set_s_id i
    (asocket_new remote_socket_enqueue_fn remote_socket_ready_fn remote_socket_shutdown_fn remote_socket_close_fn))).

(** ** Closing *)

Definition call_shutdown (p : ptr) : M unit :=
  s ← get_sock p;
  match shutdown s with
  | no_shutdown => mret tt
  | remote_socket_shutdown_fn => remote_socket_shutdown p
  end.

Definition local_socket_destroy (p : ptr) : M unit :=
  s ← get_sock p;
  (match fde s with Some _ => fdevent_destroy (fd s) | None => mret tt end) ;;
  remove_socket p ;;
  delete_sock p ;;
  if exit_on_close s then fail "exit(1)" else mret tt.

(** The part of [local_socket_close] after the peer is gone. *)
Definition local_socket_finish (p : ptr) : M unit :=
  s ← get_sock p;
  if closing s || has_write_error s || IOVector_is_empty (packet_queue s) then local_socket_destroy p
  else
    upd_sock p (set_closing true) ;;
    fdevent_update p del_read ;;
    remove_socket p ;;
    modify (λ w, set_local_socket_closing_list (local_socket_closing_list w ++ [p]) w) ;;
    s ← get_sock p;
    e ← deref_ptr (fde s);
    check (fde_write e) "FDE_WRITE == (s->fde->state & FDE_WRITE)".

Definition device_tracker_remove (p : ptr) : M unit :=
  modify (λ w, set_device_trackers (filter (λ x, x.1 ≠ p) (device_trackers w)) w).

(** The [close] handlers, each given the dispatch for the calls it makes. *)
Definition local_socket_close (call_close : ptr → M unit) (p : ptr) : M unit :=
  s ← get_sock p;
  (match peer s with
   | Some q =>
       call_shutdown q ;;
       upd_sock q (set_peer None) ;;
       call_close q ;;
       upd_sock p (set_peer None)
   | None => mret tt
   end) ;;
  local_socket_finish p.

Definition remote_socket_close (call_close : ptr → M unit) (p : ptr) : M unit :=
  s ← get_sock p;
  (match peer s with
   | Some q => upd_sock q (set_peer None) ;; call_close q
   | None => mret tt
   end) ;;
  delete_sock p.

Definition smart_socket_close (call_close : ptr → M unit) (p : ptr) : M unit :=
  s ← get_sock p;
  (match peer s with
   | Some q => upd_sock q (set_peer None) ;; call_close q ;; upd_sock p (set_peer None)
   | None => mret tt
   end) ;;
  delete_sock p.

Definition device_tracker_close (call_close : ptr → M unit) (p : ptr) : M unit :=
  s ← get_sock p;
  (match peer s with
   | Some q => upd_sock q (set_peer None) ;; call_close q
   | None => mret tt
   end) ;;
  device_tracker_remove p ;;
  delete_sock p.

(** Back to a regular local socket. *)
Definition make_regular (s : asocket) : asocket :=
  set_ready local_socket_ready_fn (set_shutdown no_shutdown (set_close local_socket_close_fn s)).

Definition local_socket_close_notify (call_close : ptr → M unit) (p : ptr) : M unit :=
  upd_sock p make_regular ;;
  s ← get_sock p;
  _ ← send_fail (fd s) $"closed";
  call_close p.

Fixpoint close_with (fuel : nat) (p : ptr) : M unit :=
  match fuel with
  | O => fail "out of fuel"
  | S fuel =>
      s ← get_sock p;
      match close s with
      | local_socket_close_fn => local_socket_close (close_with fuel) p
      | local_socket_close_notify_fn => local_socket_close_notify (close_with fuel) p
      | remote_socket_close_fn => remote_socket_close (close_with fuel) p
      | smart_socket_close_fn => smart_socket_close (close_with fuel) p
      | device_tracker_close_fn => device_tracker_close (close_with fuel) p
      end
  end.

(** [s->close(s)]: two calls of a notifying local socket and one of its peer. *)
Definition close_fuel : nat := 4.
Definition call_close (p : ptr) : M unit := close_with close_fuel p.

(** The first socket in the list that is bound to [t], or whose peer is. *)
Fixpoint find_bound (ps : list ptr) (t : Z) : M (option ptr) :=
  match ps with
  | [] => mret None
  | p :: ps =>
      s ← get_sock p;
      if bool_decide (transport s = Some t) then mret (Some p)
      else
        bound ← (match peer s with
                 | Some q => sq ← get_sock q; mret (bool_decide (transport sq = Some t))
                 | None => mret false
                 end);
        if (bound : bool) then mret (Some p) else find_bound ps t
  end.

(** The [goto restart] loop; each round takes a socket off the list. *)
Fixpoint close_all_loop (fuel : nat) (t : Z) : M unit :=
  ps ← gets local_socket_list;
  o ← find_bound ps t;
  match o, fuel with
  | None, _ => mret tt
  | Some _, O => fail "out of fuel"
  | Some p, S fuel => call_close p ;; close_all_loop fuel t
  end.
Definition close_all_sockets (t : Z) : M unit :=
  ps ← gets local_socket_list; close_all_loop (length ps) t.

(** ** Local sockets *)

Inductive SocketFlushResult := Destroyed | TryAgain | Completed.

(** The [writev] of [local_socket_flush_incoming]: [true] to try again later. *)
Definition flush_write (p : ptr) : M bool :=
  s ← get_sock p;
  if IOVector_is_empty (packet_queue s) then mret false
  else
    iov ← lift (iovecs (packet_queue s));
    r ← adb_writev (fd s) iov;
    match r with
    | Wrote rc =>
        if (0 <? rc) && (rc =? IOVector_size (packet_queue s)) then
          upd_sock p (λ s, set_packet_queue (IOVector_clear (packet_queue s)) s) ;; mret false
        else if 0 <? rc then
          r ← lift (take_front (packet_queue s) rc);
          upd_sock p (set_packet_queue r.2) ;;
          fdevent_update p add_write ;; mret true
        else upd_sock p (set_has_write_error true) ;; mret false
    | WroteErr EAGAIN => fdevent_update p add_write ;; mret true
    | WroteErr _ => upd_sock p (set_has_write_error true) ;; mret false
    end.

Definition local_socket_flush_incoming (p : ptr) : M SocketFlushResult :=
  again ← flush_write p;
  if (again : bool) then mret TryAgain
  else
    s ← get_sock p;
    if closing s then call_close p ;; mret Destroyed
    else fdevent_update p del_write ;; mret Completed.

(** [packet_queue.append]: the queue cannot outgrow the address space. *)
Definition queue_append (p : ptr) (data : bytes) : M unit :=
  s ← get_sock p;
  b ← lift (Block_of_range data);
  check (chain_length_ (packet_queue s) + zlen data <? 2 ^ 64) "std::bad_alloc" ;;
  q ← lift (append (packet_queue s) b);
  put_sock p (set_packet_queue q s).

Definition local_socket_enqueue (p : ptr) (data : bytes) : M Z :=
  queue_append p data ;;
  r ← local_socket_flush_incoming p;
  mret (match r with Destroyed => -1 | TryAgain => 1 | Completed => 0 end).

Definition local_socket_ready (p : ptr) : M unit := fdevent_update p add_read.

Definition local_socket_ready_notify (p : ptr) : M unit :=
  upd_sock p make_regular ;;
  s ← get_sock p;
  _ ← send_okay (fd s);
  local_socket_ready p.

Definition create_local_socket (n : Z) : M ptr :=
  p ← new_sock (set_fd n (asocket_new local_socket_enqueue_fn local_socket_ready_fn no_shutdown local_socket_close_fn));
  install_local_socket p ;;
  e ← fdevent_create n;
  upd_sock p (set_fde (Some e)) ;;
  mret p.

(** ** Connecting *)

Definition connect_to_remote (p : ptr) (destination : bytes) : M unit :=
  s ← get_sock p;
  let data := c_str destination ++ [NUL] in
  m ← get_max_payload p;
  check (u32 (zlen data) <=? m) "destination oversized" ;;
  t ← deref_ptr (transport s);
  send_packet (make_packet A_OPEN (s_id s) 0 data) t.

Definition create_smart_socket : M ptr :=
  new_sock (asocket_new smart_socket_enqueue_fn smart_socket_ready_fn no_shutdown smart_socket_close_fn).

(** ** Calls through [enqueue] and [ready]

    The smart socket's [enqueue] (SmartSocket.v) is a parameter here; it is
    given the [ready] dispatch, which it ends with. *)

(** The trackers are a linked list; its nodes are sockets. *)
Fixpoint lookup_tracker (l : list (ptr * device_tracker)) (p : ptr) : option device_tracker :=
  match l with
  | [] => None
  | (q, t) :: l => if decide (q = p) then Some t else lookup_tracker l p
  end.
Definition get_tracker (p : ptr) : M device_tracker := λ w,
  match lookup_tracker (device_trackers w) p with Some t => Ret (t, w) | None => Abort use_after_free end.
Definition set_tracker (p : ptr) (t : device_tracker) : M unit :=
  modify (λ w, set_device_trackers
    ((λ x : ptr * device_tracker, if decide (x.1 = p) then (p, t) else x) <$> device_trackers w) w).

(** [list_transports] of the registered transports. *)
Fixpoint get_transports (ts : list Z) : M (list atransport) :=
  match ts with
  | [] => mret []
  | t :: ts => a ← get_transport t; l ← get_transports ts; mret (a :: l)
  end.

Section dispatch.
Context (udev_problem : bytes) (smart_socket_enqueue : (ptr → M unit) → ptr → bytes → M Z).

Definition device_tracker_enqueue (p : ptr) (data : bytes) : M Z :=
  device_tracker_close call_close p ;; mret (-1).

(** [snprintf(buf, 5, "%04x", ...)] keeps four digits. *)
Definition device_tracker_send (call_enqueue : ptr → bytes → M Z) (p : ptr) (str : bytes) : M Z :=
  s ← get_sock p;
  q ← deref_ptr (peer s);
  call_enqueue q (take 4 (print_hex_pad 4 (u32 (zlen str))) ++ str).

Definition device_tracker_ready (call_enqueue : ptr → bytes → M Z) (p : ptr) : M unit :=
  t ← get_tracker p;
  if update_needed t then
    set_tracker p (mkTracker false (long_output t)) ;;
    ts ← gets transport_list;
    l ← get_transports ts;
    _ ← device_tracker_send call_enqueue p (list_transports udev_problem l (long_output t));
    mret tt
  else mret tt.

Definition create_device_tracker (long : bool) : M ptr :=
  p ← new_sock (asocket_new device_tracker_enqueue_fn device_tracker_ready_fn no_shutdown device_tracker_close_fn);
  modify (λ w, set_device_trackers ((p, mkTracker true long) :: device_trackers w) w) ;;
  mret p.

(** [s->ready(s)], given the dispatch of [enqueue]. *)
Definition ready_with (call_enqueue : ptr → bytes → M Z) (p : ptr) : M unit :=
  s ← get_sock p;
  match ready s with
  | local_socket_ready_fn => local_socket_ready p
  | local_socket_ready_notify_fn => local_socket_ready_notify p
  | remote_socket_ready_fn => remote_socket_ready p
  | smart_socket_ready_fn => mret tt
  | device_tracker_ready_fn => device_tracker_ready call_enqueue p
  end.

(** [s->enqueue(s, data)]. *)
Fixpoint enqueue_with (fuel : nat) (p : ptr) (data : bytes) : M Z :=
  match fuel with
  | O => fail "out of fuel"
  | S fuel =>
      s ← get_sock p;
      match enqueue s with
      | local_socket_enqueue_fn => local_socket_enqueue p data
      | remote_socket_enqueue_fn => remote_socket_enqueue p data
      | smart_socket_enqueue_fn => smart_socket_enqueue (ready_with (enqueue_with fuel)) p data
      | device_tracker_enqueue_fn => device_tracker_enqueue p data
      end
  end.

(** A smart socket makes a tracker ready, which enqueues on a local socket. *)
Definition enqueue_fuel : nat := 2.
Definition call_enqueue (p : ptr) (data : bytes) : M Z := enqueue_with enqueue_fuel p data.
Definition call_ready (p : ptr) : M unit := ready_with (enqueue_with 1) p.

(** ** Reading a local socket *)

(** The [while (avail > 0)] loop of [local_socket_flush_outgoing]: the data,
    the last [r], and [is_eof].  A round that goes on reads at least one byte. *)
Fixpoint read_avail (fuel : nat) (n avail : Z) (r : Z) (data : bytes) : M (bytes * Z * bool) :=
  if 0 <? avail then
    match fuel with
    | O => fail "out of fuel"
    | S fuel =>
        x ← read_fd n avail;
        match x with
        | GotErr EAGAIN => mret (data, -1, false)
        | GotErr _ => mret (data, -1, true)
        | GotData d => read_avail fuel n (avail - zlen d) (zlen d) (data ++ d)
        | GotEof => mret (data, 0, true)
        end
    end
  else mret (data, r, false).

Definition local_socket_flush_outgoing (p : ptr) : M bool :=
  s ← get_sock p;
  max_payload ← get_max_payload p;
  '(data, r, is_eof) ← read_avail (Z.to_nat max_payload) (fd s) max_payload 0 [];
  s ← get_sock p;
  r ← (match peer s with
       | Some q =>
           if bool_decide (data = []) then mret (Some r)
           else
             r ← call_enqueue q data;
             if r <? 0 then mret None
             else (if 0 <? r then fdevent_update p del_read else mret tt) ;; mret (Some r)
       | None => mret (Some r)
       end);
  match r with
  | None => mret false
  | Some r =>
      s ← get_sock p;
      e ← deref_ptr (fde s);
      if (force_eof e && (r =? 0)) || (is_eof : bool) then call_close p ;; mret false else mret true
  end.

(** [ev] as its FDE_READ and FDE_WRITE bits; FDE_ERROR only returns. *)
Definition local_socket_event_func (p : ptr) (ev_read ev_write : bool) : M unit :=
  go ← (if ev_write then
          r ← local_socket_flush_incoming p;
          match r with
          | Destroyed => mret false
          | TryAgain => mret true
          | Completed =>
              s ← get_sock p;
              q ← deref_ptr (peer s);
              call_ready q ;; mret true
          end
        else mret true);
  if (go : bool) && ev_read then _ ← local_socket_flush_outgoing p; mret tt else mret tt.

Definition connect_to_smartsocket (p : ptr) : M unit :=
  ss ← create_smart_socket;
  upd_sock p (set_peer (Some ss)) ;;
  upd_sock ss (set_peer (Some p)) ;;
  call_ready p.

(** [update_transports], after [update_transport_status]: each tracker of the
    list is sent the new listing. *)
Fixpoint send_trackers (ps : list ptr) (str : bytes) : M unit :=
  match ps with
  | [] => mret tt
  | p :: ps => _ ← device_tracker_send call_enqueue p str; send_trackers ps str
  end.
Definition update_transports : M unit :=
  ts ← gets transport_list;
  l ← get_transports ts;
  trackers ← gets device_trackers;
  send_trackers (fst <$> trackers) (list_transports udev_problem l false).
End dispatch.
