(* ===== verification/SocketsInv.v ===== *)
(** * The invariant of the socket heap
    (src/src/sockets.cpp)

    [inv] says that no pointer of the heap dangles: peers are symmetric and
    alive, the two lists hold exactly the local sockets, ids are unique, what
    waits in a queue is waited for by [poll].  [wp] is a small program logic
    for the handlers: a run either ends in one of the [deliberate] aborts or
    returns with the postcondition.  The lemmas show that every operation of
    Sockets.v keeps [inv], so none of them touches freed memory. *)

From Stdlib Require Import ZArith Lia List Ascii String.
From stdpp Require Import base numbers list strings gmap.
From S2P Require Import Prelude.
From S2P Require Import Libc.
From S2P Require Import AdbIo.
From S2P Require Import Wire.
From S2P Require Import IOVector.
From S2P Require Import Packet.
From S2P Require Import Connection.
From S2P Require Import Transport.
From S2P Require Listeners.
From S2P Require Import World.
From S2P Require Import Sockets.

(** ** Weakest preconditions *)

(** The ends of the process the code chooses itself. *)
Definition deliberate (why : string) : Prop :=
  why = "local socket id overflow"%string ∨ why = "std::bad_alloc"%string ∨
  why = "destination oversized"%string ∨ why = "exit"%string.

(** [m] ends in one of the aborts [D], or returns with [Q]. *)
Definition wpD (D : string → Prop) {A} (m : M A) (Q : A → world → Prop) (w : world) : Prop :=
  match m w with Ret (a, w') => Q a w' | Abort why => D why end.
Abbreviation wp := (wpD deliberate).

Section rules.
Context {D : string → Prop}.
Local Abbreviation wp := (wpD D).

Lemma wp_ret {A} (a : A) Q w : Q a w → wp (mret a) Q w.
Proof. done. Qed.

Lemma wp_bind {A B} (m : M A) (f : A → M B) Q w :
  wp m (λ a w, wp (f a) Q w) w → wp (m ≫= f) Q w.
Proof. unfold wpD, mbind, M_bind. by destruct (m w) as [[a w']|why]. Qed.

Lemma wp_assoc {A B C} (m : M A) (f : A → M B) (g : B → M C) Q w :
  wp ((m ≫= f) ≫= g) Q w → wp (m ≫= λ x, f x ≫= g) Q w.
Proof. unfold wpD, mbind, M_bind. by destruct (m w) as [[a w']|why]. Qed.

Lemma wp_mono {A} (m : M A) (P Q : A → world → Prop) w :
  wp m P w → (∀ a w', P a w' → Q a w') → wp m Q w.
Proof. unfold wpD. destruct (m w) as [[a w']|why]; auto. Qed.

Lemma wp_gets {A} (f : world → A) Q w : Q (f w) w → wp (gets f) Q w.
Proof. done. Qed.
Lemma wp_modify f Q w : Q tt (f w) → wp (modify f) Q w.
Proof. done. Qed.
Lemma wp_get_sock p s Q w : sockets w !! p = Some s → Q s w → wp (get_sock p) Q w.
Proof. unfold wpD, get_sock. by intros ->. Qed.
Lemma wp_upd_sock p s f Q w :
  sockets w !! p = Some s → Q tt (set_sockets (<[p := f s]> (sockets w)) w) → wp (upd_sock p f) Q w.
Proof. intros Hs HQ. unfold upd_sock. apply wp_bind. by eapply wp_get_sock. Qed.
Lemma wp_deref {A} (o : option A) a Q w : o = Some a → Q a w → wp (deref_ptr o) Q w.
Proof. by intros ->. Qed.
Lemma wp_lift {A} (m : outcome A) a Q w : m = Ret a → Q a w → wp (lift m) Q w.
Proof. by intros ->. Qed.
Lemma wp_check b why Q w : (b = false → D why) → (b = true → Q tt w) → wp (check b why) Q w.
Proof. unfold wpD, check, lift, CHECK. destruct b; auto. Qed.
Lemma wp_delete p s Q w :
  sockets w !! p = Some s → Q tt (set_sockets (delete p (sockets w)) w) → wp (delete_sock p) Q w.
Proof. intros Hs HQ. unfold delete_sock. apply wp_bind. by eapply wp_get_sock. Qed.
Lemma wp_get_transport t a Q w : transports w !! t = Some a → Q a w → wp (get_transport t) Q w.
Proof. unfold wpD, get_transport. by intros ->. Qed.

End rules.

(** ** Kinds of sockets *)

Inductive kind := KLocal | KNotify | KRemote | KSmart | KTracker.
#[export] Instance kind_eq_dec : EqDecision kind.
Proof. solve_decision. Defined.

Definition kind_of (s : asocket) : option kind :=
  match enqueue s, ready s, shutdown s, close s with
  | local_socket_enqueue_fn, local_socket_ready_fn, no_shutdown, local_socket_close_fn => Some KLocal
  | local_socket_enqueue_fn, local_socket_ready_notify_fn, no_shutdown, local_socket_close_notify_fn => Some KNotify
  | remote_socket_enqueue_fn, remote_socket_ready_fn, remote_socket_shutdown_fn, remote_socket_close_fn => Some KRemote
  | smart_socket_enqueue_fn, smart_socket_ready_fn, no_shutdown, smart_socket_close_fn => Some KSmart
  | device_tracker_enqueue_fn, device_tracker_ready_fn, no_shutdown, device_tracker_close_fn => Some KTracker
  | _, _, _, _ => None
  end.

Definition is_local (s : asocket) : bool :=
  match kind_of s with Some KLocal | Some KNotify => true | _ => false end.

Definition pending (s : asocket) : bool := negb (IOVector_is_empty (packet_queue s)).

(** A socket on its own. *)
Record local_ok (s : asocket) (e : fdevent) : Prop := {
  lo_fde : fde s = Some e;
  lo_fd : 0 ≤ fd s;
  lo_iov : iov_wf (packet_queue s);
  lo_end : end_offset_ (packet_queue s) = 0;
  lo_write : fde_write e = true → pending s = true;
  lo_waits : pending s = true → has_write_error s = false → fde_write e = true;
  lo_closing : closing s = true → kind_of s = Some KLocal ∧ peer s = None ∧ has_write_error s = false ∧ pending s = true
}.

Definition sock_ok (s : asocket) : Prop :=
  exit_on_close s = false ∧
  match kind_of s with
  | Some KLocal | Some KNotify => ∃ e, local_ok s e
  | Some KRemote => fde s = None ∧ closing s = false ∧ is_Some (transport s) ∧ s_id s ≠ 0
  | Some KSmart | Some KTracker => fde s = None ∧ closing s = false ∧ s_id s = 0
  | None => False
  end.

(** What holds of a socket nothing is being done to. *)
Definition settled (s : asocket) : Prop :=
  match kind_of s with
  | Some KLocal => closing s = false → peer s = None → pending s = false
  | Some KNotify => peer s = None ∧ pending s = false
  | _ => is_Some (peer s)
  end.

(** Which sockets are peers of which; a smart socket never sends to its peer. *)
Definition peers_ok (s sq : asocket) : Prop :=
  (kind_of s = Some KLocal ∨ kind_of sq = Some KLocal) ∧
  (kind_of s = Some KSmart → pending sq = false).

(** A transport has a connection, and names that are C strings. *)
Definition transport_ok (a : atransport) : Prop := is_Some (connection_ a) ∧ names_ok a.

(** ** The invariant, but for the sockets in [X]

    The sockets in [X] are being closed: what they point to as peer is not
    constrained, and nothing outside [X] points to them. *)
Record inv_ex (X : gset ptr) (w : world) : Prop := {
  iv_ptr : ∀ p s, sockets w !! p = Some s → p < next_ptr w;
  iv_sock : ∀ p s, sockets w !! p = Some s → sock_ok s;
  iv_settled : ∀ p s, sockets w !! p = Some s → p ∉ X → settled s;
  iv_peer : ∀ p s q, sockets w !! p = Some s → p ∉ X → peer s = Some q →
    q ∉ X ∧ p ≠ q ∧ ∃ sq, sockets w !! q = Some sq ∧ peer sq = Some p ∧ peers_ok s sq;
  iv_nodup : NoDup (local_socket_list w) ∧ NoDup (local_socket_closing_list w);
  iv_list : ∀ p, p ∈ local_socket_list w ↔
    ∃ s, sockets w !! p = Some s ∧ is_local s = true ∧ closing s = false;
  iv_closing : ∀ p, p ∈ local_socket_closing_list w ↔
    ∃ s, sockets w !! p = Some s ∧ is_local s = true ∧ closing s = true;
  iv_next : 0 < local_socket_next_id w < 2 ^ 32;
  iv_id : ∀ p s, sockets w !! p = Some s → is_local s = true → 0 < s_id s < local_socket_next_id w;
  iv_ids : ∀ p s q sq, sockets w !! p = Some s → sockets w !! q = Some sq →
    is_local s = true → is_local sq = true → s_id s = s_id sq → p = q;
  iv_fd : ∀ p s, sockets w !! p = Some s → is_local s = true → fd s ∈ poll_fds w;
  iv_fds : ∀ p s q sq, sockets w !! p = Some s → sockets w !! q = Some sq →
    is_local s = true → is_local sq = true → fd s = fd sq → p = q;
  iv_transport : ∀ p s t, sockets w !! p = Some s → closing s = false → transport s = Some t →
    is_Some (transports w !! t);
  iv_conn : ∀ t a, transports w !! t = Some a → transport_ok a;
  iv_registered : ∀ t, t ∈ transport_list w → is_Some (transports w !! t);
  iv_trackers : NoDup (fst <$> device_trackers w) ∧
    ∀ p, p ∈ fst <$> device_trackers w ↔ ∃ s, sockets w !! p = Some s ∧ kind_of s = Some KTracker;
  iv_listeners : Listeners.l_inv (listener_view w);
  iv_listen_fd : ∀ p s, sockets w !! p = Some s → is_local s = true → fd s ∉ Listeners.l_fd <$> listeners w;
  iv_disconnects : ∀ t, is_Some (disconnects w !! t) → is_Some (transports w !! t)
}.

Definition inv (w : world) : Prop := inv_ex ∅ w.

Lemma kind_local s : is_local s = true ↔ kind_of s = Some KLocal ∨ kind_of s = Some KNotify.
Proof. unfold is_local. destruct (kind_of s) as [[]|]; naive_solver. Qed.

Lemma local_sock_ok s : sock_ok s → is_local s = true → ∃ e, local_ok s e.
Proof. intros [_ Hs] Hl. apply kind_local in Hl as [Hl|Hl]; by rewrite Hl in Hs. Qed.

Lemma nonlocal_not_closing s : sock_ok s → is_local s = false → closing s = false.
Proof. unfold sock_ok, is_local. intros [_ Hs] Hl. destruct (kind_of s) as [[]|]; naive_solver. Qed.

Lemma elem_of_without p q l : q ∈ without p l ↔ q ≠ p ∧ q ∈ l.
Proof. unfold without. by rewrite list_elem_of_filter. Qed.
Lemma without_not_in p l : p ∉ l → without p l = l.
Proof.
  unfold without. induction l as [|x l IH]; intros Hp; [done|]. rewrite not_elem_of_cons in Hp.
  rewrite filter_cons_True by naive_solver. f_equal. naive_solver.
Qed.

(** *** The listeners *)

Lemma listener_transports_lookup w t :
  listener_transports w !! t = (λ a, (a, default [] (disconnects w !! t))) <$> transports w !! t.
Proof. unfold listener_transports. rewrite map_lookup_imap. by destruct (transports w !! t). Qed.

(** They are not affected by what happens to sockets, nor by new transports. *)
Lemma listeners_frame w w' :
  Listeners.l_inv (listener_view w) → (∀ t, is_Some (disconnects w !! t) → is_Some (transports w !! t)) →
  listeners w' = listeners w → disconnects w' = disconnects w → next_listener w' = next_listener w →
  (∀ t, is_Some (transports w !! t) → is_Some (transports w' !! t)) →
  (∀ l, l ∈ listeners w → Listeners.l_fd l ∈ poll_fds w') → Listeners.l_inv (listener_view w').
Proof.
  intros Hi Hd El Ed En Ht Hp. unfold Listeners.l_inv in *. cbn [listener_view Listeners.listener_list Listeners.l_transports Listeners.l_polled Listeners.l_next] in *.
  rewrite El, En. eapply Listeners.linv_frame; [exact Hi|done|..].
  - intros t. rewrite !listener_transports_lookup, !fmap_is_Some. apply Ht.
  - intros t e. rewrite !listener_transports_lookup, Ed. destruct (transports w' !! t) as [a'|]; [|done]. intros [= <-].
    destruct (transports w !! t) eqn:E; [done|]. cbn. destruct (disconnects w !! t) eqn:Et; [|done].
    destruct (Hd t ltac:(by eexists)). congruence.
Qed.

Lemma listeners_polled w : Listeners.l_inv (listener_view w) → ∀ l, l ∈ listeners w → Listeners.l_fd l ∈ poll_fds w.
Proof. intros Hi. by apply (proj1 (Forall_forall _ _) (Listeners.lv_polled _ _ _ _ Hi)). Qed.

(** *** Updating one socket *)

(** What the lists and the id table read of a socket. *)
Definition same_role (s s' : asocket) : Prop :=
  is_local s' = is_local s ∧ closing s' = closing s ∧ s_id s' = s_id s ∧ fd s' = fd s ∧
  (kind_of s' = Some KTracker ↔ kind_of s = Some KTracker).

Lemma inv_upd X w p s s' :
  inv_ex X w → sockets w !! p = Some s → same_role s s' → sock_ok s' →
  (p ∉ X → settled s' ∧ peer s' = peer s ∧
     ∀ q sq, peer s = Some q → sockets w !! q = Some sq → peers_ok s sq → peers_ok sq s →
       peers_ok s' sq ∧ peers_ok sq s') →
  (∀ t, closing s' = false → transport s' = Some t → is_Some (transports w !! t)) →
  inv_ex X (set_sockets (<[p := s']> (sockets w)) w).
Proof.
  intros [] Hp (Hl & Hc & Hi & Hf & Hk) Hok HX Ht. constructor; cbn; try done.
  - intros q sq. rewrite lookup_insert_Some. naive_solver.
  - intros q sq. rewrite lookup_insert_Some. naive_solver.
  - intros q sq. rewrite lookup_insert_Some. naive_solver.
  - intros q sq r Hq Hnq Hr. rewrite lookup_insert_Some in Hq. destruct Hq as [[<- <-]|[Hne Hq]].
    + destruct (HX Hnq) as (_ & Hpe & Hpo). rewrite Hpe in Hr.
      destruct (iv_peer0 p s r Hp Hnq Hr) as (Hnr & Hpr & sr & Hsr & Hrp & Hc1).
      split; [done|]. split; [done|]. exists sr. rewrite lookup_insert_ne by done.
      destruct (iv_peer0 r sr p Hsr Hnr Hrp) as (_ & _ & s2 & Hs2 & _ & Hc2).
      rewrite Hp in Hs2. injection Hs2 as <-. split_and!; try done. eapply Hpo; eauto.
    + destruct (iv_peer0 q sq r Hq Hnq Hr) as (Hnr & Hqr & sr & Hsr & Hrq & Hc1).
      split; [done|]. split; [done|]. destruct (decide (r = p)) as [->|Hrp].
      * rewrite Hp in Hsr. injection Hsr as <-. exists s'. rewrite lookup_insert_eq.
        destruct (HX Hnr) as (_ & Hpe & Hpo). split; [done|]. split; [by rewrite Hpe|].
        destruct (iv_peer0 p s q Hp Hnr Hrq) as (_ & _ & s2 & Hs2 & _ & Hc2).
        rewrite Hq in Hs2. injection Hs2 as <-. eapply Hpo; eauto.
      * exists sr. by rewrite lookup_insert_ne by done.
  - intros q. rewrite iv_list0. destruct (decide (q = p)) as [->|Hne].
    + rewrite lookup_insert_eq, Hp. naive_solver congruence.
    + by rewrite lookup_insert_ne by done.
  - intros q. rewrite iv_closing0. destruct (decide (q = p)) as [->|Hne].
    + rewrite lookup_insert_eq, Hp. naive_solver congruence.
    + by rewrite lookup_insert_ne by done.
  - intros q sq. rewrite lookup_insert_Some. intros [[<- <-]|[_ Hq]] Hlq; [|eauto].
    rewrite Hi. apply (iv_id0 p s Hp). congruence.
  - intros q sq r sr. rewrite !lookup_insert_Some.
    intros [[<- <-]|[Hne1 Hq]] [[<- <-]|[Hne2 Hr]] Hlq Hlr Hid; [done|..].
    + apply (iv_ids0 p s r sr); congruence.
    + apply (iv_ids0 q sq p s); congruence.
    + by apply (iv_ids0 q sq r sr).
  - intros q sq. rewrite lookup_insert_Some. intros [[<- <-]|[_ Hq]] Hlq; [|eauto].
    rewrite Hf. apply (iv_fd0 p s Hp). congruence.
  - intros q sq r sr. rewrite !lookup_insert_Some.
    intros [[<- <-]|[Hne1 Hq]] [[<- <-]|[Hne2 Hr]] Hlq Hlr Hid; [done|..].
    + apply (iv_fds0 p s r sr); congruence.
    + apply (iv_fds0 q sq p s); congruence.
    + by apply (iv_fds0 q sq r sr).
  - intros q sq t. rewrite lookup_insert_Some. intros [[<- <-]|[_ Hq]]; eauto.
  - split; [apply iv_trackers0|]. intros q. rewrite (proj2 iv_trackers0).
    destruct (decide (q = p)) as [->|Hne].
    + rewrite lookup_insert_eq, Hp. naive_solver.
    + by rewrite lookup_insert_ne by done.
  - intros q sq. rewrite lookup_insert_Some. intros [[<- <-]|[_ Hq]] Hlq; [|eauto].
    rewrite Hf. apply (iv_listen_fd0 p s Hp). congruence.
Qed.

(** Enlarging the set of sockets being closed. *)
Lemma inv_grow X Y w :
  inv_ex X w → X ⊆ Y →
  (∀ p s q, sockets w !! p = Some s → p ∉ Y → peer s = Some q → q ∉ Y) → inv_ex Y w.
Proof.
  intros [] HXY HY. constructor; try done.
  - intros p s Hp Hn. apply (iv_settled0 p s Hp). set_solver.
  - intros p s q Hp Hn Hq. destruct (iv_peer0 p s q Hp) as (? & ? & ?); [set_solver|done|].
    split; [by eapply HY|]. done.
Qed.

(** *** Deleting a socket *)

Lemma inv_delete X w w' p s :
  inv_ex X w → p ∈ X → sockets w !! p = Some s →
  sockets w' = delete p (sockets w) → next_ptr w' = next_ptr w →
  local_socket_list w' = without p (local_socket_list w) →
  local_socket_closing_list w' = without p (local_socket_closing_list w) →
  local_socket_next_id w' = local_socket_next_id w →
  transports w' = transports w → transport_list w' = transport_list w →
  fst <$> device_trackers w' = without p (fst <$> device_trackers w) →
  poll_fds w ∖ (if is_local s then {[fd s]} else ∅) ⊆ poll_fds w' →
  listeners w' = listeners w → disconnects w' = disconnects w → next_listener w' = next_listener w →
  inv_ex (X ∖ {[p]}) w'.
Proof.
  intros [] HpX Hp Es En El Ec Ei Et Etl Etr Ef Els Eds Enl. constructor; rewrite ?Es, ?En, ?El, ?Ec, ?Ei, ?Et, ?Etl, ?Etr, ?Els, ?Eds; try done.
  - intros q sq [_ Hq]%lookup_delete_Some. eauto.
  - intros q sq [_ Hq]%lookup_delete_Some. eauto.
  - intros q sq [Hne Hq]%lookup_delete_Some Hn. apply (iv_settled0 q sq Hq). set_solver.
  - intros q sq r [Hne Hq]%lookup_delete_Some Hn Hr.
    destruct (iv_peer0 q sq r Hq ltac:(set_solver) Hr) as (Hnr & Hqr & sr & Hsr & Hpe & Hc).
    split; [set_solver|]. split; [done|]. exists sr. split; [|done].
    apply lookup_delete_Some. split; [|done]. intros ->. done.
  - split; apply NoDup_filter; tauto.
  - intros q. rewrite elem_of_without, iv_list0. setoid_rewrite lookup_delete_Some. naive_solver.
  - intros q. rewrite elem_of_without, iv_closing0. setoid_rewrite lookup_delete_Some. naive_solver.
  - intros q sq [_ Hq]%lookup_delete_Some. eauto.
  - intros q sq r sr [_ Hq]%lookup_delete_Some [_ Hr]%lookup_delete_Some. eauto.
  - intros q sq [Hne Hq]%lookup_delete_Some Hl. apply Ef. apply elem_of_difference. split; [eauto|].
    destruct (is_local s) eqn:Hls; [|set_solver]. rewrite elem_of_singleton. intros Hfd.
    apply Hne. symmetry. by apply (iv_fds0 q sq p s).
  - intros q sq r sr [_ Hq]%lookup_delete_Some [_ Hr]%lookup_delete_Some. eauto.
  - intros q sq t [_ Hq]%lookup_delete_Some. eauto.
  - destruct iv_trackers0 as [Hnd Hin]. split; [by apply NoDup_filter|]. intros q.
    rewrite elem_of_without, Hin. setoid_rewrite lookup_delete_Some. naive_solver.
  - apply (listeners_frame w); try done; [by rewrite Et|]. intros l Hl. apply Ef. apply elem_of_difference. split.
    + by apply listeners_polled.
    + destruct (is_local s) eqn:Hls; [|set_solver]. rewrite elem_of_singleton. intros Hfd.
      apply (iv_listen_fd0 p s Hp Hls). rewrite <-Hfd. by apply list_elem_of_fmap_2.
  - intros q sq [_ Hq]%lookup_delete_Some. eauto.
Qed.

(** *** Closing a socket that has no peer *)

Ltac wp_step :=
  lazymatch goal with
  | |- wpD _ (mbind _ _) _ _ => apply wp_bind
  | |- wpD _ (mret _) _ _ => apply wp_ret
  | |- wpD _ (gets _) _ _ => apply wp_gets
  | |- wpD _ (modify _) _ _ => apply wp_modify
  | |- wpD _ (get_sock _) _ _ => eapply wp_get_sock; [eassumption|]
  | |- wpD _ (upd_sock _ _) _ _ => eapply wp_upd_sock; [eassumption|]
  | |- wpD _ (delete_sock _) _ _ => eapply wp_delete; [eassumption|]
  | |- wpD _ (deref_ptr _) _ _ => eapply wp_deref; [eassumption|]
  | |- wpD _ (get_transport _) _ _ => eapply wp_get_transport; [eassumption|]
  end.
Ltac wp_auto := repeat (wp_step; cbn beta iota match).

Section closing.
Context {D : string → Prop}.
Local Abbreviation wp := (wpD D).

(** What closing [p] does not change. *)
Record close_frame (p : ptr) (w w' : world) : Prop := {
  cf_other : ∀ q, q ≠ p → sockets w' !! q = sockets w !! q;
  cf_list : local_socket_list w' = without p (local_socket_list w);
  cf_transports : transports w' = transports w;
  cf_registered : transport_list w' = transport_list w
}.

Lemma fst_filter_trackers p (l : list (ptr * device_tracker)) :
  fst <$> filter (λ x, x.1 ≠ p) l = without p (fst <$> l).
Proof.
  unfold without. induction l as [|[q t] l IH]; [done|]. cbn [fmap list_fmap fst].
  destruct (decide (q = p)) as [->|Hne].
  - rewrite !filter_cons_False by naive_solver. done.
  - rewrite !filter_cons_True by naive_solver. cbn [fmap list_fmap fst]. by f_equal.
Qed.

Lemma iv_not_listed X w p s :
  inv_ex X w → sockets w !! p = Some s → is_local s = false →
  p ∉ local_socket_list w ∧ p ∉ local_socket_closing_list w.
Proof. intros [] Hp Hl. rewrite iv_list0, iv_closing0. split; intros (s2 & ? & ? & ?); congruence. Qed.

Lemma iv_not_tracker X w p s :
  inv_ex X w → sockets w !! p = Some s → kind_of s ≠ Some KTracker → p ∉ fst <$> device_trackers w.
Proof. intros [] Hp Hk. destruct iv_trackers0 as [_ ->]. intros (s2 & ? & ?). congruence. Qed.

(** Deleting a socket that is neither local nor a tracker. *)
Lemma wp_delete_plain X p s w :
  inv_ex X w → p ∈ X → sockets w !! p = Some s → is_local s = false → kind_of s ≠ Some KTracker →
  wp (delete_sock p) (λ _ w', inv_ex (X ∖ {[p]}) w' ∧ close_frame p w w') w.
Proof.
  intros Hinv HX Hp Hl Hk. wp_auto.
  destruct (iv_not_listed X w p s Hinv Hp Hl) as [H1 H2].
  pose proof (iv_not_tracker X w p s Hinv Hp Hk) as H3.
  split.
  - eapply (inv_delete X w _ p s); try done; cbn; try by rewrite without_not_in.
    rewrite Hl. set_solver.
  - constructor; cbn; try done; [by intros; rewrite lookup_delete_ne|by rewrite without_not_in].
Qed.

Lemma wp_tracker_delete X p s w :
  inv_ex X w → p ∈ X → sockets w !! p = Some s → kind_of s = Some KTracker →
  wp (device_tracker_remove p ;; delete_sock p) (λ _ w', inv_ex (X ∖ {[p]}) w' ∧ close_frame p w w') w.
Proof.
  intros Hinv HX Hp Hk. unfold device_tracker_remove. wp_auto.
  assert (Hl : is_local s = false) by (unfold is_local; by rewrite Hk).
  destruct (iv_not_listed X w p s Hinv Hp Hl) as [H1 H2].
  split.
  - eapply (inv_delete X w _ p s); try done; cbn; try (by rewrite without_not_in).
    + apply fst_filter_trackers.
    + rewrite Hl. set_solver.
  - constructor; cbn; try done; [by intros; rewrite lookup_delete_ne|by rewrite without_not_in].
Qed.

Lemma without_idem p l : without p (without p l) = without p l.
Proof. apply without_not_in. rewrite elem_of_without. tauto. Qed.

Lemma wp_local_destroy X p s w :
  inv_ex X w → p ∈ X → sockets w !! p = Some s → is_local s = true →
  wp (local_socket_destroy p) (λ _ w', inv_ex (X ∖ {[p]}) w' ∧ close_frame p w w') w.
Proof.
  intros Hinv HX Hp Hl. pose proof (iv_sock X w Hinv p s Hp) as Hok.
  destruct (local_sock_ok s Hok Hl) as [e He]. destruct Hok as [Hex _].
  unfold local_socket_destroy, fdevent_destroy, remove_socket, delete_sock. wp_auto.
  rewrite (lo_fde s e He). wp_auto. rewrite Hex. wp_auto. cbn.
  assert (Hk : kind_of s ≠ Some KTracker) by (apply kind_local in Hl; naive_solver).
  pose proof (iv_not_tracker X w p s Hinv Hp Hk) as H3.
  split.
  - eapply (inv_delete X w _ p s); try done; cbn; try (by rewrite without_not_in).
    by rewrite Hl.
  - constructor; cbn; try done. by intros; rewrite lookup_delete_ne.
Qed.

(** From the open list to the closing list. *)
Lemma wp_local_finish X p s w :
  inv_ex X w → p ∈ X → sockets w !! p = Some s → kind_of s = Some KLocal → peer s = None →
  wp (local_socket_finish p) (λ _ w', inv_ex (X ∖ {[p]}) w' ∧ close_frame p w w') w.
Proof.
  intros Hinv HX Hp Hk Hpe. unfold local_socket_finish. apply wp_bind. eapply wp_get_sock; [done|].
  assert (Hl : is_local s = true) by (apply kind_local; by left).
  destruct (closing s || has_write_error s || IOVector_is_empty (packet_queue s)) eqn:Hcase.
  { by eapply wp_local_destroy. }
  apply orb_false_iff in Hcase as [Hcase Hq]. apply orb_false_iff in Hcase as [Hc He].
  pose proof (iv_sock X w Hinv p s Hp) as Hok.
  destruct (local_sock_ok s Hok Hl) as [e Hlo].
  assert (Hpend : pending s = true) by (unfold pending; by rewrite Hq).
  pose proof (lo_waits s e Hlo Hpend He) as Hw.
  unfold fdevent_update, remove_socket, put_sock. wp_auto.
  eapply wp_get_sock; [cbn; apply lookup_insert_eq|]. wp_auto.
  eapply wp_deref; [by destruct s; apply Hlo|]. wp_auto. cbn.
  eapply wp_get_sock; [cbn; apply lookup_insert_eq|]. wp_auto.
  eapply wp_deref; [done|]. apply wp_check; [cbn; by rewrite Hw|]. intros _. cbn.
  set (s' := set_fde (Some (del_read e)) (set_closing true s)).
  assert (Hlo' : local_ok s' (del_read e)).
  { destruct Hlo. constructor; try done. }
  rewrite insert_insert_eq.
  assert (Hk' : kind_of s' = Some KLocal) by done.
  destruct Hinv. split.
  - constructor; cbn; try done.
    + intros q sq. rewrite lookup_insert_Some. naive_solver.
    + intros q sq. rewrite lookup_insert_Some. intros [[<- <-]|[_ Hq']]; [|by eapply iv_sock0].
      split; [apply Hok|]. rewrite Hk'. by exists (del_read e).
    + intros q sq. rewrite lookup_insert_Some. intros [[<- <-]|[Hne Hq']] Hn.
      * unfold settled. by rewrite Hk'.
      * apply (iv_settled0 q sq Hq'). set_solver.
    + intros q sq r. rewrite lookup_insert_Some. intros [[<- <-]|[Hne Hq']] Hn Hr.
      * change (peer s') with (peer s) in Hr. congruence.
      * destruct (iv_peer0 q sq r Hq' ltac:(set_solver) Hr) as (Hnr & Hqr & sr & Hsr & ? & ?).
        split; [set_solver|]. split; [done|]. exists sr. rewrite lookup_insert_ne; [done|].
        intros <-. done.
    + split; [apply NoDup_filter; tauto|]. apply NoDup_app. split; [apply NoDup_filter; tauto|].
      split; [|apply NoDup_singleton]. intros q Hq1 Hq2%list_elem_of_singleton. subst.
      by apply elem_of_without in Hq1 as [? _].
    + intros q. rewrite elem_of_without, iv_list0. setoid_rewrite lookup_insert_Some.
      split; [naive_solver|]. intros (sq & [[<- <-]|[Hne Hq']] & ? & ?); [done|]. split; naive_solver.
    + intros q. rewrite elem_of_app, elem_of_without, iv_closing0, list_elem_of_singleton.
      setoid_rewrite lookup_insert_Some. split.
      * intros [(Hne & sq & ? & ? & ?)| ->]; [naive_solver|]. exists s'. split_and!; [by left|by rewrite kind_local, Hk'; left|done].
      * intros (sq & [[<- <-]|[Hne Hq']] & ? & ?); [by right|left; split; naive_solver].
    + intros q sq. rewrite lookup_insert_Some. intros [[<- <-]|[_ Hq']]; [|by eapply iv_id0].
      intros _. by apply (iv_id0 p s Hp).
    + intros q sq r sr. rewrite !lookup_insert_Some.
      intros [[<- <-]|[Hne1 Hq']] [[<- <-]|[Hne2 Hr]] Hlq Hlr Hid; [done|..].
      * by apply (iv_ids0 p s r sr).
      * by apply (iv_ids0 q sq p s).
      * by apply (iv_ids0 q sq r sr).
    + intros q sq. rewrite lookup_insert_Some. intros [[<- <-]|[_ Hq']]; [|by eapply iv_fd0].
      intros _. by apply (iv_fd0 p s Hp).
    + intros q sq r sr. rewrite !lookup_insert_Some.
      intros [[<- <-]|[Hne1 Hq']] [[<- <-]|[Hne2 Hr]] Hlq Hlr Hid; [done|..].
      * by apply (iv_fds0 p s r sr).
      * by apply (iv_fds0 q sq p s).
      * by apply (iv_fds0 q sq r sr).
    + intros q sq t. rewrite lookup_insert_Some. intros [[<- <-]|[_ Hq']]; [done|by eapply iv_transport0].
    + split; [tauto|]. intros q. rewrite (proj2 iv_trackers0). setoid_rewrite lookup_insert_Some.
      split; [|naive_solver congruence]. intros (sq & Hq' & ?). exists sq. split; [|done]. right.
      split; [|done]. intros <-. rewrite Hp in Hq'. naive_solver congruence.
    + intros q sq. rewrite lookup_insert_Some. intros [[<- <-]|[_ Hq']]; [|by eapply iv_listen_fd0].
      intros _. by apply (iv_listen_fd0 p s Hp).
  - constructor; cbn; try done. by intros; rewrite lookup_insert_ne.
Qed.

(** *** Sending *)

Lemma checksum_loop_total n p sum : (n ≤ length p)%nat → ∃ r, checksum_loop n p sum = Ret r.
Proof.
  revert p sum. induction n as [|n IH]; intros p sum Hn; [by eexists|].
  destruct p as [|c p]; simpl in *; [lia|]. apply IH. lia.
Qed.

Lemma complete_make_packet cmd a0 a1 data v :
  ∃ q, complete_header (make_packet cmd a0 a1 data) v = Ret q ∧ command (msg q) = cmd ∧
    arg0 (msg q) = a0 ∧ arg1 (msg q) = a1 ∧ payload q = data.
Proof.
  unfold complete_header, make_packet. cbn.
  assert (∃ r, (if A_VERSION_SKIP_CHECKSUM <=? v then Ret 0 else calculate_apacket_checksum
    (mkPacket (mkMsg cmd a0 a1 (u32 (zlen data)) 0 0) data)) = Ret r) as [r ->].
  { case_match; [by eexists|]. unfold calculate_apacket_checksum. cbn. apply checksum_loop_total.
    pose proof (zlen_nonneg data). unfold zlen, u32 in *.
    assert (Z.of_nat (length data) mod 2 ^ 32 ≤ Z.of_nat (length data)) by (by apply Z.mod_le). lia. }
  cbn. eexists. split; [done|]. done.
Qed.

(** A transport differs from another by what it was given to send. *)
Definition sent_more (a a' : atransport) : Prop := ∃ c, a' = set_connection_ (Some c) a.

(** The transports of [w'] are those of [w], with more to send. *)
Definition transports_grow (w w' : world) : Prop :=
  ∀ t, match transports w !! t, transports w' !! t with
       | Some a, Some a' => a' = a ∨ sent_more a a'
       | None, None => True
       | _, _ => False
       end.

Lemma grow_refl w : transports_grow w w.
Proof. intros t. destruct (transports w !! t); auto. Qed.
Lemma grow_trans w1 w2 w3 : transports_grow w1 w2 → transports_grow w2 w3 → transports_grow w1 w3.
Proof.
  intros H1 H2 t. specialize (H1 t). specialize (H2 t).
  destruct (transports w1 !! t) as [a1|], (transports w2 !! t) as [a2|], (transports w3 !! t) as [a3|]; try done.
  destruct H1 as [->|[c1 ->]], H2 as [->|[c2 ->]]; eauto; right; eexists; done.
Qed.
Lemma grow_eq w w' : transports w' = transports w → transports_grow w w'.
Proof. intros He t. rewrite He. destruct (transports w !! t); auto. Qed.
Lemma grow_some w w' t : transports_grow w w' → is_Some (transports w !! t) → is_Some (transports w' !! t).
Proof. intros H [a Ha]. specialize (H t). rewrite Ha in H. by destruct (transports w' !! t). Qed.

(** What [send_packet] leaves alone. *)
Record send_frame (w w' : world) : Prop := {
  sf_sockets : sockets w' = sockets w;
  sf_list : local_socket_list w' = local_socket_list w;
  sf_closing : local_socket_closing_list w' = local_socket_closing_list w;
  sf_registered : transport_list w' = transport_list w;
  sf_grow : transports_grow w w'
}.

Lemma inv_transports X w m :
  inv_ex X w → (∀ t, is_Some (transports w !! t) → is_Some (m !! t)) →
  (∀ t a, m !! t = Some a → transport_ok a) → inv_ex X (set_transports m w).
Proof.
  intros [] H1 H2. constructor; cbn; eauto. apply (listeners_frame w); try done. by apply listeners_polled.
Qed.

Lemma send_packet_run p t w a c q :
  transports w !! t = Some a → connection_ a = Some c → complete_header p (protocol_version a) = Ret q →
  send_packet p t w =
    Ret (tt, set_transports (<[t := set_connection_ (Some (Write q c).2) a]> (transports w)) w).
Proof.
  intros Ht Hc Hq. unfold send_packet, transport_write, get_transport, put_transport, mbind, M_bind, lift.
  rewrite Ht, Hq, Ht, Hc. done.
Qed.

Lemma wp_send_packet X cmd a0 a1 data t w :
  inv_ex X w → is_Some (transports w !! t) →
  wp (send_packet (make_packet cmd a0 a1 data) t) (λ _ w', inv_ex X w' ∧ send_frame w w') w.
Proof.
  intros Hinv [a Ha]. destruct (iv_conn X w Hinv t a Ha) as [[c Hc] Hnames].
  destruct (complete_make_packet cmd a0 a1 data (protocol_version a)) as (q & Hq & _).
  unfold wpD. rewrite (send_packet_run _ _ _ _ _ _ Ha Hc Hq). split.
  - apply inv_transports; [done|..].
    + intros t'. destruct (decide (t' = t)) as [->|]; [by rewrite lookup_insert_eq|by rewrite lookup_insert_ne].
    + intros t' a'. rewrite lookup_insert_Some. intros [[<- <-]|[_ H]]; [by split|by eapply iv_conn].
  - constructor; cbn; try done. intros t'. cbn. destruct (decide (t' = t)) as [->|].
    + rewrite lookup_insert_eq, Ha. right. by eexists.
    + rewrite lookup_insert_ne by done. by destruct (transports w !! t'); auto.
Qed.

Lemma wp_send_fail n reason Q w :
  (∀ ok m, Q ok (set_wrs m w)) → wp (send_fail n reason) Q w.
Proof.
  intros HQ. unfold wpD, send_fail.
  match goal with |- context [SendFail ?f ?b] => destruct (SendFail_total f b) as (ok & fd' & ->) end.
  apply HQ.
Qed.

Lemma wp_send_okay n Q w : (∀ ok m, Q ok (set_wrs m w)) → wp (send_okay n) Q w.
Proof.
  intros HQ. unfold wpD, send_okay.
  match goal with |- context [SendOkay ?f] => destruct (SendOkay_total f) as (ok & fd' & ->) end.
  apply HQ.
Qed.

Lemma inv_wrs X w m : inv_ex X w → inv_ex X (set_wrs m w).
Proof. intros []. by constructor. Qed.
Lemma inv_rds X w m : inv_ex X w → inv_ex X (set_rds m w).
Proof. intros []. by constructor. Qed.

(** *** Closing *)

Lemma kind_fields s k :
  kind_of s = Some k →
  match k with
  | KLocal => enqueue s = local_socket_enqueue_fn ∧ ready s = local_socket_ready_fn ∧ shutdown s = no_shutdown ∧ close s = local_socket_close_fn
  | KNotify => enqueue s = local_socket_enqueue_fn ∧ ready s = local_socket_ready_notify_fn ∧ shutdown s = no_shutdown ∧ close s = local_socket_close_notify_fn
  | KRemote => enqueue s = remote_socket_enqueue_fn ∧ ready s = remote_socket_ready_fn ∧ shutdown s = remote_socket_shutdown_fn ∧ close s = remote_socket_close_fn
  | KSmart => enqueue s = smart_socket_enqueue_fn ∧ ready s = smart_socket_ready_fn ∧ shutdown s = no_shutdown ∧ close s = smart_socket_close_fn
  | KTracker => enqueue s = device_tracker_enqueue_fn ∧ ready s = device_tracker_ready_fn ∧ shutdown s = no_shutdown ∧ close s = device_tracker_close_fn
  end.
Proof. unfold kind_of. destruct (enqueue s), (ready s), (shutdown s), (close s); intros [= <-]; done. Qed.

Lemma make_regular_ok s e : local_ok s e → is_local s = true → local_ok (make_regular s) e ∧ kind_of (make_regular s) = Some KLocal.
Proof.
  intros [] Hl. assert (Hk : kind_of (make_regular s) = Some KLocal).
  { apply kind_local in Hl as [Hk|Hk]; apply kind_fields in Hk as (He & _); unfold kind_of, make_regular; cbn; by rewrite He. }
  split; [|done]. constructor; cbn; try done. intros Hc. naive_solver.
Qed.

(** A socket whose peer is gone, or never was. *)
Lemma wp_close_alone f X p s w :
  inv_ex X w → p ∈ X → sockets w !! p = Some s → peer s = None →
  wp (close_with (S (S f)) p) (λ _ w', inv_ex (X ∖ {[p]}) w' ∧ close_frame p w w') w.
Proof.
  intros Hinv HX Hp Hpe. cbn [close_with]. apply wp_bind. eapply wp_get_sock; [done|].
  pose proof (iv_sock X w Hinv p s Hp) as Hok. pose proof Hok as [_ Hk].
  assert (Hloc : ∀ w s, inv_ex X w → sockets w !! p = Some s → peer s = None → kind_of s = Some KLocal →
    ∀ k, wp (local_socket_close k p) (λ _ w', inv_ex (X ∖ {[p]}) w' ∧ close_frame p w w') w).
  { clear - HX. intros w s Hinv Hp Hpe Hk k. unfold local_socket_close. apply wp_bind.
    eapply wp_get_sock; [done|]. rewrite Hpe. apply wp_bind, wp_ret. by eapply wp_local_finish. }
  destruct (kind_of s) as [[]|] eqn:E; try done; pose proof (kind_fields s _ E) as (_ & _ & _ & Hc); rewrite Hc.
  - by eapply Hloc.
  - unfold local_socket_close_notify. wp_auto. destruct Hk as [e He].
    assert (Hl : is_local s = true) by (apply kind_local; auto).
    destruct (make_regular_ok s e He Hl) as [He' Hk'].
    eapply wp_get_sock; [cbn; apply lookup_insert_eq|]. wp_auto. apply wp_send_fail. intros ok m.
    assert (Hinv' : inv_ex X (set_sockets (<[p := make_regular s]> (sockets w)) w)).
    { eapply inv_upd; try done.
      - repeat split; try done.
        + by rewrite (proj2 (kind_local _)), Hl by auto.
        + rewrite Hk'. by intros.
        + rewrite E. by intros.
      - split; [apply Hok|]. rewrite Hk'. by eexists.
      - intros t Ht Htr. by apply (iv_transport X w Hinv p s). }
    apply (inv_wrs _ _ m) in Hinv'.
    eapply wp_mono.
    + change (close_with (S f) p) with (s ← get_sock p;
        match close s with
        | local_socket_close_fn => local_socket_close (close_with f) p
        | local_socket_close_notify_fn => local_socket_close_notify (close_with f) p
        | remote_socket_close_fn => remote_socket_close (close_with f) p
        | smart_socket_close_fn => smart_socket_close (close_with f) p
        | device_tracker_close_fn => device_tracker_close (close_with f) p
        end).
      apply wp_bind. eapply wp_get_sock; [cbn; apply lookup_insert_eq|]. cbn beta iota.
      change (close (make_regular s)) with local_socket_close_fn. cbn beta iota.
      eapply Hloc; [done|cbn; apply lookup_insert_eq|done|done].
    + cbn. intros _ w' [Hi []]. split; [done|]. constructor; try done.
      intros q Hq. rewrite cf_other0 by done. cbn. by apply lookup_insert_ne.
  - unfold remote_socket_close. apply wp_bind. eapply wp_get_sock; [done|]. rewrite Hpe. apply wp_bind, wp_ret.
    eapply wp_delete_plain; try done; [by unfold is_local; rewrite E|by rewrite E].
  - unfold smart_socket_close. apply wp_bind. eapply wp_get_sock; [done|]. rewrite Hpe. apply wp_bind, wp_ret.
    eapply wp_delete_plain; try done; [by unfold is_local; rewrite E|by rewrite E].
  - unfold device_tracker_close. apply wp_bind. eapply wp_get_sock; [done|]. rewrite Hpe. apply wp_bind, wp_ret.
    by eapply wp_tracker_delete.
Qed.

(** Closing any socket: it and its peer are gone from the open list. *)
Record closed (p : ptr) (o : option ptr) (w w' : world) : Prop := {
  cl_other : ∀ r, r ≠ p → o ≠ Some r → sockets w' !! r = sockets w !! r;
  cl_list : local_socket_list w' =
    without p (match o with Some q => without q (local_socket_list w) | None => local_socket_list w end);
  cl_grow : transports_grow w w';
  cl_registered : transport_list w' = transport_list w
}.

Lemma inv_peer_sym w p s q : inv w → sockets w !! p = Some s → peer s = Some q →
  p ≠ q ∧ ∃ sq, sockets w !! q = Some sq ∧ peer sq = Some p ∧ peers_ok s sq ∧ peers_ok sq s.
Proof.
  intros Hinv Hp Hq. destruct (iv_peer ∅ w Hinv p s q Hp ltac:(set_solver) Hq) as (_ & Hne & sq & Hsq & Hpe & Hok).
  split; [done|]. exists sq. split_and!; try done.
  destruct (iv_peer ∅ w Hinv q sq p Hsq ltac:(set_solver) Hpe) as (_ & _ & s2 & Hs2 & _ & Hok2). congruence.
Qed.

(** Opening the pair up: both may now be closed. *)
Lemma inv_open_pair w p s q :
  inv w → sockets w !! p = Some s → peer s = Some q → inv_ex {[p; q]} w.
Proof.
  intros Hinv Hp Hq. destruct (inv_peer_sym w p s q Hinv Hp Hq) as (Hne & sq & Hsq & Hpe & _).
  apply (inv_grow ∅); [done|set_solver|]. intros r sr x Hr Hn Hx.
  destruct (inv_peer_sym w r sr x Hinv Hr Hx) as (_ & sx & Hsx & Hxr & _).
  intros Hin. apply elem_of_union in Hin as [->%elem_of_singleton| ->%elem_of_singleton].
  - rewrite Hp in Hsx. injection Hsx as <-. rewrite Hq in Hxr. injection Hxr as ->. set_solver.
  - rewrite Hsq in Hsx. injection Hsx as <-. rewrite Hpe in Hxr. injection Hxr as ->. set_solver.
Qed.

Lemma sock_ok_no_peer s : sock_ok s → sock_ok (set_peer None s).
Proof.
  intros [Hx Hk]. split; [done|]. change (kind_of (set_peer None s)) with (kind_of s).
  destruct (kind_of s) as [[]|]; try done; destruct Hk as [e []]; exists e; constructor; naive_solver.
Qed.

Lemma inv_no_peer X w p s :
  inv_ex X w → p ∈ X → sockets w !! p = Some s →
  inv_ex X (set_sockets (<[p := set_peer None s]> (sockets w)) w).
Proof.
  intros Hinv HX Hp. eapply inv_upd; try done.
  - apply sock_ok_no_peer. by eapply iv_sock.
  - intros t Hc Ht. by apply (iv_transport X w Hinv p s).
Qed.

(** [q->peer = nullptr; q->close(q)] for the peer [q] of [p]. *)
Lemma wp_close_peer f p s q w :
  inv_ex {[p; q]} w → sockets w !! p = Some s → p ≠ q → is_Some (sockets w !! q) →
  wp (upd_sock q (set_peer None) ;; close_with (S (S f)) q)
    (λ _ w', inv_ex {[p]} w' ∧ sockets w' !! p = Some s ∧
       (∀ r, r ≠ q → sockets w' !! r = sockets w !! r) ∧
       local_socket_list w' = without q (local_socket_list w) ∧
       transports w' = transports w ∧ transport_list w' = transport_list w) w.
Proof.
  intros Hinv Hp Hne [sq Hq]. apply wp_bind. eapply wp_upd_sock; [done|].
  eapply wp_mono; [eapply (wp_close_alone f {[p; q]} q (set_peer None sq))|].
  - apply inv_no_peer; try done. set_solver.
  - set_solver.
  - cbn. apply lookup_insert_eq.
  - done.
  - cbn. intros _ w' [Hi []]. split; [|split_and!; try done].
    + replace {[p]} with ({[p; q]} ∖ {[q]} : gset ptr) by set_solver. done.
    + rewrite cf_other0 by done. cbn. by rewrite lookup_insert_ne.
    + intros r Hr. rewrite cf_other0 by done. cbn. by rewrite lookup_insert_ne.
Qed.

Lemma wp_call_shutdown X p s w :
  inv_ex X w → sockets w !! p = Some s →
  (∀ q, peer s = Some q → is_Some (sockets w !! q)) →
  wp (call_shutdown p) (λ _ w', inv_ex X w' ∧ send_frame w w') w.
Proof.
  intros Hinv Hp Hpeer. unfold call_shutdown. apply wp_bind. eapply wp_get_sock; [done|].
  pose proof (iv_sock X w Hinv p s Hp) as [_ Hk].
  destruct (kind_of s) as [k|] eqn:E; [|done]. pose proof (kind_fields s _ E) as Hf.
  assert (Hstay : inv_ex X w ∧ send_frame w w) by (split; [done|by constructor; auto using grow_refl]).
  destruct k; destruct Hf as (_ & _ & -> & _); try (by apply wp_ret).
  destruct Hk as (_ & Hc & [t Ht] & _). unfold remote_socket_shutdown. wp_auto.
  eapply wp_mono with (P := λ i w', w' = w).
  - destruct (peer s) as [q|] eqn:Hq; [|by apply wp_ret]. destruct (Hpeer q eq_refl) as [sq Hsq]. by wp_auto.
  - intros i w' ->. wp_auto. apply wp_send_packet; [done|]. by apply (iv_transport X w Hinv p s).
Qed.

Lemma close_with_S f p :
  close_with (S f) p =
    (s ← get_sock p;
     match close s with
     | local_socket_close_fn => local_socket_close (close_with f) p
     | local_socket_close_notify_fn => local_socket_close_notify (close_with f) p
     | remote_socket_close_fn => remote_socket_close (close_with f) p
     | smart_socket_close_fn => smart_socket_close (close_with f) p
     | device_tracker_close_fn => device_tracker_close (close_with f) p
     end).
Proof. done. Qed.

Lemma wp_close_with f p s w :
  inv w → sockets w !! p = Some s →
  wp (close_with (S (S (S f))) p) (λ _ w', inv w' ∧ closed p (peer s) w w') w.
Proof.
  intros Hinv Hp.
  assert (Hempty : ∀ X : gset ptr, X = {[p]} → X ∖ {[p]} = ∅) by set_solver.
  destruct (peer s) as [q|] eqn:Hq.
  2:{ eapply wp_mono; [eapply (wp_close_alone (S f) {[p]})|]; try done.
      - apply (inv_grow ∅); [done|set_solver|]. intros r sr x Hr _ Hx.
        destruct (inv_peer_sym w r sr x Hinv Hr Hx) as (_ & sx & Hsx & Hxr & _).
        rewrite elem_of_singleton. intros ->. congruence.
      - set_solver.
      - intros _ w' [Hi []]. split; [by rewrite Hempty in Hi|]. constructor; auto using grow_eq. }
  destruct (inv_peer_sym w p s q Hinv Hp Hq) as (Hne & sq & Hsq & Hpe & [Hkk _] & _).
  pose proof (inv_open_pair w p s q Hinv Hp Hq) as Hopen.
  pose proof (iv_sock _ w Hinv p s Hp) as [_ Hk].
  rewrite close_with_S. apply wp_bind. eapply wp_get_sock; [done|].
  (* The three kinds that disconnect, close the peer and delete themselves. *)
  assert (Hplain : ∀ (m : M unit), kind_of s ≠ Some KLocal →
    (∀ w1, inv_ex {[p]} w1 → sockets w1 !! p = Some s →
       wp m (λ _ w', inv_ex ({[p]} ∖ {[p]}) w' ∧ close_frame p w1 w') w1) →
    wp ((upd_sock q (set_peer None) ;; close_with (S (S f)) q) ;; m) (λ _ w', inv w' ∧ closed p (Some q) w w') w).
  { intros m _ Hm. apply wp_bind. eapply wp_mono; [by eapply (wp_close_peer f p s q)|].
    intros _ w1 (Hi1 & Hp1 & Ho1 & Hl1 & Ht1 & Hr1). eapply wp_mono; [by apply Hm|].
    intros _ w2 [Hi2 []]. split; [by rewrite Hempty in Hi2|]. constructor.
    - intros r Hr1' Hr2. rewrite cf_other0 by done. apply Ho1. congruence.
    - by rewrite cf_list0, Hl1.
    - apply grow_eq. congruence.
    - congruence. }
  destruct (kind_of s) as [[]|] eqn:E; try done; pose proof (kind_fields s _ E) as (_ & _ & _ & Hc); rewrite Hc.
  - unfold local_socket_close. apply wp_bind. eapply wp_get_sock; [done|]. rewrite Hq.
    apply wp_bind, wp_bind. eapply wp_mono; [apply (wp_call_shutdown _ q sq w Hopen Hsq)|].
    { intros x Hx. rewrite Hpe in Hx. injection Hx as <-. by eexists. }
    intros _ w1 [Hi1 []].
    apply wp_bind. eapply wp_upd_sock; [by rewrite sf_sockets0|].
    apply wp_bind. eapply wp_mono; [eapply (wp_close_alone f {[p; q]} q (set_peer None sq))|].
    { apply inv_no_peer; [done|set_solver|by rewrite sf_sockets0]. }
    { set_solver. } { cbn. apply lookup_insert_eq. } { done. }
    cbn. intros _ w2 [Hi2 []]. cbn in *.
    assert (Hp2 : sockets w2 !! p = Some s) by (by rewrite cf_other0, lookup_insert_ne, sf_sockets0).
    replace ({[p; q]} ∖ {[q]}) with ({[p]} : gset ptr) in Hi2 by set_solver.
    eapply wp_upd_sock; [done|].
    eapply wp_mono; [eapply (wp_local_finish {[p]} p (set_peer None s))|].
    { apply inv_no_peer; [done|set_solver|done]. }
    { set_solver. } { cbn. apply lookup_insert_eq. } { done. } { done. }
    intros _ w3 [Hi3 []]. cbn in *. split; [by rewrite Hempty in Hi3|]. constructor.
    + intros r Hr1 Hr2. rewrite cf_other1 by done. rewrite lookup_insert_ne by done.
      rewrite cf_other0 by congruence. rewrite lookup_insert_ne by congruence. by rewrite sf_sockets0.
    + by rewrite cf_list1, cf_list0, sf_list0.
    + eapply grow_trans; [done|]. apply grow_eq. by rewrite cf_transports1, cf_transports0.
    + congruence.
  - pose proof (iv_settled ∅ w Hinv p s Hp ltac:(set_solver)) as Hs.
    unfold settled in Hs. rewrite E in Hs. destruct Hs as [Hs _]. congruence.
  - unfold remote_socket_close. apply wp_bind. eapply wp_get_sock; [done|]. rewrite Hq.
    apply Hplain; [done|]. intros w1 Hi1 Hp1. eapply wp_delete_plain; try done; [set_solver|by unfold is_local; rewrite E|by rewrite E].
  - unfold smart_socket_close. apply wp_bind. eapply wp_get_sock; [done|]. rewrite Hq.
    apply wp_bind, wp_assoc, wp_bind. eapply wp_mono; [by eapply (wp_close_peer f p s q)|].
    intros _ w1 (Hi1 & Hp1 & Ho1 & Hl1 & Ht1 & Hr1). eapply wp_upd_sock; [done|].
    eapply wp_mono; [eapply (wp_delete_plain {[p]} p (set_peer None s))|].
    { apply inv_no_peer; [done|set_solver|done]. }
    { set_solver. } { cbn. apply lookup_insert_eq. }
    { change (is_local s = false). by unfold is_local; rewrite E. }
    { change (kind_of s ≠ Some KTracker). by rewrite E. }
    intros _ w2 [Hi2 []]. cbn in *. split; [by rewrite Hempty in Hi2|]. constructor.
    + intros r Hr1' Hr2. rewrite cf_other0, lookup_insert_ne by done. apply Ho1. congruence.
    + by rewrite cf_list0, Hl1.
    + apply grow_eq. congruence.
    + congruence.
  - unfold device_tracker_close. apply wp_bind. eapply wp_get_sock; [done|]. rewrite Hq.
    apply Hplain; [done|]. intros w1 Hi1 Hp1. eapply wp_tracker_delete; try done. set_solver.
Qed.

Lemma wp_close p s w :
  inv w → sockets w !! p = Some s →
  wp (call_close p) (λ _ w', inv w' ∧ closed p (peer s) w w') w.
Proof. apply (wp_close_with 1). Qed.
End closing.
