(* ===== verification/SocketsFlow.v ===== *)
(** * Data through local sockets
    (src/src/sockets.cpp)

    [local_socket_flush_incoming] and [local_socket_enqueue]: what they write,
    what they keep, and that they keep the invariant. *)

From Stdlib Require Import ZArith Lia List Ascii String.
From stdpp Require Import base numbers list strings gmap.
From S2P Require Import Prelude.
From S2P Require Import Libc.
From S2P Require Import AdbIo.
From S2P Require Import Wire.
From S2P Require Import IOVector.
From S2P Require Import Packet.
From S2P Require Import Connection.
From S2P Require Import Transport.
From S2P Require Import World.
From S2P Require Import Sockets.
From S2P Require Import SocketsInv.

(** What has been written to a descriptor so far. *)
Definition sent_to (w : world) (n : Z) : bytes := wr_sent (default (mkWrFd [] []) (wrs w !! n)).

(** ** Destroying a closing socket, whatever the flush did to it *)

Lemma wp_destroy_upd {D} w p s s1 m :
  inv w → sockets w !! p = Some s → is_local s = true → closing s = true →
  is_Some (fde s1) → fd s1 = fd s → exit_on_close s1 = false → closing s1 = true → peer s1 = None →
  close s1 = local_socket_close_fn →
  wpD D (call_close p) (λ _ w', inv w' ∧ close_frame p w w')
    (set_sockets (<[p := s1]> (sockets w)) (set_wrs m w)).
Proof.
  intros Hinv Hp Hl Hc [e He] Hfd Hex Hc1 Hpe Hcl. unfold call_close, close_fuel.
  assert (Hk : kind_of s ≠ Some KTracker) by (apply kind_local in Hl; naive_solver).
  pose proof (iv_not_tracker ∅ w p s Hinv Hp Hk) as H3.
  assert (Hinv1 : inv_ex {[p]} w).
  { apply (inv_grow ∅); [done|set_solver|]. intros r sr x Hr _ Hx.
    destruct (inv_peer_sym w r sr x Hinv Hr Hx) as (_ & sx & Hsx & Hxr & _).
    rewrite elem_of_singleton. intros ->. rewrite Hp in Hsx. injection Hsx as <-.
    pose proof (iv_sock ∅ w Hinv p s Hp) as Hok.
    destruct (local_sock_ok s Hok Hl) as [? []]. naive_solver. }
  cbn [close_with]. apply wp_bind. eapply wp_get_sock; [cbn; apply lookup_insert_eq|].
  rewrite Hcl. unfold local_socket_close. apply wp_bind. eapply wp_get_sock; [cbn; apply lookup_insert_eq|].
  rewrite Hpe. apply wp_bind, wp_ret. unfold local_socket_finish. apply wp_bind.
  eapply wp_get_sock; [cbn; apply lookup_insert_eq|]. rewrite Hc1. cbn [orb].
  unfold local_socket_destroy, fdevent_destroy, remove_socket, delete_sock. wp_auto.
  eapply wp_get_sock; [cbn; apply lookup_insert_eq|]. wp_auto. rewrite He. wp_auto.
  eapply wp_get_sock; [cbn; apply lookup_insert_eq|]. wp_auto. rewrite Hex. wp_auto. cbn.
  rewrite delete_insert_eq. split.
  - unfold inv. replace (∅ : gset ptr) with ({[p]} ∖ {[p]} : gset ptr) by set_solver.
    eapply (inv_delete {[p]} w _ p s); try done; cbn; try (by rewrite without_not_in).
    + set_solver.
    + by rewrite Hl, Hfd.
  - constructor; cbn; try done. intros q Hq. by rewrite lookup_delete_ne.
Qed.

(** ** Flushing *)

(** Where a flush leaves the queue [q] of a socket: what it wrote, the queue
    that remains, and whether it asks to be called again. *)
Inductive flushed (q q' : IOVector) (wrote : bytes) (again error : bool) : Prop :=
| flushed_idle : bytes_of q = [] → q' = q → wrote = [] → again = false → error = false → flushed q q' wrote again error
| flushed_all : wrote = bytes_of q → bytes_of q ≠ [] → q' = IOVector_clear q → again = false → error = false → flushed q q' wrote again error
| flushed_some : bytes_of q = wrote ++ bytes_of q' → bytes_of q' ≠ [] → iov_wf q' → end_offset_ q' = 0 →
    again = true → error = false → flushed q q' wrote again error
| flushed_error : bytes_of q ≠ [] → q' = q → wrote = [] → again = false → error = true → flushed q q' wrote again error.

Lemma is_empty_spec q : iov_wf q → IOVector_is_empty q = bool_decide (bytes_of q = []).
Proof.
  intros Hq. unfold IOVector_is_empty. rewrite size_view by done. symmetry.
  destruct (Z.eqb_spec (zlen (bytes_of q)) 0) as [H|H].
  - apply bool_decide_eq_true. by apply zlen_0.
  - apply bool_decide_eq_false. intros He. rewrite He in H. done.
Qed.

Lemma pending_spec s : iov_wf (packet_queue s) → pending s = negb (bool_decide (bytes_of (packet_queue s) = [])).
Proof. intros. unfold pending. by rewrite is_empty_spec. Qed.

Lemma clear_wf q : iov_wf (IOVector_clear q) ∧ end_offset_ (IOVector_clear q) = 0 ∧ bytes_of (IOVector_clear q) = [].
Proof. split_and!; try done. Qed.

Lemma take_front_loop_end fuel head v len h r :
  take_front_loop fuel head v len = Ret (h, r) → end_offset_ r = end_offset_ v.
Proof.
  revert head v. induction fuel as [|fuel IH]; intros head v; simpl; destruct (_ <? _); try done;
    try (by intros [= _ <-]).
  intros H. apply bind_Ret in H as (v1 & Hv & H). apply bind_Ret in H as (u & _ & H).
  apply bind_Ret in H as (b & _ & H). apply bind_Ret in H as (h1 & _ & H).
  rewrite (IH _ _ H). unfold pop_front_block in Hv. apply bind_Ret in Hv as (b0 & _ & Hv). by injection Hv as <-.
Qed.

Lemma take_front_end v len h r : take_front v len = Ret (h, r) → end_offset_ r = end_offset_ v.
Proof.
  unfold take_front. destruct (len =? 0); [by intros [= _ <-]|]. intros H.
  apply bind_Ret in H as (u & _ & H). apply bind_Ret in H as (b & _ & H). apply bind_Ret in H as (u2 & _ & H).
  apply bind_Ret in H as (h1 & _ & H). apply bind_Ret in H as ([h2 v2] & Hl & H).
  apply take_front_loop_end in Hl. simpl in *. rewrite <-Hl. clear Hl.
  unfold take_front_finish in H. destruct (_ =? _).
  - apply bind_Ret in H as (v3 & Hv & H). injection H as _ <-.
    unfold pop_front_block in Hv. apply bind_Ret in Hv as (b0 & _ & Hv). by injection Hv as <-.
  - apply bind_Ret in H as (b0 & _ & H). apply bind_Ret in H as (u3 & _ & H). by injection H as _ <-.
Qed.

(** The write of [local_socket_flush_incoming] on a socket [s] of world [w]
    whose queue is [q]. *)
Section flow.
Context {D : string → Prop}.
Local Abbreviation wp := (wpD D).

Lemma wp_flush_write p s e w Q :
  sockets w !! p = Some s → fde s = Some e → iov_wf (packet_queue s) → end_offset_ (packet_queue s) = 0 →
  (∀ q' wrote again error m,
     flushed (packet_queue s) q' wrote again error →
     iov_wf q' → end_offset_ q' = 0 →
     wr_sent (default (mkWrFd [] []) (m !! fd s)) = sent_to w (fd s) ++ wrote →
     (∀ n, n ≠ fd s → m !! n = wrs w !! n) →
     Q again (set_sockets (<[p := set_fde (Some (if (again : bool) then add_write e else e))
         (set_has_write_error (has_write_error s || error) (set_packet_queue q' s))]> (sockets w)) (set_wrs m w))) →
  wp (flush_write p) Q w.
Proof.
  intros Hp He Hq Hend HQ. unfold flush_write. apply wp_bind. eapply wp_get_sock; [done|].
  rewrite is_empty_spec by done.
  assert (Hself : set_fde (Some e) (set_has_write_error (has_write_error s || false) (set_packet_queue (packet_queue s) s)) = s).
  { destruct s; cbn in *. by rewrite orb_false_r, He. }
  case_bool_decide as Hempty.
  { apply wp_ret. specialize (HQ (packet_queue s) [] false false (wrs w)). cbn in HQ.
    rewrite Hself, insert_id in HQ by done. destruct w. apply HQ; try done; [by apply flushed_idle|].
    unfold sent_to. by rewrite app_nil_r. }
  destruct (iovecs_Ret _ Hq) as (iov & Hiov & Hcat). apply wp_bind.
  eapply wp_lift; [done|]. apply wp_bind. unfold wpD, adb_writev. rewrite Hcat.
  unfold adb_write. set (f := default (mkWrFd [] []) (wrs w !! fd s)).
  assert (Herr : ∀ m, wr_sent (default (mkWrFd [] []) (m !! fd s)) = sent_to w (fd s) →
      (∀ n, n ≠ fd s → m !! n = wrs w !! n) →
      wp (upd_sock p (set_has_write_error true) ;; mret false) Q (set_wrs m w)).
  { intros m Hm Hm'. apply wp_bind. eapply wp_upd_sock; [done|]. apply wp_ret.
    specialize (HQ (packet_queue s) [] false true m). cbn in HQ.
    replace (set_has_write_error true s) with (set_fde (Some e) (set_has_write_error (has_write_error s || true)
      (set_packet_queue (packet_queue s) s))) by (destruct s; cbn in *; by rewrite orb_true_r, He).
    apply HQ; try done; [by apply flushed_error|by rewrite app_nil_r]. }
  assert (Hagain : ∀ m, wr_sent (default (mkWrFd [] []) (m !! fd s)) = sent_to w (fd s) →
      (∀ n, n ≠ fd s → m !! n = wrs w !! n) →
      wp (fdevent_update p add_write ;; mret true) Q (set_wrs m w)).
  { intros m Hm Hm'. unfold fdevent_update, put_sock. apply wp_bind, wp_bind.
    eapply wp_get_sock; [done|]. apply wp_bind. eapply wp_deref; [done|]. apply wp_modify, wp_ret.
    specialize (HQ (packet_queue s) [] true false m). cbn in HQ.
    replace (set_fde (Some (add_write e)) s) with (set_fde (Some (add_write e)) (set_has_write_error (has_write_error s || false)
      (set_packet_queue (packet_queue s) s))) by (destruct s; cbn in *; by rewrite orb_false_r).
    apply HQ; try done; [by apply flushed_some|by rewrite app_nil_r]. }
  assert (Hother : ∀ x n, n ≠ fd s → <[fd s := x]> (wrs w) !! n = wrs w !! n)
    by (intros; by apply lookup_insert_ne).
  destruct (wr_script f) as [|[n|[]] script] eqn:Hs; cbn beta iota.
  1, 4, 5: apply Herr; [rewrite lookup_insert_eq; done|auto].
  2: apply Hagain; [rewrite lookup_insert_eq; done|auto].
  set (r := Z.min (Z.max 0 n) (zlen (bytes_of (packet_queue s)))).
  set (m := <[fd s := mkWrFd script (wr_sent f ++ take (Z.to_nat r) (bytes_of (packet_queue s)))]> (wrs w)).
  assert (Hm : wr_sent (default (mkWrFd [] []) (m !! fd s)) = sent_to w (fd s) ++ take (Z.to_nat r) (bytes_of (packet_queue s))).
  { unfold m. by rewrite lookup_insert_eq. }
  rewrite size_view by done. pose proof (zlen_nonneg (bytes_of (packet_queue s))).
  destruct (Z.ltb_spec 0 r) as [Hr|Hr]; cbn [andb].
  2:{ apply Herr; [|apply Hother]. etrans; [exact Hm|]. replace (Z.to_nat r) with 0%nat by lia. by rewrite take_0, app_nil_r. }
  destruct (Z.eqb_spec r (zlen (bytes_of (packet_queue s)))) as [Hall|Hpart].
  - change (wp (upd_sock p (λ s, set_packet_queue (IOVector_clear (packet_queue s)) s) ;; mret false) Q (set_wrs m w)).
    apply wp_bind. eapply wp_upd_sock; [done|]. apply wp_ret.
    assert (Htake : take (Z.to_nat r) (bytes_of (packet_queue s)) = bytes_of (packet_queue s)).
    { apply take_ge. unfold zlen in *. lia. }
    specialize (HQ (IOVector_clear (packet_queue s)) (bytes_of (packet_queue s)) false false m). cbn in HQ.
    replace (set_packet_queue (IOVector_clear (packet_queue s)) s) with (set_fde (Some e) (set_has_write_error (has_write_error s || false)
      (set_packet_queue (IOVector_clear (packet_queue s)) s))) by (destruct s; cbn in *; by rewrite orb_false_r, He).
    apply HQ; [by apply flushed_all|apply clear_wf|done|by rewrite Hm, Htake|apply Hother].
  - destruct (take_front_Ret (packet_queue s) r Hq) as (h & q' & Htf & _ & Hq' & _ & Hrest); [lia|].
    pose proof (take_front_end _ _ _ _ Htf) as Hend'.
    change (wp (r0 ← lift (take_front (packet_queue s) r); upd_sock p (set_packet_queue r0.2) ;;
      fdevent_update p add_write ;; mret true) Q (set_wrs m w)).
    apply wp_bind. eapply wp_lift; [done|]. apply wp_bind. eapply wp_upd_sock; [done|].
    unfold fdevent_update, put_sock. apply wp_bind, wp_bind.
    eapply wp_get_sock; [cbn; apply lookup_insert_eq|]. apply wp_bind. eapply wp_deref; [done|].
    apply wp_modify, wp_ret. cbn. rewrite insert_insert_eq.
    specialize (HQ q' (take (Z.to_nat r) (bytes_of (packet_queue s))) true false m). cbn in HQ.
    replace (set_fde (Some (add_write e)) (set_packet_queue q' s)) with (set_fde (Some (add_write e)) (set_has_write_error (has_write_error s || false)
      (set_packet_queue q' s))) by (destruct s; cbn in *; by rewrite orb_false_r).
    apply HQ; try done; [|congruence|apply Hother].
    apply flushed_some; try done; [by rewrite Hrest, take_drop| |congruence].
    rewrite Hrest. intros Hnil. apply (f_equal length) in Hnil. rewrite length_drop in Hnil.
    unfold zlen in *. simpl in Hnil. lia.
Qed.

(** The world after a flush that leaves the socket alive. *)
Definition flow_state (p : ptr) (s : asocket) (e : fdevent) (q : IOVector) (error : bool) (m : gmap Z wr_fd) (w : world) : world :=
  set_sockets (<[p := set_fde (Some e) (set_has_write_error (has_write_error s || error) (set_packet_queue q s))]> (sockets w))
    (set_wrs m w).

Definition wrote_to (w : world) (m : gmap Z wr_fd) (n : Z) (wrote : bytes) : Prop :=
  wr_sent (default (mkWrFd [] []) (m !! n)) = sent_to w n ++ wrote ∧
  ∀ n', n' ≠ n → m !! n' = wrs w !! n'.

(** When may the queue of [s] be [q]: as it is, or longer by what a peer that
    sends has enqueued. *)
Definition may_hold (w : world) (s : asocket) (q : IOVector) : Prop :=
  q = packet_queue s ∨
  (kind_of s = Some KLocal ∧ closing s = false ∧ peer s ≠ None ∧
   ∀ r sr, peer s = Some r → sockets w !! r = Some sr → kind_of sr ≠ Some KSmart).

Lemma kind_flow s e q b : kind_of (set_fde e (set_has_write_error b (set_packet_queue q s))) = kind_of s.
Proof. done. Qed.

(** A flush keeps the invariant when it leaves the socket alive. *)
Lemma inv_flow p s e e' q q' wrote again error m w :
  inv w → sockets w !! p = Some s → is_local s = true → fde s = Some e →
  may_hold w s q → flushed q q' wrote again error → iov_wf q → iov_wf q' → end_offset_ q' = 0 →
  (closing s = true → again = true) →
  e' = (if again then add_write e else del_write e) →
  inv (flow_state p s e' q' error m w).
Proof.
  intros Hinv Hp Hl He Hmay Hf Hq Hq' Hend Hcl ->.
  pose proof (iv_sock ∅ w Hinv p s Hp) as Hok. destruct (local_sock_ok s Hok Hl) as [e0 Hlo].
  assert (e0 = e) as -> by (destruct Hlo; congruence).
  set (e' := if again then add_write e else del_write e).
  set (s' := set_fde (Some e') (set_has_write_error (has_write_error s || error) (set_packet_queue q' s))).
  assert (Hpend : pending s' = negb (bool_decide (bytes_of q' = []))) by (by apply pending_spec).
  assert (Hpq : q = packet_queue s → pending s = false → bytes_of q' = []).
  { intros -> Hps. rewrite pending_spec in Hps by done. apply negb_false_iff, bool_decide_eq_true in Hps.
    destruct Hf; subst; try done. rewrite H in Hps. by apply app_eq_nil in Hps as [_ ?]. }
  assert (Hlo' : local_ok s' e').
  { destruct Hlo. constructor; try done.
    - intros Hw. rewrite Hpend. subst e'. destruct Hf; subst; cbn in Hw; try discriminate.
      by rewrite bool_decide_eq_false_2.
    - rewrite Hpend. intros Hpd. cbn. intros Hne. apply orb_false_iff in Hne as [Hne1 Hne2].
      apply negb_true_iff, bool_decide_eq_false in Hpd. subst e'.
      destruct Hf; subst; try done.
    - intros Hc. change (closing s = true) in Hc. specialize (Hcl Hc). destruct (lo_closing Hc) as (? & ? & Hne & Hps).
      cbn. destruct Hf; subst; try discriminate. rewrite Hne, Hpend, bool_decide_eq_false_2 by done. done. }
  change (inv (set_sockets (<[p := s']> (sockets (set_wrs m w))) (set_wrs m w))).
  apply (inv_wrs ∅ w m) in Hinv as Hinv'. eapply inv_upd; [exact Hinv'|done|done|..].
  - split; [apply Hok|]. change (kind_of s') with (kind_of s).
    apply kind_local in Hl as [-> | ->]; by exists e'.
  - intros _. split_and!; [|done|].
    + pose proof (iv_settled ∅ w Hinv p s Hp ltac:(set_solver)) as Hs. unfold settled in *.
      change (kind_of s') with (kind_of s). change (closing s') with (closing s). change (peer s') with (peer s).
      apply kind_local in Hl as [Hk|Hk]; rewrite Hk in *.
      * intros Hc Hpe. rewrite Hpend. apply negb_false_iff, bool_decide_eq_true.
        destruct Hmay as [->|(_ & _ & Hne & _)]; [|done]. by apply Hpq, Hs.
      * destruct Hs as [Hpe Hps]. split; [done|]. rewrite Hpend. apply negb_false_iff, bool_decide_eq_true.
        destruct Hmay as [->|(_ & _ & Hne & _)]; [|done]. by apply Hpq.
    + intros r sr Hr Hsr [Hkk Hsm1] [Hkk2 Hsm2]. cbn in Hsr.
      split; (split; [first [exact Hkk|exact Hkk2]|]).
      * intros Hk. change (kind_of s = Some KSmart) in Hk. apply kind_local in Hl. naive_solver congruence.
      * intros Hk. rewrite Hpend. apply negb_false_iff, bool_decide_eq_true.
        destruct Hmay as [->|(_ & _ & _ & Hns)]; [by apply Hpq, Hsm2|]. by destruct (Hns r sr Hr Hsr).
  - intros t Hc Ht. by apply (iv_transport ∅ w Hinv p s).
Qed.

(** What [local_socket_flush_incoming] does to a socket whose queue is [q]. *)
Inductive flush_result (p : ptr) (s : asocket) (e : fdevent) (q : IOVector) (w : world) : SocketFlushResult → world → Prop :=
| flush_destroyed q' wrote error w' :
    flushed q q' wrote false error → closing s = true → close_frame p w w' →
    flush_result p s e q w Destroyed w'
| flush_again q' wrote m :
    flushed q q' wrote true false → wrote_to w m (fd s) wrote →
    flush_result p s e q w TryAgain (flow_state p s (add_write e) q' false m w)
| flush_completed q' wrote error m :
    flushed q q' wrote false error → closing s = false → wrote_to w m (fd s) wrote →
    flush_result p s e q w Completed (flow_state p s (del_write e) q' error m w).

Lemma wp_flush_incoming p s e q w :
  inv w → sockets w !! p = Some s → is_local s = true → fde s = Some e →
  iov_wf q → end_offset_ q = 0 → may_hold w s q →
  wp (local_socket_flush_incoming p) (λ r w', inv w' ∧ flush_result p s e q w r w')
    (set_sockets (<[p := set_packet_queue q s]> (sockets w)) w).
Proof.
  intros Hinv Hp Hl He Hq Hend Hmay. unfold local_socket_flush_incoming. apply wp_bind.
  eapply (wp_flush_write p (set_packet_queue q s) e); [cbn; apply lookup_insert_eq|done..|].
  cbn [packet_queue set_packet_queue fd has_write_error].
  intros q' wrote again error m Hf Hq' Hend' Hsent Hother. cbn. rewrite insert_insert_eq.
  set (s1 := set_fde _ _).
  destruct again.
  - apply wp_ret. assert (error = false) as -> by (by destruct Hf; subst).
    change (set_sockets _ _) with (flow_state p s (add_write e) q' false m w). split.
    + by eapply inv_flow.
    + by eapply flush_again.
  - apply wp_bind. eapply wp_get_sock; [cbn; apply lookup_insert_eq|].
    change (closing s1) with (closing s). destruct (closing s) eqn:Hc.
    + apply wp_bind. pose proof (iv_sock ∅ w Hinv p s Hp) as Hok.
      destruct (local_sock_ok s Hok Hl) as [e0 Hlo]. destruct (lo_closing s e0 Hlo Hc) as (Hk & Hpe & _).
      eapply wp_mono; [eapply (wp_destroy_upd w p s s1 m); try done|].
      * exact (proj1 Hok).
      * by apply kind_fields in Hk as (_ & _ & _ & ?).
      * intros _ w' [Hi Hfr]. apply wp_ret. split; [done|]. by eapply flush_destroyed.
    + unfold fdevent_update, put_sock. apply wp_bind, wp_bind. eapply wp_get_sock; [cbn; apply lookup_insert_eq|].
      apply wp_bind. eapply wp_deref; [done|]. apply wp_modify, wp_ret. cbn. rewrite insert_insert_eq.
      change (set_sockets _ _) with (flow_state p s (del_write e) q' error m w). split.
      * eapply inv_flow; try done. congruence.
      * by eapply flush_completed.
Qed.

(** ** Enqueueing on a local socket *)

Lemma wp_local_enqueue p s e data w :
  inv w → sockets w !! p = Some s → kind_of s = Some KLocal → closing s = false → fde s = Some e →
  peer s ≠ None → (∀ r sr, peer s = Some r → sockets w !! r = Some sr → kind_of sr ≠ Some KSmart) →
  data ≠ [] → (2 ^ 64 ≤ chain_length_ (packet_queue s) + zlen data → D "std::bad_alloc"%string) →
  wp (local_socket_enqueue p data)
    (λ r w', inv w' ∧ ∃ q fr, bytes_of q = bytes_of (packet_queue s) ++ data ∧ iov_wf q ∧
       flush_result p s e q w fr w' ∧ fr ≠ Destroyed ∧
       r = match fr with Destroyed => -1 | TryAgain => 1 | Completed => 0 end) w.
Proof.
  intros Hinv Hp Hk Hc He Hpe Hns Hd HD. unfold local_socket_enqueue, queue_append.
  assert (Hl : is_local s = true) by (apply kind_local; by left).
  pose proof (iv_sock ∅ w Hinv p s Hp) as Hok. destruct (local_sock_ok s Hok Hl) as [e0 Hlo].
  destruct (Block_of_range_Ret data) as (b & Hb & Hwf & Hch & Hsz).
  apply wp_bind, wp_bind. eapply wp_get_sock; [done|]. apply wp_bind. eapply wp_lift; [done|].
  apply wp_bind. apply wp_check; [intros Hlt%Z.ltb_ge; by apply HD|]. intros Hlt%Z.ltb_lt.
  assert (Hpos : 0 < zlen data).
  { pose proof (zlen_nonneg data). destruct (decide (zlen data = 0)) as [H0|]; [by apply zlen_0 in H0|lia]. }
  destruct (append_Ret (packet_queue s) b) as (q & Hq & Hqwf & Hqe & Hqb).
  { apply Hlo. } { split; [done|lia]. } { apply Hlo. } { lia. }
  apply wp_bind. eapply wp_lift; [done|]. unfold put_sock. apply wp_modify.
  apply wp_bind. eapply wp_mono; [eapply (wp_flush_incoming p s e q); try done|].
  { right. by split_and!. }
  intros fr w' [Hi Hfr]. apply wp_ret. split; [done|]. exists q, fr. rewrite Hqb, Hch. split_and!; try done.
  intros ->. inversion Hfr. congruence.
Qed.

End flow.

(** C2: flow control of a local socket.  As long as the queue does not outgrow
    the address space, enqueueing returns.  What the peer enqueues is written in
    order after what was already queued: the bytes the descriptor has received
    followed by the bytes still queued are always those of before followed by
    the data.  It returns 1 exactly when bytes remain, and then waits for
    FDE_WRITE; it returns 0 when everything went out or the descriptor failed. *)
Theorem local_socket_enqueue_correct p s data w :
  inv w → sockets w !! p = Some s → kind_of s = Some KLocal → closing s = false →
  peer s ≠ None → (∀ q sq, peer s = Some q → sockets w !! q = Some sq → kind_of sq ≠ Some KSmart) →
  data ≠ [] → chain_length_ (packet_queue s) + zlen data < 2 ^ 64 →
  ∃ r w' s' e' wrote, local_socket_enqueue p data w = Ret (r, w') ∧ inv w' ∧
    sockets w' !! p = Some s' ∧ fde s' = Some e' ∧
    bytes_of (packet_queue s) ++ data = wrote ++ bytes_of (packet_queue s') ∧
    sent_to w' (fd s) = sent_to w (fd s) ++ wrote ∧
    (r = 1 ∨ r = 0) ∧
    (r = 1 → bytes_of (packet_queue s') ≠ [] ∧ fde_write e' = true) ∧
    (r = 0 → fde_write e' = false ∧ (bytes_of (packet_queue s') = [] ∨ has_write_error s' = true)).
Proof.
  intros Hinv Hp Hk Hc Hpe Hns Hd Hroom.
  assert (Hl : is_local s = true) by (apply kind_local; by left).
  destruct (local_sock_ok s (iv_sock ∅ w Hinv p s Hp) Hl) as [e Hlo].
  pose proof (wp_local_enqueue (D := λ _, False) p s e data w Hinv Hp Hk Hc (lo_fde s e Hlo) Hpe Hns Hd ltac:(lia)) as Hwp.
  unfold wpD in Hwp. destruct (local_socket_enqueue p data w) as [[r w']|]; [|done].
  destruct Hwp as (Hi & q & fr & Hqb & Hqwf & Hfr & Hnd & ->). rewrite <-Hqb.
  destruct Hfr as [q' wrote error w' Hf Hcl Hfr|q' wrote m Hf [Hw _]|q' wrote error m Hf Hcl [Hw _]]; [done| |];
    eexists _, _, _, _, wrote; (split; [done|]); (split; [done|]); (split; [unfold flow_state; cbn; apply lookup_insert_eq|]);
    (split; [done|]); cbn [packet_queue set_fde set_has_write_error set_packet_queue has_write_error].
  - split_and!; try done; auto; [by destruct Hf; subst|by destruct Hf; subst].
  - split_and!; try done; auto.
    + destruct Hf; subst; try discriminate; by rewrite ?app_nil_r.
    + intros _. split; [done|]. destruct Hf; subst; try discriminate; try (by left).
      right. by rewrite orb_true_r.
Qed.
