(* ===== verification/SocketsSafe.v ===== *)
(** * No handler of the socket heap touches freed memory
    (src/src/sockets.cpp)

    The dispatches of Sockets.v keep the invariant of SocketsInv.v.  The smart
    socket is known here by the promise [smart_ok] that SmartSafe.v shows it keeps. *)

From Stdlib Require Import ZArith Lia List Ascii String.
From stdpp Require Import base numbers list strings gmap.
From S2P Require Import Prelude.
From S2P Require Import Libc.
From S2P Require Import AdbIo.
From S2P Require Import Wire.
From S2P Require Import IOVector.
From S2P Require Import Packet.
From S2P Require Import Connection.
From S2P Require Import Transport.
From S2P Require Import World.
From S2P Require Import Sockets.
From S2P Require Import SocketsInv.
From S2P Require Import SocketsFlow.

(** ** Frames *)

(** A socket that is still there, with the same place in the heap. *)
Definition same_place (s s' : asocket) : Prop :=
  same_role s s' ∧ peer s' = peer s ∧ transport s' = transport s.
Definition shape_kept (w w' : world) : Prop :=
  (∀ p s, sockets w !! p = Some s → ∃ s', sockets w' !! p = Some s' ∧ same_place s s') ∧
  transports_grow w w' ∧ transport_list w' = transport_list w ∧
  local_socket_list w' = local_socket_list w.

Lemma same_place_refl s : same_place s s.
Proof. by repeat split. Qed.

Lemma shape_refl w : shape_kept w w.
Proof. split_and!; eauto using grow_refl, same_place_refl. Qed.

Lemma shape_upd w p s s' m :
  sockets w !! p = Some s → same_place s s' →
  shape_kept w (set_sockets (<[p := s']> (sockets w)) (set_wrs m w)).
Proof.
  intros Hp Hs. split_and!; try done; [|by apply grow_eq]. intros q sq Hq. cbn.
  destruct (decide (q = p)) as [->|Hne].
  - rewrite lookup_insert_eq. rewrite Hp in Hq. injection Hq as <-. by eexists.
  - rewrite lookup_insert_ne by done. eauto using same_place_refl.
Qed.

Lemma shape_send w w' : send_frame w w' → shape_kept w w'.
Proof. intros []. split_and!; try done. intros q sq Hq. rewrite sf_sockets. eauto using same_place_refl. Qed.

Lemma set_wrs_id w : set_wrs (wrs w) w = w.
Proof. by destruct w. Qed.

Lemma shape_local w w' p s :
  shape_kept w w' → sockets w !! p = Some s → is_local s = true →
  ∃ s', sockets w' !! p = Some s' ∧ is_local s' = true ∧ closing s' = closing s ∧ peer s' = peer s ∧ transport s' = transport s.
Proof.
  intros (Hs & _) Hp Hl. destruct (Hs p s Hp) as (s' & Hp' & (Hl' & Hc & _) & ? & ?).
  exists s'. split_and!; try done. congruence.
Qed.

(** ** fdevents *)

(** Asking for reads, or no longer, is of no consequence to the invariant. *)
Lemma inv_fde_read p s e b w :
  inv w → sockets w !! p = Some s → fde s = Some e →
  inv (set_sockets (<[p := set_fde (Some (mkFde b (fde_write e) (force_eof e))) s]> (sockets w)) w).
Proof.
  intros Hinv Hp He. pose proof (iv_sock ∅ w Hinv p s Hp) as Hok.
  eapply inv_upd; [done|done|by repeat split|..].
  - destruct Hok as [Hx Hk]. split; [done|]. change (kind_of (set_fde _ s)) with (kind_of s).
    destruct (kind_of s) as [[]|]; try done; try (destruct Hk as [? _]; congruence);
      destruct Hk as [e0 []]; assert (e0 = e) as -> by congruence; eexists; constructor; done.
  - intros _. split; [exact (iv_settled ∅ w Hinv p s Hp ltac:(set_solver))|]. done.
  - intros t Hc Ht. by apply (iv_transport ∅ w Hinv p s).
Qed.

Lemma wp_fde_read b p s w (f : fdevent → fdevent) :
  (∀ e, f e = mkFde b (fde_write e) (force_eof e)) →
  inv w → sockets w !! p = Some s → is_local s = true →
  wp (fdevent_update p f) (λ _ w', inv w' ∧ shape_kept w w') w.
Proof.
  intros Hf Hinv Hp Hl. destruct (local_sock_ok s (iv_sock ∅ w Hinv p s Hp) Hl) as [e Hlo].
  unfold fdevent_update, put_sock. wp_auto. eapply wp_deref; [apply Hlo|]. apply wp_modify.
  rewrite Hf. split; [apply inv_fde_read; [done..|apply Hlo]|].
  rewrite <-(set_wrs_id w) at 2. by apply (shape_upd w p s).
Qed.

(** ** What the smart socket promises *)

Definition ready_ok (rdy : ptr → M unit) : Prop :=
  ∀ p s w, inv w → sockets w !! p = Some s → wp (rdy p) (λ _ w', inv w' ∧ shape_kept w w') w.

(** A local socket's peer has been given data: unless it says -1, the local
    socket is still there. *)
Definition enqueue_post (w : world) (q : option ptr) (r : Z) (w' : world) : Prop :=
  inv w' ∧ (0 ≤ r → ∀ p s, q = Some p → sockets w !! p = Some s → is_local s = true →
    ∃ s', sockets w' !! p = Some s' ∧ is_local s' = true).

Definition smart_ok (smart : (ptr → M unit) → ptr → bytes → M Z) : Prop :=
  ∀ rdy p s data w, ready_ok rdy → inv w → sockets w !! p = Some s → kind_of s = Some KSmart →
    wp (smart rdy p data) (enqueue_post w (peer s)) w.

(** ** Finding a socket *)

(** What [find_local_socket] looks for. *)
Definition designates (w : world) (local_id peer_id : Z) (p : ptr) : Prop :=
  ∃ s, p ∈ local_socket_list w ∧ sockets w !! p = Some s ∧ s_id s = local_id ∧
    (peer_id = 0 ∨ ∃ q sq, peer s = Some q ∧ sockets w !! q = Some sq ∧ s_id sq = peer_id).

Lemma find_in_spec ps i j w :
  inv w → (∀ p, p ∈ ps → p ∈ local_socket_list w) →
  ∃ o, find_in ps i j w = Ret (o, w) ∧
    ∀ p, o = Some p ↔ p ∈ ps ∧ designates w i j p.
Proof.
  intros Hinv. induction ps as [|p ps IH]; intros Hps; simpl.
  { exists None. split; [done|]. intros p. split; [done|]. intros [H _]. by apply not_elem_of_nil in H. }
  destruct (proj1 (iv_list ∅ w Hinv p) (Hps p ltac:(by left))) as (s & Hs & Hl & Hc).
  destruct (IH ltac:(intros; apply Hps; by right)) as (o & Ho & Hspec). clear IH.
  unfold mbind, M_bind at 1, get_sock at 1. rewrite Hs.
  destruct (Z.eqb_spec (s_id s) i) as [Hi|Hi]; cbn [negb].
  2:{ exists o. split; [done|]. intros q. rewrite Hspec. split.
      - intros [? ?]. split; [by right|done].
      - rewrite elem_of_cons. intros [[->|Hin] Hd]; [|done]. destruct Hd as (s2 & _ & Hs2 & ? & _). congruence. }
  (* No other socket of the list has the id. *)
  assert (Huniq : ∀ q, designates w i j q → q = p).
  { intros q (sq & Hin & Hsq & Hq & _). destruct (proj1 (iv_list ∅ w Hinv q) Hin) as (s2 & Hs2 & Hl2 & _).
    apply (iv_ids ∅ w Hinv q s2 p s); try done. congruence. }
  destruct (Z.eqb_spec j 0) as [Hj|Hj].
  { exists (Some p). split; [done|]. intros q. split.
    - intros [= <-]. split; [by left|]. exists s. split_and!; auto. apply Hps. by left.
    - intros [_ Hd]. by rewrite (Huniq q Hd). }
  destruct (peer s) as [r|] eqn:Hr.
  - destruct (inv_peer_sym w p s r Hinv Hs Hr) as (_ & sr & Hsr & _).
    unfold mbind, M_bind, get_sock. rewrite Hsr. exists (if s_id sr =? j then Some p else None). split; [done|].
    intros q. destruct (Z.eqb_spec (s_id sr) j) as [Hrj|Hrj]; split; try done.
    + intros [= <-]. split; [by left|]. exists s. split_and!; eauto 10. apply Hps. by left.
    + intros [_ Hd]. by rewrite (Huniq q Hd).
    + intros [_ Hd]. pose proof (Huniq q Hd) as ->. destruct Hd as (s2 & _ & Hs2 & _ & [?|(r2 & sr2 & ? & ? & ?)]); congruence.
  - exists None. split; [done|]. intros q. split; [done|]. intros [_ Hd]. pose proof (Huniq q Hd) as ->.
    destruct Hd as (s2 & _ & Hs2 & _ & [?|(r2 & sr2 & ? & ? & ?)]); congruence.
Qed.

Lemma find_local_socket_Ret i j w :
  inv w → ∃ o, find_local_socket i j w = Ret (o, w) ∧ ∀ p, o = Some p ↔ designates w i j p.
Proof.
  intros Hinv. destruct (find_in_spec (local_socket_list w) i j w Hinv ltac:(done)) as (o & Ho & Hspec).
  exists o. split; [done|]. intros p. rewrite Hspec. split; [tauto|]. intros Hd. split; [|done]. by destruct Hd as (s & ? & _).
Qed.

(** [find_local_socket] returns the open local socket with the local id,
    and with a non-zero peer id only if its peer has that id; it returns null
    exactly when there is none.  The ids of open sockets being unique, stopping
    at the first match loses nothing. *)
Theorem find_local_socket_correct i j w :
  inv w → ∃ o, find_local_socket i j w = Ret (o, w) ∧ ∀ p, o = Some p ↔ designates w i j p.
Proof. apply find_local_socket_Ret. Qed.

(** ** Closing all the sockets of a transport *)

(** [p] or its peer uses the transport. *)
Definition bound_to (w : world) (t : Z) (p : ptr) : Prop :=
  ∃ s, sockets w !! p = Some s ∧
    (transport s = Some t ∨ ∃ q sq, peer s = Some q ∧ sockets w !! q = Some sq ∧ transport sq = Some t).

Lemma find_bound_spec ps t w :
  inv w → (∀ p, p ∈ ps → p ∈ local_socket_list w) →
  ∃ o, find_bound ps t w = Ret (o, w) ∧
    match o with Some p => p ∈ ps ∧ bound_to w t p | None => ∀ p, p ∈ ps → ¬ bound_to w t p end.
Proof.
  intros Hinv. induction ps as [|p ps IH]; intros Hps; simpl.
  { exists None. split; [done|]. intros p H. by apply not_elem_of_nil in H. }
  destruct (proj1 (iv_list ∅ w Hinv p) (Hps p ltac:(by left))) as (s & Hs & Hl & Hc).
  destruct (IH ltac:(intros; apply Hps; by right)) as (o & Ho & Hspec). clear IH.
  unfold mbind, M_bind at 1, get_sock at 1. rewrite Hs. case_bool_decide as Ht.
  { exists (Some p). split; [done|]. split; [by left|]. exists s. auto. }
  assert (Hnot : (∀ q sq, peer s = Some q → sockets w !! q = Some sq → transport sq ≠ Some t) →
    match o with Some p0 => p0 ∈ p :: ps ∧ bound_to w t p0 | None => ∀ p0, p0 ∈ p :: ps → ¬ bound_to w t p0 end).
  { intros Hq. destruct o as [p0|]; [destruct Hspec; split; [by right|done]|].
    intros p0. rewrite elem_of_cons. intros [->|Hin]; [|by apply Hspec].
    intros (s2 & Hs2 & [?|(q & sq & ? & ? & ?)]); [congruence|]. eapply Hq; [|done|done]. congruence. }
  destruct (peer s) as [q|] eqn:Hq.
  - destruct (inv_peer_sym w p s q Hinv Hs Hq) as (_ & sq & Hsq & _).
    unfold M_bind at 1, M_bind at 1, get_sock at 1. rewrite Hsq. cbn. case_bool_decide as Htq.
    + exists (Some p). split; [done|]. split; [by left|]. exists s. split; [done|]. right. by exists q, sq.
    + exists o. split; [done|]. apply Hnot. intros q2 sq2 [= <-] ?. congruence.
  - cbn. exists o. split; [done|]. by apply Hnot.
Qed.

Lemma without_length p l : p ∈ l → (length (without p l) < length l)%nat.
Proof.
  unfold without. induction l as [|x l IH]; intros Hin; [by apply not_elem_of_nil in Hin|].
  destruct (decide (x = p)) as [->|Hne].
  - rewrite filter_cons_False by naive_solver. simpl. pose proof (length_filter (λ x, x ≠ p) l). lia.
  - rewrite filter_cons_True by naive_solver. simpl. apply elem_of_cons in Hin as [?|Hin]; [congruence|]. specialize (IH Hin). lia.
Qed.

Lemma closed_shorter p o w w' :
  closed p o w w' → p ∈ local_socket_list w → (length (local_socket_list w') < length (local_socket_list w))%nat.
Proof.
  intros [_ Hl _ _] Hin. rewrite Hl. destruct o as [q|]; [|by apply without_length].
  destruct (decide (q = p)) as [->|Hne].
  - rewrite without_idem. by apply without_length.
  - assert (p ∈ without q (local_socket_list w)) as Hin2 by (apply elem_of_without; auto).
    apply without_length in Hin2. pose proof (length_filter (λ x, x ≠ q) (local_socket_list w)). unfold without in *. lia.
Qed.

Lemma wp_close_all_loop {D} fuel t w :
  inv w → (length (local_socket_list w) ≤ fuel)%nat →
  wpD D (close_all_loop fuel t) (λ _ w', inv w' ∧ transports_grow w w' ∧ transport_list w' = transport_list w ∧
    (∀ p, p ∈ local_socket_list w' → p ∈ local_socket_list w ∧ ¬ bound_to w' t p)) w.
Proof.
  revert w. induction fuel as [|fuel IH]; intros w Hinv Hf; cbn [close_all_loop]; wp_auto;
    destruct (find_bound_spec (local_socket_list w) t w Hinv ltac:(done)) as (o & Ho & Hspec);
    unfold wpD at 1; rewrite Ho; (destruct o as [p|]; [|apply wp_ret; eauto 10 using grow_refl]).
  - destruct Hspec as [Hin _]. destruct (local_socket_list w); [by apply not_elem_of_nil in Hin|simpl in Hf; lia].
  - destruct Hspec as [Hin (s & Hs & _)]. apply wp_bind. eapply wp_mono; [by apply wp_close|].
    intros _ w1 [Hi1 Hcl]. pose proof (closed_shorter p _ w w1 Hcl Hin).
    eapply wp_mono; [apply IH; [done|lia]|]. intros _ w2 (Hi2 & Hg & Hr & Hl).
    split_and!; [done|by eapply grow_trans; [apply Hcl|]|by rewrite Hr; apply Hcl|].
    intros q Hq. destruct (Hl q Hq) as [Hq1 Hb]. split; [|done].
    rewrite (cl_list _ _ _ _ Hcl) in Hq1. apply elem_of_without in Hq1 as [_ Hq1].
    destruct (peer s); [by apply elem_of_without in Hq1 as [_ ?]|done].
Qed.

Lemma wp_close_all {D} t w :
  inv w →
  wpD D (close_all_sockets t) (λ _ w', inv w' ∧ transports_grow w w' ∧ transport_list w' = transport_list w ∧
    (∀ p, p ∈ local_socket_list w' → p ∈ local_socket_list w ∧ ¬ bound_to w' t p)) w.
Proof. intros Hinv. unfold close_all_sockets. wp_auto. by apply wp_close_all_loop. Qed.

(** A socket that drains has no peer. *)
Lemma local_not_closing s q : sock_ok s → peer s = Some q → closing s = false.
Proof.
  intros Hok Hq. destruct (is_local s) eqn:Hl; [|by apply nonlocal_not_closing].
  destruct (local_sock_ok s Hok Hl) as [e He]. destruct (closing s) eqn:Hc; [|done].
  destruct (lo_closing s e He Hc) as (_ & ? & _). congruence.
Qed.

Lemma unused_after w t : inv w →
  (∀ p, p ∈ local_socket_list w → ¬ bound_to w t p) → unused w t.
Proof.
  intros Hi Hl p s Hp Hc Ht. destruct (is_local s) eqn:Hloc.
  - apply (Hl p (proj2 (iv_list ∅ w Hi p) ltac:(eauto))). exists s. auto.
  - pose proof (iv_settled ∅ w Hi p s Hp ltac:(set_solver)) as Hset. unfold settled in Hset.
    assert (is_Some (peer s)) as [q Hq].
    { unfold is_local in Hloc. destruct (kind_of s) as [[]|]; try done. }
    destruct (inv_peer_sym w p s q Hi Hp Hq) as (_ & sq & Hsq & Hpe & [Hkk _] & _).
    assert (Hlq : is_local sq = true).
    { apply kind_local. destruct Hkk as [Hk|Hk]; [|by left]. unfold is_local in Hloc. by rewrite Hk in Hloc. }
    apply (Hl q).
    + apply (iv_list ∅ w Hi). exists sq. split_and!; try done. eapply local_not_closing; [by apply (iv_sock ∅ w Hi q)|done].
    + exists sq. split; [done|]. right. eauto.
Qed.

(** C9: [close_all_sockets] terminates, however closing one socket rearranges
    the list under the loop: as many rounds as there are open sockets are
    enough.  No handler it runs touches freed memory, and afterwards no live
    socket that is not draining uses the transport. *)
Theorem close_all_sockets_correct t w :
  inv w → ∃ w', close_all_sockets t w = Ret (tt, w') ∧ inv w' ∧
    (∀ p, p ∈ local_socket_list w' → p ∈ local_socket_list w ∧ ¬ bound_to w' t p) ∧ unused w' t.
Proof.
  intros Hinv. pose proof (wp_close_all (D := λ _, False) t w Hinv) as Hwp. unfold wpD in Hwp.
  destruct (close_all_sockets t w) as [[[] w']|]; [|done]. exists w'. destruct Hwp as (Hi & _ & _ & Hl).
  split_and!; try done. apply unused_after; [done|]. intros p Hp. by apply Hl.
Qed.

Section safe.
Context (udev_problem : bytes) (smart : (ptr → M unit) → ptr → bytes → M Z) (Hsmart : smart_ok smart).

Lemma wp_peer_id p s w : inv w → sockets w !! p = Some s → is_Some (peer s) →
  ∀ Q : Z → world → Prop, (∀ i, Q i w) → wp (peer_id s) Q w.
Proof.
  intros Hinv Hp [q Hq] Q HQ. destruct (inv_peer_sym w p s q Hinv Hp Hq) as (_ & sq & Hsq & _).
  unfold peer_id. by wp_auto.
Qed.

(** Enqueueing on a socket that is not smart. *)
Lemma wp_enqueue_plain fuel q sq data w :
  inv w → sockets w !! q = Some sq → is_Some (peer sq) → kind_of sq ≠ Some KSmart →
  (∀ p sp, peer sq = Some p → sockets w !! p = Some sp → kind_of sp ≠ Some KSmart) → data ≠ [] →
  wp (enqueue_with udev_problem smart (S fuel) q data)
    (λ r w', enqueue_post w (peer sq) r w' ∧ (kind_of sq = Some KLocal → shape_kept w w')) w.
Proof.
  intros Hinv Hq [p Hpe] Hns Hps Hd. cbn [enqueue_with]. apply wp_bind. eapply wp_get_sock; [done|].
  destruct (inv_peer_sym w q sq p Hinv Hq Hpe) as (Hne & sp & Hsp & Hpq & [Hkk _] & _).
  pose proof (iv_sock ∅ w Hinv q sq Hq) as Hok. pose proof (iv_settled ∅ w Hinv q sq Hq ltac:(set_solver)) as Hset.
  destruct (kind_of sq) as [[]|] eqn:E; pose proof Hok as [_ Hk]; rewrite E in Hk; try done;
    pose proof (kind_fields sq _ E) as (-> & _).
  - assert (Hl : is_local sq = true) by (apply kind_local; by left).
    destruct (local_sock_ok sq Hok Hl) as [e Hlo].
    assert (Hc : closing sq = false).
    { destruct (closing sq) eqn:Hc; [|done]. destruct (lo_closing sq e Hlo Hc) as (_ & ? & _). congruence. }
    eapply wp_mono; [eapply (wp_local_enqueue q sq e data w); try done; [apply Hlo|congruence|unfold deliberate; auto]|].
    intros r w' (Hi & q' & fr & Hqb & Hqwf & Hfr & Hnd & Hr).
    assert (Hshape : shape_kept w w') by (destruct Hfr; [done|by apply (shape_upd w q sq)..]).
    split; [|done]. split; [done|]. intros _ p' s' Hp' Hs' Hl'.
    destruct (shape_local w w' p' s' Hshape Hs' Hl') as (s2 & ? & ? & _). eauto.
  - unfold settled in Hset. rewrite E in Hset. destruct Hset as [Hset _]. congruence.
  - destruct Hk as (_ & Hc & [t Ht] & _). unfold remote_socket_enqueue. wp_auto.
    eapply wp_peer_id; [done..|]. intros i. destruct (MAX_PAYLOAD <? zlen data).
    { apply wp_ret. split; [split; [done|lia]|done]. }
    wp_auto. eapply wp_mono; [apply wp_send_packet; [done|]|].
    { by apply (iv_transport ∅ w Hinv q sq). }
    intros _ w' [Hi Hfr]. apply wp_ret. split; [|done]. split; [done|].
    intros _ p' s' Hp' Hs' Hl'. exists s'. by rewrite (sf_sockets _ _ Hfr).
  - unfold device_tracker_enqueue. apply wp_bind.
    pose proof (wp_close_with (D := deliberate) 2 q sq w Hinv Hq) as Hcl. rewrite close_with_S in Hcl.
    unfold wpD at 1, mbind, M_bind, get_sock in Hcl. rewrite Hq in Hcl.
    rewrite (proj2 (proj2 (proj2 (kind_fields sq _ E)))) in Hcl.
    eapply wp_mono; [exact Hcl|]. intros _ w' [Hi _]. apply wp_ret.
    split; [|done]. split; [done|lia].
Qed.

(** ** Ready *)

Lemma wp_get_transports ts w Q :
  (∀ t, t ∈ ts → is_Some (transports w !! t)) → (∀ l, Q l w) → wp (get_transports ts) Q w.
Proof.
  revert Q. induction ts as [|t ts IH]; intros Q Hts HQ; simpl; [by apply wp_ret|].
  destruct (Hts t) as [a Ha]; [by left|]. apply wp_bind. eapply wp_get_transport; [done|].
  apply wp_bind, IH; [intros; apply Hts; by right|]. intros l. by apply wp_ret.
Qed.

Lemma tracker_data_ne str : take 4 (print_hex_pad 4 (u32 (zlen str))) ++ str ≠ [].
Proof.
  intros [H _]%app_eq_nil. pose proof (u32_range (zlen str)).
  assert (Hn : numeral 16 (u32 (zlen str)) ≠ []).
  { pose proof (numeral_starts 16 ltac:(lia) (u32 (zlen str)) ltac:(lia)) as Hs. by destruct (numeral _ _). }
  unfold print_hex_pad, print_hex in H.
  destruct (replicate _ _ ++ numeral 16 (u32 (zlen str))) eqn:E; [by apply app_eq_nil in E as [_ ?]|done].
Qed.

(** [device_tracker_send]: the tracker's peer is a local socket. *)
Lemma wp_tracker_send fuel p s str w :
  inv w → sockets w !! p = Some s → kind_of s = Some KTracker →
  wp (device_tracker_send (enqueue_with udev_problem smart (S fuel)) p str)
    (λ _ w', inv w' ∧ shape_kept w w') w.
Proof.
  intros Hinv Hp Hk. unfold device_tracker_send. wp_auto.
  pose proof (iv_settled ∅ w Hinv p s Hp ltac:(set_solver)) as Hset. unfold settled in Hset.
  rewrite Hk in Hset. destruct Hset as [q Hq].
  destruct (inv_peer_sym w p s q Hinv Hp Hq) as (Hne & sq & Hsq & Hpq & [Hkk _] & _).
  assert (Hkq : kind_of sq = Some KLocal) by naive_solver congruence.
  eapply wp_deref; [done|].
  eapply wp_mono; [eapply (wp_enqueue_plain fuel q sq); try done|].
  - congruence.
  - intros p' sp' Hp' Hsp'. rewrite Hpq in Hp'. injection Hp' as <-. congruence.
  - apply tracker_data_ne.
  - cbn. intros r w' [[Hi _] Hs]. auto.
Qed.

Lemma lookup_tracker_some l p : p ∈ fst <$> l → ∃ t, lookup_tracker l p = Some t.
Proof.
  induction l as [|[q t] l IH]; cbn; intros Hl; [by apply not_elem_of_nil in Hl|].
  destruct (decide (q = p)); [by eexists|]. apply IH. set_solver.
Qed.

Lemma wp_set_tracker p t w Q :
  (∀ l, fst <$> l = fst <$> device_trackers w → Q tt (set_device_trackers l w)) → wp (set_tracker p t) Q w.
Proof.
  intros HQ. unfold set_tracker. apply wp_modify, HQ. rewrite <-list_fmap_compose.
  apply list_fmap_ext. intros i [q u] _. cbn. by destruct (decide (q = p)); subst.
Qed.

Lemma wp_ready fuel : ready_ok (ready_with udev_problem (enqueue_with udev_problem smart (S fuel))).
Proof.
  intros p s w Hinv Hp. unfold ready_with. apply wp_bind. eapply wp_get_sock; [done|].
  pose proof (iv_sock ∅ w Hinv p s Hp) as Hok. pose proof (iv_settled ∅ w Hinv p s Hp ltac:(set_solver)) as Hset.
  unfold settled in Hset. destruct Hok as [Hx Hk].
  destruct (kind_of s) as [[]|] eqn:E; try done; pose proof (kind_fields s _ E) as (_ & -> & _).
  - apply (wp_fde_read true p s); try done. apply kind_local. by left.
  - unfold local_socket_ready_notify. wp_auto. eapply wp_get_sock; [cbn; apply lookup_insert_eq|]. wp_auto.
    apply wp_send_okay. intros _ m. destruct Hk as [e He]. destruct Hset as [Hpe Hps].
    assert (Hl : is_local s = true) by (apply kind_local; by right).
    destruct (make_regular_ok s e He Hl) as [He' Hk'].
    assert (Hinv' : inv (set_sockets (<[p := make_regular s]> (sockets w)) w)).
    { eapply inv_upd; [done|done|..].
      - repeat split; try done; [by rewrite (proj2 (kind_local _)), Hl by auto|by rewrite Hk'|by rewrite E].
      - split; [done|]. rewrite Hk'. by eexists.
      - intros _. unfold settled. rewrite Hk'. split_and!; [done|done|]. intros q sq Hq. congruence.
      - intros t Hc Ht. by apply (iv_transport ∅ w Hinv p s). }
    apply (inv_wrs _ _ m) in Hinv'.
    eapply wp_mono; [eapply (wp_fde_read true p (make_regular s)); [done|done|cbn; apply lookup_insert_eq|]|].
    + apply kind_local. by left.
    + intros _ w' [Hi (Hs & Hg & Hr & Hll)]. split; [done|]. cbn in *. split_and!; try done.
      intros q sq Hq. destruct (decide (q = p)) as [->|Hne].
      * rewrite Hp in Hq. injection Hq as <-. destruct (Hs p (make_regular s)) as (s' & ? & (H1 & H2 & H3 & H4 & H5) & H6 & H7).
        { cbn. apply lookup_insert_eq. }
        exists s'. split; [done|]. split; [|done]. split_and!; try done.
        -- rewrite H1. by rewrite (proj2 (kind_local _)), Hl by auto.
        -- rewrite H5, Hk', E. split; congruence.
      * apply Hs. cbn. by rewrite lookup_insert_ne.
  - destruct Hk as (_ & Hc & [t Ht] & _). unfold remote_socket_ready. wp_auto.
    eapply wp_peer_id; [done..|]. intros i. wp_auto.
    eapply wp_mono; [apply wp_send_packet; [done|]|]; [by apply (iv_transport ∅ w Hinv p s)|].
    cbn. intros _ w' [Hi Hfr]. split; [done|by apply shape_send].
  - by apply wp_ret; auto using shape_refl.
  - unfold device_tracker_ready. apply wp_bind.
    destruct (lookup_tracker_some (device_trackers w) p) as [t Ht].
    { apply (iv_trackers ∅ w Hinv). eauto. }
    unfold wpD at 1, get_tracker. rewrite Ht. destruct (update_needed t); [|apply wp_ret; auto using shape_refl].
    apply wp_bind, wp_set_tracker. intros l Hl. wp_auto.
    assert (Hinv' : inv (set_device_trackers l w)).
    { destruct Hinv. constructor; cbn; try done. by rewrite Hl. }
    apply wp_get_transports. { intros u Hu. by apply (iv_registered ∅ w Hinv). }
    intros ts. apply wp_bind. eapply wp_mono; [apply (wp_tracker_send fuel p s); [done|done|done]|].
    intros _ w1 [Hi Hs]. split; [done|]. exact Hs.
Qed.

(** ** The dispatch of enqueue *)

Lemma wp_enqueue fuel q sq data w :
  inv w → sockets w !! q = Some sq → is_Some (peer sq) →
  (∀ p sp, peer sq = Some p → sockets w !! p = Some sp → kind_of sp ≠ Some KSmart) → data ≠ [] →
  wp (enqueue_with udev_problem smart (S (S fuel)) q data) (enqueue_post w (peer sq)) w.
Proof.
  intros Hinv Hq Hpe Hns Hd. destruct (decide (kind_of sq = Some KSmart)) as [Hk|Hk].
  - cbn [enqueue_with]. apply wp_bind. eapply wp_get_sock; [done|].
    rewrite (proj1 (kind_fields sq _ Hk)). by eapply Hsmart; [apply wp_ready|..].
  - eapply wp_mono; [by apply wp_enqueue_plain|]. by intros r w' [? _].
Qed.

(** ** Reading *)

(** A socket whose transport pointer, if any, is alive. *)
Definition transport_alive (w : world) (s : asocket) : Prop :=
  ∀ t, transport s = Some t → is_Some (transports w !! t).

Lemma wp_get_max_payload p s w Q :
  inv w → sockets w !! p = Some s → transport_alive w s → (∀ m, m ≤ MAX_PAYLOAD → Q m w) → wp (get_max_payload p) Q w.
Proof.
  intros Hinv Hp Ht HQ. unfold get_max_payload. wp_auto.
  eapply wp_mono with (P := λ m w', m ≤ MAX_PAYLOAD ∧ w' = w).
  { destruct (transport s) as [t|] eqn:Et; [|by apply wp_ret]. destruct (Ht t Et) as [a Ha].
    wp_auto. split; [lia|done]. }
  intros m w' [Hm ->]. destruct (peer s) as [q|] eqn:Hq; [|by apply wp_ret, HQ].
  destruct (inv_peer_sym w p s q Hinv Hp Hq) as (Hne & sq & Hsq & Hpq & _). wp_auto.
  destruct (transport sq) as [t|] eqn:Et; [|by apply wp_ret, HQ].
  assert (Hc : closing sq = false).
  { pose proof (iv_sock ∅ w Hinv q sq Hsq) as Hok. destruct (is_local sq) eqn:Hl; [|by apply nonlocal_not_closing].
    destruct (local_sock_ok sq Hok Hl) as [e Hlo]. destruct (closing sq) eqn:Hc; [|done].
    destruct (lo_closing sq e Hlo Hc) as (_ & ? & _). congruence. }
  destruct (iv_transport ∅ w Hinv q sq t Hsq Hc Et) as [a Ha]. wp_auto. apply HQ. lia.
Qed.

(** The loop reads whatever is available, as far as there is room. *)
Lemma wp_read_avail fuel n avail r data w Q :
  avail ≤ Z.of_nat fuel →
  (∀ r eof m, (∀ n', n' ≠ n → m !! n' = rds w !! n') →
     Q (data ++ take (Z.to_nat avail) (available (default [] (rds w !! n))), r, eof) (set_rds m w)) →
  wp (read_avail fuel n avail r data) Q w.
Proof.
  assert (Hstop : ∀ avail r data w (Q : bytes * Z * bool → world → Prop), avail ≤ 0 →
    (∀ r eof m, (∀ n', n' ≠ n → m !! n' = rds w !! n') →
     Q (data ++ take (Z.to_nat avail) (available (default [] (rds w !! n))), r, eof) (set_rds m w)) →
    wp (mret (data, r, false)) Q w).
  { intros av r' d w' Q' Hav HQ. apply wp_ret. specialize (HQ r' false (rds w')).
    replace (Z.to_nat av) with 0%nat in HQ by lia. rewrite take_0, app_nil_r in HQ. destruct w'. by apply HQ. }
  revert avail r data w. induction fuel as [|fuel IH]; intros avail r data w Hf HQ; simpl.
  - rewrite (proj2 (Z.ltb_ge 0 avail)) by lia. by apply (Hstop avail).
  - destruct (Z.ltb_spec 0 avail); [|by apply (Hstop avail)].
    apply wp_bind. unfold wpD at 1, read_fd.
    pose proof (adb_read_spec (default [] (rds w !! n)) avail H) as Hr.
    destruct (adb_read (default [] (rds w !! n)) avail) as [[d| |e] fd'].
    + destruct Hr as [Hd Ha]. apply IH; [lia|]. cbn. intros r' eof m Hoth.
      rewrite lookup_insert_eq. cbn [default from_option]. rewrite <-app_assoc.
      rewrite Ha in HQ. rewrite take_app in HQ. rewrite (take_ge d) in HQ by (unfold zlen in *; lia).
      replace (Z.to_nat avail - length d)%nat with (Z.to_nat (avail - zlen d)) in HQ by (unfold zlen in *; lia).
      apply (HQ r' eof m). intros n' Hn. rewrite Hoth by done. by apply lookup_insert_ne.
    + apply wp_ret. rewrite Hr, take_nil, app_nil_r in HQ. apply (HQ 0 true). intros. by apply lookup_insert_ne.
    + rewrite Hr, take_nil, app_nil_r in HQ.
      destruct e; apply wp_ret; (apply (HQ (-1)); intros; by apply lookup_insert_ne).
Qed.

(** ** Events of a local socket *)

Lemma same_shape_local w w' p s :
  shape_kept w w' → sockets w !! p = Some s → transport_alive w s → is_local s = true →
  ∃ s', sockets w' !! p = Some s' ∧ is_local s' = true ∧ transport_alive w' s'.
Proof.
  intros Hs Hp Ht Hl. destruct (shape_local w w' p s Hs Hp Hl) as (s' & ? & ? & _ & _ & Htr).
  exists s'. split_and!; try done. intros t Hst. destruct Hs as (_ & Hg & _).
  eapply grow_some; [done|]. apply Ht. congruence.
Qed.

Lemma wp_flush_outgoing p s w :
  inv w → sockets w !! p = Some s → is_local s = true → transport_alive w s →
  wp (local_socket_flush_outgoing udev_problem smart p) (λ _ w', inv w') w.
Proof.
  intros Hinv Hp Hl Ht. unfold local_socket_flush_outgoing. apply wp_bind. eapply wp_get_sock; [done|].
  apply wp_bind. eapply wp_get_max_payload; [done..|]. intros mx Hmx. apply wp_bind.
  apply wp_read_avail; [lia|]. intros r eof m _. cbn beta iota. rewrite app_nil_l.
  set (data := take _ _). apply (inv_rds _ _ m) in Hinv as Hinv1.
  apply wp_bind. eapply wp_get_sock; [exact Hp|].
  (* The end: force_eof or is_eof closes the socket. *)
  assert (Hend : ∀ (r : Z) w2 s2, inv w2 → sockets w2 !! p = Some s2 → is_local s2 = true →
    wp (s ← get_sock p; e ← deref_ptr (fde s);
        if (force_eof e && (r =? 0)) || eof then call_close p ;; mret false else mret true) (λ _ w', inv w') w2).
  { intros r2 w2 s2 Hi2 Hp2 Hl2. destruct (local_sock_ok s2 (iv_sock ∅ w2 Hi2 p s2 Hp2) Hl2) as [e2 He2].
    apply wp_bind. eapply wp_get_sock; [done|]. apply wp_bind. eapply wp_deref; [apply He2|].
    destruct ((force_eof e2 && (r2 =? 0)) || eof)%bool; [|by apply wp_ret].
    apply wp_bind. eapply wp_mono; [by apply wp_close|]. intros _ w3 [Hi3 _]. by apply wp_ret. }
  destruct (peer s) as [q|] eqn:Hq; [|apply wp_bind, wp_ret; by eapply Hend].
  destruct (bool_decide_reflect (data = [])) as [Hd|Hd]; [apply wp_bind, wp_ret; by eapply Hend|].
  destruct (inv_peer_sym w p s q Hinv Hp Hq) as (Hne & sq & Hsq & Hpq & _).
  apply wp_bind, wp_bind. eapply wp_mono.
  { eapply (wp_enqueue 0 q sq data (set_rds m w)); try done.
    intros p' sp' Hp' Hsp'. rewrite Hpq in Hp'. injection Hp' as <-. cbn in Hsp'. rewrite Hp in Hsp'. injection Hsp' as <-.
    apply kind_local in Hl. naive_solver congruence. }
  intros r2 w2 [Hi2 Hal]. destruct (Z.ltb_spec r2 0); [by apply wp_ret|].
  destruct (Hal ltac:(lia) p s Hpq Hp Hl) as (s2 & Hs2 & Hl2).
  apply wp_bind. destruct (0 <? r2).
  - eapply wp_mono; [by eapply (wp_fde_read false p s2)|]. intros _ w3 [Hi3 Hs3]. apply wp_ret.
    destruct (shape_local w2 w3 p s2 Hs3 Hs2 Hl2) as (s3 & Hp3 & Hl3 & _). by eapply Hend.
  - apply wp_ret, wp_ret. by eapply Hend.
Qed.

Lemma wp_event p s e w ev_read ev_write :
  inv w → sockets w !! p = Some s → is_local s = true → fde s = Some e →
  (ev_write = true → fde_write e = true) → (ev_read = true → transport_alive w s) →
  wp (local_socket_event_func udev_problem smart p ev_read ev_write) (λ _ w', inv w') w.
Proof.
  intros Hinv Hp Hl He Hw Hr. unfold local_socket_event_func.
  destruct (local_sock_ok s (iv_sock ∅ w Hinv p s Hp) Hl) as [e0 Hlo].
  assert (e0 = e) as -> by (destruct Hlo; congruence).
  assert (Hread : ∀ w2 s2, inv w2 → sockets w2 !! p = Some s2 → is_local s2 = true →
    (ev_read = true → transport_alive w2 s2) →
    wp (if ev_read then _ ← local_socket_flush_outgoing udev_problem smart p; mret tt else mret tt) (λ _ w', inv w') w2).
  { intros w2 s2 Hi2 Hp2 Hl2 Ht2. destruct ev_read; [|by apply wp_ret]. apply wp_bind.
    eapply wp_mono; [eapply wp_flush_outgoing; eauto|]. intros ? ? ?. by apply wp_ret. }
  apply wp_bind. destruct ev_write; [|apply wp_ret; by eapply Hread].
  apply wp_bind. specialize (Hw eq_refl).
  pose proof (wp_flush_incoming (D := deliberate) p s e (packet_queue s) w Hinv Hp Hl He (lo_iov _ _ Hlo) (lo_end _ _ Hlo) ltac:(by left)) as Hf.
  replace (set_packet_queue (packet_queue s) s) with s in Hf by (by destruct s).
  rewrite insert_id in Hf by done. replace (set_sockets (sockets w) w) with w in Hf by (by destruct w).
  assert (Halive : ∀ e' q' er m, transport_alive (flow_state p s e' q' er m w)
      (set_fde (Some e') (set_has_write_error (has_write_error s || er) (set_packet_queue q' s))) ↔ transport_alive w s) by done.
  eapply wp_mono; [exact Hf|]. intros r w' [Hi Hfr].
  destruct Hfr as [q' wrote error w' Hfl Hc Hcf|q' wrote m Hfl Hwr|q' wrote error m Hfl Hc Hwr].
  - by apply wp_ret.
  - apply wp_ret. eapply Hread; [done|unfold flow_state; cbn; apply lookup_insert_eq|done|]. intros Her. by apply Halive, Hr.
  - pose proof (lo_write _ _ Hlo Hw) as Hpend.
    pose proof (iv_settled ∅ w Hinv p s Hp ltac:(set_solver)) as Hset. unfold settled in Hset.
    assert (exists q, peer s = Some q) as [q Hq].
    { destruct (peer s) as [q|] eqn:Hq; [by eexists|]. apply kind_local in Hl as [Hk|Hk]; rewrite Hk in Hset.
      - by rewrite (Hset Hc eq_refl) in Hpend.
      - destruct Hset. congruence. }
    apply wp_bind. eapply wp_get_sock; [unfold flow_state; cbn; apply lookup_insert_eq|].
    apply wp_bind. eapply wp_deref; [exact Hq|]. apply wp_bind.
    destruct (inv_peer_sym _ p _ q Hi (lookup_insert_eq _ _ _) Hq) as (Hne & sq & Hsq & _).
    eapply wp_mono; [by apply (wp_ready 0 q sq)|]. intros _ w2 [Hi2 Hs2]. apply wp_ret.
    destruct (shape_local _ w2 p _ Hs2 (lookup_insert_eq _ _ _) Hl) as (s2 & Hp2 & Hl2 & _ & _ & Ht2).
    eapply Hread; [done|done|done|]. intros Her t Ht. destruct Hs2 as (_ & Hg & _).
    eapply grow_some; [done|]. apply (Hr Her). by rewrite Ht2 in Ht.
Qed.
End safe.
