(* ===== verification/HostRequest.v ===== *)
(** * Requests to the server
    (src/src/adb.cpp: handle_host_request; src/src/transport.cpp)

    The smart socket hands the requests that a client makes of the server itself
    to [handle_host_request]: it selects a transport, lists, kicks or describes
    transports, and passes what it does not know to the forward requests
    (Listeners.v).  What it asks of code that is not modelled is the interface
    [HostServices]. *)

From Stdlib Require Import ZArith Lia List Ascii String.
From stdpp Require Import base numbers list strings gmap.
From S2P Require Import Prelude.
From S2P Require Import Libc.
From S2P Require Import Strings.
From S2P Require Import AdbIo.
From S2P Require Import IOVector.
From S2P Require Import Packet.
From S2P Require Import Connection.
From S2P Require Import Transport.
From S2P Require Import SocketSpec.
From S2P Require Listeners.
From S2P Require Import World.
From S2P Require Import Sockets.

(** ** What the server asks of the rest *)

(** [state_info]: what a client waits for. *)
Record state_info := mkStateInfo {
  wait_type : TransportType; wait_serial : bytes; wait_id : Z; wait_state : ConnectionState
}.
(** The threads that serve a client: Services.v. *)
Inductive service := WaitForState (sinfo : state_info) | ConnectService (host : bytes).

Class HostServices := {
  (** What is wrong with the udev rules, if anything; [$ADB_VENDOR_KEYS];
      [should_use_libusb()]; [gListenAll]. *)
  udev_problem : bytes;
  vendor_keys : option bytes;
  should_use_libusb : bool;
  gListenAll : bool;
  (** The order an unordered set is iterated in. *)
  feature_order : FeatureSet → list bytes;
  (** What the kernel does when a socket is opened now. *)
  open_network : M Network;
  (** [local_connect]: a new emulator. *)
  local_connect : Z → M unit;
  (** One end of a socket pair; the other is served by a new thread. *)
  create_service_thread : service → M Z;
  (** The private keys in the order of their fingerprints, and the file with the
      public one; the signature of a token, if [RSA_sign] makes one. *)
  g_keys : M (list Z);
  adb_auth_get_userkey : M bytes;
  RSA_sign : Z → bytes → option bytes
}.

Definition ADB_SERVER_VERSION : Z := 40.
Definition DEFAULT_ADB_LOCAL_TRANSPORT_PORT : Z := 5555.

(** ** Transports *)

(** [transport_list] with the objects its pointers are of. *)
Fixpoint with_transports (ts : list Z) : M (list (Z * atransport)) :=
  match ts with
  | [] => mret []
  | t :: ts => a ← get_transport t; l ← with_transports ts; mret ((t, a) :: l)
  end.
Definition listed_transports : M (list (Z * atransport)) := ts ← gets transport_list; with_transports ts.

(** The predicate is a closure: [s] is what it has captured. *)
Fixpoint kick_where {S} (predicate : atransport → S → bool * S) (ts : list Z) (s : S) : M S :=
  match ts with
  | [] => mret s
  | t :: ts =>
      a ← get_transport t;
      let '(b, s) := predicate a s in
      (if (b : bool) then Kick t else mret tt) ;;
      kick_where predicate ts s
  end.
Definition close_usb_devices {S} (predicate : atransport → S → bool * S) (s : S) : M S :=
  ts ← gets transport_list; kick_where predicate ts s.

(** The reconnect handler, which both functions wake up, is in TransportReg.v. *)
Definition kick_all_tcp_devices : M unit :=
  ts ← gets transport_list; kick_where (λ a s, (IsTcpDevice a, s)) ts tt.
Definition kick_transport (t : Z) : M unit :=
  ts ← gets transport_list; if bool_decide (t ∈ ts) then Kick t else mret tt.

Fixpoint find_serial (sn : bytes) (l : list (Z * atransport)) : option Z :=
  match l with
  | [] => None
  | (t, a) :: l => if bool_decide (c_str sn = c_str (serial a)) then Some t else find_serial sn l
  end.
Definition find_transport (sn : bytes) : M (option Z) := l ← listed_transports; mret (find_serial sn l).

Section requests.
Context `{HostServices}.

(** The transport and the message. *)
Definition acquire (ty : TransportType) (sn : option bytes) (i : Z) (any : bool) : M (option (Z * atransport) * bytes) :=
  l ← listed_transports;
  r ← lift (acquire_one_transport snd vendor_keys udev_problem l ty sn i any);
  mret (aq_result r, aq_error r).

(** ** Replies *)

(** The results of the writes are not looked at. *)
Definition reply (n : Z) (f : wr_fd → outcome (bool * wr_fd)) : M unit := λ w,
  match f (default (mkWrFd [] []) (wrs w !! n)) with
  | Ret (_, fd') => Ret (tt, set_wrs (<[n := fd']> (wrs w)) w)
  | Abort why => Abort why
  end.
Definition reply_okay (n : Z) (s : bytes) : M unit := reply n SendOkay ;; reply n (λ fd, SendProtocolString fd s).
Definition reply_fail (n : Z) (s : bytes) : M unit := reply n (λ fd, SendFail fd s).

(** ** Requests *)

(** [transport_acquirer] is only called by a request that needs a transport. *)
Definition acquirer (ty : TransportType) (sn : option bytes) (i : Z) (w : world) : outcome (option Z * bytes) :=
  match acquire ty sn i false w with Ret (r, _) => Ret (fst <$> r.1, r.2) | Abort why => Abort why end.

Definition forward_with (net : Network) (service : bytes) (ty : TransportType) (sn : option bytes) (i n : Z) : M bool := λ w,
  match Listeners.handle_forward_request gListenAll net service (acquirer ty sn i w)
          (default (mkWrFd [] []) (wrs w !! n)) (listener_view w) with
  | Ret (handled, fd', s) => Ret (handled, set_wrs (<[n := fd']> (wrs w)) (set_listener_view s w))
  | Abort why => Abort why
  end.
Definition forward_request (service : bytes) (ty : TransportType) (sn : option bytes) (i n : Z) : M bool :=
  net ← open_network; forward_with net service ty sn i n.

(** [transport-id:], [transport-usb], [transport-local], [transport-any],
    [transport:] and anything else that starts so: the type, serial and id the
    transport is acquired by, or [None] for an id that is not a number. *)
Definition transport_args (service : bytes) (sn : option bytes) (i : Z) : option (TransportType * option bytes * Z) :=
  if starts_with service $"transport-id:" then
    let '(v, rest, _) := strtoll 10 (drop 13 service) in
    if bool_decide (rest = []) then Some (kTransportAny, sn, u64 v) else None
  else if starts_with service $"transport-usb" then Some (kTransportUsb, sn, i)
  else if starts_with service $"transport-local" then Some (kTransportLocal, sn, i)
  else if starts_with service $"transport-any" then Some (kTransportAny, sn, i)
  else if starts_with service $"transport:" then Some (kTransportAny, Some (drop 10 service), i)
  else Some (kTransportAny, sn, i).

Definition select_transport (service : bytes) (sn : option bytes) (i n : Z) (p : ptr) : M bool :=
  match transport_args service sn i with
  | None => reply_fail n $"invalid transport id" ;; mret true
  | Some (ty, sn, i) =>
      '(t, error) ← acquire ty sn i false;
      match t with
      | Some (t, _) => upd_sock p (set_transport (Some t)) ;; reply n SendOkay ;; mret false
      | None => reply_fail n error ;; mret true
      end
  end.

(** The callback of [reconnect-offline] appends to the response. *)
Definition reconnecting (a : atransport) (response : bytes) : bool * bytes :=
  if negb (ConnectionStateIsOnline (GetConnectionState a))
  then (true, response ++ $"reconnecting " ++ serial_name a ++ [newline]) else (false, response).
Definition reconnect_offline (n : Z) : M bool :=
  response ← close_usb_devices reconnecting [];
  reply_okay n (take (length response - 1) response) ;;
  mret true.

(** The answer about one transport, or why there is none. *)
Definition describe (ty : TransportType) (sn : option bytes) (i n : Z) (what : atransport → bytes) : M bool :=
  '(t, error) ← acquire ty sn i false;
  (match t with Some (_, a) => reply_okay n (what a) | None => reply_fail n error end) ;;
  mret true.
Definition or_unknown (s : bytes) : bytes := if bool_decide (s = []) then $"unknown" else s.

Definition disconnect_request (address : bytes) (n : Z) : M bool :=
  if bool_decide (address = []) then
    kick_all_tcp_devices ;; reply_okay n $"disconnected everything" ;; mret true
  else
    r ← lift (ParseNetAddress address DEFAULT_ADB_LOCAL_TRANSPORT_PORT);
    match r with
    | inl error => reply_fail n ($"couldn't parse '" ++ address ++ $"': " ++ c_str (net_error_text address error)) ;; mret true
    | inr a =>
        t ← find_transport (na_canonical a);
        match t with
        | None => reply_fail n ($"no such device '" ++ c_str (na_canonical a) ++ $"'") ;; mret true
        | Some t => kick_transport t ;; reply_okay n ($"disconnected " ++ address) ;; mret true
        end
    end.

Definition reconnect_request (ty : TransportType) (sn : option bytes) (i n : Z) : M bool :=
  '(t, response) ← acquire ty sn i true;
  response ← (match t with
    | Some (t, _) =>
        kick_transport t ;;
        a ← get_transport t;
        mret ($"reconnecting " ++ serial_name a ++ $" [" ++ connection_state_name udev_problem a ++ $"]" ++ [newline])
    | None => mret response
    end);
  reply_okay n response ;;
  mret true.

Definition host_features : FeatureSet :=
  (if should_use_libusb then {[ kFeatureLibusb ]} else ∅) ∪ supported_features ∪ {[ kFeaturePushSync ]}.

(** [service], [serial] and the strings made of them are C strings. *)
Definition handle_host_request (service : bytes) (ty : TransportType) (sn : option bytes) (i n : Z) (p : ptr) : M bool :=
  if bool_decide (service = $"kill") then reply n SendOkay ;; fail "exit"
  else if starts_with service $"transport" then select_transport service sn i n p
  else if starts_with service $"devices" then
    let rest := drop 7 service in
    let long_listing := bool_decide (rest = $"-l") in
    (if long_listing || bool_decide (rest = []) then
       l ← listed_transports; reply_okay n (list_transports udev_problem (snd <$> l) long_listing)
     else mret tt) ;;
    mret true
  else if bool_decide (service = $"reconnect-offline") then reconnect_offline n
  else if bool_decide (service = $"features") then
    describe ty sn i n (λ a, FeatureSetToString (feature_order (features_ a)))
  else if bool_decide (service = $"host-features") then
    reply_okay n (FeatureSetToString (feature_order host_features)) ;; mret true
  else if starts_with service $"disconnect:" then disconnect_request (drop 11 service) n
  else if bool_decide (service = $"version") then reply_okay n (print_hex_pad 4 ADB_SERVER_VERSION) ;; mret true
  else if bool_decide (service = $"get-serialno") then describe ty sn i n (λ a, or_unknown (serial a))
  else if bool_decide (service = $"get-devpath") then describe ty sn i n (λ a, or_unknown (devpath a))
  else if bool_decide (service = $"get-state") then describe ty sn i n (connection_state_name udev_problem)
  else if starts_with service $"emulator:" then local_connect (atoi (drop 9 service)) ;; mret true
  else if bool_decide (service = $"reconnect") then reconnect_request ty sn i n
  else forward_request service ty sn i n.
End requests.
