(* ===== verification/Services.v ===== *)
(** * Services of the server
    (src/src/services.cpp)

    What the server itself serves to a client: the list of devices as it
    changes, waiting for a device, and connecting to one over the network.  The
    last two are threads at the other end of a socket pair: what they write to
    it is here too. *)

From Stdlib Require Import ZArith Lia List Ascii String.
From stdpp Require Import base numbers list strings gmap.
From S2P Require Import Prelude.
From S2P Require Import Libc.
From S2P Require Import Strings.
From S2P Require Import AdbIo.
From S2P Require Import IOVector.
From S2P Require Import Packet.
From S2P Require Import Connection.
From S2P Require Import Transport.
From S2P Require Import SocketSpec.
From S2P Require Listeners.
From S2P Require Import World.
From S2P Require Import Sockets.
From S2P Require Import HostRequest.

Section services.
Context `{HostServices}.

(** On the host only socket specifications are services of a device. *)
Definition service_to_fd (name : bytes) (transport : Z) : M Z :=
  if is_socket_spec name then
    net ← open_network;
    r ← lift (@socket_spec_connect net name);
    mret r.1
  else mret (-1).

(** [wait-for-<type>-<state>]. *)
Definition wait_for_type (name : bytes) : option (TransportType * bytes) :=
  if starts_with name $"local" then Some (kTransportLocal, drop 5 name)
  else if starts_with name $"usb" then Some (kTransportUsb, drop 3 name)
  else if starts_with name $"any" then Some (kTransportAny, drop 3 name)
  else None.
Definition wait_for_what (name : bytes) : option ConnectionState :=
  if bool_decide (name = $"-device") then Some kCsDevice
  else if bool_decide (name = $"-recovery") then Some kCsRecovery
  else if bool_decide (name = $"-sideload") then Some kCsSideload
  else if bool_decide (name = $"-bootloader") then Some kCsBootloader
  else if bool_decide (name = $"-any") then Some kCsAny
  else None.
Definition wait_for (name : bytes) (serial : option bytes) (transport_id : Z) : option state_info :=
  '(ty, name) ← wait_for_type name;
  state ← wait_for_what name;
  Some (mkStateInfo ty (default [] serial) transport_id state).

(** A socket for the service, or null. *)
Definition service_socket_for (what : service) : M (option ptr) :=
  n ← create_service_thread what; p ← create_local_socket n; mret (Some p).
(** Without a socket pair the server ends. *)
Lemma no_service_thread what w : create_service_thread what w = Ret (-1, w) → ∃ why, service_socket_for what w = Abort why.
Proof.
  intros Ht. unfold service_socket_for. rewrite (bind_run _ _ w w (-1)) by done. unfold create_local_socket.
  unfold new_sock, gets, modify, mbind, M_bind, mret, M_ret. cbv beta iota.
  match goal with |- context [install_local_socket ?p ?v] => destruct (install_local_socket p v) as [[u w']|why] end; by eexists.
Qed.

Definition host_service_to_socket (name : bytes) (serial : option bytes) (transport_id : Z) : M (option ptr) :=
  if bool_decide (name = $"track-devices") then p ← create_device_tracker false; mret (Some p)
  else if bool_decide (name = $"track-devices-l") then p ← create_device_tracker true; mret (Some p)
  else if starts_with name $"wait-for-" then
    match wait_for (drop 9 name) serial transport_id with
    | Some sinfo => service_socket_for (WaitForState sinfo)
    | None => mret None
    end
  else if starts_with name $"connect:" then service_socket_for (ConnectService (drop 8 name))
  else mret None.
End services.
