(* ===== verification/ServiceThreads.v ===== *)
(** * What the threads of the services do
    (src/src/services.cpp: wait_for_state, connect_service;
     src/src/transport_local.cpp: tcp_connect, connect_device,
     local_connect_arbitrary_ports)

    Each thread has one end of a socket pair, and writes one answer to it.  What
    it sees of the transports, round by round, and what the network and the
    registration of a transport do are given. *)

From Stdlib Require Import ZArith Lia List Ascii String.
From stdpp Require Import base numbers list strings gmap.
From S2P Require Import Prelude.
From S2P Require Import Libc.
From S2P Require Import Strings.
From S2P Require Import AdbIo.
From S2P Require Import Transport.
From S2P Require Import SocketSpec.
From S2P Require Import HostRequest.

(** ** Waiting for a device *)

(** What a [poll] of one second on the client says. *)
Inductive poll_rc := PollError | PollHangup | PollOther.

(** The list of transports in this round, and the [poll] after it. *)
Record round := mkRound { round_transports : list (Z * atransport); round_poll : poll_rc }.

Section wait.
Context (vendor_keys : option bytes) (udev_problem : bytes).

(** The loop ends with [true], and goes on after the given rounds with [false]. *)
Fixpoint wait_for_state (sinfo : state_info) (rounds : list round) (fd : wr_fd) : outcome (bool * wr_fd) :=
  match rounds with
  | [] => Ret (false, fd)
  | r :: rounds =>
      let serial := if bool_decide (wait_serial sinfo = []) then None else Some (wait_serial sinfo) in
      t ← acquire_one_transport snd vendor_keys udev_problem (round_transports r) (wait_type sinfo) serial (wait_id sinfo) false;
      let found := match aq_result t with
        | Some (_, a) => bool_decide (wait_state sinfo = kCsAny) || bool_decide (wait_state sinfo = GetConnectionState a)
        | None => false
        end in
      if found then '(_, fd) ← SendOkay fd; Ret (true, fd)
      else if negb (aq_ambiguous t) then
        match round_poll r with
        | PollError => '(_, fd) ← SendFail fd (aq_error t); Ret (true, fd)
        | PollHangup => Ret (true, fd)
        | PollOther => wait_for_state sinfo rounds fd
        end
      else '(_, fd) ← SendFail fd (aq_error t); Ret (true, fd)
  end.
End wait.

(** ** Connecting *)

Definition EPERM : Z := 1.
Definition EALREADY : Z := 114.

(** A descriptor, or a negative number with a message; the emulators that are
    known; and what [register_socket_transport] says: an error, if any. *)
Class Connector := {
  network_connect : bytes → Z → Z * bytes;
  network_loopback_client : Z → Z * bytes;
  ADBHOST : option bytes;
  emulator_on_adb_port : Z → bool;
  transport_with_serial : bytes → bool;
  register_transport_on : Z → bytes → Z → Z → option Z
}.

Section connect.
Context `{Connector}.

(** What a port that cannot be used leaves in [port]. *)
Definition port_left (address : bytes) : outcome Z :=
  r ← split_address address;
  Ret (match r with
       | inr (host, _, Some port_str) => if bool_decide (host = []) then DEFAULT_ADB_LOCAL_TRANSPORT_PORT else default DEFAULT_ADB_LOCAL_TRANSPORT_PORT (sscanf_d (c_str port_str))
       | _ => DEFAULT_ADB_LOCAL_TRANSPORT_PORT
       end).

(** The descriptor, the port, the serial number and the response, if one is set. *)
Definition tcp_connect (address : bytes) : outcome (Z * Z * bytes * option bytes) :=
  r ← ParseNetAddress address DEFAULT_ADB_LOCAL_TRANSPORT_PORT;
  match r with
  | inl e => port ← port_left address; Ret (-1, port, [], Some (net_error_text address e))
  | inr a =>
      let '(fd, error) := network_connect (c_str (na_host a)) (na_port a) in
      if fd =? -1 then Ret (-1, na_port a, na_canonical a, Some ($"unable to connect to " ++ na_canonical a ++ $": " ++ c_str error))
      else Ret (fd, na_port a, na_canonical a, None)
  end.

(** The response. *)
Definition connect_device (address : bytes) : outcome bytes :=
  if bool_decide (address = []) then Ret $"empty address"
  else
    '(fd, port, serial, _) ← tcp_connect address;
    Ret (match register_transport_on fd serial port 0 with
         | Some error =>
             if error =? EALREADY then $"already connected to " ++ serial
             else if error =? EPERM then $"failed to authenticate to " ++ serial
             else $"failed to connect to " ++ serial
         | None => $"connected to " ++ serial
         end).

Definition getEmulatorSerialString (console_port : Z) : bytes := $"emulator-" ++ print_dec console_port.

(** 0 or -1, and the message. *)
Definition local_connect_arbitrary_ports (console_port adb_port : Z) : Z * bytes :=
  if emulator_on_adb_port adb_port || transport_with_serial (getEmulatorSerialString console_port) then (-1, [])
  else
    let '(fd, error) := match ADBHOST with Some host => network_connect host adb_port | None => (-1, []) end in
    let '(fd, error) := if fd <? 0 then network_loopback_client adb_port else (fd, error) in
    if 0 <=? fd then
      match register_transport_on fd (getEmulatorSerialString console_port) adb_port 1 with
      | None => (0, error)
      | Some _ => (-1, error)
      end
    else (-1, error).

Definition connect_emulator (port_spec : bytes) : outcome bytes :=
  pieces ← Split port_spec $",";
  match pieces with
  | [console; adb] =>
      let console_port := s32 (strtol0 (c_str console)) in
      let adb_port := s32 (strtol0 (c_str adb)) in
      if (console_port <=? 0) || (adb_port <=? 0) then Ret ($"Invalid port numbers: " ++ port_spec)
      else if emulator_on_adb_port adb_port then Ret ($"Emulator already registered on port " ++ print_dec adb_port)
      else
        let '(r, error) := local_connect_arbitrary_ports console_port adb_port in
        let ports := print_dec console_port ++ $"," ++ print_dec adb_port in
        Ret (if r =? 0 then $"Connected to emulator on ports " ++ ports
             else $"Could not connect to emulator on ports " ++ ports ++ $": " ++ c_str error)
  | _ => Ret ($"unable to parse '" ++ port_spec ++ $"' as <console port>,<adb port>")
  end.

Definition connect_response (host : bytes) : outcome bytes :=
  if starts_with host $"emu:" then connect_emulator (drop 4 host) else connect_device host.
Definition connect_service (host : bytes) (fd : wr_fd) : outcome wr_fd :=
  response ← connect_response host;
  '(_, fd) ← SendProtocolString fd response;
  Ret fd.
End connect.

(** ** What a client that waits is told *)

Inductive verdict := Okay | Failed | Silent.

Section verdicts.
Context (vendor_keys : option bytes) (udev_problem : bytes) (sinfo : state_info).

Definition waits_for : want :=
  wanted (wait_type sinfo) (if bool_decide (wait_serial sinfo = []) then None else Some (wait_serial sinfo)) (wait_id sinfo).
(** The transport the client means is there in the state it waits for. *)
Definition arrived (ts : list (Z * atransport)) : bool :=
  match chosen snd waits_for ts with
  | Some (_, a) => bool_decide (inactive_error vendor_keys (connection_state_ a) = None) &&
      (bool_decide (wait_state sinfo = kCsAny) || bool_decide (wait_state sinfo = connection_state_ a))
  | None => false
  end.
(** It may mean more than one. *)
Definition ambiguous (ts : list (Z * atransport)) : bool :=
  negb (by_id waits_for) && bool_decide (2 ≤ length (designated snd waits_for ts))%nat.
Definition round_verdict (r : round) : option verdict :=
  if arrived (round_transports r) then Some Okay
  else if ambiguous (round_transports r) then Some Failed
  else match round_poll r with PollError => Some Failed | PollHangup => Some Silent | PollOther => None end.

(** C16: [wait_for_state] lasts until the first round with a verdict, and says
    what it is: OKAY when the one transport the client means is usable and in the
    state it waits for, a failure when it may mean several or the client cannot be
    polled, nothing when the client has gone.  Without one it goes on. *)
Theorem wait_for_state_correct rounds fd :
  Forall (λ r, Forall (λ t : Z * atransport, names_ok t.2) (round_transports r)) rounds →
  let result := wait_for_state vendor_keys udev_problem sinfo rounds fd in
  match head (omap round_verdict rounds) with
  | Some Okay => ∃ ok fd', SendOkay fd = Ret (ok, fd') ∧ result = Ret (true, fd')
  | Some Failed => ∃ error ok fd', SendFail fd error = Ret (ok, fd') ∧ result = Ret (true, fd')
  | Some Silent => result = Ret (true, fd)
  | None => result = Ret (false, fd)
  end.
Proof.
  induction 1 as [|r rounds Hr _ IH]; [done|]. cbn [omap list_omap wait_for_state].
  destruct (acquire_Ret snd vendor_keys udev_problem (round_transports r) (wait_type sinfo)
    (if bool_decide (wait_serial sinfo = []) then None else Some (wait_serial sinfo)) (wait_id sinfo) false Hr) as (t & -> & Hres & Ham & _).
  cbn [mbind outcome_bind]. fold waits_for in Hres, Ham.
  assert (Hfound : match aq_result t with
    | Some (_, a) => bool_decide (wait_state sinfo = kCsAny) || bool_decide (wait_state sinfo = GetConnectionState a)
    | None => false end = arrived (round_transports r)).
  { rewrite Hres. unfold arrived. destruct (chosen snd waits_for (round_transports r)) as [[u a]|]; [|done]. cbn. by destruct (bool_decide (inactive_error vendor_keys (connection_state_ a) = None)). }
  rewrite Hfound. assert (Hamb : aq_ambiguous t = ambiguous (round_transports r)) by exact Ham. rewrite Hamb.
  unfold round_verdict at 1. destruct (arrived (round_transports r)).
  { destruct (SendOkay_total fd) as (ok & fd' & Hs). exists ok, fd'. split; [done|]. by rewrite Hs. }
  assert (Hfail : ∃ error ok fd', SendFail fd error = Ret (ok, fd') ∧ ('(_, fd) ← SendFail fd (aq_error t); Ret (true, fd)) = Ret (true, fd')).
  { destruct (SendFail_total fd (aq_error t)) as (ok & fd' & Hs). exists (aq_error t), ok, fd'. by rewrite Hs. }
  destruct (ambiguous (round_transports r)); [done|]. cbn [negb]. by destruct (round_poll r).
Qed.
End verdicts.

Definition waiting_for_A : state_info := mkStateInfo kTransportAny $"A" 0 kCsDevice.
Definition transport_A (state : ConnectionState) : Z * atransport := (1, set_serial $"A" (atransport_new 1 state)).
(** The device is not there, is offline, and comes online. *)
Lemma wait_for_state_correct_witness :
  ∃ ok fd', SendOkay (mkWrFd [WrTake 9] []) = Ret (ok, fd') ∧
    wait_for_state None [] waiting_for_A [mkRound [] PollOther; mkRound [transport_A kCsOffline] PollOther; mkRound [transport_A kCsDevice] PollHangup]
      (mkWrFd [WrTake 9] []) = Ret (true, fd').
Proof.
  apply (wait_for_state_correct None [] waiting_for_A
    [mkRound [] PollOther; mkRound [transport_A kCsOffline] PollOther; mkRound [transport_A kCsDevice] PollHangup] (mkWrFd [WrTake 9] [])).
  repeat constructor; apply not_elem_of_nil.
Defined.

(** A device in another state and a client that cannot be polled: the failure
    says [success]. *)
Example wait_fails_with_success :
  wait_for_state None [] waiting_for_A [mkRound [transport_A kCsRecovery] PollError] (mkWrFd (replicate 3 (WrTake 99)) []) =
  (let '(_, fd) := default (false, mkWrFd [] []) (match SendFail (mkWrFd (replicate 3 (WrTake 99)) []) $"success" with Ret r => Some r | _ => None end) in Ret (true, fd)).
Proof. reflexivity. Qed.

(** [connect_device] goes on with the descriptor [tcp_connect] did not get, and
    its message is lost. *)
Example connect_device_unreachable :
  let net := {| network_connect := λ _ _, (-1, $"No route to host"); network_loopback_client := λ _, (-1, []);
                ADBHOST := None; emulator_on_adb_port := λ _, false; transport_with_serial := λ _, false;
                register_transport_on := λ fd _ _ _, if fd =? -1 then Some 110 else None |} in
  tcp_connect $"10.0.0.1" = Ret (-1, 5555, $"10.0.0.1:5555", Some $"unable to connect to 10.0.0.1:5555: No route to host") ∧
  connect_device $"10.0.0.1" = Ret $"failed to connect to 10.0.0.1:5555".
Proof. split; vm_compute; reflexivity. Qed.
