(* ===== verification/SmartSocket.v ===== *)
(** * Smart sockets: a client's request
    (src/src/sockets.cpp from unhex to connect_to_smartsocket)

    A client writes a length in four hexadecimal digits and a service name; the
    smart socket collects them, decides who serves the request, and connects
    the client's local socket to it.  Requests to the server itself are in
    HostRequest.v, the services in Services.v. *)

From Stdlib Require Import ZArith Lia List Ascii String.
From stdpp Require Import base numbers list strings gmap.
From S2P Require Import Prelude.
From S2P Require Import Libc.
From S2P Require Import AdbIo.
From S2P Require Import IOVector.
From S2P Require Import Packet.
From S2P Require Import Transport.
From S2P Require Import World.
From S2P Require Import Sockets.
From S2P Require Import HostRequest.
From S2P Require Import Services.

(** ** Parsing *)

(** One hexadecimal digit, by the cases of the [switch]. *)
Definition hex_digit (c : ascii) : option Z :=
  if isdigit c then Some (cval c - 48)
  else if in_range 97 102 c then Some (cval c - 97 + 10)
  else if in_range 65 70 c then Some (cval c - 65 + 10)
  else None.

Fixpoint unhex_from (s : bytes) (len : nat) (n : Z) : Z :=
  match len with
  | O => n
  | S len =>
      match s with
      | c :: s => match hex_digit c with
                  | Some d => unhex_from s len (u32 (Z.lor (Z.shiftl n 4) d))
                  | None => 0xffffffff
                  end
      | [] => 0xffffffff
      end
  end.
Definition unhex (s : bytes) (len : nat) : Z := unhex_from s len 0.

(** Pointers into the request are suffixes of it. *)
Fixpoint skip_digits (s : bytes) : bytes :=
  match s with c :: t => if isdigit c then skip_digits t else s | [] => [] end.

(** A port: digits that end with a colon. *)
Definition skip_port (colon_ptr : bytes) : bytes :=
  match colon_ptr with
  | _ :: d :: rest =>
      if isdigit d then
        match skip_digits (d :: rest) with
        | (c :: _) as serial_end => if char_eqb c ":" then serial_end else colon_ptr
        | [] => colon_ptr
        end
      else colon_ptr
  | _ => colon_ptr
  end.

Definition serial_prefixes : list bytes := [$"usb:"; $"product:"; $"model:"; $"device:"].

(** The suffix of [service] from the colon before the command on. *)
Definition skip_host_serial (service : bytes) : option bytes :=
  match list_find (λ prefix, prefix_of prefix service = true) serial_prefixes with
  | Some (_, prefix) => strchr (drop (length prefix) service) ":"
  | None =>
      let service := if starts_with service $"tcp:" || starts_with service $"udp:" then drop 4 service else service in
      let service := if char_eqb (default NUL (head service)) "[" then default service (strchr service "]") else service in
      match strchr service ":" with
      | None => None
      | Some colon_ptr => Some (skip_port colon_ptr)
      end
  end.

(** What the request asks for: [service] is null for a device service. *)
Record request := mkRequest {
  rq_service : option bytes; rq_type : TransportType; rq_serial : option bytes; rq_id : Z
}.

(** [None] is the [return -1] of a malformed transport id. *)
Definition parse_request (service : bytes) : option request :=
  if starts_with service $"host-serial:" then
    let service := drop 12 service in
    match skip_host_serial service with
    | Some serial_end =>
        Some (mkRequest (Some (drop 1 serial_end)) kTransportAny
                (Some (take (length service - length serial_end) service)) 0)
    | None => Some (mkRequest (Some service) kTransportAny None 0)
    end
  else if starts_with service $"host-transport-id:" then
    let '(transport_id, rest, _) := strtoll 10 (drop 18 service) in
    match rest with
    | c :: service => if char_eqb c ":" then Some (mkRequest (Some service) kTransportAny None (u64 transport_id)) else None
    | [] => None
    end
  else if starts_with service $"host-usb:" then Some (mkRequest (Some (drop 9 service)) kTransportUsb None 0)
  else if starts_with service $"host-local:" then Some (mkRequest (Some (drop 11 service)) kTransportLocal None 0)
  else if starts_with service $"host:" then Some (mkRequest (Some (drop 5 service)) kTransportAny None 0)
  else Some (mkRequest None kTransportAny None 0).

Example skip_host_serial_ex :
  skip_host_serial $"tcp:100.100.100.100:5555:shell" = Some $":shell" ∧
  skip_host_serial $"[fe80::1]:5555:shell:5" = Some $":shell:5" ∧
  skip_host_serial $"usb:1-2:shell" = Some $":shell" ∧
  skip_host_serial $"emulator-5554:shell:5" = Some $":shell:5" ∧
  skip_host_serial $"localhost:5555" = Some $":5555".
Proof. split_and!; reflexivity. Qed.

(** ** smart_socket_enqueue *)

Section smart.
Context `{HostServices} (call_ready : ptr → M unit).

Definition smart_fail (p : ptr) : M Z := call_close p ;; mret (-1).

(** The descriptor of the client behind the smart socket. *)
Definition peer_fd (p : ptr) : M Z :=
  s ← get_sock p; q ← deref_ptr (peer s); sq ← get_sock q; mret (fd sq).

(** A request for the server. *)
Definition smart_host_service (p : ptr) (service : bytes) (rq : request) : M Z :=
  n ← peer_fd p;
  handled ← handle_host_request service (rq_type rq) (rq_serial rq) (rq_id rq) n p;
  if (handled : bool) then smart_fail p
  else if starts_with service $"transport" then upd_sock p (set_smart_socket_data []) ;; mret 0
  else
    s2 ← host_service_to_socket service (rq_serial rq) (rq_id rq);
    match s2 with
    | None => n ← peer_fd p; _ ← send_fail n $"unknown host service"; smart_fail p
    | Some s2 =>
        n ← peer_fd p;
        _ ← send_okay n;
        s ← get_sock p;
        q ← deref_ptr (peer s);
        upd_sock q make_regular ;;
        upd_sock q (set_peer (Some s2)) ;;
        upd_sock s2 (set_peer (Some q)) ;;
        upd_sock p (set_peer None) ;;
        call_close p ;;
        call_ready s2 ;;
        mret 0
    end.

(** A request for the device of the smart socket's transport. *)
Definition smart_device_service (p : ptr) (destination : bytes) : M Z :=
  s ← get_sock p;
  match transport s with
  | None => n ← peer_fd p; _ ← send_fail n $"device offline (no transport)"; smart_fail p
  | Some t =>
      a ← get_transport t;
      if negb (ConnectionStateIsOnline (connection_state_ a)) then
        n ← peer_fd p; _ ← send_fail n $"device offline (transport offline)"; smart_fail p
      else
        q ← deref_ptr (peer s);
        upd_sock q (λ s, set_ready local_socket_ready_notify_fn
                           (set_shutdown no_shutdown (set_close local_socket_close_notify_fn s))) ;;
        upd_sock q (set_peer None) ;;
        upd_sock q (set_transport (Some t)) ;;
        connect_to_remote q destination ;;
        upd_sock p (set_peer None) ;;
        call_close p ;;
        mret 1
  end.

Definition smart_socket_enqueue (p : ptr) (data : bytes) : M Z :=
  upd_sock p (λ s, set_smart_socket_data (smart_socket_data s ++ data) s) ;;
  s ← get_sock p;
  let d := smart_socket_data s in
  if zlen d <? 4 then mret 0
  else
    let len := unhex d 4 in
    if (len =? 0) || (MAX_PAYLOAD <? len) then smart_fail p
    else if zlen d <? u32 (len + 4) then mret 0
    else
      (** [smart_socket_data[len + 4] = 0] *)
      upd_sock p (λ s, set_smart_socket_data (<[Z.to_nat (len + 4) := NUL]> (smart_socket_data s)) s) ;;
      let service := c_str (slice d 4 len) in
      match parse_request service with
      | None => mret (-1)
      | Some rq =>
          match rq_service rq with
          | Some service => smart_host_service p service rq
          | None => smart_device_service p service
          end
      end.
End smart.
