(* ===== verification/Auth.v ===== *)
(** * Authentication on the host
    (src/src/client/auth.cpp, src/src/transport.cpp: NextKey)

    A device that does not know the host sends tokens until one comes back signed
    with a key it knows: the host signs each with the next of its private keys and
    after the last sends its public key, for the user to confirm on the device. *)

From Stdlib Require Import ZArith Lia List Ascii String.
From stdpp Require Import base numbers list strings gmap.
From S2P Require Import Prelude.
From S2P Require Import Libc.
From S2P Require Import Strings.
From S2P Require Import AdbIo.
From S2P Require Import IOVector.
From S2P Require Import Packet.
From S2P Require Import Connection.
From S2P Require Import Transport.
From S2P Require Import World.
From S2P Require Import HostRequest.

Definition TOKEN_SIZE : Z := 20.
Definition ADB_AUTH_TOKEN : Z := 1.
Definition ADB_AUTH_SIGNATURE : Z := 2.
Definition ADB_AUTH_RSAPUBLICKEY : Z := 3.

Section auth.
Context `{HostServices}.

(** The null pointer at the end: try the public key. *)
Definition adb_auth_get_private_keys : M (list (option Z)) :=
  keys ← g_keys; mret ((Some <$> keys) ++ [None]).

Definition NextKey (t : Z) : M (option Z) :=
  a ← get_transport t;
  keys ← (match keys_ a with [] => adb_auth_get_private_keys | keys => mret keys end);
  match keys with
  | [] => fail "keys_[0] of an empty deque"
  | key :: keys => upd_transport t (set_keys_ keys) ;; mret key
  end.

(** Returning a null pointer as a [std::string] ends the process. *)
Definition adb_auth_sign (key : Z) (token : bytes) : M bytes :=
  if negb (zlen token =? TOKEN_SIZE) then fail "basic_string: construction from null is not valid"
  else mret (default [] (RSA_sign key token)).

(** The terminator of the string goes out with it. *)
Definition send_auth_publickey (t : Z) : M unit :=
  key ← adb_auth_get_userkey;
  if bool_decide (key = []) then mret tt
  else if MAX_PAYLOAD_V1 <=? zlen key then mret tt
  else send_packet (make_packet A_AUTH ADB_AUTH_RSAPUBLICKEY 0 (key ++ [NUL])) t.

Definition send_auth_response (token : bytes) (t : Z) : M unit :=
  key ← NextKey t;
  match key with
  | None =>
      upd_transport t (SetConnectionState kCsUnauthorized) ;;
      upd_transport t (SetConnectionEstablished true) ;;
      send_auth_publickey t
  | Some key =>
      result ← adb_auth_sign key token;
      if bool_decide (result = []) then mret tt
      else send_packet (make_packet A_AUTH ADB_AUTH_SIGNATURE 0 result) t
  end.
End auth.

(** ** The public key file *)

(** [get_user_info]: [$HOSTNAME], [gethostname], [$LOGNAME] and [getlogin]. *)
Definition get_user_info (env_host host_name env_user login : option bytes) : bytes :=
  let hostname := default [] env_host in
  let hostname := if bool_decide (hostname = []) then default [] host_name else hostname in
  let hostname := if bool_decide (hostname = []) then $"unknown" else hostname in
  let username := default [] env_user in
  let username := if bool_decide (username = []) then default [] login else username in
  let hostname := if bool_decide (username = []) then $"unknown" else hostname in
  $" " ++ username ++ $"@" ++ hostname.

(** Without a user name it is the name of the host that is forgotten. *)
Example get_user_info_no_name : get_user_info (Some $"box") None None None = $" @unknown".
Proof. reflexivity. Qed.

(** [EVP_EncodedLength]: the size of a base64 text and its terminator, unless
    [size_t] is too small for it. *)
Definition EVP_EncodedLength (len : Z) : option Z :=
  if u64 (len + 2) <? len then None
  else
    let len := u64 (len + 2) / 3 in
    if negb (Z.shiftr (u64 (Z.shiftl len 2)) 2 =? len) then None
    else
      let len := u64 (Z.shiftl len 2) in
      if u64 (len + 1) <? len then None else Some (u64 (len + 1)).

(** It is the exact size, or there is none. *)
Lemma EVP_EncodedLength_exact len :
  0 ≤ len < 2 ^ 64 →
  EVP_EncodedLength len = if 4 * ((len + 2) / 3) + 1 <? 2 ^ 64 then Some (4 * ((len + 2) / 3) + 1) else None.
Proof.
  intros Hlen. assert (Hq : 3 * ((len + 2) / 3) ≤ len + 2 < 3 * ((len + 2) / 3) + 3) by (Z.div_mod_to_equations; lia).
  unfold EVP_EncodedLength, u64. rewrite Z.shiftl_mul_pow2, Z.shiftr_div_pow2 by lia. change (2 ^ 2) with 4.
  destruct (Z.ltb_spec (4 * ((len + 2) / 3) + 1) (2 ^ 64)) as [Hfit|Hbig].
  - rewrite (Z.mod_small (len + 2)) by lia. destruct (Z.ltb_spec (len + 2) len); [lia|].
    rewrite (Z.mod_small ((len + 2) / 3 * 4)) by lia. rewrite Z.div_mul, Z.eqb_refl by lia. cbn [negb].
    rewrite (Z.mod_small (_ + 1)) by lia. destruct (Z.ltb_spec ((len + 2) / 3 * 4 + 1) ((len + 2) / 3 * 4)); [lia|]. f_equal. lia.
  - destruct (Z.ltb_spec ((len + 2) mod 2 ^ 64) len) as [|Hover]; [done|].
    assert (len + 2 < 2 ^ 64).
    { destruct (Z.ltb_spec (len + 2) (2 ^ 64)) as [|Hge]; [done|]. rewrite <-(Z.mod_unique (len + 2) (2 ^ 64) 1 (len + 2 - 2 ^ 64)) in Hover; lia. }
    rewrite (Z.mod_small (len + 2)) by lia. set (q := (len + 2) / 3) in *.
    assert (2 ^ 64 ≤ q * 4) by lia.
    destruct (Z.eqb_spec (q * 4 mod 2 ^ 64 / 4) q) as [He|]; [|done].
    pose proof (Z.mod_pos_bound (q * 4) (2 ^ 64) ltac:(lia)) as Hb.
    set (r := (q * 4) mod 2 ^ 64) in *. clearbody r. pose proof (Z.mul_div_le r 4 ltac:(lia)). lia.
Qed.
