(* ===== verification/HandlePacket.v ===== *)
(** * Packets from a device
    (src/src/adb.cpp: handle_packet and what it calls)

    The state machine of the protocol on the host: what each command of a
    packet does to the transport and the sockets. *)

From Stdlib Require Import ZArith Lia List Ascii String.
From stdpp Require Import base numbers list strings gmap.
From S2P Require Import Prelude.
From S2P Require Import Libc.
From S2P Require Import AdbIo.
From S2P Require Import IOVector.
From S2P Require Import Packet.
From S2P Require Import Connection.
From S2P Require Import Transport.
From S2P Require Listeners.
From S2P Require Import SocketSpec.
From S2P Require Import World.
From S2P Require Import Sockets.
From S2P Require Import SocketsInv.
From S2P Require Import HostRequest.
From S2P Require Import Services.
From S2P Require Import SmartSocket.
From S2P Require Import Auth.

Section handle_packet.
Context `{HostServices}.

(** The dispatch with the smart socket of this server. *)
Definition enqueue_call : ptr → bytes → M Z := call_enqueue udev_problem (@smart_socket_enqueue _).
Definition ready_call : ptr → M unit := call_ready udev_problem (@smart_socket_enqueue _).
Definition event_func : ptr → bool → bool → M unit :=
  local_socket_event_func udev_problem (@smart_socket_enqueue _).

Definition send_ready (local remote t : Z) : M unit := send_packet (make_packet A_OKAY local remote []) t.
Definition send_close (local remote t : Z) : M unit := send_packet (make_packet A_CLSE local remote []) t.

Definition handle_online (t : Z) : M unit :=
  upd_transport t (set_online true) ;;
  upd_transport t (SetConnectionEstablished true).

(** [atransport::RunDisconnects]: the callbacks are [listener_disconnect]. *)
Definition RunDisconnects (t : Z) : M unit := on_listeners (λ s, s ← Listeners.RunDisconnects t s; Ret (tt, s)).

Definition handle_offline (t : Z) : M unit :=
  a ← get_transport t;
  if bool_decide (connection_state_ a = kCsOffline) then mret tt
  else
    upd_transport t (SetConnectionState kCsOffline) ;;
    upd_transport t (set_online false) ;;
    close_all_sockets t ;;
    RunDisconnects t.

Definition handle_new_connection (t : Z) (p : apacket) : M unit :=
  handle_offline t ;;
  upd_transport t (update_version (arg0 (msg p)) (arg1 (msg p))) ;;
  a ← get_transport t;
  a ← lift (parse_banner (payload p) a);
  put_transport t a ;;
  handle_online t ;;
  update_transports udev_problem (@smart_socket_enqueue _).

Definition create_local_service_socket (name : bytes) (t : Z) : M (option ptr) :=
  n ← service_to_fd name t;
  if n <? 0 then mret None else p ← create_local_socket n; mret (Some p).

Definition handle_auth (t : Z) (p : apacket) : M unit :=
  if arg0 (msg p) =? ADB_AUTH_TOKEN then
    upd_transport t (SetConnectionState kCsAuthorizing) ;;
    send_auth_response (payload p) t
  else
    upd_transport t (SetConnectionState kCsOffline) ;;
    handle_offline t.

(** [s->peer = create_remote_socket(id, t); s->peer->peer = s]. *)
Definition attach_remote (p i t : Z) : M Z :=
  q ← create_remote_socket i t;
  upd_sock p (set_peer (Some q)) ;;
  upd_sock q (set_peer (Some p)) ;;
  mret q.

Definition handle_open (t : Z) (p : apacket) : M unit :=
  a ← get_transport t;
  if online a && negb (arg0 (msg p) =? 0) && (arg1 (msg p) =? 0) then
    s ← create_local_service_socket (c_str (payload p)) t;
    match s with
    | None => send_close 0 (arg0 (msg p)) t
    | Some s =>
        q ← attach_remote s (arg0 (msg p)) t;
        ss ← get_sock s;
        sq ← get_sock q;
        send_ready (s_id ss) (s_id sq) t ;;
        ready_call s
    end
  else mret tt.

Definition handle_okay (t : Z) (p : apacket) : M unit :=
  a ← get_transport t;
  if online a && negb (arg0 (msg p) =? 0) && negb (arg1 (msg p) =? 0) then
    s ← find_local_socket (arg1 (msg p)) 0;
    match s with
    | Some s =>
        ss ← get_sock s;
        match peer ss with
        | None => attach_remote s (arg0 (msg p)) t ;; ready_call s
        | Some q =>
            sq ← get_sock q;
            if s_id sq =? arg0 (msg p) then ready_call s else mret tt
        end
    | None => send_close (arg1 (msg p)) (arg0 (msg p)) t
    end
  else mret tt.

Definition handle_clse (t : Z) (p : apacket) : M unit :=
  a ← get_transport t;
  if online a && negb (arg1 (msg p) =? 0) then
    s ← find_local_socket (arg1 (msg p)) (arg0 (msg p));
    match s with
    | Some s =>
        ss ← get_sock s;
        other ← (if arg0 (msg p) =? 0 then
                   match peer ss with
                   | Some q => sq ← get_sock q; mret (negb (bool_decide (transport sq = Some t)))
                   | None => mret false
                   end
                 else mret false);
        if (other : bool) then mret tt else call_close s
    | None => mret tt
    end
  else mret tt.

Definition handle_wrte (t : Z) (p : apacket) : M unit :=
  a ← get_transport t;
  if online a && negb (arg0 (msg p) =? 0) && negb (arg1 (msg p) =? 0) then
    s ← find_local_socket (arg1 (msg p)) (arg0 (msg p));
    match s with
    | Some s =>
        r ← enqueue_call s (payload p);
        if r =? 0 then ss ← get_sock s; send_ready (s_id ss) (arg0 (msg p)) t else mret tt
    | None => mret tt
    end
  else mret tt.

Definition handle_packet (p : apacket) (t : Z) : M unit :=
  check (zlen (payload p) =? data_length (msg p)) "p->payload.size() == p->msg.data_length" ;;
  let c := command (msg p) in
  if c =? A_CNXN then handle_new_connection t p
  else if c =? A_AUTH then handle_auth t p
  else if c =? A_OPEN then handle_open t p
  else if c =? A_OKAY then handle_okay t p
  else if c =? A_CLSE then handle_clse t p
  else if c =? A_WRTE then handle_wrte t p
  else mret tt.

(** ** The events of the main thread *)

(** The descriptor [ss_listener_event_func] has accepted. *)
Definition ss_listener_accept (n : Z) : M unit :=
  s ← create_local_socket n;
  connect_to_smartsocket udev_problem (@smart_socket_enqueue _) s.

(** The one [listener_event_func] has, on behalf of [l]. *)
Definition listener_accept (l : Listeners.alistener) (n : Z) : M unit :=
  s ← create_local_socket n;
  upd_sock s (set_transport (Listeners.l_transport l)) ;;
  connect_to_remote s (Listeners.connect_to l).

(** The function [install_listener] gave the fdevent; a rebinding never makes or
    unmakes a smart socket. *)
Definition listener_event (l : Listeners.alistener) (n : Z) : M unit :=
  if bool_decide (Listeners.connect_to l = Listeners.smartsocket) then ss_listener_accept n else listener_accept l n.

(** The listener of the server itself, as [adb_server_main] installs it. *)
Definition install_smartsocket (spec : bytes) : M unit :=
  net ← open_network;
  on_listeners (λ s, '(_, _, _, s) ← Listeners.install_listener gListenAll net spec Listeners.smartsocket None false s; Ret (tt, s)).
Definition close_smartsockets : M unit := on_listeners (λ s, s ← Listeners.close_smartsockets s; Ret (tt, s)).

(** [transport_registration_func]: an action of 0, and the list part of 1. *)
Definition delete_transport (t : Z) : M unit :=
  _ ← get_transport t;
  modify (λ w, set_transport_list (filter (λ u, u ≠ t) (transport_list w)) w) ;;
  modify (λ w, set_disconnects (delete t (disconnects w)) (set_transports (delete t (transports w)) w)) ;;
  update_transports udev_problem (@smart_socket_enqueue _).
Definition list_transport (t : Z) : M unit :=
  modify (λ w, set_transport_list (t :: transport_list w) w) ;;
  update_transports udev_problem (@smart_socket_enqueue _).

(** The last two are other threads and processes: what descriptors have to
    read or take, and the threads of a connection. *)
Inductive event :=
  | EvPacket (p : apacket) (t : Z)
  | EvSocket (p : ptr) (ev_read ev_write : bool)
  | EvAccept (l : Listeners.alistener) (n : Z)
  | EvListen (spec : bytes)
  | EvShutdown
  | EvError (t : Z)
  | EvDelete (t : Z)
  | EvNew (t : Z) (a : atransport)
  | EvList (t : Z)
  | EvFds (r : gmap Z rd_fd) (wr : gmap Z wr_fd)
  | EvConnection (t : Z) (c : BlockingConnectionAdapter).

Definition handle_event (ev : event) : M unit :=
  match ev with
  | EvPacket p t => handle_packet p t
  | EvSocket p r w => event_func p r w
  | EvAccept l n => listener_event l n
  | EvListen spec => install_smartsocket spec
  | EvShutdown => close_smartsockets
  | EvError t => handle_offline t
  | EvDelete t => delete_transport t
  | EvNew t a => put_transport t a
  | EvList t => list_transport t
  | EvFds r wr => modify (λ w, set_rds r (set_wrs wr w))
  | EvConnection t c => upd_transport t (set_connection_ (Some c))
  end.
End handle_packet.

(** The server as it starts. *)
Definition world_init : world :=
  mkWorld ∅ 0 1 [] [] ∅ [] [] ∅ ∅ ∅ [] ∅ 0.

(** What the reader and the header check have seen to, a payload where the chain
    of blocks insists on one, a banner that is a C string, as [qual_match] reads
    the names in it, and a token of the size that is signed. *)
Definition packet_ok (p : apacket) : Prop :=
  zlen (payload p) = data_length (msg p) ∧ (command (msg p) = A_WRTE → payload p ≠ []) ∧
  (command (msg p) = A_CNXN → nul_free (payload p)) ∧
  (command (msg p) = A_AUTH → arg0 (msg p) = ADB_AUTH_TOKEN → zlen (payload p) = TOKEN_SIZE).

(** What the callers of the handlers promise: packets and errors come from
    transports that exist; [poll] reports what it was asked for, and no hangup
    of a socket that only drains; an accepted descriptor is not yet polled; a
    transport is deleted when neither a socket nor a listener uses it. *)
Definition unreferenced (w : world) (t : Z) : Prop := ∀ l, l ∈ listeners w → Listeners.l_transport l ≠ Some t.
Definition event_ok (w : world) (ev : event) : Prop :=
  match ev with
  | EvPacket p t => is_Some (transports w !! t) ∧ packet_ok p
  | EvSocket p r wr => ∃ s e, sockets w !! p = Some s ∧ is_local s = true ∧ fde s = Some e ∧
      (wr = true → fde_write e = true) ∧ (r = true → closing s = false)
  | EvAccept l n => l ∈ listeners w ∧ 0 ≤ n ∧ n ∉ poll_fds w
  | EvListen _ => listeners w = []
  | EvShutdown => True
  | EvError t => is_Some (transports w !! t)
  | EvDelete t => is_Some (transports w !! t) ∧ unused w t ∧ unreferenced w t
  | EvNew t a => transports w !! t = None ∧ transport_ok a
  | EvList t | EvConnection t _ => is_Some (transports w !! t)
  | EvFds _ _ => True
  end.

(** The states the server can get into. *)
Inductive reachable `{HostServices} : world → Prop :=
  | reach_init : reachable world_init
  | reach_step w ev w' : reachable w → event_ok w ev →
      handle_event ev w = Ret (tt, w') → reachable w'.
