(* ===== verification/SocketsPair.v ===== *)
(** * New sockets and new pairs
    (src/src/sockets.cpp, adb.cpp)

    Creating a local socket, connecting a local socket to a remote one (on
    A_OPEN and A_OKAY) and making the pair ready all keep the invariant; two
    sockets that are being connected are outside it until they are settled. *)

From Stdlib Require Import ZArith Lia List Ascii String.
From stdpp Require Import base numbers list strings gmap relations.
From S2P Require Import Prelude.
From S2P Require Import Libc.
From S2P Require Import Strings.
From S2P Require Import AdbIo.
From S2P Require Import Wire.
From S2P Require Import IOVector.
From S2P Require Import Packet.
From S2P Require Import Connection.
From S2P Require Import Transport.
From S2P Require Import World.
From S2P Require Import Sockets.
From S2P Require Import SocketsInv.
From S2P Require Import SocketsFlow.
From S2P Require Import SocketsSafe.
From S2P Require Import SmartSocket.
From S2P Require Import HandlePacket.

(** ** New sockets and new pairs *)

Lemma inv_fresh X w : inv_ex X w → sockets w !! next_ptr w = None.
Proof.
  intros Hinv. destruct (sockets w !! next_ptr w) as [s|] eqn:E; [|done].
  pose proof (iv_ptr X w Hinv _ _ E). lia.
Qed.

Lemma not_in_new (X : gset Z) (p q : Z) : q ∉ {[p]} ∪ X → q ≠ p ∧ q ∉ X.
Proof. set_solver. Qed.
Lemma not_in_union (X : gset Z) (p q : Z) : q ∉ X → q ≠ p → q ∉ {[p]} ∪ X.
Proof. set_solver. Qed.

(** A new socket that is neither local nor a tracker, not connected yet. *)
Lemma inv_new X w s :
  inv_ex X w → sock_ok s → is_local s = false → kind_of s ≠ Some KTracker →
  transport_alive w s →
  inv_ex ({[next_ptr w]} ∪ X)
    (set_next_ptr (next_ptr w + 1) (set_sockets (<[next_ptr w := s]> (sockets w)) w)).
Proof.
  intros Hinv Hok Hl Hk Ht. pose proof (inv_fresh X w Hinv) as Hf. destruct Hinv. constructor; cbn; try done.
  - intros q sq. rewrite lookup_insert_Some. intros [[<- <-]|[_ Hq]]; [lia|]. specialize (iv_ptr q sq Hq). lia.
  - intros q sq. rewrite lookup_insert_Some. naive_solver.
  - intros q sq. rewrite lookup_insert_Some. intros [[<- <-]|[_ Hq]] [Hn1 Hn2]%not_in_new; [done|]. by apply (iv_settled q sq Hq).
  - intros q sq r. rewrite lookup_insert_Some. intros [[<- <-]|[Hne Hq]] [Hn1 Hn2]%not_in_new Hr; [done|].
    destruct (iv_peer q sq r Hq Hn2 Hr) as (Hnr & Hqr & sr & Hsr & ? & ?).
    assert (r ≠ next_ptr w) by congruence. split; [by apply not_in_union|]. split; [done|]. exists sr.
    by rewrite lookup_insert_ne.
  - intros q. rewrite iv_list. setoid_rewrite lookup_insert_Some. naive_solver congruence.
  - intros q. rewrite iv_closing. setoid_rewrite lookup_insert_Some. naive_solver congruence.
  - intros q sq. rewrite lookup_insert_Some. intros [[<- <-]|[_ Hq]] Hlq; [congruence|eauto].
  - intros q sq r sr. rewrite !lookup_insert_Some. intros [[<- <-]|[_ Hq]] [[<- <-]|[_ Hr]]; try congruence. eauto.
  - intros q sq. rewrite lookup_insert_Some. intros [[<- <-]|[_ Hq]] Hlq; [congruence|eauto].
  - intros q sq r sr. rewrite !lookup_insert_Some. intros [[<- <-]|[_ Hq]] [[<- <-]|[_ Hr]]; try congruence. eauto.
  - intros q sq t. rewrite lookup_insert_Some. intros [[<- <-]|[_ Hq]] Hc Htr; [by apply Ht|eauto].
  - split; [apply iv_trackers|]. intros q. rewrite (proj2 iv_trackers). setoid_rewrite lookup_insert_Some. naive_solver congruence.
  - intros q sq. rewrite lookup_insert_Some. intros [[<- <-]|[_ Hq]] Hlq; [congruence|eauto].
Qed.

Lemma not_in_pair (X : gset Z) (a b p : Z) : p ∉ X ∖ {[a; b]} → p ≠ a → p ≠ b → p ∉ X.
Proof. set_solver. Qed.
Lemma not_in_smaller (X Y : gset Z) (p : Z) : p ∉ X → p ∉ X ∖ Y.
Proof. set_solver. Qed.
Lemma pair_not_in (X : gset Z) (a b p : Z) : p = a ∨ p = b → p ∉ X ∖ {[a; b]}.
Proof. set_solver. Qed.
Lemma not_in_single (X : gset Z) (a p : Z) : p ∉ X ∖ {[a]} → p ≠ a → p ∉ X.
Proof. set_solver. Qed.

(** Two sockets that have been connected to each other. *)
Lemma inv_settle_pair X w a b sa sb :
  inv_ex X w → a ≠ b → sockets w !! a = Some sa → sockets w !! b = Some sb →
  peer sa = Some b → peer sb = Some a → settled sa → settled sb → peers_ok sa sb → peers_ok sb sa →
  inv_ex (X ∖ {[a; b]}) w.
Proof.
  intros [] Hab Ha Hb Hpa Hpb Hsa Hsb Hoa Hob. constructor; try done.
  - intros p s Hp Hn. destruct (decide (p = a)) as [->|]; [congruence|]. destruct (decide (p = b)) as [->|]; [congruence|].
    apply (iv_settled p s Hp). by eapply not_in_pair.
  - intros p s q Hp Hn Hq. destruct (decide (p = a)) as [->|Hpa'].
    { assert (s = sa) as -> by congruence. assert (q = b) as -> by congruence. split; [apply pair_not_in; by right|]. eauto. }
    destruct (decide (p = b)) as [->|Hpb'].
    { assert (s = sb) as -> by congruence. assert (q = a) as -> by congruence. split; [apply pair_not_in; by left|]. eauto. }
    destruct (iv_peer p s q Hp (not_in_pair X a b p Hn Hpa' Hpb') Hq) as (Hnq & ? & ?). split; [by apply not_in_smaller|]. done.
Qed.

Lemma inv_settle_one X w a sa :
  inv_ex X w → sockets w !! a = Some sa → peer sa = None → settled sa → inv_ex (X ∖ {[a]}) w.
Proof.
  intros [] Ha Hpa Hsa. constructor; try done.
  - intros p s Hp Hn. destruct (decide (p = a)) as [->|]; [congruence|].
    apply (iv_settled p s Hp). by eapply not_in_single.
  - intros p s q Hp Hn Hq. destruct (decide (p = a)) as [->|Hpa']; [congruence|].
    destruct (iv_peer p s q Hp (not_in_single X a p Hn Hpa') Hq) as (Hnq & ? & ?). split; [by apply not_in_smaller|]. done.
Qed.

(** A new local socket on a descriptor nobody polls. *)
Definition local_new (i n : Z) : asocket :=
  set_fde (Some (mkFde false false false)) (set_s_id i (set_fd n
    (asocket_new local_socket_enqueue_fn local_socket_ready_fn no_shutdown local_socket_close_fn))).

Lemma wp_create_local_socket n w Q :
  inv w → 0 ≤ n → n ∉ poll_fds w →
  (∀ w', inv w' → sockets w' = <[next_ptr w := local_new (local_socket_next_id w) n]> (sockets w) →
     transports w' = transports w → transport_list w' = transport_list w →
     local_socket_list w' = local_socket_list w ++ [next_ptr w] → Q (next_ptr w) w') →
  wp (create_local_socket n) Q w.
Proof.
  intros Hinv Hn Hfd HQ. pose proof (inv_fresh ∅ w Hinv) as Hf. pose proof (iv_next ∅ w Hinv) as Hnext.
  unfold create_local_socket, new_sock, install_local_socket, fdevent_create. wp_auto. cbn.
  eapply wp_upd_sock; [cbn; apply lookup_insert_eq|]. wp_auto. cbn.
  apply wp_check; [intros _; unfold deliberate; auto|]. intros Hid. wp_auto.
  apply wp_check; [intros H; apply Z.leb_gt in H; lia|]. intros _. wp_auto. cbn.
  apply wp_check; [rewrite bool_decide_eq_false_2 by done; done|]. intros _. wp_auto. cbn.
  eapply wp_upd_sock; [cbn; apply lookup_insert_eq|]. wp_auto.
  apply negb_true_iff, Z.eqb_neq in Hid.
  assert (Hid' : u32 (local_socket_next_id w + 1) = local_socket_next_id w + 1).
  { unfold u32 in *. destruct (decide (local_socket_next_id w + 1 < 2 ^ 32)); [apply Z.mod_small; lia|].
    exfalso. apply Hid. replace (local_socket_next_id w + 1) with (2 ^ 32) by lia. done. }
  rewrite Hid'. assert (Hle : local_socket_next_id w + 1 < 2 ^ 32).
  { destruct (decide (local_socket_next_id w + 1 < 2 ^ 32)); [done|].
    replace (local_socket_next_id w + 1) with (2 ^ 32) in Hid' by lia. done. }
  apply HQ; cbn; try done; [|by rewrite !insert_insert_eq].
  rewrite !insert_insert_eq. set (s := set_fde _ _).
  assert (Hl : is_local s = true) by done.
  destruct Hinv. constructor; cbn; try done.
  - intros q sq. rewrite lookup_insert_Some. intros [[<- <-]|[_ Hq]]; [lia|]. specialize (iv_ptr q sq Hq). lia.
  - intros q sq. rewrite lookup_insert_Some. intros [[<- <-]|[_ Hq]]; [|eauto].
    split; [done|]. exists (mkFde false false false). constructor; try done.
  - intros q sq. rewrite lookup_insert_Some. intros [[<- <-]|[_ Hq]] ?; [done|]. eauto.
  - intros q sq r. rewrite lookup_insert_Some. intros [[<- <-]|[Hne Hq]] ? Hr; [done|].
    destruct (iv_peer q sq r Hq) as (Hnr & Hqr & sr & Hsr & ? & ?); [done..|].
    assert (r ≠ next_ptr w) by congruence. split; [done|]. split; [done|]. exists sr. by rewrite lookup_insert_ne.
  - split; [|tauto]. apply NoDup_app. split; [tauto|]. split; [|apply NoDup_singleton].
    intros q Hq ->%list_elem_of_singleton. apply iv_list in Hq as (sq & ? & _). congruence.
  - intros q. rewrite elem_of_app, iv_list, list_elem_of_singleton. setoid_rewrite lookup_insert_Some. naive_solver congruence.
  - intros q. rewrite iv_closing. setoid_rewrite lookup_insert_Some. naive_solver congruence.
  - lia.
  - intros q sq. rewrite lookup_insert_Some. intros [[<- <-]|[_ Hq]] Hlq; [cbn; lia|]. specialize (iv_id q sq Hq Hlq). lia.
  - intros q sq r sr. rewrite !lookup_insert_Some. intros [[<- <-]|[_ Hq]] [[<- <-]|[_ Hr]] Hlq Hlr He; [done|..|eauto].
    + specialize (iv_id r sr Hr Hlr). cbn in He. lia.
    + specialize (iv_id q sq Hq Hlq). cbn in He. lia.
  - intros q sq. rewrite lookup_insert_Some. intros [[<- <-]|[_ Hq]] Hlq; [cbn; set_solver|].
    specialize (iv_fd q sq Hq Hlq). set_solver.
  - intros q sq r sr. rewrite !lookup_insert_Some. intros [[<- <-]|[_ Hq]] [[<- <-]|[_ Hr]] Hlq Hlr He; [done|..|eauto].
    + specialize (iv_fd r sr Hr Hlr). cbn in He. congruence.
    + specialize (iv_fd q sq Hq Hlq). cbn in He. congruence.
  - intros q sq t. rewrite lookup_insert_Some. intros [[<- <-]|[_ Hq]]; [done|eauto].
  - split; [tauto|]. intros q. rewrite (proj2 iv_trackers). setoid_rewrite lookup_insert_Some. naive_solver congruence.
  - apply (listeners_frame w); try done. intros l Hin. cbn. apply elem_of_union_r. by apply listeners_polled.
  - intros q sq. rewrite lookup_insert_Some. intros [[<- <-]|[_ Hq]] Hlq; [|eauto].
    intros (l & Hn' & Hin)%list_elem_of_fmap. apply Hfd. cbn in Hn'. rewrite Hn'. by apply listeners_polled.
Qed.

(** ** Connecting a local socket to a remote one *)

Lemma sock_ok_local s e : local_ok s e → is_local s = true → exit_on_close s = false → sock_ok s.
Proof. intros He Hl Hx. split; [done|]. apply kind_local in Hl as [-> | ->]; eauto. Qed.

Lemma local_ok_peer s e q : local_ok s e → closing s = false → local_ok (set_peer q s) e.
Proof. intros [] Hc. constructor; try done. intros Hc'. cbn in Hc'. congruence. Qed.

Definition remote_new (i t : Z) : asocket :=
  set_transport (Some t) (set_s_id i
    (asocket_new remote_socket_enqueue_fn remote_socket_ready_fn remote_socket_shutdown_fn remote_socket_close_fn)).

Lemma sock_ok_peer s o : sock_ok s → closing s = false → sock_ok (set_peer o s).
Proof.
  intros [Hx Hk] Hc. split; [done|]. change (kind_of (set_peer o s)) with (kind_of s).
  destruct (kind_of s) as [[]|]; try done; destruct Hk as [e He]; exists e; by apply local_ok_peer.
Qed.

(** Redirecting a socket that is not settled. *)
Lemma inv_set_peer X w p s o :
  inv_ex X w → p ∈ X → sockets w !! p = Some s → closing s = false →
  inv_ex X (set_sockets (<[p := set_peer o s]> (sockets w)) w).
Proof.
  intros Hinv HX Hp Hc. refine (inv_upd X w p s (set_peer o s) Hinv Hp _ _ _ _).
  - by repeat split.
  - apply sock_ok_peer; [by apply (iv_sock X w Hinv p)|done].
  - done.
  - intros t _ Ht. by apply (iv_transport X w Hinv p s).
Qed.

(** A new socket [r] and an open local socket [p] without a peer are connected. *)
Lemma inv_new_pair w p s r :
  inv w → sockets w !! p = Some s → closing s = false → peer s = None →
  sock_ok r → is_local r = false → kind_of r ≠ Some KTracker → transport_alive w r → peer r = None →
  let q := next_ptr w in
  p ≠ q ∧ inv_ex {[p; q]} (set_sockets (<[q := set_peer (Some p) r]> (<[p := set_peer (Some q) s]> (<[q := r]> (sockets w))))
    (set_next_ptr (q + 1) w)).
Proof.
  intros Hinv Hp Hc Hpe Hok Hl Hk Ht Hrp q. pose proof (inv_fresh ∅ w Hinv) as Hf.
  assert (Hne : p ≠ q) by (unfold q; congruence). split; [done|].
  pose proof (inv_new ∅ w r Hinv Hok Hl Hk Ht) as H1. fold q in H1, Hf.
  assert (H2 : inv_ex {[p; q]} (set_next_ptr (q + 1) (set_sockets (<[q := r]> (sockets w)) w))).
  { apply (inv_grow _ _ _ H1); [set_solver|]. intros a sa b. cbn. rewrite lookup_insert_Some.
    intros [[<- <-]|[Hqa Ha]] Hn Hb; [congruence|].
    destruct (inv_peer_sym w a sa b Hinv Ha Hb) as (_ & sb & Hsb & Hba & _).
    intros Hin. apply elem_of_union in Hin as [->%elem_of_singleton| ->%elem_of_singleton]; congruence. }
  apply (inv_set_peer _ _ p s (Some q)) in H2; [|set_solver|cbn; by rewrite lookup_insert_ne|done].
  apply (inv_set_peer _ _ q r (Some p)) in H2; [exact H2|set_solver| |by apply nonlocal_not_closing].
  cbn. rewrite lookup_insert_ne by done. apply lookup_insert_eq.
Qed.

(** [s->peer = create_remote_socket(i, t); s->peer->peer = s], up to settling. *)
Lemma wp_attach p s i t w Q :
  inv w → sockets w !! p = Some s → is_local s = true → closing s = false → peer s = None →
  i ≠ 0 → is_Some (transports w !! t) →
  (∀ w' q, q = next_ptr w → p ≠ q → inv_ex {[p; q]} w' →
     sockets w' = <[q := set_peer (Some p) (remote_new i t)]> (<[p := set_peer (Some q) s]> (<[q := remote_new i t]> (sockets w))) →
     transports w' = transports w → transport_list w' = transport_list w →
     local_socket_list w' = local_socket_list w → Q q w') →
  wp (attach_remote p i t) Q w.
Proof.
  intros Hinv Hp Hl Hc Hpe Hi Ht HQ.
  destruct (inv_new_pair w p s (remote_new i t)) as [Hne H]; try done.
  { intros u Hu. cbn in Hu. by injection Hu as <-. }
  unfold attach_remote, create_remote_socket, new_sock. wp_auto.
  apply wp_check; [intros E; by apply negb_false_iff, Z.eqb_eq in E|]. intros _. wp_auto. cbn.
  eapply wp_upd_sock; [cbn; rewrite lookup_insert_ne by done; done|]. wp_auto. cbn.
  eapply wp_upd_sock; [cbn; rewrite lookup_insert_ne, lookup_insert_eq by done; done|]. wp_auto.
  by apply HQ.
Qed.

(** A new client is connected to a smart socket. *)
Definition smart_new : asocket := asocket_new smart_socket_enqueue_fn smart_socket_ready_fn no_shutdown smart_socket_close_fn.

Lemma inv_connect_smart w p s :
  inv w → sockets w !! p = Some s → kind_of s = Some KLocal → closing s = false → peer s = None →
  let q := next_ptr w in
  p ≠ q ∧ inv (set_sockets (<[q := set_peer (Some p) smart_new]> (<[p := set_peer (Some q) s]> (<[q := smart_new]> (sockets w))))
    (set_next_ptr (q + 1) w)).
Proof.
  intros Hinv Hp Hk Hc Hpe q.
  destruct (inv_new_pair w p s smart_new) as [Hne H]; try done. fold q in Hne, H. split; [done|].
  pose proof (iv_settled ∅ w Hinv p s Hp ltac:(set_solver)) as Hset. unfold settled in Hset. rewrite Hk in Hset.
  assert (Hpq : ({[p; q]} : gset Z) ∖ {[p; q]} = ∅) by set_solver. unfold inv. rewrite <-Hpq.
  eapply (inv_settle_pair _ _ p q (set_peer (Some q) s) (set_peer (Some p) smart_new)); try done.
  - cbn. rewrite lookup_insert_ne by done. apply lookup_insert_eq.
  - cbn. apply lookup_insert_eq.
  - unfold settled. by change (kind_of (set_peer (Some q) s)) with (kind_of s); rewrite Hk.
  - by eexists.
  - split; [by left|]. change (kind_of (set_peer (Some q) s)) with (kind_of s). by rewrite Hk.
  - split; [by right|]. intros _. exact (Hset Hc Hpe).
Qed.

Lemma pair_diff (p q : Z) : ({[p; q]} : gset Z) ∖ {[p; q]} = ∅.
Proof. set_solver. Qed.
Lemma single_diff (p : Z) : ({[p]} : gset Z) ∖ {[p]} = ∅.
Proof. set_solver. Qed.

Lemma remote_new_ok p i t e s :
  i ≠ 0 → kind_of s = Some KLocal → local_ok s e → let r := set_peer (Some p) (remote_new i t) in
  settled r ∧ peers_ok r s ∧ peers_ok s r.
Proof. intros Hi Hk He r. unfold settled, peers_ok, kind_of at 1. cbn. rewrite Hk. split_and!; eauto; done. Qed.

Section ready.
Context (udev_problem : bytes) (smart : (ptr → M unit) → ptr → bytes → M Z) (Hsmart : smart_ok smart).

(** A regular local socket and its new peer are settled at once. *)
Lemma wp_attach_regular p s i t w Q :
  inv w → sockets w !! p = Some s → kind_of s = Some KLocal → closing s = false → peer s = None →
  i ≠ 0 → is_Some (transports w !! t) →
  (∀ w' q sq, inv w' → sockets w' !! p = Some (set_peer (Some q) s) → sockets w' !! q = Some sq →
     transports w' = transports w → Q q w') →
  wp (attach_remote p i t) Q w.
Proof.
  intros Hinv Hp Hk Hc Hpe Hi Ht HQ. assert (Hl : is_local s = true) by (apply kind_local; by left).
  eapply wp_attach; try done. intros w1 q -> Hne H1 Hs1 Ht1 Hr1 Hl1.
  destruct (local_sock_ok s (iv_sock ∅ w Hinv p s Hp) Hl) as [e He].
  set (q := next_ptr w) in *. set (sp := set_peer (Some q) s) in *. set (sq := set_peer (Some p) (remote_new i t)) in *.
  assert (Hp1 : sockets w1 !! p = Some sp) by (rewrite Hs1, lookup_insert_ne by done; apply lookup_insert_eq).
  assert (Hq1 : sockets w1 !! q = Some sq) by (rewrite Hs1; apply lookup_insert_eq).
  assert (He1 : local_ok sp e) by (by apply local_ok_peer).
  destruct (remote_new_ok p i t e sp Hi Hk He1) as (Hset1 & Hpo1 & Hpo2).
  eapply HQ; [|done|exact Hq1|done].
  unfold inv. rewrite <-(pair_diff p q). eapply (inv_settle_pair _ w1 p q sp sq); try done.
  unfold settled. by change (kind_of sp) with (kind_of s); rewrite Hk.
Qed.

(** Connecting a local socket to a remote one and making it ready. *)
Lemma wp_attach_ready p s i t w :
  inv w → sockets w !! p = Some s → is_local s = true → closing s = false → peer s = None →
  i ≠ 0 → is_Some (transports w !! t) →
  wp (attach_remote p i t ;; call_ready udev_problem smart p) (λ _ w', inv w') w.
Proof.
  intros Hinv Hp Hl Hc Hpe Hi Ht. apply kind_local in Hl as [Hk|Hk].
  { apply wp_bind. eapply wp_attach_regular; try done. intros w1 q sq Hi1 Hp1 _ _.
    eapply wp_mono; [exact (wp_ready _ _ Hsmart 0 p _ w1 Hi1 Hp1)|]. by intros _ w' [? _]. }
  assert (Hl : is_local s = true) by (apply kind_local; by right).
  apply wp_bind. eapply wp_attach; try done.
  intros w1 q -> Hne H1 Hs1 Ht1 Hr1 Hl1.
  destruct (local_sock_ok s (iv_sock ∅ w Hinv p s Hp) Hl) as [e He].
  pose proof (iv_settled ∅ w Hinv p s Hp ltac:(set_solver)) as Hset.
  set (q := next_ptr w) in *. set (sp := set_peer (Some q) s) in *. set (sq := set_peer (Some p) (remote_new i t)) in *.
  assert (Hp1 : sockets w1 !! p = Some sp) by (rewrite Hs1, lookup_insert_ne by done; apply lookup_insert_eq).
  assert (Hq1 : sockets w1 !! q = Some sq) by (rewrite Hs1; apply lookup_insert_eq).
  assert (He1 : local_ok sp e) by (by apply local_ok_peer).
  (* A socket that tells its client first. *)
    unfold settled in Hset. rewrite Hk in Hset. destruct Hset as [_ Hpend].
    unfold call_ready, ready_with. apply wp_bind. eapply wp_get_sock; [done|].
    change (ready sp) with (ready s). rewrite (proj1 (proj2 (kind_fields s _ Hk))).
    unfold local_socket_ready_notify. wp_auto.
    eapply wp_get_sock; [cbn; apply lookup_insert_eq|]. wp_auto. apply wp_send_okay. intros _ m.
    destruct (make_regular_ok sp e He1 Hl) as [He' Hk'].
    destruct (remote_new_ok p i t e (make_regular sp) Hi Hk' He') as (Hset1 & Hpo1 & Hpo2).
    assert (H2 : inv_ex {[p; q]} (set_sockets (<[p := make_regular sp]> (sockets w1)) w1)).
    { eapply inv_upd; [done|done|..].
      - repeat split; try done; [|by rewrite Hk'|].
        { change (is_local sp) with (is_local s). by rewrite (proj2 (kind_local (make_regular sp))), Hl by auto. }
        change (kind_of sp) with (kind_of s). by rewrite Hk.
      - split; [exact (proj1 (iv_sock ∅ w Hinv p s Hp))|]. rewrite Hk'. by eexists.
      - intros Hn. set_solver.
      - intros u Hcu Hu. rewrite Ht1. by apply (iv_transport ∅ w Hinv p s). }
    assert (Hinv1 : inv (set_sockets (<[p := make_regular sp]> (sockets w1)) w1)).
    { unfold inv. rewrite <-(pair_diff p q). eapply (inv_settle_pair _ _ p q (make_regular sp) sq); try done.
      - cbn. apply lookup_insert_eq.
      - cbn. by rewrite lookup_insert_ne.
      - unfold settled. by rewrite Hk'. }
    apply (inv_wrs _ _ m) in Hinv1. unfold local_socket_ready.
    eapply wp_mono; [eapply (wp_fde_read true p (make_regular sp)); [done|done|cbn; apply lookup_insert_eq|]|].
    + apply kind_local. by left.
    + by intros _ w' [? _].
Qed.
End ready.
