(* ===== verification/HostSafe.v ===== *)
(** * Requests to the server keep the invariant
    (src/src/adb.cpp: handle_host_request; src/src/adb_listeners.cpp)

    The laws of the operations of [HostServices], and under them: the invariant
    of the main thread's state holds after every request, and after the
    disconnects of a transport, which leave no listener of it. *)

From Stdlib Require Import ZArith Lia List Ascii String.
From stdpp Require Import base numbers list strings gmap.
From S2P Require Import Prelude.
From S2P Require Import Libc.
From S2P Require Import Strings.
From S2P Require Import AdbIo.
From S2P Require Import IOVector.
From S2P Require Import Packet.
From S2P Require Import Connection.
From S2P Require Import Transport.
From S2P Require Import SocketSpec.
From S2P Require Listeners.
From S2P Require Import World.
From S2P Require Import Sockets.
From S2P Require Import SocketsInv.
From S2P Require Import SocketsFlow.
From S2P Require Import SocketsSafe.
From S2P Require Import HostRequest.
From S2P Require Import SmartSocket.
From S2P Require Import HandlePacket.

(** ** The laws *)

(** What a service does to the sockets it was not given: nothing. *)
Definition services_frame (w w' : world) : Prop :=
  (∀ p s, sockets w !! p = Some s → sockets w' !! p = Some s) ∧ transports_grow w w'.

(** A socket for a service: new, connected to nothing, with nothing to write. *)
Definition service_socket (w w' : world) (p : ptr) : Prop :=
  sockets w !! p = None ∧ inv_ex {[p]} w' ∧
  ∃ s, sockets w' !! p = Some s ∧ peer s = None ∧ closing s = false ∧ pending s = false ∧
    (kind_of s = Some KLocal ∨ kind_of s = Some KTracker).

(** The kernel opens a descriptor that is not polled, on a port no listener has;
    a socket pair can be had. *)
Class HostServicesOk (H : HostServices) : Prop := {
  feature_order_ok : ∀ f, feature_order f ≡ₚ elements f;
  open_network_ok : ∀ w, inv w → wp open_network (λ net w', w' = w ∧ Listeners.net_ok net (listener_view w)) w;
  local_connect_ok : ∀ port w, inv w → wp (local_connect port) (λ _ w', inv w' ∧ sockets w' = sockets w) w;
  create_service_thread_ok : ∀ what w, inv w → wp (create_service_thread what) (λ n w', w' = w ∧ 0 ≤ n ∧ n ∉ poll_fds w) w;
  g_keys_ok : ∀ w, wp g_keys (λ _ w', w' = w) w;
  adb_auth_get_userkey_ok : ∀ w, wp adb_auth_get_userkey (λ _ w', w' = w) w
}.

(** ** Transports *)

Lemma inv_put_transport X w t a :
  inv_ex X w → transport_ok a → inv_ex X (set_transports (<[t := a]> (transports w)) w).
Proof.
  intros Hinv Ha. apply inv_transports; [done|..].
  - intros u Hu. destruct (decide (u = t)) as [->|]; [by rewrite lookup_insert_eq|by rewrite lookup_insert_ne].
  - intros u b. rewrite lookup_insert_Some. intros [[_ <-]|[_ Hb]]; [done|by eapply iv_conn].
Qed.

Lemma transport_put_some w t a u :
  is_Some (transports w !! u) → is_Some (transports (set_transports (<[t := a]> (transports w)) w) !! u).
Proof. cbn. intros H. destruct (decide (u = t)) as [->|]; [by rewrite lookup_insert_eq|by rewrite lookup_insert_ne]. Qed.

Lemma wp_upd_transport t f w Q :
  inv w → is_Some (transports w !! t) → (∀ a, transport_ok a → transport_ok (f a)) →
  (∀ w', inv w' → is_Some (transports w' !! t) → sockets w' = sockets w → local_socket_list w' = local_socket_list w → Q tt w') →
  wp (upd_transport t f) Q w.
Proof.
  intros Hinv [a Ha] Hf HQ. unfold upd_transport, put_transport. wp_auto. apply HQ; try done.
  - apply inv_put_transport; [done|]. apply Hf. by eapply iv_conn.
  - apply transport_put_some. by eexists.
Qed.

(** What [transport_list] lists. *)
Definition listing (w : world) : list (Z * atransport) := omap (λ t, (t,.) <$> transports w !! t) (transport_list w).

Lemma with_transports_Ret ts w :
  (∀ t, t ∈ ts → is_Some (transports w !! t)) → with_transports ts w = Ret (omap (λ t, (t,.) <$> transports w !! t) ts, w).
Proof.
  induction ts as [|t ts IH]; intros Hts; [done|]. destruct (Hts t ltac:(by left)) as [a Ha].
  cbn [with_transports]. unfold mbind, M_bind, get_transport. rewrite Ha, IH by (intros; apply Hts; by right).
  cbn. by rewrite Ha.
Qed.

Lemma listed_Ret w : inv w → listed_transports w = Ret (listing w, w).
Proof. intros Hinv. unfold listed_transports. cbn. apply with_transports_Ret. apply (iv_registered ∅ w Hinv). Qed.

Lemma wp_listed w Q : inv w → Q (listing w) w → wp listed_transports Q w.
Proof. intros Hinv HQ. unfold wpD. by rewrite listed_Ret. Qed.

Lemma elem_of_listing w t a : (t, a) ∈ listing w ↔ t ∈ transport_list w ∧ transports w !! t = Some a.
Proof.
  unfold listing. rewrite list_elem_of_omap. split.
  - intros (u & Hu & Hx). apply fmap_Some in Hx as (b & Hb & [= -> ->]). done.
  - intros [Ht Ha]. exists t. by rewrite Ha.
Qed.

(** [Kick] is all that happens to a transport here. *)
Lemma wp_Kick t w Q :
  inv w → is_Some (transports w !! t) →
  (∀ w', inv w' → sockets w' = sockets w → transport_list w' = transport_list w → (∀ u, is_Some (transports w !! u) → is_Some (transports w' !! u)) → Q tt w') →
  wp (Kick t) Q w.
Proof.
  intros Hinv [a Ha] HQ. destruct (iv_conn ∅ w Hinv t a Ha) as [[c Hc] Hn]. unfold Kick, put_transport. wp_auto.
  destruct (kicked_ a); [by apply wp_ret, HQ|]. wp_auto. apply HQ; try done.
  - apply inv_put_transport; [done|]. by split.
  - intros u. apply transport_put_some.
Qed.

Lemma wp_kick_where {S} (predicate : atransport → S → bool * S) ts s w Q :
  inv w → (∀ t, t ∈ ts → is_Some (transports w !! t)) →
  (∀ s' w', inv w' → sockets w' = sockets w → Q s' w') → wp (kick_where predicate ts s) Q w.
Proof.
  revert s w. induction ts as [|t ts IH]; intros s w Hinv Hts HQ; cbn [kick_where]; [apply wp_ret; by apply HQ|].
  destruct (Hts t ltac:(by left)) as [a Ha]. wp_auto. destruct (predicate a s) as [b s']. wp_auto. destruct b.
  - apply wp_Kick; [done|by eexists|]. intros w1 Hi1 Hs1 _ Hg1. apply IH; [done|..].
    + intros u Hu. apply Hg1, Hts. by right.
    + intros s2 w2 Hi2 Hs2. apply HQ; [done|]. by rewrite Hs2.
  - apply wp_ret. apply IH; [done| |done]. intros u Hu. apply Hts. by right.
Qed.

(** ** The listeners *)

Lemma inv_listener_view w s :
  inv w → Listeners.l_inv s → Listeners.attrs (Listeners.l_transports s) = Listeners.attrs (listener_transports w) →
  Listeners.keeps (listener_view w) s → inv (set_listener_view s w).
Proof.
  intros Hinv Hs Ha Hk.
  assert (Hfst : ∀ t, fst <$> Listeners.l_transports s !! t = transports w !! t).
  { intros t. rewrite <-lookup_fmap. change (fst <$> Listeners.l_transports s) with (Listeners.attrs (Listeners.l_transports s)). rewrite Ha.
    unfold Listeners.attrs. rewrite lookup_fmap, listener_transports_lookup. by destruct (transports w !! t). }
  assert (Hview : listener_view (set_listener_view s w) = s).
  { unfold listener_view. destruct s as [L T P n]. cbn in *. f_equal. apply map_eq. intros t. rewrite listener_transports_lookup. cbn.
    rewrite <-Hfst, lookup_fmap. by destruct (T !! t) as [[a d]|]. }
  assert (Hfd : ∀ p sp, sockets w !! p = Some sp → is_local sp = true → fd sp ∈ Listeners.l_polled s ∧ fd sp ∉ Listeners.l_fd <$> Listeners.listener_list s).
  { intros p sp Hp Hl. apply Hk; [by eapply (iv_fd ∅ w Hinv)|by eapply (iv_listen_fd ∅ w Hinv)]. }
  destruct Hinv. constructor; cbn; try done.
  - intros p sp Hp Hl. by apply (Hfd p sp).
  - by rewrite Hview.
  - intros p sp Hp Hl. by apply (Hfd p sp).
  - intros t. rewrite lookup_fmap, fmap_is_Some. rewrite <-Hfst, fmap_is_Some. done.
Qed.

Lemma view_live w t : is_Some (transports w !! t) → is_Some (Listeners.l_transports (listener_view w) !! t).
Proof. cbn. by rewrite listener_transports_lookup, fmap_is_Some. Qed.

Lemma wp_RunDisconnects t w :
  inv w → is_Some (transports w !! t) →
  wp (RunDisconnects t) (λ _ w', inv w' ∧ sockets w' = sockets w ∧ transports w' = transports w ∧ unreferenced w' t) w.
Proof.
  intros Hinv Ht. unfold RunDisconnects, on_listeners, wpD.
  destruct (Listeners.disconnects_ok t (listener_view w) (iv_listeners ∅ w Hinv) (view_live w t Ht)) as (s' & Hr & Hi & Ha & _ & HL).
  rewrite Hr. cbn [mbind outcome_bind]. split_and!; try done.
  - apply inv_listener_view; try done. by eapply Listeners.disconnects_keeps.
  - intros l Hl. cbn in Hl. rewrite HL, list_elem_of_filter in Hl. tauto.
Qed.

(** ** Requests *)

Lemma chosen_elem {A} (obj : A → atransport) v ts t : chosen obj v ts = Some t → t ∈ ts ∧ candidate v (obj t).
Proof.
  unfold chosen. assert (Hf : ∀ x, x ∈ designated obj v ts → x ∈ ts ∧ candidate v (obj x)) by (intros x [? ?]%list_elem_of_filter; done).
  destruct (designated obj v ts) as [|x [|y l]]; [done|intros [= <-]; apply Hf; by left|].
  destruct (by_id v); [intros [= <-]; apply Hf; by left|done].
Qed.

Section requests.
Context `{Hok : HostServicesOk}.

(** What a request designates, if it can be used. *)
Definition acquired_by (ty : TransportType) (sn : option bytes) (i : Z) (any : bool) (w : world) : option (Z * atransport) :=
  x ← chosen snd (wanted ty sn i) (listing w);
  if any || bool_decide (inactive_error vendor_keys (connection_state_ x.2) = None) then Some x else None.

Lemma acquire_world ty sn i any w :
  inv w → ∃ e, acquire ty sn i any w = Ret ((acquired_by ty sn i any w, e), w) ∧ (e = $"success" ↔ is_Some (acquired_by ty sn i any w)).
Proof.
  intros Hinv. assert (Hn : Forall (λ x : Z * atransport, names_ok x.2) (listing w)).
  { apply Forall_forall. intros [t a] [_ Ha]%elem_of_listing. by destruct (iv_conn ∅ w Hinv t a Ha). }
  destruct (acquire_Ret snd vendor_keys udev_problem (listing w) ty sn i any Hn) as (r & Hr & Hres & _ & He).
  unfold acquire, mbind, M_bind. rewrite listed_Ret by done. unfold lift. rewrite Hr. cbn.
  exists (aq_error r). rewrite Hres in *. done.
Qed.

Lemma acquired_listed ty sn i any w t a : acquired_by ty sn i any w = Some (t, a) → t ∈ transport_list w ∧ transports w !! t = Some a.
Proof.
  unfold acquired_by. intros (x & Hx & Hr)%bind_Some. destruct (_ || _)%bool; [|done]. injection Hr as ->.
  apply chosen_elem in Hx as [Hx _]. by apply elem_of_listing.
Qed.

Lemma wp_acquire ty sn i any w Q :
  inv w → (∀ e, Q (acquired_by ty sn i any w, e) w) → wp (acquire ty sn i any) Q w.
Proof. intros Hinv HQ. destruct (acquire_world ty sn i any w Hinv) as (e & He & _). unfold wpD. rewrite He. apply HQ. Qed.

(** *** Replies *)

Definition sends (f : wr_fd → outcome (bool * wr_fd)) : Prop := ∀ fd, ∃ ok fd', f fd = Ret (ok, fd').

Lemma sends_okay : sends SendOkay.
Proof. exact SendOkay_total. Qed.
Lemma sends_string s : sends (λ fd, SendProtocolString fd s).
Proof. intros fd. apply SendProtocolString_total. Qed.
Lemma sends_fail s : sends (λ fd, SendFail fd s).
Proof. intros fd. apply SendFail_total. Qed.

Lemma wp_send_reply n f w Q : sends f → (∀ m, Q tt (set_wrs m w)) → wp (reply n f) Q w.
Proof. intros Hf HQ. unfold wpD, reply. destruct (Hf (default (mkWrFd [] []) (wrs w !! n))) as (ok & fd' & ->). apply HQ. Qed.
Lemma wp_reply_okay n s w Q : (∀ m, Q tt (set_wrs m w)) → wp (reply_okay n s) Q w.
Proof.
  intros HQ. unfold reply_okay. apply wp_bind, wp_send_reply; [apply sends_okay|]. intros m.
  apply wp_send_reply; [apply sends_string|]. intros m'. apply HQ.
Qed.
Lemma wp_reply_fail n s w Q : (∀ m, Q tt (set_wrs m w)) → wp (reply_fail n s) Q w.
Proof. intros HQ. apply wp_send_reply; [apply sends_fail|done]. Qed.

(** *** The smart socket whose request it is *)

Definition smart_kept (p : ptr) (q : option ptr) (w : world) : Prop :=
  inv w ∧ ∃ s, sockets w !! p = Some s ∧ kind_of s = Some KSmart ∧ peer s = q.

Lemma smart_kept_wrs p q m w : smart_kept p q w → smart_kept p q (set_wrs m w).
Proof. intros [Hi Hs]. split; [by apply inv_wrs|done]. Qed.
Lemma smart_kept_sockets p q w w' : smart_kept p q w → inv w' → sockets w' = sockets w → smart_kept p q w'.
Proof. intros [_ Hs] Hi He. split; [done|]. by rewrite He. Qed.

Lemma wp_forward_request service ty sn i n p q w :
  smart_kept p q w → wp (forward_request service ty sn i n) (λ _ w', smart_kept p q w') w.
Proof.
  intros Hk. pose proof Hk as [Hinv _]. unfold forward_request. apply wp_bind. eapply wp_mono; [by apply open_network_ok|].
  intros net w' [-> Hnet]. unfold wpD, forward_with, acquirer.
  destruct (acquire_world ty sn i false w Hinv) as (e & -> & _).
  set (client := default _ _). pose proof (iv_listeners ∅ w Hinv) as Hl.
  assert (Hdone : ∀ b fd' s, Listeners.handle_forward_request gListenAll net service (Ret (fst <$> acquired_by ty sn i false w, e)) client (listener_view w) = Ret (b, fd', s) →
    Listeners.l_inv s → Listeners.attrs (Listeners.l_transports s) = Listeners.attrs (listener_transports w) →
    smart_kept p q (set_wrs (<[n := fd']> (wrs w)) (set_listener_view s w))).
  { intros b fd' s Hr Hs Ha. apply smart_kept_wrs. apply (smart_kept_sockets p q w); [done| |done].
    apply inv_listener_view; try done. by eapply Listeners.forward_keeps. }
  cbn [fst snd]. destruct (acquired_by ty sn i false w) as [[t a]|] eqn:E; cbn [fmap option_fmap option_map fst].
  - apply acquired_listed in E as [_ Ha].
    destruct (Listeners.forward_ok gListenAll net service t e client (listener_view w) Hl Hnet (view_live w t ltac:(by eexists)))
      as (fd' & s & Hr & Hs & Hat & _). rewrite Hr. by eapply Hdone.
  - destruct (Listeners.forward_none gListenAll net service e client (listener_view w) Hl Hnet) as (fd' & s & Hr & Hs & Hat). rewrite Hr. by eapply Hdone.
Qed.

Lemma wp_select_transport service sn i n p q w :
  smart_kept p q w → wp (select_transport service sn i n p) (λ _ w', smart_kept p q w') w.
Proof.
  intros Hk. pose proof Hk as [Hinv (s & Hp & Hks & Hpe)]. unfold select_transport.
  destruct (transport_args service sn i) as [[[ty sn'] i']|].
  2:{ apply wp_bind, wp_reply_fail. intros m. by apply wp_ret, smart_kept_wrs. }
  apply wp_bind, wp_acquire; [done|]. intros e. destruct (acquired_by ty sn' i' false w) as [[t a]|] eqn:E.
  2:{ apply wp_bind, wp_reply_fail. intros m. by apply wp_ret, smart_kept_wrs. }
  apply acquired_listed in E as [_ Ha]. apply wp_bind. eapply wp_upd_sock; [done|]. apply wp_bind, wp_send_reply; [apply sends_okay|]. intros m.
  apply wp_ret, smart_kept_wrs. split; [|exists (set_transport (Some t) s); split_and!; [cbn; apply lookup_insert_eq|done|done]].
  refine (inv_upd ∅ w p s (set_transport (Some t) s) Hinv Hp _ _ _ _).
  - by repeat split.
  - destruct (iv_sock ∅ w Hinv p s Hp) as [Hx Hok']. rewrite Hks in Hok'. split; [done|].
    change (kind_of (set_transport (Some t) s)) with (kind_of s). by rewrite Hks.
  - intros _. split; [exact (iv_settled ∅ w Hinv p s Hp ltac:(set_solver))|]. done.
  - intros u _ [= <-]. by eexists.
Qed.

Lemma wp_describe ty sn i n what p q w :
  smart_kept p q w → wp (describe ty sn i n what) (λ _ w', smart_kept p q w') w.
Proof.
  intros Hk. unfold describe. apply wp_bind, wp_acquire; [apply Hk|]. intros e.
  destruct (acquired_by ty sn i false w) as [[t a]|]; [apply wp_bind, wp_reply_okay|apply wp_bind, wp_reply_fail];
    intros m; by apply wp_ret, smart_kept_wrs.
Qed.

Lemma wp_kick_transport t p q w Q :
  smart_kept p q w → (∀ w', smart_kept p q w' → (∀ u, is_Some (transports w !! u) → is_Some (transports w' !! u)) → Q tt w') → wp (kick_transport t) Q w.
Proof.
  intros Hk HQ. pose proof Hk as [Hinv _]. unfold kick_transport. wp_auto. case_bool_decide as Ht; [|by apply wp_ret, HQ].
  apply wp_Kick; [done|by apply (iv_registered ∅ w Hinv)|]. intros w' Hi Hs _ Hg. apply HQ; [|done]. by eapply smart_kept_sockets.
Qed.

Lemma wp_disconnect_request address n p q w :
  smart_kept p q w → wp (disconnect_request address n) (λ _ w', smart_kept p q w') w.
Proof.
  intros Hk. pose proof Hk as [Hinv _]. unfold disconnect_request. case_bool_decide.
  - apply wp_bind. unfold kick_all_tcp_devices. wp_auto. apply wp_kick_where; [done|by apply (iv_registered ∅ w Hinv)|].
    intros [] w' Hi Hs. apply wp_bind, wp_reply_okay. intros m. apply wp_ret, smart_kept_wrs. by eapply smart_kept_sockets.
  - destruct (ParseNetAddress_total address DEFAULT_ADB_LOCAL_TRANSPORT_PORT) as [r Hr]. apply wp_bind. eapply wp_lift; [done|].
    destruct r as [e|a]; [apply wp_bind, wp_reply_fail; intros m; by apply wp_ret, smart_kept_wrs|].
    unfold find_transport. apply wp_bind, wp_bind, wp_listed; [done|]. apply wp_ret.
    destruct (find_serial _ _) as [t|]; [|apply wp_bind, wp_reply_fail; intros m; by apply wp_ret, smart_kept_wrs].
    apply wp_bind. eapply wp_kick_transport; [done|]. intros w' Hk' _. apply wp_bind, wp_reply_okay. intros m. by apply wp_ret, smart_kept_wrs.
Qed.

Lemma wp_reconnect_request ty sn i n p q w :
  smart_kept p q w → wp (reconnect_request ty sn i n) (λ _ w', smart_kept p q w') w.
Proof.
  intros Hk. pose proof Hk as [Hinv _]. unfold reconnect_request. apply wp_bind, wp_acquire; [done|]. intros e.
  destruct (acquired_by ty sn i true w) as [[t a]|] eqn:E; [|apply wp_bind, wp_ret, wp_bind, wp_reply_okay; intros m; by apply wp_ret, smart_kept_wrs].
  apply acquired_listed in E as [_ Ha]. apply wp_bind, wp_bind. eapply wp_kick_transport; [done|]. intros w' Hk' Hg.
  destruct (Hg t) as [a' Ha']; [by eexists|]. wp_auto. apply wp_reply_okay. intros m. by apply wp_ret, smart_kept_wrs.
Qed.

Lemma wp_reconnect_offline n p q w :
  smart_kept p q w → wp (reconnect_offline n) (λ _ w', smart_kept p q w') w.
Proof.
  intros Hk. pose proof Hk as [Hinv _]. unfold reconnect_offline, close_usb_devices. wp_auto.
  apply wp_kick_where; [done|by apply (iv_registered ∅ w Hinv)|]. intros r w' Hi Hs.
  apply wp_bind, wp_reply_okay. intros m. apply wp_ret, smart_kept_wrs. by eapply smart_kept_sockets.
Qed.

(** Every request, for the client of a smart socket. *)
Lemma wp_handle_host_request service ty sn i n p s w :
  inv w → sockets w !! p = Some s → kind_of s = Some KSmart →
  wp (handle_host_request service ty sn i n p) (λ _ w', smart_kept p (peer s) w') w.
Proof.
  intros Hinv Hp Hks. assert (Hk : smart_kept p (peer s) w) by (split; eauto). unfold handle_host_request.
  case_bool_decide; [apply wp_bind, wp_send_reply; [apply sends_okay|intros m; cbn; unfold deliberate; auto]|].
  destruct (starts_with service $"transport"); [by apply wp_select_transport|].
  destruct (starts_with service $"devices").
  { apply wp_bind. destruct (_ || _)%bool; [|by repeat apply wp_ret]. apply wp_bind, wp_listed; [done|].
    apply wp_reply_okay. intros m. by apply wp_ret, smart_kept_wrs. }
  case_bool_decide; [by apply wp_reconnect_offline|]. case_bool_decide; [by apply wp_describe|].
  case_bool_decide; [apply wp_bind, wp_reply_okay; intros m; by apply wp_ret, smart_kept_wrs|].
  destruct (starts_with service $"disconnect:"); [by apply wp_disconnect_request|].
  case_bool_decide; [apply wp_bind, wp_reply_okay; intros m; by apply wp_ret, smart_kept_wrs|].
  case_bool_decide; [by apply wp_describe|]. case_bool_decide; [by apply wp_describe|]. case_bool_decide; [by apply wp_describe|].
  destruct (starts_with service $"emulator:").
  { apply wp_bind. eapply wp_mono; [by apply local_connect_ok|]. intros _ w' [Hi Hs]. apply wp_ret. by eapply smart_kept_sockets. }
  case_bool_decide; [by apply wp_reconnect_request|]. by apply wp_forward_request.
Qed.
End requests.
