(* ===== verification/ServicesSafe.v ===== *)
(** * Services and authentication keep the invariant
    (src/src/services.cpp, src/src/client/auth.cpp)

    Under the laws of [HostServicesOk]: a service gives the smart socket a new
    socket that is connected to nothing and leaves the others alone; the answer to
    a token changes a transport only. *)

From Stdlib Require Import ZArith Lia List Ascii String.
From stdpp Require Import base numbers list strings gmap.
From S2P Require Import Prelude.
From S2P Require Import Libc.
From S2P Require Import Strings.
From S2P Require Import AdbIo.
From S2P Require Import IOVector.
From S2P Require Import Packet.
From S2P Require Import Connection.
From S2P Require Import Transport.
From S2P Require Import SocketSpec.
From S2P Require Listeners.
From S2P Require Import World.
From S2P Require Import Sockets.
From S2P Require Import SocketsInv.
From S2P Require Import SocketsFlow.
From S2P Require Import SocketsSafe.
From S2P Require Import HostRequest.
From S2P Require Import SmartSocket.
From S2P Require Import Auth.
From S2P Require Import HandlePacket.
From S2P Require Import SocketsPair.
From S2P Require Import Services.
From S2P Require Import HostSafe.

(** ** A service: the device tracker *)

(** [create_device_tracker] promises what [host_service_to_socket] has to. *)
Lemma create_device_tracker_ok long w :
  inv w → wp (create_device_tracker long) (λ p w', services_frame w w' ∧ service_socket w w' p) w.
Proof.
  intros Hinv. pose proof (inv_fresh ∅ w Hinv) as Hf. unfold create_device_tracker, new_sock. wp_auto.
  set (q := next_ptr w) in *. set (s := asocket_new _ _ _ _). split; [split|].
  { intros p sp Hp. cbn. rewrite lookup_insert_ne; [done|]. by intros <-; rewrite Hf in Hp. }
  { by apply grow_eq. }
  split; [done|]. split; [|exists s; split_and!; try done; [cbn; apply lookup_insert_eq|by right]].
  assert (Hok : sock_ok s) by (by repeat split). assert (Hl : is_local s = false) by done.
  assert (Hk : kind_of s = Some KTracker) by done. assert (Hpe : peer s = None) by done.
  assert (Htr : transport s = None) by done. clearbody s.
  destruct Hinv. constructor; cbn; try done.
  - intros p sp. rewrite lookup_insert_Some. intros [[<- <-]|[_ Hp]]; [lia|]. specialize (iv_ptr p sp Hp). lia.
  - intros p sp. rewrite lookup_insert_Some. intros [[<- <-]|[_ Hp]]; [done|eauto].
  - intros p sp. rewrite lookup_insert_Some. intros [[<- <-]|[_ Hp]] Hn; [by rewrite elem_of_singleton in Hn|]. by apply (iv_settled p sp Hp).
  - intros p sp r. rewrite lookup_insert_Some. intros [[<- <-]|[Hne Hp]] _ Hr; [congruence|].
    destruct (iv_peer p sp r Hp) as (_ & Hpr & sr & Hsr & ? & ?); [done..|].
    assert (r ≠ q) by congruence. split; [by rewrite elem_of_singleton|]. split; [done|]. exists sr. by rewrite lookup_insert_ne.
  - intros p. rewrite iv_list. setoid_rewrite lookup_insert_Some. naive_solver congruence.
  - intros p. rewrite iv_closing. setoid_rewrite lookup_insert_Some. naive_solver congruence.
  - intros p sp. rewrite lookup_insert_Some. intros [[<- <-]|[_ Hp]] Hlp; [congruence|eauto].
  - intros p sp r sr. rewrite !lookup_insert_Some. intros [[<- <-]|[_ Hp]] [[<- <-]|[_ Hr]]; try congruence. eauto.
  - intros p sp. rewrite lookup_insert_Some. intros [[<- <-]|[_ Hp]] Hlp; [congruence|eauto].
  - intros p sp r sr. rewrite !lookup_insert_Some. intros [[<- <-]|[_ Hp]] [[<- <-]|[_ Hr]]; try congruence. eauto.
  - intros p sp t. rewrite lookup_insert_Some. intros [[<- <-]|[_ Hp]]; [congruence|eauto].
  - destruct iv_trackers as [Hnd Hin]. split.
    + constructor; [|done]. rewrite Hin. intros (sq & Hq & _). congruence.
    + intros p. rewrite elem_of_cons, Hin. setoid_rewrite lookup_insert_Some. naive_solver congruence.
  - intros p sp. rewrite lookup_insert_Some. intros [[<- <-]|[_ Hp]] Hlp; [congruence|eauto].
Qed.

Section services.
Context `{Hok : HostServicesOk}.

Lemma wp_service_socket_for what w :
  inv w → wp (service_socket_for what)
    (λ o w', services_frame w w' ∧ match o with None => inv w' | Some p => service_socket w w' p end) w.
Proof.
  intros Hinv. pose proof (inv_fresh ∅ w Hinv) as Hf. unfold service_socket_for. apply wp_bind.
  eapply wp_mono; [by apply create_service_thread_ok|]. intros n w1 (-> & Hn & Hfd). apply wp_bind.
  apply wp_create_local_socket; [done..|]. intros w2 Hi2 Hs2 Ht2 _ _. apply wp_ret.
  split; [split|].
  - intros p sp Hp. rewrite Hs2, lookup_insert_ne; [done|]. intros <-. congruence.
  - by apply grow_eq.
  - split; [done|]. set (p := next_ptr w) in *. assert (Hp : sockets w2 !! p = Some (local_new (local_socket_next_id w) n)) by (by rewrite Hs2, lookup_insert_eq).
    split; [|eexists; split; [exact Hp|]; split_and!; try done; by left].
    apply (inv_grow ∅ _ w2 Hi2); [set_solver|]. intros r sr x Hr _ Hx. rewrite elem_of_singleton. intros ->.
    destruct (inv_peer_sym w2 r sr p Hi2 Hr Hx) as (_ & sx & Hsx & Hpe & _). rewrite Hp in Hsx. by injection Hsx as <-.
Qed.

Lemma wp_host_service_to_socket service serial id w :
  inv w → wp (host_service_to_socket service serial id)
    (λ o w', services_frame w w' ∧ match o with None => inv w' | Some p => service_socket w w' p end) w.
Proof.
  intros Hinv. unfold host_service_to_socket.
  assert (Hnone : wp (mret None) (λ o w', services_frame w w' ∧ match o with None => inv w' | Some p => service_socket w w' p end) w).
  { apply wp_ret. split; [|done]. split; [done|apply grow_refl]. }
  repeat case_bool_decide; try (apply wp_bind; eapply wp_mono; [by apply create_device_tracker_ok|]; intros p w' [? ?]; by apply wp_ret).
  destruct (starts_with service $"wait-for-"); [destruct (wait_for _ _ _); [by apply wp_service_socket_for|done]|].
  destruct (starts_with service $"connect:"); [by apply wp_service_socket_for|done].
Qed.

Lemma wp_service_to_fd name t w :
  inv w → wp (service_to_fd name t) (λ n w', inv w' ∧ shape_kept w w' ∧ (0 ≤ n → n ∉ poll_fds w')) w.
Proof.
  intros Hinv. unfold service_to_fd. destruct (is_socket_spec name).
  2:{ apply wp_ret. split; [done|]. split; [apply shape_refl|lia]. }
  apply wp_bind. eapply wp_mono; [by apply open_network_ok|]. intros net w1 [-> [Hfd _]]. apply wp_bind.
  destruct (socket_spec_connect_Ret (H := net) name) as (r & Hr & Hres). eapply wp_lift; [exact Hr|]. apply wp_ret.
  split; [done|]. split; [apply shape_refl|]. intros Hn. destruct Hres as [Hres|[c ->]]; [lia|]. apply Hfd.
Qed.

Lemma wp_NextKey t w Q :
  inv w → is_Some (transports w !! t) →
  (∀ k w', inv w' → is_Some (transports w' !! t) → Q k w') → wp (NextKey t) Q w.
Proof.
  intros Hinv [a Ha] HQ. unfold NextKey. apply wp_bind. eapply wp_get_transport; [done|]. apply wp_bind.
  apply (wp_mono _ (λ ks w', w' = w ∧ ks ≠ [])).
  - destruct (keys_ a); [|by apply wp_ret]. unfold adb_auth_get_private_keys. apply wp_bind.
    eapply wp_mono; [apply g_keys_ok|]. intros ks w' ->. apply wp_ret. split; [done|]. by destruct ks.
  - intros ks w' [-> Hks]. destruct ks as [|k ks]; [done|]. apply wp_bind, wp_upd_transport; [done|by eexists|done|].
    intros w1 Hi1 Ht1 _ _. apply wp_ret. by apply HQ.
Qed.

Lemma wp_send_auth_publickey t w :
  inv w → is_Some (transports w !! t) → wp (send_auth_publickey t) (λ _ w', inv w') w.
Proof.
  intros Hinv Ht. unfold send_auth_publickey. apply wp_bind. eapply wp_mono; [apply adb_auth_get_userkey_ok|].
  intros key w' ->. case_bool_decide; [by apply wp_ret|]. destruct (_ <=? _); [by apply wp_ret|].
  eapply wp_mono; [by apply wp_send_packet|]. by intros _ w' [? _].
Qed.

(** A token of the right size is answered. *)
Lemma wp_send_auth_response token t w :
  inv w → is_Some (transports w !! t) → zlen token = TOKEN_SIZE → wp (send_auth_response token t) (λ _ w', inv w') w.
Proof.
  intros Hinv Ht Hsize. unfold send_auth_response. apply wp_bind, wp_NextKey; [done..|]. intros k w1 Hi1 Ht1.
  destruct k as [k|].
  - unfold adb_auth_sign. rewrite Hsize. change (negb (TOKEN_SIZE =? TOKEN_SIZE)) with false. wp_auto.
    case_bool_decide; [by apply wp_ret|]. eapply wp_mono; [by apply wp_send_packet|]. by intros _ w' [? _].
  - apply wp_bind, wp_upd_transport; [done..|]. intros w2 Hi2 Ht2 _ _. apply wp_bind, wp_upd_transport; [done..|].
    intros w3 Hi3 Ht3 _ _. by apply wp_send_auth_publickey.
Qed.
End services.
