(* ===== verification/SmartSafe.v ===== *)
(** * The smart socket keeps its promise
    (src/src/sockets.cpp)

    Under the laws of [HostServicesOk] (HostSafe.v) [smart_socket_enqueue] keeps
    the invariant: it hands the client over to the service, or to the device,
    without leaving a pointer to the smart socket behind. *)

From Stdlib Require Import ZArith Lia List Ascii String.
From stdpp Require Import base numbers list strings gmap.
From S2P Require Import Prelude.
From S2P Require Import Libc.
From S2P Require Import Strings.
From S2P Require Import AdbIo.
From S2P Require Import IOVector.
From S2P Require Import Packet.
From S2P Require Import Connection.
From S2P Require Import Transport.
From S2P Require Import SocketSpec.
From S2P Require Listeners.
From S2P Require Import World.
From S2P Require Import Sockets.
From S2P Require Import SocketsInv.
From S2P Require Import SocketsFlow.
From S2P Require Import SocketsSafe.
From S2P Require Import HostRequest.
From S2P Require Import SmartSocket.
From S2P Require Import HandlePacket.
From S2P Require Import SocketsPair.
From S2P Require Import Services.
From S2P Require Import HostSafe.
From S2P Require Import ServicesSafe.

(** ** Parts of the handler *)

Lemma peer_local w p s : inv w → sockets w !! p = Some s → kind_of s = Some KSmart →
  ∃ q sq, peer s = Some q ∧ p ≠ q ∧ sockets w !! q = Some sq ∧ peer sq = Some p ∧ kind_of sq = Some KLocal ∧ pending sq = false.
Proof.
  intros Hinv Hp Hk. pose proof (iv_settled ∅ w Hinv p s Hp ltac:(set_solver)) as Hset. unfold settled in Hset.
  rewrite Hk in Hset. destruct Hset as [q Hq].
  destruct (inv_peer_sym w p s q Hinv Hp Hq) as (Hne & sq & Hsq & Hpe & [Hkk Hpend] & _).
  exists q, sq. split_and!; try done; [|by apply Hpend]. destruct Hkk; [congruence|done].
Qed.

Lemma wp_peer_fd p s w Q :
  inv w → sockets w !! p = Some s → kind_of s = Some KSmart → (∀ n, Q n w) → wp (peer_fd p) Q w.
Proof.
  intros Hinv Hp Hk HQ. destruct (peer_local w p s Hinv Hp Hk) as (q & sq & Hq & _ & Hsq & _).
  unfold peer_fd. wp_auto. apply HQ.
Qed.

Lemma wp_smart_fail p s w Q :
  inv w → sockets w !! p = Some s → (∀ w', inv w' → Q (-1) w') → wp (smart_fail p) Q w.
Proof.
  intros Hinv Hp HQ. unfold smart_fail. apply wp_bind. eapply wp_mono; [by apply wp_close|].
  intros _ w' [Hi _]. by apply wp_ret, HQ.
Qed.

(** The bytes kept by the smart socket are of no consequence. *)
Lemma inv_smart_data w p s d :
  inv w → sockets w !! p = Some s → inv (set_sockets (<[p := set_smart_socket_data d s]> (sockets w)) w).
Proof.
  intros Hinv Hp. pose proof (iv_sock ∅ w Hinv p s Hp) as [Hx Hk].
  refine (inv_upd ∅ w p s (set_smart_socket_data d s) Hinv Hp _ _ _ _).
  - by repeat split.
  - split; [done|]. change (kind_of (set_smart_socket_data d s)) with (kind_of s).
    destruct (kind_of s) as [[]|]; try done; destruct Hk as [e []]; exists e; by constructor.
  - intros _. split; [exact (iv_settled ∅ w Hinv p s Hp ltac:(set_solver))|]. done.
  - intros t Hc Ht. by apply (iv_transport ∅ w Hinv p s).
Qed.

(** A failing smart socket says -1, so nothing is promised of its peer. *)
Lemma post_fail w o w' : inv w' → enqueue_post w o (-1) w'.
Proof. intros Hi. split; [done|lia]. Qed.

Lemma make_regular_id s : kind_of s = Some KLocal → make_regular s = s.
Proof. intros (He & Hr & Hs & Hc)%kind_fields. destruct s; cbn in *. by subst. Qed.

Lemma in_triple (a b c x : Z) : x ∈ ({[a; b; c]} : gset Z) ↔ x = a ∨ x = b ∨ x = c.
Proof. set_solver. Qed.
Lemma triple_diff (a b c : Z) : b ≠ a → b ≠ c → ({[a; b; c]} : gset Z) ∖ {[c; a]} = {[b]}.
Proof. intros. apply set_eq. intros x. rewrite elem_of_difference, elem_of_singleton, in_triple, elem_of_union, !elem_of_singleton. naive_solver. Qed.

(** A pair and a new socket, before they are rearranged. *)
Lemma inv_open_triple X w a p q s sq :
  inv_ex {[a]} w → p ≠ q → p ≠ a → q ≠ a → sockets w !! p = Some s → sockets w !! q = Some sq →
  peer s = Some q → peer sq = Some p → X = {[a; p; q]} → inv_ex X w.
Proof.
  intros Hinv Hpq Hpa Hqa Hp Hq Hpe Hqe ->. apply (inv_grow _ _ _ Hinv); [set_solver|].
  intros r sr x Hr Hn Hx. rewrite in_triple in Hn.
  destruct (iv_peer _ w Hinv r sr x Hr) as (Hnx & _ & sx & Hsx & Hxe & _); [|done|].
  { rewrite elem_of_singleton. tauto. }
  rewrite elem_of_singleton in Hnx. rewrite in_triple. intros [->|[->| ->]]; [done|..].
  - assert (sx = s) as -> by congruence. assert (r = q) by congruence. tauto.
  - assert (sx = sq) as -> by congruence. assert (r = p) by congruence. tauto.
Qed.

(** The client [q] of the smart socket [p] is given to the service [a]. *)
Lemma inv_hand_over w w' a p q s sq sa :
  inv_ex {[a]} w → p ≠ q → p ≠ a → q ≠ a →
  sockets w !! p = Some s → sockets w !! q = Some sq → sockets w !! a = Some sa →
  peer s = Some q → peer sq = Some p → kind_of sq = Some KLocal → closing sa = false →
  settled (set_peer (Some q) sa) → (kind_of sa = Some KLocal ∨ kind_of sa = Some KTracker) →
  w' = set_sockets (<[p := set_peer None s]> (<[a := set_peer (Some q) sa]> (<[q := set_peer (Some a) sq]> (sockets w)))) w →
  inv_ex {[p]} w'.
Proof.
  intros Hinv Hpq Hpa Hqa Hp Hq Ha Hpe Hqe Hkq Hca Hseta Hka ->.
  pose proof (iv_sock _ w Hinv p s Hp) as Hokp. pose proof (iv_sock _ w Hinv q sq Hq) as Hokq.
  pose proof (local_not_closing s q Hokp Hpe) as Hcp. pose proof (local_not_closing sq p Hokq Hqe) as Hcq.
  assert (H0 : inv_ex {[a; p; q]} w) by (by eapply (inv_open_triple _ w a p q s sq)).
  assert (H1 : inv_ex {[a; p; q]} (set_sockets (<[q := set_peer (Some a) sq]> (sockets w)) w)).
  { apply inv_set_peer; try done. rewrite in_triple. auto. }
  apply (inv_set_peer _ _ a sa (Some q)) in H1; [|rewrite in_triple; auto|cbn; by rewrite lookup_insert_ne|done].
  apply (inv_set_peer _ _ p s None) in H1; [|rewrite in_triple; auto|cbn; by rewrite !lookup_insert_ne|done].
  cbn in H1. rewrite <-(triple_diff a p q Hpa Hpq).
  eapply (inv_settle_pair _ _ q a (set_peer (Some a) sq) (set_peer (Some q) sa)); try done.
  - cbn. by rewrite lookup_insert_ne, lookup_insert_ne, lookup_insert_eq by done.
  - cbn. by rewrite lookup_insert_ne, lookup_insert_eq by done.
  - unfold settled. by change (kind_of (set_peer (Some a) sq)) with (kind_of sq); rewrite Hkq.
  - split; [by left|]. change (kind_of (set_peer (Some a) sq)) with (kind_of sq). by rewrite Hkq.
  - split; [by right|]. change (kind_of (set_peer (Some q) sa)) with (kind_of sa). destruct Hka as [-> | ->]; done.
Qed.

Lemma set_sockets_wrs m sk w : set_wrs m (set_sockets sk w) = set_sockets sk (set_wrs m w).
Proof. by destruct w. Qed.

Section smart.
Context `{Hok : HostServicesOk} (rdy : ptr → M unit) (Hrdy : ready_ok rdy).

(** The service has a socket: the client is handed over. *)
Lemma wp_hand_over w0 w a p q s sq :
  service_socket w0 w a → is_Some (sockets w0 !! p) → is_Some (sockets w0 !! q) → p ≠ q →
  sockets w !! p = Some s → sockets w !! q = Some sq →
  kind_of s = Some KSmart → peer s = Some q → peer sq = Some p → kind_of sq = Some KLocal →
  wp (n ← peer_fd p;
      _ ← send_okay n;
      s ← get_sock p;
      q ← deref_ptr (peer s);
      upd_sock q make_regular ;;
      upd_sock q (set_peer (Some a)) ;;
      upd_sock a (set_peer (Some q)) ;;
      upd_sock p (set_peer None) ;;
      call_close p ;;
      rdy a ;;
      mret 0) (λ r w', inv w' ∧ ∃ sq', sockets w' !! q = Some sq' ∧ is_local sq' = true) w.
Proof.
  intros (Hfresh & Hinv & sa & Ha & Hpa & Hca & Hpend & Hka) Hp0 Hq0 Hpq Hp Hq Hks Hpe Hqe Hkq.
  assert (Hna : p ≠ a) by (intros ->; destruct Hp0; congruence).
  assert (Hnq : q ≠ a) by (intros ->; destruct Hq0; congruence).
  unfold peer_fd. wp_auto. apply wp_send_okay. intros _ m. wp_auto.
  rewrite make_regular_id by done.
  eapply wp_upd_sock; [cbn; apply lookup_insert_eq|]. cbn [sockets set_sockets]. rewrite insert_insert_eq. wp_auto.
  eapply wp_upd_sock; [cbn; rewrite lookup_insert_ne by done; done|]. cbn [sockets set_sockets]. wp_auto.
  eapply wp_upd_sock; [cbn; rewrite !lookup_insert_ne by done; done|]. cbn [sockets set_sockets]. wp_auto.
  match goal with |- wpD _ _ _ ?w => set (w1 := w) end.
  assert (H1 : inv_ex {[p]} w1).
  { apply (inv_wrs _ _ m) in Hinv. eapply (inv_hand_over _ w1 a p q s sq sa Hinv); try done.
    unfold settled. change (kind_of (set_peer (Some q) sa)) with (kind_of sa). destruct Hka as [-> | ->]; done. }
  eapply wp_mono; [apply (wp_close_alone 2 {[p]} p (set_peer None s) w1)|]; [done|set_solver|unfold w1; cbn; apply lookup_insert_eq|done|].
  intros _ w2 [Hi2 Hfr]. rewrite single_diff in Hi2. wp_auto.
  assert (Ha2 : sockets w2 !! a = Some (set_peer (Some q) sa)).
  { rewrite (cf_other _ _ _ Hfr) by done. unfold w1. cbn. rewrite lookup_insert_ne by done. apply lookup_insert_eq. }
  assert (Hq2 : sockets w2 !! q = Some (set_peer (Some a) sq)).
  { rewrite (cf_other _ _ _ Hfr) by done. unfold w1. cbn. rewrite !lookup_insert_ne by done. apply lookup_insert_eq. }
  eapply wp_mono; [by eapply Hrdy|]. intros _ w3 [Hi3 Hsh]. apply wp_ret. split; [done|].
  destruct (shape_local w2 w3 q _ Hsh Hq2) as (s3 & ? & ? & _); [|eauto].
  apply kind_local. by left.
Qed.

Lemma wp_host_service p s service rq w :
  inv w → sockets w !! p = Some s → kind_of s = Some KSmart →
  wp (smart_host_service rdy p service rq) (enqueue_post w (peer s)) w.
Proof.
  intros Hinv Hp Hk. unfold smart_host_service. apply wp_bind. eapply wp_peer_fd; [done..|]. intros n.
  apply wp_bind. eapply wp_mono; [by apply wp_handle_host_request|].
  intros handled w1 (Hi1 & s1 & Hp1 & Hk1 & Hpe1).
  destruct (peer_local w1 p s1 Hi1 Hp1 Hk1) as (q & sq & Hq & Hpq & Hsq & Hqe & Hkq & Hpend).
  assert (Hpost : ∀ r w' sq', inv w' → sockets w' !! q = Some sq' → is_local sq' = true → enqueue_post w (peer s) r w').
  { intros r w' sq' Hi Hs Hl. split; [done|]. intros _ q' sq0 Hq' _ _. rewrite <-Hpe1, Hq in Hq'. injection Hq' as <-. eauto. }
  destruct handled. { eapply wp_smart_fail; [done..|]. intros. by apply post_fail. }
  destruct (starts_with service $"transport").
  { wp_auto. eapply (Hpost 0 _ sq); [by apply inv_smart_data| |].
    - cbn. by rewrite lookup_insert_ne.
    - apply kind_local. by left. }
  apply wp_bind. eapply wp_mono; [by apply wp_host_service_to_socket|].
  intros [a|] w2 [[Hfr Hg] Hs2].
  - eapply wp_mono; [by eapply (wp_hand_over w1 w2 a p q s1 sq); eauto|].
    intros r w3 (Hi3 & sq3 & Hq3 & Hl3). by eapply Hpost.
  - apply wp_bind. eapply wp_peer_fd; [done|by apply Hfr|done|]. intros n2. apply wp_bind, wp_send_fail. intros _ m.
    eapply wp_smart_fail; [by apply inv_wrs|by apply Hfr|]. intros. by apply post_fail.
Qed.

(** A client that waits for its device; nothing else changes. *)
Definition notify (t : Z) (s : asocket) : asocket :=
  set_transport (Some t) (set_peer None (set_ready local_socket_ready_notify_fn
    (set_shutdown no_shutdown (set_close local_socket_close_notify_fn s)))).

Lemma notify_ok t s e :
  kind_of s = Some KLocal → local_ok s e → closing s = false → local_ok (notify t s) e ∧ kind_of (notify t s) = Some KNotify.
Proof.
  intros (He & _)%kind_fields [] Hc. split; [|unfold kind_of; cbn; by rewrite He].
  constructor; try done. intros Hc'. cbn in Hc'. congruence.
Qed.

Lemma inv_wait w w' p q s sq t :
  inv w → p ≠ q → sockets w !! p = Some s → sockets w !! q = Some sq →
  peer s = Some q → peer sq = Some p → kind_of s = Some KSmart → kind_of sq = Some KLocal → pending sq = false →
  is_Some (transports w !! t) →
  w' = set_sockets (<[q := notify t sq]> (sockets w)) w → inv_ex {[p]} w'.
Proof.
  intros Hinv Hne Hp Hq Hpe Hqe Hk Hkq Hpend Ht ->.
  pose proof (iv_sock _ w Hinv q sq Hq) as Hokq. pose proof (local_not_closing sq p Hokq Hqe) as Hcq.
  assert (Hlq : is_local sq = true) by (apply kind_local; by left).
  destruct (local_sock_ok sq Hokq Hlq) as [e He]. destruct (notify_ok t sq e Hkq He Hcq) as [He' Hk'].
  assert (Hl' : is_local (notify t sq) = true) by (apply kind_local; by right).
  pose proof (inv_open_pair w p s q Hinv Hp Hpe) as H0.
  assert (H1 : inv_ex {[p; q]} (set_sockets (<[q := notify t sq]> (sockets w)) w)).
  { refine (inv_upd _ w q sq (notify t sq) H0 Hq _ _ _ _).
    - split_and!; try done; [congruence|]. rewrite Hk', Hkq. done.
    - split; [exact (proj1 Hokq)|]. rewrite Hk'. by eexists.
    - set_solver.
    - intros u _ [= <-]. done. }
  replace ({[p]} : gset Z) with (({[p; q]} : gset Z) ∖ {[q]}) by set_solver.
  eapply (inv_settle_one _ _ q (notify t sq)); [done|cbn; apply lookup_insert_eq|done|].
  unfold settled. rewrite Hk'. done.
Qed.

Lemma wp_device_service p s destination w :
  inv w → sockets w !! p = Some s → kind_of s = Some KSmart →
  wp (smart_device_service p destination) (enqueue_post w (peer s)) w.
Proof.
  intros Hinv Hp Hk. unfold smart_device_service. wp_auto.
  assert (Hfail : ∀ reason, wp (n ← peer_fd p; _ ← send_fail n reason; smart_fail p) (enqueue_post w (peer s)) w).
  { intros reason. apply wp_bind. eapply wp_peer_fd; [done..|]. intros n. apply wp_bind, wp_send_fail. intros _ m.
    eapply wp_smart_fail; [by apply inv_wrs|done|]. intros. by apply post_fail. }
  destruct (transport s) as [t|] eqn:Et; [|done].
  pose proof (iv_sock _ w Hinv p s Hp) as Hokp.
  destruct (peer_local w p s Hinv Hp Hk) as (q & sq & Hq & Hpq & Hsq & Hqe & Hkq & Hpend).
  destruct (iv_transport ∅ w Hinv p s t Hp (local_not_closing s q Hokp Hq) Et) as [a Ha].
  apply wp_bind. eapply wp_get_transport; [done|]. destruct (negb _); [done|]. wp_auto.
  eapply wp_upd_sock; [cbn; apply lookup_insert_eq|]. cbn [sockets set_sockets]. rewrite insert_insert_eq. wp_auto.
  eapply wp_upd_sock; [cbn; apply lookup_insert_eq|]. cbn [sockets set_sockets]. rewrite insert_insert_eq. wp_auto.
  match goal with |- wpD _ _ _ ?w => set (w1 := w) end.
  assert (Hw1 : inv_ex {[p]} w1) by (by eapply (inv_wait w w1 p q s sq t)).
  assert (Hq1 : sockets w1 !! q = Some (notify t sq)) by (unfold w1; cbn; apply lookup_insert_eq).
  assert (Hp1 : sockets w1 !! p = Some s) by (unfold w1; cbn; by rewrite lookup_insert_ne).
  assert (Ha1 : transports w1 !! t = Some a) by done.
  clearbody w1. unfold connect_to_remote. apply wp_bind. eapply wp_get_sock; [done|].
  unfold get_max_payload. apply wp_bind, wp_bind. eapply wp_get_sock; [done|]. cbn [transport notify set_transport peer set_peer].
  wp_auto. apply wp_check; [unfold deliberate; auto|]. intros _. wp_auto. eapply wp_deref; [done|].
  eapply wp_mono; [by apply wp_send_packet|]. intros _ w2 [Hi2 Hfr].
  apply wp_bind. eapply wp_upd_sock; [by rewrite (sf_sockets _ _ Hfr)|]. apply wp_bind.
  match goal with |- wpD _ _ _ ?w => set (w3 := w) end.
  assert (Hi3 : inv_ex {[p]} w3).
  { eapply (inv_set_peer _ w2 p s None); [done|set_solver|by rewrite (sf_sockets _ _ Hfr)|by eapply local_not_closing]. }
  eapply wp_mono; [apply (wp_close_alone 2 {[p]} p (set_peer None s) w3)|]; [done|set_solver|unfold w3; cbn; apply lookup_insert_eq|done|].
  intros _ w4 [Hi4 Hcf]. rewrite single_diff in Hi4. apply wp_ret. split; [done|].
  intros _ q' sq' Hq' Hsq' _. rewrite Hq in Hq'. injection Hq' as <-. exists (notify t sq).
  rewrite (cf_other _ _ _ Hcf) by done. unfold w3. cbn. rewrite lookup_insert_ne, (sf_sockets _ _ Hfr) by done.
  split; [done|]. apply kind_local. right. apply kind_fields in Hkq as (He & _). unfold kind_of. cbn. by rewrite He.
Qed.
End smart.

(** What is promised after storing data is promised before. *)
Lemma post_data w p s d r w' :
  sockets w !! p = Some s → kind_of s = Some KSmart →
  enqueue_post (set_sockets (<[p := set_smart_socket_data d s]> (sockets w)) w) (peer s) r w' → enqueue_post w (peer s) r w'.
Proof.
  intros Hp Hk [Hi Hpost]. split; [done|]. intros Hr q sq Hq Hsq Hl. apply (Hpost Hr q sq Hq); [|done].
  cbn. rewrite lookup_insert_ne; [done|]. intros ->. rewrite Hp in Hsq. injection Hsq as <-.
  unfold is_local in Hl. by rewrite Hk in Hl.
Qed.

Lemma post_alive w p s r w' :
  sockets w !! p = Some s → kind_of s = Some KSmart → w' = w → inv w → enqueue_post w (peer s) r w'.
Proof. intros Hp Hk -> Hi. split; [done|]. eauto. Qed.

(** The smart socket keeps the promise the other sockets rely on. *)
Lemma smart_socket_ok `{HostServicesOk} : smart_ok (@smart_socket_enqueue _).
Proof.
  intros rdy p s data w Hrdy Hinv Hp Hk. unfold smart_socket_enqueue. apply wp_bind. eapply wp_upd_sock; [done|].
  set (d1 := smart_socket_data s ++ data). pose proof (inv_smart_data w p s d1 Hinv Hp) as H1.
  set (w1 := set_sockets _ _) in *. set (s1 := set_smart_socket_data d1 s) in *.
  assert (Hp1 : sockets w1 !! p = Some s1) by (unfold w1; cbn; apply lookup_insert_eq).
  eapply wp_mono; [|intros r w'; by apply (post_data w p s d1)]. fold s1 w1.
  change (peer s) with (peer s1). assert (Hk1 : kind_of s1 = Some KSmart) by done. clearbody w1 s1.
  apply wp_bind. eapply wp_get_sock; [done|]. cbn beta zeta.
  assert (Hfail : ∀ w s, inv w → sockets w !! p = Some s → wp (smart_fail p) (enqueue_post w (peer s)) w).
  { intros. eapply wp_smart_fail; [done..|]. intros. by apply post_fail. }
  destruct (_ <? 4); [apply wp_ret; by eapply post_alive|]. destruct (_ || _)%bool; [by apply Hfail|].
  destruct (_ <? _); [apply wp_ret; by eapply post_alive|].
  apply wp_bind. eapply wp_upd_sock; [done|].
  match goal with |- context [<[p := set_smart_socket_data ?d s1]> _] => set (d2 := d) end.
  pose proof (inv_smart_data w1 p s1 d2 H1 Hp1) as H2.
  eapply wp_mono; [|intros r w'; by apply (post_data w1 p s1 d2)].
  change (peer s1) with (peer (set_smart_socket_data d2 s1)). set (w2 := set_sockets _ _) in *. set (s2 := set_smart_socket_data d2 s1) in *.
  assert (Hp2 : sockets w2 !! p = Some s2) by (unfold w2; cbn; apply lookup_insert_eq).
  assert (Hk2 : kind_of s2 = Some KSmart) by done. clearbody w2 s2.
  destruct (parse_request _) as [rq|]; [|apply wp_ret; by apply post_fail].
  destruct (rq_service rq); [by eapply wp_host_service|by eapply wp_device_service].
Qed.

(** ** A server *)

(** A server whose kernel gives out new descriptors and ports. *)
Definition new_descriptor (w : world) : Z := 1 + set_fold Z.max 0 (poll_fds w).
Definition used_port (l : Listeners.alistener) : Z := (scan_digits 10 0 (drop 4 (Listeners.local_name l))).1.
Definition new_port (w : world) : Z := 1 + foldr Z.max 0 (used_port <$> listeners w).
Definition new_sockets (w : world) : Network :=
  {| open_socket := λ _, (new_descriptor w, []); adb_socket_get_local_port := λ _, new_port w |}.

#[export] Instance tracker_services : HostServices := {|
  udev_problem := []; vendor_keys := None; should_use_libusb := false; gListenAll := false;
  feature_order f := elements f;
  open_network := gets new_sockets;
  local_connect _ := mret tt;
  create_service_thread _ := gets new_descriptor;
  g_keys := mret [7; 8]; adb_auth_get_userkey := mret $"QAAAA user@host"; RSA_sign key token := Some (of_cval key :: token)
|}.

Lemma max_ge (X : gset Z) n : n ∈ X → n ≤ set_fold Z.max 0 X.
Proof.
  revert n. apply (set_fold_ind_L (λ m Y, ∀ n, n ∈ Y → n ≤ m)); [set_solver|].
  intros x Y m _ IH n. rewrite elem_of_union, elem_of_singleton. intros [->|Hn]; [lia|]. specialize (IH n Hn). lia.
Qed.
Lemma max_nonneg (X : gset Z) : 0 ≤ set_fold Z.max 0 X.
Proof. apply (set_fold_ind_L (λ m Y, 0 ≤ m)); [done|]. intros. lia. Qed.

Lemma new_descriptor_ok w : new_descriptor w ∉ poll_fds w.
Proof. unfold new_descriptor. intros Hin%max_ge. lia. Qed.

Lemma new_port_ok w : Forall (λ l, Listeners.local_name l ≠ $"tcp:" ++ print_dec (new_port w)) (listeners w).
Proof.
  apply Forall_forall. intros l Hl He. pose proof (list_max_nonneg (used_port <$> listeners w)) as H0.
  assert (Hu : used_port l = new_port w).
  { unfold used_port. rewrite He. change (drop 4 ($"tcp:" ++ print_dec (new_port w))) with (print_dec (new_port w)).
    rewrite print_dec_nonneg by (unfold new_port; lia). rewrite <-(app_nil_r (numeral 10 _)). by rewrite scan_numeral by (unfold new_port; done || lia). }
  pose proof (list_max_ge (used_port <$> listeners w) (used_port l) (list_elem_of_fmap_2 _ _ _ Hl)) as Hm. unfold new_port in Hu. lia.
Qed.

#[export] Instance tracker_services_ok : HostServicesOk tracker_services.
Proof.
  constructor; cbn [tracker_services feature_order open_network local_connect create_service_thread g_keys adb_auth_get_userkey].
  - done.
  - intros w Hinv. wp_auto. split; [done|]. split; [intros c; apply new_descriptor_ok|intros c; apply new_port_ok].
  - intros port w Hinv. by apply wp_ret.
  - intros what w Hinv. wp_auto. split; [done|]. split; [|apply new_descriptor_ok]. unfold new_descriptor.
    pose proof (max_nonneg (poll_fds w)). lia.
  - intros w. by apply wp_ret.
  - intros w. by apply wp_ret.
Qed.
