(* ===== verification/ServerSafe.v ===== *)
(** * The main thread is memory safe
    (src/src/adb.cpp, sockets.cpp, transport.cpp, adb_listeners.cpp)

    Every event of the main thread (a descriptor is ready, a packet arrives, a
    client connects, a transport goes offline or is deleted) keeps the
    invariant: no handler follows a dangling or null pointer.  What the
    environment has to promise is [event_ok]. *)

From Stdlib Require Import ZArith Lia List Ascii String.
From stdpp Require Import base numbers list strings gmap relations.
From S2P Require Import Prelude.
From S2P Require Import Libc.
From S2P Require Import Strings.
From S2P Require Import AdbIo.
From S2P Require Import IOVector.
From S2P Require Import Packet.
From S2P Require Import Connection.
From S2P Require Import Transport.
From S2P Require Import SocketSpec.
From S2P Require Listeners.
From S2P Require Import World.
From S2P Require Import Sockets.
From S2P Require Import SocketsInv.
From S2P Require Import SocketsFlow.
From S2P Require Import SocketsSafe.
From S2P Require Import HostRequest.
From S2P Require Import SmartSocket.
From S2P Require Import HandlePacket.
From S2P Require Import SocketsPair.
From S2P Require Import Services.
From S2P Require Import Auth.
From S2P Require Import HostSafe.
From S2P Require Import ServicesSafe.
From S2P Require Import SmartSafe.

(** ** Transports *)

Lemma SetFeatures_total v t : ∃ f, SetFeatures v t = Ret (set_features_ f t).
Proof.
  unfold SetFeatures, StringToFeatureSet. case_bool_decide; [by eexists|]. rewrite Split_pieces by done. by eexists.
Qed.

Lemma pieces_nul_free d b : nul_free b → Forall nul_free (pieces d b).
Proof.
  induction b as [|c b IH]; intros Hb; cbn [pieces]; [by repeat constructor; apply not_elem_of_nil|].
  apply not_elem_of_cons in Hb as [Hc Hb]. specialize (IH Hb). destruct (char_in c d); [by constructor; [apply not_elem_of_nil|]|].
  destruct (pieces d b); constructor; try by inversion IH.
  - apply not_elem_of_cons. split; [done|apply not_elem_of_nil].
  - inversion IH; subst. by apply not_elem_of_cons.
Qed.

(** Parsing a banner keeps the connection, and names of a C string are such. *)
Definition parses (t : atransport) (r : outcome atransport) : Prop := ∃ t', r = Ret t' ∧ (transport_ok t → transport_ok t').

Lemma parse_property_total p t : nul_free p → parses t (parse_property p t).
Proof.
  intros Hp. unfold parse_property. case_bool_decide; [by eexists|]. rewrite Split_pieces by done. cbn [mbind outcome_bind].
  pose proof (pieces_nul_free $"=" p Hp) as Hps. destruct (pieces _ p) as [|k [|v [|? ?]]]; try by eexists.
  assert (nul_free v) by (by inversion Hps as [|?? _ Hv]; inversion Hv). unfold parses, transport_ok, names_ok.
  repeat (case_bool_decide; [eexists; split; [done|]; cbn; tauto|]).
  case_bool_decide; [|by eexists]. destruct (SetFeatures_total v t) as [f ->]. by eexists.
Qed.

Lemma parse_properties_total ps t : Forall nul_free ps → parses t (parse_properties ps t).
Proof.
  intros Hps. revert t. induction Hps as [|p ps Hp _ IH]; intros t; [by eexists|]. cbn [parse_properties].
  destruct (parse_property_total p t Hp) as (t' & -> & He). cbn [mbind outcome_bind]. destruct (IH t') as (t2 & -> & ?).
  eexists. split; [done|]. auto.
Qed.

Lemma parse_banner_total b t : nul_free b → parses t (parse_banner b t).
Proof.
  intros Hb. unfold parse_banner. rewrite Split_pieces by done. cbn [mbind outcome_bind].
  destruct (SetFeatures_total [] t) as [f ->]. cbn [mbind outcome_bind].
  assert (parses (set_features_ f t) (match pieces $":" b !! 2%nat with
    | Some props => ps ← Split props $";"; parse_properties ps (set_features_ f t) | None => Ret (set_features_ f t) end)) as (t' & -> & ?).
  { destruct (_ !! _) as [props|] eqn:E; [|by eexists]. rewrite Split_pieces by done. cbn [mbind outcome_bind].
    apply parse_properties_total, pieces_nul_free. eapply Forall_lookup_1; [by apply pieces_nul_free|exact E]. }
  cbn [mbind outcome_bind]. eexists. split; [done|]. auto.
Qed.

Section server.
Context `{Hok : HostServicesOk}.
Let Hsmart : smart_ok (@smart_socket_enqueue _) := smart_socket_ok.

Lemma wp_send_trackers ps str w :
  inv w → (∀ p, p ∈ ps → ∃ s, sockets w !! p = Some s ∧ kind_of s = Some KTracker) →
  wp (send_trackers udev_problem (@smart_socket_enqueue _) ps str) (λ _ w', inv w') w.
Proof.
  revert w. induction ps as [|p ps IH]; intros w Hinv Hps; cbn [send_trackers]; [by apply wp_ret|].
  destruct (Hps p ltac:(by left)) as (s & Hp & Hk). apply wp_bind.
  eapply wp_mono; [exact (wp_tracker_send _ _ Hsmart 1 p s str w Hinv Hp Hk)|]. intros _ w' [Hi (Hsh & _)].
  apply IH; [done|]. intros q Hq. destruct (Hps q ltac:(by right)) as (sq & Hsq & Hkq).
  destruct (Hsh q sq Hsq) as (sq' & Hsq' & (_ & _ & _ & _ & Hk') & _). exists sq'. split; [done|]. by apply Hk'.
Qed.

Lemma wp_update_transports w :
  inv w → wp (update_transports udev_problem (@smart_socket_enqueue _)) (λ _ w', inv w') w.
Proof.
  intros Hinv. unfold update_transports. wp_auto. apply wp_get_transports. { intros t. by apply (iv_registered ∅ w Hinv). }
  intros l. wp_auto. apply wp_send_trackers; [done|]. intros p. apply (iv_trackers ∅ w Hinv).
Qed.

Lemma wp_handle_offline t a w :
  inv w → transports w !! t = Some a →
  wp (handle_offline t) (λ _ w', inv w' ∧ is_Some (transports w' !! t) ∧ (connection_state_ a ≠ kCsOffline → unused w' t ∧ unreferenced w' t)) w.
Proof.
  intros Hinv Ha. unfold handle_offline. wp_auto. case_bool_decide; [apply wp_ret; by rewrite Ha|].
  assert (Ht : is_Some (transports w !! t)) by (by eexists).
  apply wp_bind, wp_upd_transport; [done..|]. intros w1 Hi1 Ht1 _ _.
  apply wp_bind, wp_upd_transport; [done..|]. intros w2 Hi2 Ht2 _ _.
  apply wp_bind. eapply wp_mono; [by apply wp_close_all|]. intros _ w3 (Hi3 & Hg3 & _ & Hl3).
  eapply wp_mono; [apply wp_RunDisconnects; [done|by eapply grow_some]|]. intros _ w4 (Hi4 & Hs4 & Hg4 & Hu4).
  split; [done|]. split; [rewrite Hg4; by eapply grow_some|]. intros _. split; [|done].
  unfold unused. rewrite Hs4. apply unused_after; [done|]. intros p Hp. by apply Hl3.
Qed.

Lemma wp_new_connection t p w :
  inv w → is_Some (transports w !! t) → nul_free (payload p) → wp (handle_new_connection t p) (λ _ w', inv w') w.
Proof.
  intros Hinv [a0 Ha0] Hnul. unfold handle_new_connection. apply wp_bind. eapply wp_mono; [by eapply wp_handle_offline|].
  intros _ w1 (Hi1 & Ht1 & _). apply wp_bind, wp_upd_transport; [done..|]. intros w2 Hi2 [a Ha] _ _.
  destruct (parse_banner_total (payload p) a Hnul) as (a' & Hb & Hc).
  apply wp_bind. eapply wp_get_transport; [done|]. apply wp_bind. eapply wp_lift; [exact Hb|].
  apply wp_bind. unfold put_transport. apply wp_modify, wp_bind.
  unfold handle_online. apply wp_bind, wp_upd_transport; [|by apply transport_put_some|done|].
  { apply inv_put_transport; [done|]. apply Hc. by eapply iv_conn. }
  intros w3 Hi3 Ht3 _ _. apply wp_upd_transport; [done..|]. intros w4 Hi4 _ _ _. by apply wp_update_transports.
Qed.

Lemma wp_auth t p w :
  inv w → is_Some (transports w !! t) → (arg0 (msg p) = ADB_AUTH_TOKEN → zlen (payload p) = TOKEN_SIZE) →
  wp (handle_auth t p) (λ _ w', inv w') w.
Proof.
  intros Hinv Ht Hsize. unfold handle_auth. destruct (Z.eqb_spec (arg0 (msg p)) ADB_AUTH_TOKEN);
    apply wp_bind, wp_upd_transport; try done; intros w1 Hi1 Ht1 _ _.
  - apply wp_send_auth_response; [done..|]. by apply Hsize.
  - destruct Ht1 as [a1 Ha1]. eapply wp_mono; [by eapply wp_handle_offline|]. by intros ? ? [? _].
Qed.

(** A sent packet is of no consequence to the sockets. *)
Lemma wp_reply cmd a0 a1 data t w :
  inv w → is_Some (transports w !! t) → wp (send_packet (make_packet cmd a0 a1 data) t) (λ _ w', inv w') w.
Proof. intros Hinv Ht. eapply wp_mono; [by apply wp_send_packet|]. by intros ? ? [? _]. Qed.

Lemma wp_open t p w :
  inv w → is_Some (transports w !! t) → wp (handle_open t p) (λ _ w', inv w') w.
Proof.
  intros Hinv [a Ha]. unfold handle_open, create_local_service_socket. wp_auto.
  destruct (online a && _ && _)%bool eqn:E; [|by apply wp_ret]. apply andb_true_iff in E as [[_ E]%andb_true_iff _].
  apply negb_true_iff, Z.eqb_neq in E. wp_auto.
  eapply wp_mono; [by apply wp_service_to_fd|]. intros n w1 (Hi1 & (_ & Hg & _) & Hfd).
  assert (Ht1 : is_Some (transports w1 !! t)) by (eapply grow_some; [done|by eexists]).
  destruct (Z.ltb_spec n 0); [by apply wp_ret, wp_reply|]. wp_auto.
  apply wp_create_local_socket; [done|lia|by apply Hfd|]. intros w2 Hi2 Hs2 Ht2 _ _. wp_auto.
  eapply wp_attach_regular; [done|rewrite Hs2; apply lookup_insert_eq|done..|by rewrite Ht2|].
  intros w3 q sq Hi3 Hp3 Hq3 Ht3. wp_auto.
  eapply wp_mono; [apply wp_send_packet; [done|]|]. { by rewrite Ht3, Ht2. }
  intros _ w4 [Hi4 Hf]. unfold ready_call. eapply wp_mono.
  { eapply (wp_ready _ _ Hsmart 0); [done|]. by rewrite (sf_sockets _ _ Hf). }
  by intros _ w5 [? _].
Qed.

Lemma designates_local w i j p : inv w → designates w i j p →
  ∃ s, sockets w !! p = Some s ∧ is_local s = true ∧ closing s = false.
Proof. intros Hinv (s & Hin & _). by apply (iv_list ∅ w Hinv) in Hin. Qed.

(** What follows a search for a socket. *)
Lemma wp_find i j w (Q : option ptr → world → Prop) :
  inv w → (∀ p, designates w i j p → Q (Some p) w) → Q None w → wp (find_local_socket i j) Q w.
Proof.
  intros Hinv Hs Hn. destruct (find_local_socket_Ret i j w Hinv) as (o & Ho & Hspec).
  unfold wpD. rewrite Ho. destruct o as [p|]; [|done]. apply Hs. by apply Hspec.
Qed.

Lemma wp_okay t p w :
  inv w → is_Some (transports w !! t) → wp (handle_okay t p) (λ _ w', inv w') w.
Proof.
  intros Hinv [a Ha]. unfold handle_okay. wp_auto.
  destruct (online a && _ && _)%bool eqn:E; [|by apply wp_ret]. apply andb_true_iff in E as [[_ E]%andb_true_iff _].
  apply negb_true_iff, Z.eqb_neq in E. apply wp_bind, wp_find; [done| |by apply wp_reply].
  intros s Hd. destruct (designates_local w _ _ s Hinv Hd) as (ss & Hs & Hl & Hc). wp_auto.
  unfold ready_call. destruct (peer ss) as [q|] eqn:Hq; [|exact (wp_attach_ready udev_problem _ Hsmart s ss _ t w Hinv Hs Hl Hc Hq E (mk_is_Some _ _ Ha))].
  destruct (inv_peer_sym w s ss q Hinv Hs Hq) as (_ & sq & Hsq & _). wp_auto.
  destruct (_ =? _); [|by apply wp_ret]. eapply wp_mono; [exact (wp_ready _ _ Hsmart 0 s ss w Hinv Hs)|]. by intros _ w' [? _].
Qed.

Lemma wp_clse t p w :
  inv w → is_Some (transports w !! t) → wp (handle_clse t p) (λ _ w', inv w') w.
Proof.
  intros Hinv [a Ha]. unfold handle_clse. wp_auto. destruct (_ && _)%bool; [|by apply wp_ret].
  apply wp_bind, wp_find; [done| |by apply wp_ret].
  intros s Hd. destruct (designates_local w _ _ s Hinv Hd) as (ss & Hs & Hl & Hc). wp_auto.
  eapply wp_mono with (P := λ _ w', w' = w).
  { destruct (_ =? _); [|by apply wp_ret]. destruct (peer ss) as [q|] eqn:Hq; [|by apply wp_ret].
    destruct (inv_peer_sym w s ss q Hinv Hs Hq) as (_ & sq & Hsq & _). wp_auto. done. }
  intros other w' ->. destruct other; [by apply wp_ret|].
  eapply wp_mono; [by apply wp_close|]. by intros _ w' [? _].
Qed.

Lemma wp_wrte t p w :
  inv w → is_Some (transports w !! t) → payload p ≠ [] → wp (handle_wrte t p) (λ _ w', inv w') w.
Proof.
  intros Hinv [a Ha] Hd. unfold handle_wrte. wp_auto.
  destruct (online a && _ && _)%bool eqn:E; [|by apply wp_ret]. apply andb_true_iff in E as [[_ E]%andb_true_iff _].
  apply negb_true_iff, Z.eqb_neq in E. apply wp_bind, wp_find; [done| |by apply wp_ret].
  intros s Hds. pose proof Hds as (ss & _ & Hs & _ & [?|(q & sq & Hq & Hsq & Hqi)]); [done|].
  destruct (designates_local w _ _ s Hinv Hds) as (s2 & Hs2 & Hl & Hc). assert (s2 = ss) as -> by congruence.
  destruct (inv_peer_sym w s ss q Hinv Hs Hq) as (_ & sq2 & Hsq2 & _). assert (sq2 = sq) as -> by congruence.
  assert (Hk : kind_of ss = Some KLocal).
  { apply kind_local in Hl as [?|Hk]; [done|]. pose proof (iv_settled ∅ w Hinv s ss Hs ltac:(set_solver)) as Hset.
    unfold settled in Hset. rewrite Hk in Hset. destruct Hset. congruence. }
  assert (Hns : kind_of sq ≠ Some KSmart).
  { intros Hkq. destruct (iv_sock ∅ w Hinv q sq Hsq) as [_ Hokq]. rewrite Hkq in Hokq. destruct Hokq as (_ & _ & H0). congruence. }
  assert (Hps : ∀ q2 sq2, peer ss = Some q2 → sockets w !! q2 = Some sq2 → kind_of sq2 ≠ Some KSmart).
  { intros q2 sq2 Hq2 Hsq3. rewrite Hq in Hq2. injection Hq2 as <-. rewrite Hsq in Hsq3. by injection Hsq3 as <-. }
  assert (Hks : kind_of ss ≠ Some KSmart) by (by rewrite Hk).
  apply wp_bind. eapply wp_mono.
  { exact (wp_enqueue_plain _ _ Hsmart 1 s ss (payload p) w Hinv Hs (ex_intro _ q Hq) Hks Hps Hd). }
  intros r w' [[Hi _] Hsh]. destruct (r =? 0); [|by apply wp_ret].
  destruct (shape_local w w' s ss (Hsh Hk) Hs Hl) as (s' & Hs' & _). apply wp_bind. eapply wp_get_sock; [done|].
  apply wp_reply; [done|]. eapply grow_some; [apply (Hsh Hk)|by eexists].
Qed.

Lemma wp_handle_packet p t w :
  inv w → is_Some (transports w !! t) → packet_ok p → wp (handle_packet p t) (λ _ w', inv w') w.
Proof.
  intros Hinv Ht (Hlen & Hw & Hb & Hau). unfold handle_packet. apply wp_bind, wp_check; [by rewrite (proj2 (Z.eqb_eq _ _) Hlen)|]. intros _.
  cbv zeta. repeat (lazymatch goal with |- wpD _ (if ?b then _ else _) _ _ => destruct b eqn:? end; [|]).
  - apply wp_new_connection; [done..|]. apply Hb. by apply Z.eqb_eq.
  - apply wp_auth; [done..|]. apply Hau. by apply Z.eqb_eq.
  - by apply wp_open.
  - by apply wp_okay.
  - by apply wp_clse.
  - apply wp_wrte; [done..|]. apply Hw. by apply Z.eqb_eq.
  - by apply wp_ret.
Qed.

Lemma wp_client n w :
  inv w → 0 ≤ n → n ∉ poll_fds w → wp (ss_listener_accept n) (λ _ w', inv w') w.
Proof.
  intros Hinv Hn Hfd. unfold ss_listener_accept. apply wp_bind, wp_create_local_socket; [done..|].
  intros w1 Hi1 Hs1 _ _ _. set (p := next_ptr w) in *. set (s := local_new (local_socket_next_id w) n) in *.
  assert (Hp1 : sockets w1 !! p = Some s) by (rewrite Hs1; apply lookup_insert_eq).
  destruct (inv_connect_smart w1 p s Hi1 Hp1 eq_refl eq_refl eq_refl) as [Hne Hi2].
  unfold connect_to_smartsocket, create_smart_socket, new_sock. wp_auto.
  eapply wp_upd_sock; [cbn; by rewrite lookup_insert_ne|]. wp_auto.
  eapply wp_upd_sock; [cbn; rewrite lookup_insert_ne by done; apply lookup_insert_eq|]. wp_auto.
  match type of Hi2 with inv ?x => set (w2 := x) in Hi2 end.
  assert (Hp2 : sockets w2 !! p = Some (set_peer (Some (next_ptr w1)) s)).
  { unfold w2. cbn. rewrite lookup_insert_ne by done. apply lookup_insert_eq. }
  eapply wp_mono; [exact (wp_ready _ _ Hsmart 0 p _ w2 Hi2 Hp2)|]. by intros _ w' [? _].
Qed.

Lemma wp_forward l n t w :
  inv w → 0 ≤ n → n ∉ poll_fds w → Listeners.l_transport l = Some t → is_Some (transports w !! t) →
  wp (listener_accept l n) (λ _ w', inv w') w.
Proof.
  intros Hinv Hn Hfd Hlt [a Ha]. unfold listener_accept. rewrite Hlt. apply wp_bind, wp_create_local_socket; [done..|].
  intros w1 Hi1 Hs1 Ht1 _ _. set (p := next_ptr w) in *. set (s := local_new (local_socket_next_id w) n) in *.
  assert (Hp1 : sockets w1 !! p = Some s) by (rewrite Hs1; apply lookup_insert_eq).
  apply wp_bind. eapply wp_upd_sock; [done|]. set (w2 := set_sockets _ w1).
  assert (Hi2 : inv w2).
  { refine (inv_upd ∅ w1 p s (set_transport (Some t) s) Hi1 Hp1 _ _ _ _).
    - by repeat split.
    - destruct (iv_sock ∅ w1 Hi1 p s Hp1) as [_ [e He]]. split; [done|]. exists e. destruct He. by constructor.
    - intros _. split; [exact (iv_settled ∅ w1 Hi1 p s Hp1 ltac:(set_solver))|]. done.
    - intros u _ [= <-]. rewrite Ht1. by eexists. }
  assert (Hp2 : sockets w2 !! p = Some (set_transport (Some t) s)) by (unfold w2; cbn; apply lookup_insert_eq).
  assert (Ha2 : transports w2 !! t = Some a) by (unfold w2; cbn; by rewrite Ht1).
  clearbody w2. unfold connect_to_remote. wp_auto. eapply wp_get_max_payload; [done|done| |].
  { intros u [= <-]. by eexists. }
  intros m _. wp_auto. apply wp_check; [unfold deliberate; auto|]. intros _. wp_auto. eapply wp_deref; [done|].
  apply wp_reply; [done|by eexists].
Qed.

(** A listener that is not the server's own has a transport, and it is alive. *)
Lemma wp_accept l n w :
  inv w → l ∈ listeners w → 0 ≤ n → n ∉ poll_fds w → wp (listener_event l n) (λ _ w', inv w') w.
Proof.
  intros Hinv Hl Hn Hfd. unfold listener_event. case_bool_decide as Hsm; [by apply wp_client|].
  pose proof (iv_listeners ∅ w Hinv) as Hi. destruct (Listeners.l_transport l) as [t|] eqn:Et.
  - destruct (Listeners.lv_live _ _ _ _ Hi l t Hl Et) as [Ht _]. cbn in Ht.
    rewrite listener_transports_lookup, fmap_is_Some in Ht. by eapply wp_forward.
  - pose proof (proj1 (Forall_forall _ _) (Listeners.lv_special _ _ _ _ Hi) l Hl) as Hs.
    pose proof (proj1 (Forall_forall _ _) (Listeners.lv_smart _ _ _ _ Hi) l Hl) as Hsmart'. by destruct Hsm; apply Hsmart', Hs.
Qed.

Lemma wp_install_smartsocket spec w :
  inv w → listeners w = [] → wp (install_smartsocket spec) (λ _ w', inv w') w.
Proof.
  intros Hinv Hnil. unfold install_smartsocket. apply wp_bind. eapply wp_mono; [by apply open_network_ok|].
  intros net w' [-> Hnet]. unfold wpD, on_listeners.
  destruct (Listeners.install_new gListenAll net spec Listeners.smartsocket None false (listener_view w)) as (st & e & port & s' & Hr & Hi' & Ha & _);
    try done; [apply (iv_listeners ∅ w Hinv)|cbn; by rewrite Hnil|cbn; rewrite Hnil; apply not_elem_of_nil|].
  rewrite Hr. cbn [mbind outcome_bind]. apply inv_listener_view; try done. by eapply Listeners.install_keeps.
Qed.

Lemma wp_close_smartsockets w : inv w → wp close_smartsockets (λ _ w', inv w') w.
Proof.
  intros Hinv. unfold close_smartsockets, wpD, on_listeners.
  destruct (Listeners.erase_all (λ l, negb (bool_decide (Listeners.local_name l = Listeners.smartsocket))) (listener_view w) (iv_listeners ∅ w Hinv))
    as (s' & Hr & Hi' & Ha & _).
  change (Listeners.close_smartsockets (listener_view w) = Ret s') in Hr. rewrite Hr. cbn [mbind outcome_bind]. apply inv_listener_view; try done. by eapply Listeners.erase_keeps.
Qed.

(** Nothing of a transport that is deleted is left in the listeners' tables. *)
Lemma listeners_delete w t :
  inv w → is_Some (transports w !! t) → unreferenced w t →
  Listeners.l_inv (listener_view (set_disconnects (delete t (disconnects w)) (set_transports (delete t (transports w)) w))).
Proof.
  intros Hinv [a Ha] Hu. pose proof (iv_listeners ∅ w Hinv) as Hi. unfold Listeners.l_inv in *. cbn in *.
  replace (listener_transports _) with (delete t (listener_transports w)).
  - eapply (Listeners.linv_delete _ _ _ _ t a); [done|]. rewrite listener_transports_lookup, Ha. cbn. do 2 f_equal.
    assert (HL : listener_transports w !! t = Some (a, default [] (disconnects w !! t))) by (by rewrite listener_transports_lookup, Ha).
    destruct (Listeners.lv_reg _ _ _ _ Hi t a _ HL) as [_ Hx]. destruct (default [] (disconnects w !! t)) as [|x d]; [done|].
    destruct (proj1 (Hx x) ltac:(by left)) as (l & Hl & _ & Hlt). by destruct (Hu l Hl).
  - apply map_eq. intros u. rewrite listener_transports_lookup. cbn. destruct (decide (u = t)) as [->|].
    + by rewrite !lookup_delete_eq.
    + by rewrite !lookup_delete_ne, listener_transports_lookup.
Qed.

Lemma wp_delete_transport t w :
  inv w → is_Some (transports w !! t) → unused w t → unreferenced w t → wp (delete_transport t) (λ _ w', inv w') w.
Proof.
  intros Hinv Ht Hu Hun. pose proof (listeners_delete w t Hinv Ht Hun) as Hl. destruct Ht as [a Ha].
  unfold delete_transport. wp_auto. apply wp_update_transports.
  destruct Hinv. constructor; cbn; try done.
  - intros p s u Hp Hc Ht. rewrite lookup_delete_ne; [by eapply iv_transport|]. intros ->. by apply (Hu p s).
  - intros u b [_ Hb]%lookup_delete_Some. by eapply iv_conn.
  - intros u. rewrite list_elem_of_filter. intros [Hne Hin]. rewrite lookup_delete_ne by done. by apply iv_registered.
  - intros u [d [Hne Hd]%lookup_delete_Some]. rewrite lookup_delete_ne by done. apply iv_disconnects. by eexists.
Qed.

Lemma wp_list_transport t w :
  inv w → is_Some (transports w !! t) → wp (list_transport t) (λ _ w', inv w') w.
Proof.
  intros Hinv Ht. unfold list_transport. wp_auto. apply wp_update_transports.
  destruct Hinv. constructor; cbn; try done. intros u. rewrite elem_of_cons. intros [->|?]; auto.
Qed.

Lemma wp_handle_event ev w :
  inv w → event_ok w ev → wp (handle_event ev) (λ _ w', inv w') w.
Proof.
  intros Hinv Hev. destruct ev; cbn [event_ok handle_event] in *.
  - destruct Hev as [Ht Hp]. by apply wp_handle_packet.
  - destruct Hev as (s & e & Hp & Hl & He & Hw & Hr).
    assert (Ha : ev_read = true → transport_alive w s).
    { intros Her u. apply (iv_transport ∅ w Hinv p s u Hp). by apply Hr. }
    exact (wp_event _ _ Hsmart p s e w ev_read ev_write Hinv Hp Hl He Hw Ha).
  - destruct Hev as (Hl & Hn & Hfd). by apply wp_accept.
  - by apply wp_install_smartsocket.
  - by apply wp_close_smartsockets.
  - destruct Hev as [a Ha]. eapply wp_mono; [by eapply wp_handle_offline|]. by intros _ w' [? _].
  - destruct Hev as (Ht & Hu & Hun). by apply wp_delete_transport.
  - destruct Hev as [Ht Ha]. unfold put_transport. apply wp_modify. by apply inv_put_transport.
  - by apply wp_list_transport.
  - apply wp_modify. by apply inv_rds, inv_wrs.
  - destruct Hev as [a Ha]. unfold upd_transport, put_transport. wp_auto. apply inv_put_transport; [done|].
    destruct (iv_conn ∅ w Hinv t a Ha). by split.
Qed.
End server.

Lemma inv_init : inv world_init.
Proof.
  constructor; cbn; try (intros *; rewrite lookup_empty; done); try done.
  - split; constructor.
  - intros p. rewrite elem_of_nil. split; [done|]. by intros (s & Hs & _).
  - intros p. rewrite elem_of_nil. split; [done|]. by intros (s & Hs & _).
  - intros t Ht. by apply not_elem_of_nil in Ht.
  - split; [constructor|]. intros p. rewrite elem_of_nil. split; [done|]. by intros (s & Hs & _).
  - unfold listener_view, listener_transports. cbn. rewrite map_imap_empty. apply Listeners.l_init_inv.
Qed.

Lemma reachable_inv `{HostServicesOk} w : reachable w → inv w.
Proof.
  induction 1 as [|w ev w' _ IH Hev Hrun]; [apply inv_init|].
  pose proof (wp_handle_event ev w IH Hev) as Hwp. unfold wpD in Hwp. by rewrite Hrun in Hwp.
Qed.


(** C13: when a transport that was not offline already goes offline, its open
    sockets and their peers are all closed and its listeners removed, so that
    the transport may be deleted ([unused] and [unreferenced] are what
    [event_ok] asks of a deletion). *)
Theorem handle_offline_correct `{HostServicesOk} w t a :
  reachable w → transports w !! t = Some a → connection_state_ a ≠ kCsOffline →
  wp (handle_offline t) (λ _ w', inv w' ∧ event_ok w' (EvDelete t)) w.
Proof.
  intros Hr Ha Hs. eapply wp_mono; [eapply wp_handle_offline; [by eapply reachable_inv|done]|].
  intros _ w' (Hi & Ht & Hu). split; [done|]. split; [done|]. by apply Hu.
Qed.
