(* ===== verification/AuthSpec.v ===== *)
(** * A device that asks for authentication
    (src/src/client/auth.cpp, src/src/adb.cpp: handle_packet)

    What a device that sends one token after the other gets back. *)

From Stdlib Require Import ZArith Lia List Ascii String.
From stdpp Require Import base numbers list strings gmap relations.
From S2P Require Import Prelude.
From S2P Require Import Libc.
From S2P Require Import Strings.
From S2P Require Import AdbIo.
From S2P Require Import IOVector.
From S2P Require Import Packet.
From S2P Require Import Connection.
From S2P Require Import Transport.
From S2P Require Import SocketSpec.
From S2P Require Listeners.
From S2P Require Import World.
From S2P Require Import Sockets.
From S2P Require Import SocketsInv.
From S2P Require Import SocketsFlow.
From S2P Require Import SocketsSafe.
From S2P Require Import HostRequest.
From S2P Require Import SmartSocket.
From S2P Require Import HandlePacket.
From S2P Require Import Auth.

(** The packets that wait to be written to a transport. *)
Definition outgoing (w : world) (t : Z) : list apacket :=
  default [] (a ← transports w !! t; write_queue_ <$> connection_ a).

(** A packet of authentication with a type and a payload. *)
Definition carries (q : apacket) (m : Z * bytes) : Prop :=
  command (msg q) = A_AUTH ∧ arg0 (msg q) = m.1 ∧ payload q = m.2.

Definition token_packet (token : bytes) : apacket := make_packet A_AUTH ADB_AUTH_TOKEN 0 token.

Section tokens.
Context `{HostServices} (keys : list Z) (public_key : bytes).
Hypothesis Hkeys : ∀ w, g_keys w = Ret (keys, w).
Hypothesis Hpublic : ∀ w, adb_auth_get_userkey w = Ret (public_key, w).

(** The answer to a token: signed with the key [i], or the public key after the
    last of them. *)
Definition auth_answer (i : nat) (token : bytes) : list (Z * bytes) :=
  match keys !! i with
  | Some key => let signature := default [] (RSA_sign key token) in
      if bool_decide (signature = []) then [] else [(ADB_AUTH_SIGNATURE, signature)]
  | None => if bool_decide (public_key = []) || (MAX_PAYLOAD_V1 <=? zlen public_key) then []
            else [(ADB_AUTH_RSAPUBLICKEY, public_key ++ [NUL])]
  end.

Fixpoint handle_tokens (t : Z) (tokens : list bytes) : M unit :=
  match tokens with
  | [] => mret tt
  | token :: tokens => handle_packet (token_packet token) t ;; handle_tokens t tokens
  end.

(** The turn of the [j]th token, and the keys that are left before it. *)
Definition turn (j : nat) : nat := j mod S (length keys).
Definition keys_left (i : nat) : list (option Z) :=
  match i with O => [] | _ => drop i ((Some <$> keys) ++ [None]) end.

Lemma turn_0 : turn 0 = 0%nat.
Proof. apply Nat.Div0.mod_0_l. Qed.
Lemma turn_S j : turn (S j) = if bool_decide (turn j = length keys) then 0%nat else S (turn j).
Proof.
  unfold turn. pose proof (Nat.mod_upper_bound j (S (length keys)) ltac:(lia)) as Hb.
  pose proof (Nat.div_mod j (S (length keys)) ltac:(lia)) as Hj. case_bool_decide as He.
  - symmetry. apply (Nat.mod_unique _ _ (S (j / S (length keys)))); lia.
  - symmetry. apply (Nat.mod_unique _ _ (j / S (length keys))); lia.
Qed.
Lemma turn_le j : (turn j ≤ length keys)%nat.
Proof. pose proof (Nat.mod_upper_bound j (S (length keys)) ltac:(lia)). unfold turn. lia. Qed.

Lemma NextKey_Ret t w a i :
  transports w !! t = Some a → keys_ a = keys_left i → (i ≤ length keys)%nat →
  NextKey t w = Ret (keys !! i, set_transports (<[t := set_keys_ (keys_left (if bool_decide (i = length keys) then 0 else S i)) a]> (transports w)) w).
Proof.
  intros Ha Hk Hi. set (all := (Some <$> keys) ++ [None]).
  assert (Hall : drop i all = (keys !! i) :: drop (S i) all).
  { apply drop_S. unfold all. destruct (decide (i = length keys)) as [->|Hne].
    - rewrite lookup_app_r by (by rewrite length_fmap). rewrite length_fmap, Nat.sub_diag. by rewrite (proj2 (lookup_ge_None keys _)).
    - destruct (lookup_lt_is_Some_2 keys i ltac:(lia)) as [k Hki]. rewrite Hki. apply lookup_app_l_Some. by rewrite list_lookup_fmap, Hki. }
  assert (Hnext : keys_left (if bool_decide (i = length keys) then 0 else S i) = drop (S i) all).
  { case_bool_decide as He; [|done]. symmetry. apply drop_ge. unfold all. rewrite length_app, length_fmap. cbn. lia. }
  assert (Hget : (match keys_ a with [] => adb_auth_get_private_keys | keys => mret keys end) w = Ret (keys !! i :: drop (S i) all, w)).
  { rewrite Hk, <-Hall. destruct i; cbn [keys_left]; [|fold all; by rewrite Hall].
    unfold adb_auth_get_private_keys, mbind, M_bind. by rewrite Hkeys. }
  rewrite Hnext. unfold NextKey, mbind, M_bind at 1, get_transport at 1. rewrite Ha. unfold M_bind at 1. rewrite Hget.
  unfold upd_transport, put_transport, mbind, M_bind, get_transport, modify. by rewrite Ha.
Qed.

(** [m] puts packets that carry [answers] at the end of the queue of [t]. *)
Definition appends (m : M unit) (t : Z) (a : atransport) (c : BlockingConnectionAdapter) (answers : list (Z * bytes)) (w : world) : Prop :=
  ∃ c' qs, m w = Ret (tt, set_transports (<[t := set_connection_ (Some c') a]> (transports w)) w) ∧
    write_queue_ c' = write_queue_ c ++ qs ∧ Forall2 carries qs answers.

Lemma appends_nothing t a c w :
  transports w !! t = Some a → connection_ a = Some c → appends (mret tt) t a c [] w.
Proof.
  intros Ha Hc. exists c, []. split_and!; [|by rewrite app_nil_r|constructor].
  replace (set_connection_ (Some c) a) with a by (destruct a; cbn in *; by rewrite Hc). rewrite insert_id by done. by destruct w.
Qed.

Lemma appends_packet arg data t a c w :
  transports w !! t = Some a → connection_ a = Some c → appends (send_packet (make_packet A_AUTH arg 0 data) t) t a c [(arg, data)] w.
Proof.
  intros Ha Hc. destruct (complete_make_packet A_AUTH arg 0 data (protocol_version a)) as (q & Hq & Hcmd & Harg & _ & Hd).
  exists (Write q c).2, [q]. split_and!; [by apply send_packet_run|done|]. constructor; [by split_and!|constructor].
Qed.

Lemma appends_signature key i token t a c w :
  transports w !! t = Some a → connection_ a = Some c → keys !! i = Some key → zlen token = TOKEN_SIZE →
  appends (result ← adb_auth_sign key token;
           if bool_decide (result = []) then mret tt else send_packet (make_packet A_AUTH ADB_AUTH_SIGNATURE 0 result) t)
    t a c (auth_answer i token) w.
Proof.
  intros Ha Hc Hi Hsize. unfold appends, adb_auth_sign, auth_answer. rewrite Hsize, Hi. change (negb (TOKEN_SIZE =? TOKEN_SIZE)) with false.
  rewrite (bind_run _ _ w w (default [] (RSA_sign key token))) by done. cbv zeta.
  case_bool_decide; [by apply appends_nothing|by apply appends_packet].
Qed.

Lemma appends_public_key i token t a c w :
  transports w !! t = Some a → connection_ a = Some c → keys !! i = None → appends (send_auth_publickey t) t a c (auth_answer i token) w.
Proof.
  intros Ha Hc Hi. unfold appends, send_auth_publickey, auth_answer. rewrite Hi, (bind_run _ _ w w public_key) by done.
  case_bool_decide; [by apply appends_nothing|]. cbn [orb]. destruct (_ <=? _); [by apply appends_nothing|by apply appends_packet].
Qed.

(** What a token does to the transport. *)
Record answered_token (i : nat) (token : bytes) (a a' : atransport) (c : BlockingConnectionAdapter) : Prop := {
  at_keys : keys_ a' = keys_left (if bool_decide (i = length keys) then 0 else S i);
  at_queue : ∃ c' qs, connection_ a' = Some c' ∧ write_queue_ c' = write_queue_ c ++ qs ∧ Forall2 carries qs (auth_answer i token);
  at_state : connection_state_ a' = if bool_decide (i = length keys) then kCsUnauthorized else kCsAuthorizing;
  at_established : (i = length keys ∨ connection_established_ready_ (connection_waitable_ a) = true) → connection_established_ready_ (connection_waitable_ a') = true
}.

Lemma put_put w t a b :
  set_transports (<[t := b]> (transports (set_transports (<[t := a]> (transports w)) w))) (set_transports (<[t := a]> (transports w)) w) =
  set_transports (<[t := b]> (transports w)) w.
Proof. destruct w. unfold set_transports. cbn. by rewrite insert_insert_eq. Qed.

Lemma upd_transport_Ret t f w a :
  transports w !! t = Some a → upd_transport t f w = Ret (tt, set_transports (<[t := f a]> (transports w)) w).
Proof. intros Ha. unfold upd_transport, put_transport, mbind, M_bind, get_transport, modify. by rewrite Ha. Qed.

Lemma token_Ret t w a c i token :
  transports w !! t = Some a → connection_ a = Some c → keys_ a = keys_left i → (i ≤ length keys)%nat → zlen token = TOKEN_SIZE →
  ∃ a', handle_packet (token_packet token) t w = Ret (tt, set_transports (<[t := a']> (transports w)) w) ∧ answered_token i token a a' c.
Proof.
  intros Ha Hc Hk Hi Hsize. unfold handle_packet. rewrite (bind_run _ _ w w tt).
  2:{ unfold check, lift, token_packet. cbn. by rewrite Hsize. }
  cbv zeta. change (command (msg (token_packet token))) with A_AUTH. rewrite Z.eqb_refl. change (A_AUTH =? A_CNXN) with false. cbn beta iota.
  unfold handle_auth. change (arg0 (msg (token_packet token))) with ADB_AUTH_TOKEN. rewrite Z.eqb_refl.
  rewrite (bind_run _ _ w _ tt (upd_transport_Ret _ _ _ _ Ha)). set (a1 := SetConnectionState kCsAuthorizing a).
  set (w1 := set_transports _ w). assert (Ha1 : transports w1 !! t = Some a1) by apply lookup_insert_eq.
  unfold send_auth_response. rewrite (bind_run _ _ _ _ _ (NextKey_Ret t w1 a1 i Ha1 Hk Hi)). unfold w1. rewrite put_put.
  set (a2 := set_keys_ _ a1). set (w2 := set_transports _ w). assert (Ha2 : transports w2 !! t = Some a2) by apply lookup_insert_eq.
  change (payload (token_packet token)) with token.
  destruct (keys !! i) as [key|] eqn:Hki.
  - apply lookup_lt_Some in Hki as Hlt. destruct (appends_signature key i token t a2 c w2 Ha2 Hc Hki Hsize) as (c' & qs & -> & Hq & Hqs).
    unfold w2. rewrite put_put. eexists. split; [done|]. constructor; [done| |by rewrite bool_decide_eq_false_2 by lia|by intros [?|?]; [lia|]].
    by exists c', qs.
  - apply lookup_ge_None in Hki as Hge. assert (i = length keys) as Hn by lia.
    rewrite (bind_run _ _ w2 _ tt (upd_transport_Ret _ _ _ _ Ha2)). unfold w2. rewrite put_put.
    set (a3 := SetConnectionState _ a2). set (w3 := set_transports _ w). assert (Ha3 : transports w3 !! t = Some a3) by apply lookup_insert_eq.
    rewrite (bind_run _ _ w3 _ tt (upd_transport_Ret _ _ _ _ Ha3)). unfold w3. rewrite put_put.
    set (a4 := SetConnectionEstablished _ a3). set (w4 := set_transports _ w). assert (Ha4 : transports w4 !! t = Some a4) by apply lookup_insert_eq.
    destruct (appends_public_key i token t a4 c w4 Ha4 Hc Hki) as (c' & qs & -> & Hq & Hqs).
    unfold w4. rewrite put_put. eexists. split; [done|]. constructor; [done| |by rewrite bool_decide_eq_true_2|].
    + by exists c', qs.
    + intros _. cbn. unfold Waitable_SetConnectionEstablished. by destruct (connection_established_ready_ (connection_waitable_ a)) eqn:E.
Qed.

(** The tokens of one device, from its first on. *)
Fixpoint auth_answers (j : nat) (tokens : list bytes) : list (Z * bytes) :=
  match tokens with
  | [] => []
  | token :: tokens => auth_answer (turn j) token ++ auth_answers (S j) tokens
  end.

Lemma auth_answers_concat j tokens : auth_answers j tokens = concat (imap (λ i token, auth_answer (turn (j + i)) token) tokens).
Proof.
  revert j. induction tokens as [|token tokens IH]; intros j; [done|]. rewrite imap_cons. cbn [auth_answers concat].
  rewrite Nat.add_0_r, IH. do 2 f_equal. apply imap_ext. intros i x _. cbn. by rewrite Nat.add_succ_r.
Qed.

Lemma tokens_Ret t tokens j w a c :
  transports w !! t = Some a → connection_ a = Some c → keys_ a = keys_left (turn j) → Forall (λ token, zlen token = TOKEN_SIZE) tokens →
  ∃ w' a' c' qs, handle_tokens t tokens w = Ret (tt, w') ∧ transports w' !! t = Some a' ∧ connection_ a' = Some c' ∧
    write_queue_ c' = write_queue_ c ++ qs ∧ Forall2 carries qs (auth_answers j tokens) ∧
    (tokens ≠ [] → connection_state_ a' = if bool_decide (turn (j + length tokens - 1) = length keys) then kCsUnauthorized else kCsAuthorizing) ∧
    (connection_established_ready_ (connection_waitable_ a) = true ∨ (turn j + length tokens > length keys)%nat →
     connection_established_ready_ (connection_waitable_ a') = true).
Proof.
  revert j w a c. induction tokens as [|token tokens IH]; intros j w a c Ha Hc Hk Hsize.
  { exists w, a, c, []. pose proof (turn_le j). cbn [length]. rewrite app_nil_r. split_and!; try done. intros [?|?]; [done|lia]. }
  inversion_clear Hsize as [|? ? Htok Hrest].
  destruct (token_Ret t w a c (turn j) token Ha Hc Hk (turn_le j) Htok) as (a1 & Hr1 & [Hk1 (c1 & q1 & Hc1 & Hq1 & Hf1) Hs1 He1]).
  rewrite <-turn_S in Hk1. set (w1 := set_transports (<[t := a1]> (transports w)) w) in *.
  destruct (IH (S j) w1 a1 c1) as (w' & a' & c' & qs & Hr & Ha' & Hc' & Hq & Hf & Hs & He); [apply lookup_insert_eq|done..|].
  exists w', a', c', (q1 ++ qs). split; [by cbn [handle_tokens]; rewrite (bind_run _ _ w w1 tt)|]. split_and!; try done.
  - by rewrite Hq, Hq1, app_assoc.
  - by apply Forall2_app.
  - intros _. destruct tokens as [|x tokens]; [|rewrite Hs by done; by replace (S j + length (x :: tokens) - 1)%nat with (j + length (token :: x :: tokens) - 1)%nat by (cbn; lia)].
    cbn [handle_tokens] in Hr. injection Hr as <-. assert (a' = a1) as ->.
    { unfold w1 in Ha'. cbn [transports set_transports] in Ha'. rewrite lookup_insert_eq in Ha'. by injection Ha'. }
    cbn [length]. by replace (j + 1 - 1)%nat with j by lia.
  - intros Hready. apply He. rewrite turn_S. cbn [length] in Hready. destruct (decide (turn j = length keys)) as [Heq|Hneq]; [left; apply He1; by left|rewrite bool_decide_eq_false_2 by done].
    destruct Hready as [Hready|Hready]; [left; apply He1; by right|right; lia].
Qed.

(** C15: a device that sends one token after the other gets back, in this order
    and nothing else: the token signed with each of the private keys in turn, then
    the public key, and then the keys again.  When it has been sent the public key
    the transport is unauthorized, until the next token, and whoever waits for the
    connection waits no more. *)
Theorem tokens_answered_in_turn t tokens w a c :
  transports w !! t = Some a → connection_ a = Some c → keys_ a = [] → Forall (λ token, zlen token = TOKEN_SIZE) tokens →
  ∃ w' a' qs, handle_tokens t tokens w = Ret (tt, w') ∧ transports w' !! t = Some a' ∧
    outgoing w' t = outgoing w t ++ qs ∧
    Forall2 carries qs (concat (imap (λ j token, auth_answer (j mod S (length keys)) token) tokens)) ∧
    (tokens ≠ [] → connection_state_ a' = if bool_decide ((length tokens - 1) mod S (length keys) = length keys)%nat then kCsUnauthorized else kCsAuthorizing) ∧
    ((length keys < length tokens)%nat → connection_established_ready_ (connection_waitable_ a') = true).
Proof.
  intros Ha Hc Hk Hsize. destruct (tokens_Ret t tokens 0 w a c Ha Hc) as (w' & a' & c' & qs & Hr & Ha' & Hc' & Hq & Hf & Hs & He).
  { by rewrite turn_0. }
  { done. }
  exists w', a', qs. split_and!; try done.
  - unfold outgoing. rewrite Ha, Ha'. cbn. by rewrite Hc, Hc'.
  - by rewrite auth_answers_concat in Hf.
  - intros Hl. apply He. rewrite turn_0. right. lia.
Qed.
End tokens.
