(* ===== verification/HostSpec.v ===== *)
(** * What a request to the server does
    (src/src/adb.cpp: handle_host_request)

    The specification of the requests that are about transports, and that
    [handle_host_request] implements it: which transport a client selects, which
    transports are kicked, and that the other requests only answer. *)

From Stdlib Require Import ZArith Lia List Ascii String.
From stdpp Require Import base numbers list strings gmap.
From S2P Require Import Prelude.
From S2P Require Import Libc.
From S2P Require Import Strings.
From S2P Require Import AdbIo.
From S2P Require Import IOVector.
From S2P Require Import Packet.
From S2P Require Import Connection.
From S2P Require Import Transport.
From S2P Require Import SocketSpec.
From S2P Require Listeners.
From S2P Require Import World.
From S2P Require Import Sockets.
From S2P Require Import SocketsInv.
From S2P Require Import SocketsSafe.
From S2P Require Import HostRequest.
From S2P Require Import SmartSocket.
From S2P Require Import HandlePacket.
From S2P Require Import HostSafe.
From S2P Require Import SmartSafe.
From S2P Require Import ServerSafe.

(** ** The specification *)

(** A transport that is kicked: its connection is asked to stop, once. *)
Definition kicked (a : atransport) : atransport :=
  if kicked_ a then a else set_connection_ (Stop_enter <$> connection_ a) (set_kicked_ true a).

(** The transports [c] holds of are kicked. *)
Definition kicked_where (c : Z → atransport → bool) (m : gmap Z atransport) : gmap Z atransport :=
  map_imap (λ t a, Some (if c t a then kicked a else a)) m.

(** [w] but for what has been written to [n]. *)
Definition answered (n : Z) (w w' : world) : Prop := ∃ m, w' = set_wrs (<[n := m]> (wrs w)) w.

Section spec.
Context `{HostServices}.

(** Requests for a property of one transport, and for one of the server. *)
Definition description (service : bytes) : option (atransport → bytes) :=
  if bool_decide (service = $"features") then Some (λ a, FeatureSetToString (feature_order (features_ a)))
  else if bool_decide (service = $"get-serialno") then Some (λ a, or_unknown (serial a))
  else if bool_decide (service = $"get-devpath") then Some (λ a, or_unknown (devpath a))
  else if bool_decide (service = $"get-state") then Some (connection_state_name udev_problem)
  else None.
Definition report (service : bytes) (w : world) : option bytes :=
  if bool_decide (service = $"devices") then Some (list_transports udev_problem (snd <$> listing w) false)
  else if bool_decide (service = $"devices-l") then Some (list_transports udev_problem (snd <$> listing w) true)
  else if bool_decide (service = $"version") then Some $"0028"
  else if bool_decide (service = $"host-features") then Some (FeatureSetToString (feature_order host_features))
  else None.

(** The transport a [disconnect:] is about. *)
Definition disconnects_one (address : bytes) (w : world) : option Z :=
  match ParseNetAddress address DEFAULT_ADB_LOCAL_TRANSPORT_PORT with
  | Ret (inr a) => find_serial (na_canonical a) (listing w)
  | _ => None
  end.

(** Which transports a request kicks, if it is one that kicks. *)
Definition kicks (service : bytes) (ty : TransportType) (sn : option bytes) (i : Z) (w : world) : option (Z → atransport → bool) :=
  if bool_decide (service = $"reconnect-offline") then
    Some (λ t a, bool_decide (t ∈ transport_list w) && negb (ConnectionStateIsOnline (connection_state_ a)))
  else if bool_decide (service = $"disconnect:") then Some (λ t a, bool_decide (t ∈ transport_list w) && IsTcpDevice a)
  else if starts_with service $"disconnect:" then Some (λ t _, bool_decide (disconnects_one (drop 11 service) w = Some t))
  else if bool_decide (service = $"reconnect") then Some (λ t _, bool_decide (fst <$> acquired_by ty sn i true w = Some t))
  else None.

Definition host_spec (service : bytes) (ty : TransportType) (sn : option bytes) (i n : Z) (p : ptr) (s : asocket)
    (w : world) (handled : bool) (w' : world) : Prop :=
  if starts_with service $"transport" then
    match (match transport_args service sn i with Some (ty, sn, i) => acquired_by ty sn i false w | None => None end) with
    | Some (t, _) => handled = false ∧ answered n (set_sockets (<[p := set_transport (Some t) s]> (sockets w)) w) w'
    | None => handled = true ∧ ∃ e, reply_fail n e w = Ret (tt, w')
    end
  else match report service w, description service, kicks service ty sn i w with
       | Some r, _, _ => handled = true ∧ reply_okay n r w = Ret (tt, w')
       | None, Some what, _ =>
           handled = true ∧
           match acquired_by ty sn i false w with
           | Some (_, a) => reply_okay n (what a) w = Ret (tt, w')
           | None => ∃ e, e ≠ $"success" ∧ reply_fail n e w = Ret (tt, w')
           end
       | None, None, Some c => handled = true ∧ answered n (set_transports (kicked_where c (transports w)) w) w'
       | None, None, None => True
       end.

(** The requests the specification is about. *)
Definition specified (service : bytes) : bool :=
  starts_with service $"transport" || starts_with service $"disconnect:" ||
  bool_decide (service ∈ [$"devices"; $"devices-l"; $"version"; $"host-features"; $"features"; $"get-serialno";
    $"get-devpath"; $"get-state"; $"reconnect-offline"; $"reconnect"]).
End spec.

(** ** Kicking *)

Lemma kicked_idem a : kicked (kicked a) = kicked a.
Proof. unfold kicked. destruct (kicked_ a) eqn:E; [by rewrite E|done]. Qed.

Lemma kicked_where_lookup c m t : kicked_where c m !! t = (λ a, if c t a then kicked a else a) <$> m !! t.
Proof. unfold kicked_where. rewrite map_lookup_imap. by destruct (m !! t). Qed.

Lemma set_transports_same w m : m = transports w → set_transports m w = w.
Proof. intros ->. by destruct w. Qed.

Lemma Kick_Ret t a w :
  inv w → transports w !! t = Some a → Kick t w = Ret (tt, set_transports (<[t := kicked a]> (transports w)) w).
Proof.
  intros Hinv Ha. destruct (iv_conn ∅ w Hinv t a Ha) as [[c Hc] _]. unfold Kick, mbind, M_bind, get_transport. rewrite Ha. unfold kicked.
  destruct (kicked_ a); [|by rewrite Hc]. rewrite set_transports_same; [done|]. by apply insert_id.
Qed.

Lemma inv_kicked w t a : inv w → transports w !! t = Some a → inv (set_transports (<[t := kicked a]> (transports w)) w).
Proof.
  intros Hinv Ha. apply inv_put_transport; [done|]. destruct (iv_conn ∅ w Hinv t a Ha) as [[c Hc] Hn]. unfold kicked.
  destruct (kicked_ a); [by split; [eexists|]|]. split; [|done]. cbn. rewrite Hc. by eexists.
Qed.

Lemma kick_where_Ret {S} (predicate : atransport → S → bool * S) (c : atransport → bool) ts s w :
  inv w → (∀ t, t ∈ ts → is_Some (transports w !! t)) → (∀ a s, (predicate a s).1 = c a) → (∀ a, c (kicked a) = c a) →
  ∃ s', kick_where predicate ts s w = Ret (s', set_transports (kicked_where (λ t a, bool_decide (t ∈ ts) && c a) (transports w)) w).
Proof.
  intros Hinv Hts Hp Hc. revert s w Hinv Hts. induction ts as [|t ts IH]; intros s w Hinv Hts; cbn [kick_where].
  { exists s. rewrite set_transports_same; [done|]. apply map_eq. intros u. rewrite kicked_where_lookup. by destruct (transports w !! u). }
  destruct (Hts t ltac:(by left)) as [a Ha]. unfold mbind, M_bind, get_transport. rewrite Ha.
  specialize (Hp a s) as Hpa. destruct (predicate a s) as [b s']. cbn in Hpa. subst b. destruct (c a) eqn:Eca.
  - rewrite (Kick_Ret t a) by done. destruct (IH s' _ (inv_kicked w t a Hinv Ha)) as (s2 & ->).
    { intros u Hu. apply transport_put_some, Hts. by right. }
    exists s2. do 2 f_equal. cbn. unfold set_transports. cbn. f_equal. apply map_eq. intros u. rewrite !kicked_where_lookup.
    destruct (decide (u = t)) as [->|Hne].
    + rewrite lookup_insert_eq, Ha. cbn. rewrite Hc, Eca. rewrite (bool_decide_eq_true_2 (t ∈ t :: ts)) by by left. cbn.
      rewrite kicked_idem. by destruct (bool_decide (t ∈ ts)).
    + rewrite lookup_insert_ne by done. destruct (transports w !! u); [|done]. cbn. do 2 f_equal.
      rewrite (bool_decide_ext (u ∈ t :: ts) (u ∈ ts)); [done|]. rewrite elem_of_cons. tauto.
  - destruct (IH s' w Hinv) as (s2 & Hr). { intros u Hu. apply Hts. by right. }
    exists s2. cbn. rewrite Hr. do 2 f_equal. f_equal. apply map_eq. intros u. rewrite !kicked_where_lookup.
    destruct (transports w !! u) as [b|] eqn:Hb; [|done]. cbn. f_equal. destruct (decide (u = t)) as [->|Hne].
    + assert (b = a) as -> by congruence. rewrite Eca, !andb_false_r. done.
    + rewrite (bool_decide_ext (u ∈ t :: ts) (u ∈ ts)); [done|]. rewrite elem_of_cons. tauto.
Qed.

(** ** The requests *)

Lemma reply_Ret n f w : sends f → ∃ m, reply n f w = Ret (tt, set_wrs (<[n := m]> (wrs w)) w).
Proof. intros Hf. unfold reply. destruct (Hf (default (mkWrFd [] []) (wrs w !! n))) as (ok & fd' & ->). by eexists. Qed.

Lemma reply_okay_Ret n s w : ∃ w', reply_okay n s w = Ret (tt, w') ∧ answered n w w'.
Proof.
  unfold reply_okay, mbind, M_bind. destruct (reply_Ret n SendOkay w sends_okay) as [m ->].
  destruct (reply_Ret n (λ fd, SendProtocolString fd s) (set_wrs (<[n := m]> (wrs w)) w) (sends_string s)) as [m' ->].
  eexists. split; [done|]. exists m'. unfold set_wrs. cbn. by rewrite insert_insert_eq.
Qed.

Lemma reply_fail_Ret n s w : ∃ w', reply_fail n s w = Ret (tt, w') ∧ answered n w w'.
Proof. unfold reply_fail. destruct (reply_Ret n (λ fd, SendFail fd s) w (sends_fail s)) as [m ->]. eexists. split; [done|]. by eexists. Qed.

(** Ends with the answer [f]. *)
Ltac answer f :=
  unfold mbind, M_bind;
  let w' := fresh "w'" in let Hr := fresh "Hr" in let Hans := fresh "Hans" in
  destruct f as (w' & Hr & Hans); rewrite ?Hr; exists w'; split; [reflexivity|].

Section requests.
Context `{Hok : HostServicesOk}.

Lemma select_Ret service sn i n p s w :
  inv w → sockets w !! p = Some s →
  ∃ handled w', select_transport service sn i n p w = Ret (handled, w') ∧
    match (match transport_args service sn i with Some (ty, sn, i) => acquired_by ty sn i false w | None => None end) with
    | Some (t, _) => handled = false ∧ answered n (set_sockets (<[p := set_transport (Some t) s]> (sockets w)) w) w'
    | None => handled = true ∧ ∃ e, reply_fail n e w = Ret (tt, w')
    end.
Proof.
  intros Hinv Hp. unfold select_transport. destruct (transport_args service sn i) as [[[ty sn'] i']|].
  2:{ exists true. answer (reply_fail_Ret n $"invalid transport id" w). by eauto. }
  destruct (acquire_world ty sn' i' false w Hinv) as (e & Ha & _). unfold mbind at 1, M_bind at 1. rewrite Ha.
  destruct (acquired_by ty sn' i' false w) as [[t a]|].
  - exists false. unfold mbind, M_bind, upd_sock, put_sock, get_sock. cbn. unfold mbind, M_bind. rewrite Hp. cbn.
    destruct (reply_Ret n SendOkay (set_sockets (<[p := set_transport (Some t) s]> (sockets w)) w) sends_okay) as [m ->].
    eexists. split; [done|]. split; [done|]. by exists m.
  - exists true. answer (reply_fail_Ret n e w). by eauto.
Qed.

Lemma describe_Ret ty sn i n what w :
  inv w → ∃ w', describe ty sn i n what w = Ret (true, w') ∧
    match acquired_by ty sn i false w with
    | Some (_, a) => reply_okay n (what a) w = Ret (tt, w')
    | None => ∃ e, e ≠ $"success" ∧ reply_fail n e w = Ret (tt, w')
    end.
Proof.
  intros Hinv. unfold describe. destruct (acquire_world ty sn i false w Hinv) as (e & Ha & He). unfold mbind at 1, M_bind at 1. rewrite Ha.
  destruct (acquired_by ty sn i false w) as [[t a]|].
  - answer (reply_okay_Ret n (what a) w). done.
  - answer (reply_fail_Ret n e w). exists e. split; [|done]. intros Hs. by apply He in Hs as [? ?].
Qed.

Lemma kick_transport_Ret t a w :
  inv w → t ∈ transport_list w → transports w !! t = Some a →
  kick_transport t w = Ret (tt, set_transports (kicked_where (λ u _, bool_decide (Some t = Some u)) (transports w)) w).
Proof.
  intros Hinv Ht Ha. unfold kick_transport, mbind, M_bind, gets. rewrite bool_decide_eq_true_2 by done. rewrite (Kick_Ret t a) by done.
  do 3 f_equal. apply map_eq. intros u. rewrite kicked_where_lookup. destruct (decide (u = t)) as [->|Hne].
  - rewrite lookup_insert_eq, Ha. cbn. by rewrite bool_decide_eq_true_2.
  - rewrite lookup_insert_ne by done. destruct (transports w !! u); [|done]. cbn. by rewrite bool_decide_eq_false_2 by congruence.
Qed.

Lemma kicked_none m : kicked_where (λ u _, bool_decide ((None : option Z) = Some u)) m = m.
Proof. apply map_eq. intros u. rewrite kicked_where_lookup. by destruct (m !! u). Qed.

Lemma reconnect_Ret ty sn i n w :
  inv w → ∃ w', reconnect_request ty sn i n w = Ret (true, w') ∧
    answered n (set_transports (kicked_where (λ t _, bool_decide (fst <$> acquired_by ty sn i true w = Some t)) (transports w)) w) w'.
Proof.
  intros Hinv. unfold reconnect_request. destruct (acquire_world ty sn i true w Hinv) as (e & Ha & _). unfold mbind at 1, M_bind at 1. rewrite Ha.
  destruct (acquired_by ty sn i true w) as [[t a]|] eqn:E; cbn [fmap option_fmap option_map fst].
  - apply acquired_listed in E as [Ht Hta].
    match goal with |- context [kicked_where ?c _] => set (w1 := set_transports (kicked_where c (transports w)) w) end.
    assert (Hw1 : transports w1 !! t = Some (kicked a)).
    { unfold w1. cbn. rewrite kicked_where_lookup, Hta. cbn. by rewrite bool_decide_eq_true_2. }
    set (r := $"reconnecting " ++ serial_name (kicked a) ++ $" [" ++ connection_state_name udev_problem (kicked a) ++ $"]" ++ [newline]).
    destruct (reply_okay_Ret n r w1) as (w2 & Hr & Hans). exists w2. split; [|done].
    rewrite (bind_run _ _ w w1 r); [by rewrite (bind_run _ _ w1 w2 tt)|].
    rewrite (bind_run _ _ w w1 tt) by by apply (kick_transport_Ret t a).
    unfold mbind, M_bind, get_transport. by rewrite Hw1.
  - rewrite kicked_none, set_transports_same by done. destruct (reply_okay_Ret n e w) as (w2 & Hr & Hans).
    exists w2. split; [|done]. rewrite (bind_run _ _ w w e) by done. by rewrite (bind_run _ _ w w2 tt).
Qed.

Lemma find_serial_listed sn l t : find_serial sn l = Some t → ∃ a, (t, a) ∈ l.
Proof.
  induction l as [|[u a] l IH]; cbn; [done|]. case_bool_decide; [intros [= ->]; exists a; by left|].
  intros [b Hb]%IH. exists b. by right.
Qed.

Lemma disconnect_Ret address n w :
  inv w → ∃ w', disconnect_request address n w = Ret (true, w') ∧
    answered n (set_transports (kicked_where (if bool_decide (address = []) then λ t a, bool_decide (t ∈ transport_list w) && IsTcpDevice a
      else λ t _, bool_decide (disconnects_one address w = Some t)) (transports w)) w) w'.
Proof.
  intros Hinv. unfold disconnect_request. destruct (bool_decide (address = [])) eqn:Eaddr.
  - unfold kick_all_tcp_devices, mbind at 1, M_bind at 1, mbind at 1, M_bind at 1, gets.
    destruct (kick_where_Ret (λ a (s : unit), (IsTcpDevice a, s)) IsTcpDevice (transport_list w) tt w Hinv) as ([] & ->).
    + apply (iv_registered ∅ w Hinv).
    + done.
    + intros a. unfold IsTcpDevice, kicked. by destruct (kicked_ a).
    + match goal with |- context [set_transports ?m w] => destruct (reply_okay_Ret n $"disconnected everything" (set_transports m w)) as (w2 & Hr & Hans) end.
      exists w2. unfold mbind, M_bind. by rewrite Hr.
  - unfold disconnects_one. destruct (ParseNetAddress_total address DEFAULT_ADB_LOCAL_TRANSPORT_PORT) as [r Hr]. rewrite Hr.
    unfold mbind at 1, M_bind at 1, lift. destruct r as [e|a].
    { rewrite kicked_none, set_transports_same by done. answer (reply_fail_Ret n ($"couldn't parse '" ++ address ++ $"': " ++ c_str (net_error_text address e)) w). done. }
    unfold mbind at 1, M_bind at 1, find_transport, mbind at 1, M_bind at 1. rewrite listed_Ret by done. cbn [mret M_ret].
    destruct (find_serial (na_canonical a) (listing w)) as [t|] eqn:E.
    + apply find_serial_listed in E as (b & [Ht Hb]%elem_of_listing). unfold mbind, M_bind. rewrite (kick_transport_Ret t b) by done.
      match goal with |- context [reply_okay n ?r ?w1] => destruct (reply_okay_Ret n r w1) as (w2 & Hr2 & Hans) end.
      exists w2. by rewrite Hr2.
    + rewrite kicked_none, set_transports_same by done. answer (reply_fail_Ret n ($"no such device '" ++ c_str (na_canonical a) ++ $"'") w). done.
Qed.

Lemma reconnect_offline_Ret n w :
  inv w → ∃ w', reconnect_offline n w = Ret (true, w') ∧
    answered n (set_transports (kicked_where (λ t a, bool_decide (t ∈ transport_list w) && negb (ConnectionStateIsOnline (connection_state_ a))) (transports w)) w) w'.
Proof.
  intros Hinv. unfold reconnect_offline, close_usb_devices, mbind at 1, M_bind at 1, mbind at 1, M_bind at 1, gets.
  destruct (kick_where_Ret reconnecting (λ a, negb (ConnectionStateIsOnline (connection_state_ a))) (transport_list w) [] w Hinv) as (r & ->).
  - apply (iv_registered ∅ w Hinv).
  - intros a r. unfold reconnecting. by destruct (negb _).
  - intros a. unfold kicked. by destruct (kicked_ a).
  - unfold mbind, M_bind.
    match goal with |- context [reply_okay n ?x (set_transports ?m w)] => destruct (reply_okay_Ret n x (set_transports m w)) as (w2 & Hr & Hans) end.
    exists w2. by rewrite Hr.
Qed.

Lemma report_Ret n r w : inv w → ∃ w', (reply_okay n r ;; mret true) w = Ret (true, w') ∧ reply_okay n r w = Ret (tt, w').
Proof. intros Hinv. answer (reply_okay_Ret n r w). done. Qed.

Lemma devices_Ret n long w :
  inv w → ∃ w', (l ← listed_transports; reply_okay n (list_transports udev_problem (snd <$> l) long)) w = Ret (tt, w') ∧
    reply_okay n (list_transports udev_problem (snd <$> listing w) long) w = Ret (tt, w').
Proof.
  intros Hinv. rewrite (bind_run _ _ w w (listing w)) by by apply listed_Ret.
  destruct (reply_okay_Ret n (list_transports udev_problem (snd <$> listing w) long) w) as (w' & Hr & _). by exists w'.
Qed.

Lemma starts_disconnect service : starts_with service $"disconnect:" = true → service = $"disconnect:" ++ drop 11 service.
Proof. intros [k ->]%prefix_of_spec. done. Qed.

(** Evaluates the tests on a known request. *)
Ltac compare :=
  repeat match goal with
  | |- context [bool_decide (?x = ?y)] => let v := eval vm_compute in (bool_decide (x = y)) in change (bool_decide (x = y)) with v
  | |- context [starts_with ?x ?y] => let v := eval vm_compute in (starts_with x y) in change (starts_with x y) with v
  end; cbn beta iota; cbn [orb].

Lemma handle_disconnect address ty sn i n p w :
  handle_host_request ($"disconnect:" ++ address) ty sn i n p w = disconnect_request address n w.
Proof. unfold handle_host_request. repeat (rewrite bool_decide_eq_false_2 by (intros ?; discriminate)). reflexivity. Qed.

Lemma spec_disconnect address ty sn i n p s w handled w' :
  handled = true →
  answered n (set_transports (kicked_where (if bool_decide (address = []) then λ t a, bool_decide (t ∈ transport_list w) && IsTcpDevice a
      else λ t _, bool_decide (disconnects_one address w = Some t)) (transports w)) w) w' →
  host_spec ($"disconnect:" ++ address) ty sn i n p s w handled w'.
Proof.
  intros Hh Ha. unfold host_spec, report, description, kicks. destruct address as [|c address].
  { compare. done. }
  repeat (rewrite bool_decide_eq_false_2 by (intros ?; discriminate)). rewrite bool_decide_eq_false_2 in Ha by done. done.
Qed.

Lemma host_request_run service ty sn i n p s w :
  inv w → sockets w !! p = Some s → specified service = true →
  ∃ handled w', handle_host_request service ty sn i n p w = Ret (handled, w') ∧ host_spec service ty sn i n p s w handled w'.
Proof.
  intros Hinv Hp Hsp. unfold specified in Hsp. destruct (starts_with service $"transport") eqn:Et.
  { unfold host_spec, handle_host_request. rewrite Et, bool_decide_eq_false_2 by by intros ->. by apply select_Ret. }
  destruct (starts_with service $"disconnect:") eqn:Ed; cbn [orb] in Hsp.
  - rewrite (starts_disconnect service Ed), handle_disconnect. destruct (disconnect_Ret (drop 11 service) n w Hinv) as (w' & Hr & Ha).
    exists true, w'. split; [done|]. by apply spec_disconnect.
  - apply bool_decide_eq_true in Hsp. clear Et Ed. exists true.
    repeat (apply elem_of_cons in Hsp as [->|Hsp]); [..|by apply not_elem_of_nil in Hsp];
      unfold host_spec, handle_host_request, report, description, kicks; compare.
    + destruct (devices_Ret n false w Hinv) as (w' & Hr & Ha). exists w'. split; [|done]. by rewrite (bind_run _ _ w w' tt).
    + destruct (devices_Ret n true w Hinv) as (w' & Hr & Ha). exists w'. split; [|done]. by rewrite (bind_run _ _ w w' tt).
    + destruct (report_Ret n (print_hex_pad 4 ADB_SERVER_VERSION) w Hinv) as (w' & Hr & Ha). by exists w'.
    + destruct (report_Ret n (FeatureSetToString (feature_order host_features)) w Hinv) as (w' & Hr & Ha). by exists w'.
    + destruct (describe_Ret ty sn i n (λ a, FeatureSetToString (feature_order (features_ a))) w Hinv) as (w' & Hr & Ha). by exists w'.
    + destruct (describe_Ret ty sn i n (λ a, or_unknown (serial a)) w Hinv) as (w' & Hr & Ha). by exists w'.
    + destruct (describe_Ret ty sn i n (λ a, or_unknown (devpath a)) w Hinv) as (w' & Hr & Ha). by exists w'.
    + destruct (describe_Ret ty sn i n (connection_state_name udev_problem) w Hinv) as (w' & Hr & Ha). by exists w'.
    + destruct (reconnect_offline_Ret n w Hinv) as (w' & Hr & Ha). by exists w'.
    + destruct (reconnect_Ret ty sn i n w Hinv) as (w' & Hr & Ha). by exists w'.
Qed.

End requests.
