(* ===== verification/Scenarios.v ===== *)
(** * Runs of the server
    (src/src/adb.cpp, sockets.cpp)

    Concrete runs, computed: a forwarded connection that is opened, written to
    and closed, and what happens at the edges [event_ok] leaves out.  The
    reachable worlds also serve to apply the theorems to. *)

From Stdlib Require Import ZArith Lia List Ascii String.
From stdpp Require Import base numbers list strings gmap.
From S2P Require Import Prelude.
From S2P Require Import Libc.
From S2P Require Import AdbIo.
From S2P Require Import Wire.
From S2P Require Import IOVector.
From S2P Require Import Packet.
From S2P Require Import Connection.
From S2P Require Import Transport.
From S2P Require Listeners.
From S2P Require Import World.
From S2P Require Import Sockets.
From S2P Require Import SocketsInv.
From S2P Require Import SocketsFlow.
From S2P Require Import SocketsSafe.
From S2P Require Import HostRequest.
From S2P Require Import SmartSocket.
From S2P Require Import HandlePacket.
From S2P Require Import HostSafe.
From S2P Require Import SmartSafe.
From S2P Require Import ServerSafe.
From S2P Require Import Auth.
From S2P Require Import AuthSpec.
From S2P Require Import HostSpec.

Abbreviation handle := (handle_event (H := tracker_services)).

Definition after (w : world) (ev : event) : world :=
  match handle ev w with Ret (_, w') => w' | Abort _ => w end.
Definition runs (w : world) (ev : event) : bool :=
  match handle ev w with Ret _ => true | Abort _ => false end.

Definition packet (cmd a0 a1 : Z) (data : bytes) : apacket := make_packet cmd a0 a1 data.

(** The server listens, and a device is connected and online. *)
Definition device (i : Z) : atransport :=
  set_online true (set_serial $"emulator-5554" (set_connection_ (Some adapter_new) (atransport_new i kCsDevice))).
Definition w_listen : world := after world_init (EvListen $"tcp:5037").
Definition w_device : world := after (after w_listen (EvNew 1 (device 1))) (EvList 1).

(** A client connects to the [n]th listener. *)
Definition no_listener : Listeners.alistener := Listeners.mkListener 0 0 [] [] None false.
Definition accept (k : nat) (n : Z) (w : world) : world := after w (EvAccept (nth k (listeners w) no_listener) n).
(** The client behind the socket [p] on the descriptor [n] writes; what it reads
    is kept in [wrs]. *)
Definition writes (p n : Z) (data : bytes) (w : world) : world :=
  after (after w (EvFds {[n := [RdData data; RdErr EAGAIN]]} {[n := mkWrFd (replicate 9 (WrTake 99)) []]})) (EvSocket p true false).

(** A client asks for a redirection. *)
Definition w_client : world := accept 0 5 w_device.
Definition w_asked : world := writes 0 5 $"001ehost:forward:tcp:7000;tcp:5000" w_client.

(** A connection to it is accepted; the device has opened its end; the client
    does not read. *)
Definition w_forward : world := accept 1 7 w_asked.
Definition w_open : world := after w_forward (EvPacket (packet A_OKAY 77 2 []) 1).
Definition busy (n : Z) : gmap Z wr_fd := {[n := mkWrFd [WrTake 2; WrErr EAGAIN] []]}.
Definition w_busy : world := after w_open (EvFds ∅ (busy 7)).
Definition w_queued : world := after w_busy (EvPacket (packet A_WRTE 77 2 $"hello") 1).

Definition summary (w : world) : list (ptr * (Z * option ptr * bool * option Z * bytes)) :=
  (λ '(p, s), (p, (s_id s, peer s, closing s, transport s, bytes_of (packet_queue s)))) <$> map_to_list (sockets w).

(** The connection goes away while the client still has data to come. *)
Definition w_gone : world := after (after w_queued (EvError 1)) (EvDelete 1).
(** A second device. *)
Definition w_two : world := after (after w_forward (EvNew 2 (device 2))) (EvList 2).

(** ** The runs *)

Example w_asked_ex :
  summary w_asked = [] ∧
  (λ l, (Listeners.local_name l, Listeners.connect_to l, Listeners.l_transport l)) <$> listeners w_asked =
    [($"tcp:5037", Listeners.smartsocket, None); ($"tcp:7000", $"tcp:5000", Some 1)] ∧
  disconnects w_asked !! 1 = Some [1].
Proof. vm_compute. split_and!; reflexivity. Qed.
Example w_forward_ex : summary w_forward = [(2, (2, None, false, Some 1, []))].
Proof. vm_compute. reflexivity. Qed.
Example w_queued_ex : list_to_set (C := gset _) (summary w_queued) =
  ({[ (3, (77, Some 2, false, Some 1, [])); (2, (2, Some 3, false, Some 1, $"llo")) ]} : gset _).
Proof. by apply (bool_decide_unpack _); vm_compute. Qed.
(** With the transport go its sockets and its redirections. *)
Example w_gone_ex : summary w_gone = [(2, (2, None, true, Some 1, $"llo"))] ∧ Listeners.local_name <$> listeners w_gone = [$"tcp:5037"].
Proof. vm_compute. split; reflexivity. Qed.
Example w_client_ex : summary w_client = [(1, (0, Some 0, false, None, [])); (0, (1, Some 1, false, None, []))].
Proof. vm_compute. reflexivity. Qed.

(** ** At the edges *)

(** An A_WRTE without data: the queue of blocks refuses the empty block, and
    the server ends. *)
Lemma empty_write_aborts :
  runs w_open (EvPacket (packet A_WRTE 77 2 []) 1) = false.
Proof. vm_compute. reflexivity. Qed.

(** An A_AUTH the host does not know marks the transport offline before
    [handle_offline] looks, which then does nothing: the transport stays
    [online], its sockets stay open and bound to it, and deleting it, as the
    error callback will, leaves them with a dangling pointer. *)
Lemma auth_skips_offline :
  let w := after w_open (EvPacket (packet A_AUTH 2 0 []) 1) in
  (λ a, (connection_state_ a, online a)) <$> transports w !! 1 = Some (kCsOffline, true) ∧
  summary w = summary w_open ∧
  let w' := after (after w (EvError 1)) (EvDelete 1) in
  transports w' !! 1 = None ∧ summary w' = summary w_open ∧
  handle (EvSocket 2 true false) w' = Abort use_after_free.
Proof. vm_compute. split_and!; reflexivity. Qed.

(** [poll] reports a hangup of a socket that only drains as FDE_READ; reading
    it looks at a transport that may be gone. *)
Lemma hangup_while_draining :
  handle (EvSocket 2 true false) w_gone = Abort use_after_free.
Proof. vm_compute. reflexivity. Qed.

(** Any device may answer an A_OPEN: the connection forwarded to device 1 is
    taken by device 2. *)
Lemma okay_from_other_transport :
  (λ s, (s_id s, transport s)) <$>
    sockets (after w_two (EvPacket (packet A_OKAY 9 2 []) 2)) !! 3 = Some (9, Some 2).
Proof. vm_compute. reflexivity. Qed.

(** A_CLSE (0, id) for a client that talks to the smart socket reaches the
    trace statement that reads [s->peer->transport->serial], and that transport
    is null. *)
Lemma clse_null_transport :
  (s ← sockets w_client !! 0; q ← peer s; sq ← sockets w_client !! q; Some (s_id s, transport sq)) = Some (1, None).
Proof. vm_compute. reflexivity. Qed.

(** A malformed transport id: -1 is returned, nothing is closed and the client
    is not told; its smart socket keeps the request. *)
Lemma transport_id_without_colon :
  let w := after w_client (EvFds {[5 := [RdData $"0013host-transport-id:7"; RdErr EAGAIN]]} {[5 := mkWrFd [WrTake 99] []]}) in
  let w' := after w (EvSocket 0 true false) in
  runs w (EvSocket 0 true false) = true ∧ summary w' = summary w_client ∧ sent_to w' 5 = [] ∧
  smart_socket_data <$> sockets w' !! 1 = Some $"0013host-transport-id:7".
Proof. vm_compute. split_and!; reflexivity. Qed.
(** A well-formed one that no service knows is answered. *)
Example transport_id_with_colon :
  let w := after w_client (EvFds {[5 := [RdData $"0017host-transport-id:7:foo"; RdErr EAGAIN]]} {[5 := mkWrFd [WrTake 99] []]}) in
  let w' := after w (EvSocket 0 true false) in
  runs w (EvSocket 0 true false) = true ∧ summary w' = [].
Proof. vm_compute. split_and!; reflexivity. Qed.

(** ** The theorems at work *)

Abbreviation reach := (reachable (H := tracker_services)).

Lemma reach_after w ev : reach w → event_ok w ev → runs w ev = true → reach (after w ev).
Proof.
  intros Hr Hev Hrun. eapply reach_step; [done..|]. unfold after, runs in *.
  by destruct (handle ev w) as [[[] w']|].
Qed.

(** A run is checked by evaluating it; [event_ok] is decided by computing. *)
Ltac step := apply reach_after; [|vm_compute; repeat split; eauto; done|vm_compute; reflexivity].

Lemma reach_accept k n w : reach w → (k < length (listeners w))%nat → 0 ≤ n → bool_decide (n ∉ poll_fds w) = true →
  runs w (EvAccept (nth k (listeners w) no_listener) n) = true → reach (accept k n w).
Proof.
  intros Hr Hk Hn Hfd%bool_decide_eq_true Hrun. apply reach_after; [done| |done]. split; [|done]. by apply list_elem_of_In, nth_In.
Qed.
Ltac accept := apply reach_accept; [|vm_compute; lia|lia|vm_compute; reflexivity|vm_compute; reflexivity].

Definition readable (w : world) (p : ptr) : bool :=
  match sockets w !! p with Some s => is_local s && negb (closing s) && bool_decide (is_Some (fde s)) | None => false end.
Lemma readable_ok w p : readable w p = true → event_ok w (EvSocket p true false).
Proof.
  unfold readable. destruct (sockets w !! p) as [s|] eqn:Hp; [|done]. intros [[Hl Hc%negb_true_iff]%andb_prop [e He]%bool_decide_eq_true]%andb_prop.
  by exists s, e.
Qed.

Lemma device_ok i : transport_ok (device i).
Proof. split; [by eexists|]. split_and!; apply not_elem_of_nil. Qed.

Lemma reach_device : reach w_device.
Proof.
  step. apply reach_after; [|split; [reflexivity|apply device_ok]|vm_compute; reflexivity].
  apply reach_after; [apply reach_init|reflexivity|vm_compute; reflexivity].
Qed.
Lemma reach_asked : reach w_asked.
Proof. apply reach_after; [|apply readable_ok; vm_compute; reflexivity|vm_compute; reflexivity]. step. accept. apply reach_device. Qed.
Lemma reach_forward : reach w_forward.
Proof. accept. apply reach_asked. Qed.
Lemma reach_open : reach w_open.
Proof. step. apply reach_forward. Qed.
Lemma reach_busy : reach w_busy.
Proof. step. apply reach_open. Qed.
Lemma reach_queued : reach w_queued.
Proof. step. apply reach_busy. Qed.

Definition demo_socket (w : world) (p : ptr) : asocket :=
  default (asocket_new local_socket_enqueue_fn local_socket_ready_fn no_shutdown local_socket_close_fn) (sockets w !! p).

(** [hello] on a client that takes two bytes and then no more. *)
Lemma local_socket_enqueue_correct_witness :
  ∃ r w' s' e' wrote, local_socket_enqueue 2 $"hello" w_busy = Ret (r, w') ∧ inv w' ∧
    sockets w' !! 2 = Some s' ∧ fde s' = Some e' ∧
    bytes_of (packet_queue (demo_socket w_busy 2)) ++ $"hello" = wrote ++ bytes_of (packet_queue s') ∧
    sent_to w' 7 = sent_to w_busy 7 ++ wrote ∧ (r = 1 ∨ r = 0) ∧
    (r = 1 → bytes_of (packet_queue s') ≠ [] ∧ fde_write e' = true) ∧
    (r = 0 → fde_write e' = false ∧ (bytes_of (packet_queue s') = [] ∨ has_write_error s' = true)).
Proof.
  apply (local_socket_enqueue_correct 2 (demo_socket w_busy 2) $"hello" w_busy); try (vm_compute; done).
  - apply (reachable_inv w_busy reach_busy).
  - intros q sq. vm_compute. by intros [= <-] [= <-].
Defined.

Lemma find_local_socket_correct_witness :
  inv w_open ∧ ∃ o, find_local_socket 2 77 w_open = Ret (o, w_open) ∧ ∀ p, o = Some p ↔ designates w_open 2 77 p.
Proof.
  split; [|apply find_local_socket_correct]; apply (reachable_inv w_open reach_open).
Defined.

Lemma close_all_sockets_correct_witness :
  ∃ w', close_all_sockets 1 w_open = Ret (tt, w') ∧ inv w' ∧
    (∀ p, p ∈ local_socket_list w' → p ∈ local_socket_list w_open ∧ ¬ bound_to w' 1 p) ∧ unused w' 1.
Proof. apply close_all_sockets_correct, (reachable_inv w_open reach_open). Defined.


Lemma handle_offline_correct_witness :
  wp (handle_offline 1) (λ _ w', inv w' ∧ event_ok w' (EvDelete 1)) w_queued.
Proof.
  eapply (handle_offline_correct w_queued 1 _ reach_queued); [vm_compute; reflexivity|done].
Defined.

Lemma reach_client : reach w_client.
Proof. accept. apply reach_device. Qed.


(** A device that asks five times of a host with two keys. *)
Definition five_tokens : list bytes := (λ n, replicate 20 (of_cval n)) <$> [1; 2; 3; 4; 5].
Definition listed_device : atransport := default (device 0) (transports w_device !! 1).
Lemma tokens_answered_in_turn_witness :
  ∃ w' a' qs, handle_tokens (H := tracker_services) 1 five_tokens w_device = Ret (tt, w') ∧ transports w' !! 1 = Some a' ∧
    outgoing w' 1 = outgoing w_device 1 ++ qs ∧
    Forall2 carries qs [(2, of_cval 7 :: replicate 20 (of_cval 1)); (2, of_cval 8 :: replicate 20 (of_cval 2));
      (3, $"QAAAA user@host" ++ [NUL]); (2, of_cval 7 :: replicate 20 (of_cval 4)); (2, of_cval 8 :: replicate 20 (of_cval 5))] ∧
    (five_tokens ≠ [] → connection_state_ a' = kCsAuthorizing) ∧
    ((2 < 5)%nat → connection_established_ready_ (connection_waitable_ a') = true).
Proof.
  apply (tokens_answered_in_turn (H := tracker_services) [7; 8] $"QAAAA user@host" (λ w, eq_refl) (λ w, eq_refl) 1 five_tokens w_device listed_device adapter_new).
  - vm_compute. reflexivity.
  - vm_compute. reflexivity.
  - vm_compute. reflexivity.
  - repeat constructor.
Defined.

(** A token of another size ends the server: the signature it does not make is a
    null pointer that becomes a [std::string]. *)
Lemma short_token_aborts :
  runs w_device (EvPacket (packet A_AUTH ADB_AUTH_TOKEN 0 $"short") 1) = false.
Proof. vm_compute. reflexivity. Qed.
