(* ===== verification/EventLoop.v ===== *)
(** * The event loop
    (src/src/fdevent.cpp)

    The fdevents, the map of poll nodes, the list of pending events, and the
    queue of functions that other threads run on the main thread.  The handlers
    of descriptors are arbitrary programs of fdevent operations, so the loop is
    a step relation in which any of them, and any other thread, may interleave. *)

From Stdlib Require Import ZArith Lia List String.
From stdpp Require Import base numbers list gmap relations.
From S2P Require Import Prelude.

(** ** Bits *)

Definition FDE_READ : Z := 0x0001.
Definition FDE_WRITE : Z := 0x0002.
Definition FDE_ERROR : Z := 0x0004.
Definition FDE_EVENTMASK : Z := 0x00ff.
Definition FDE_STATEMASK : Z := 0xff00.
Definition FDE_ACTIVE : Z := 0x0100.
Definition FDE_PENDING : Z := 0x0200.
Definition FDE_CREATED : Z := 0x0400.
(** [poll] *)
Definition POLLIN : Z := 0x0001.
Definition POLLOUT : Z := 0x0004.
Definition POLLERR : Z := 0x0008.
Definition POLLHUP : Z := 0x0010.
Definition POLLNVAL : Z := 0x0020.
Definition POLLRDHUP : Z := 0x2000.

(** [x & m] as a condition. *)
Definition has (x m : Z) : bool := negb (Z.land x m =? 0).

(** ** State *)

Record fdevent := mkFdevent { fd : Z; state : Z; events : Z }.
Definition set_state (v : Z) (e : fdevent) : fdevent := mkFdevent (fd e) v (events e).
Definition set_events (v : Z) (e : fdevent) : fdevent := mkFdevent (fd e) (state e) v.

Record PollNode := mkNode { node_fde : Z; pollfd_events : Z }.

(** A function on the run queue is a number; [pipe] counts the bytes that wait
    behind [run_queue_notify_fd]. *)
Record loop := mkLoop {
  fdevents : gmap Z fdevent;
  fdevent_id : Z;
  g_poll_node_map : gmap Z PollNode;
  g_pending_list : list Z;
  terminate_loop : bool;
  run_needs_flush : bool;
  run_queue_notify_fd : Z;
  notify_fde : option Z;
  pipe : Z;
  run_queue : list Z
}.
Definition set_fdevents (v : gmap Z fdevent) (s : loop) : loop :=
  mkLoop v (fdevent_id s) (g_poll_node_map s) (g_pending_list s) (terminate_loop s) (run_needs_flush s) (run_queue_notify_fd s) (notify_fde s) (pipe s) (run_queue s).
Definition set_fdevent_id (v : Z) (s : loop) : loop :=
  mkLoop (fdevents s) v (g_poll_node_map s) (g_pending_list s) (terminate_loop s) (run_needs_flush s) (run_queue_notify_fd s) (notify_fde s) (pipe s) (run_queue s).
Definition set_poll_node_map (v : gmap Z PollNode) (s : loop) : loop :=
  mkLoop (fdevents s) (fdevent_id s) v (g_pending_list s) (terminate_loop s) (run_needs_flush s) (run_queue_notify_fd s) (notify_fde s) (pipe s) (run_queue s).
Definition set_pending_list (v : list Z) (s : loop) : loop :=
  mkLoop (fdevents s) (fdevent_id s) (g_poll_node_map s) v (terminate_loop s) (run_needs_flush s) (run_queue_notify_fd s) (notify_fde s) (pipe s) (run_queue s).
Definition set_terminate_loop (v : bool) (s : loop) : loop :=
  mkLoop (fdevents s) (fdevent_id s) (g_poll_node_map s) (g_pending_list s) v (run_needs_flush s) (run_queue_notify_fd s) (notify_fde s) (pipe s) (run_queue s).
Definition set_run_needs_flush (v : bool) (s : loop) : loop :=
  mkLoop (fdevents s) (fdevent_id s) (g_poll_node_map s) (g_pending_list s) (terminate_loop s) v (run_queue_notify_fd s) (notify_fde s) (pipe s) (run_queue s).
Definition set_notify (n : Z) (p : option Z) (s : loop) : loop :=
  mkLoop (fdevents s) (fdevent_id s) (g_poll_node_map s) (g_pending_list s) (terminate_loop s) (run_needs_flush s) n p (pipe s) (run_queue s).
Definition set_pipe (v : Z) (s : loop) : loop :=
  mkLoop (fdevents s) (fdevent_id s) (g_poll_node_map s) (g_pending_list s) (terminate_loop s) (run_needs_flush s) (run_queue_notify_fd s) (notify_fde s) v (run_queue s).
Definition set_run_queue (v : list Z) (s : loop) : loop :=
  mkLoop (fdevents s) (fdevent_id s) (g_poll_node_map s) (g_pending_list s) (terminate_loop s) (run_needs_flush s) (run_queue_notify_fd s) (notify_fde s) (pipe s) v.

Definition loop_init : loop := mkLoop ∅ 0 ∅ [] false false (-1) None 0 [].

(** [*p] of an fdevent. *)
Definition get_fde (p : Z) (s : loop) : outcome fdevent :=
  match fdevents s !! p with Some e => Ret e | None => Abort "use after free" end.
Definition put_fde (p : Z) (e : fdevent) (s : loop) : loop := set_fdevents (<[p := e]> (fdevents s)) s.

(** ** Operations *)

(** The new object is known by its [id]. *)
Definition fdevent_create (n : Z) (s : loop) : outcome (Z * loop) :=
  _ ← CHECK (0 <=? n) "fd >= 0";
  let p := fdevent_id s in
  let s := set_fdevent_id (p + 1) s in
  let e := mkFdevent n FDE_ACTIVE 0 in
  match g_poll_node_map s !! n with
  | Some _ => Abort "install existing fd"
  | None =>
      let s := set_poll_node_map (<[n := mkNode p POLLRDHUP]> (g_poll_node_map s)) s in
      Ret (p, put_fde p (set_state (Z.lor (state e) FDE_CREATED) e) s)
  end.

Definition list_remove (p : Z) (l : list Z) : list Z := filter (λ q, q ≠ p) l.
#[local] Arguments list_remove : simpl never.

Definition fdevent_destroy (p : Z) (s : loop) : outcome loop :=
  e ← get_fde p s;
  if negb (has (state e) FDE_CREATED) then Abort "destroying fde not created by fdevent_create()"
  else
    let s :=
      if has (state e) FDE_ACTIVE then
        let s := set_poll_node_map (delete (fd e) (g_poll_node_map s)) s in
        if has (state e) FDE_PENDING then set_pending_list (list_remove p (g_pending_list s)) s else s
      else s in
    Ret (set_fdevents (delete p (fdevents s)) s).

(** [node.pollfd.events] for what an fdevent waits for. *)
Definition set_poll_bit (want : bool) (bit : Z) (ev : Z) : Z :=
  if want then Z.lor ev bit else Z.land ev (Z.lnot bit).
Definition fdevent_update (p ev : Z) (s : loop) : outcome loop :=
  e ← get_fde p s;
  match g_poll_node_map s !! fd e with
  | None => Abort "it != g_poll_node_map.end()"
  | Some node =>
      let pe := set_poll_bit (has ev FDE_READ) POLLIN (pollfd_events node) in
      let pe := set_poll_bit (has ev FDE_WRITE) POLLOUT pe in
      let s := set_poll_node_map (<[fd e := mkNode (node_fde node) pe]> (g_poll_node_map s)) s in
      Ret (put_fde p (set_state (Z.lor (Z.land (state e) FDE_STATEMASK) ev) e) s)
  end.

Definition fdevent_set (p ev : Z) (s : loop) : outcome loop :=
  let ev := Z.land ev FDE_EVENTMASK in
  e ← get_fde p s;
  if Z.land (state e) FDE_EVENTMASK =? ev then Ret s
  else
    _ ← CHECK (has (state e) FDE_ACTIVE) "fde->state & FDE_ACTIVE";
    s ← fdevent_update p ev s;
    e ← get_fde p s;
    if has (state e) FDE_PENDING then
      let e := set_events (Z.land (events e) ev) e in
      if events e =? 0 then
        Ret (put_fde p (set_state (Z.land (state e) (Z.lnot FDE_PENDING)) e)
               (set_pending_list (list_remove p (g_pending_list s)) s))
      else Ret (put_fde p e s)
    else Ret s.

Definition fdevent_add (p ev : Z) (s : loop) : outcome loop :=
  e ← get_fde p s; fdevent_set p (Z.lor (Z.land (state e) FDE_EVENTMASK) ev) s.
Definition fdevent_del (p ev : Z) (s : loop) : outcome loop :=
  e ← get_fde p s; fdevent_set p (Z.land (Z.land (state e) FDE_EVENTMASK) (Z.lnot ev)) s.

(** ** Polling *)

Definition events_of (revents : Z) : Z :=
  let ev := if has revents POLLIN then FDE_READ else 0 in
  let ev := if has revents POLLOUT then Z.lor ev FDE_WRITE else ev in
  let ev := if has revents (Z.lor POLLERR (Z.lor POLLHUP POLLNVAL)) then Z.lor ev (Z.lor FDE_READ FDE_ERROR) else ev in
  if has revents POLLRDHUP then Z.lor ev (Z.lor FDE_READ FDE_ERROR) else ev.

Fixpoint post_events (pollfds : list (Z * Z)) (s : loop) : outcome loop :=
  match pollfds with
  | [] => Ret s
  | (n, revents) :: pollfds =>
      let ev := events_of revents in
      if ev =? 0 then post_events pollfds s
      else
        match g_poll_node_map s !! n with
        | None => Abort "it != g_poll_node_map.end()"
        | Some node =>
            e ← get_fde (node_fde node) s;
            _ ← CHECK (fd e =? n) "fde->fd.get() == pollfd.fd";
            let e := mkFdevent (fd e) (Z.lor (state e) FDE_PENDING) (Z.lor (events e) ev) in
            post_events pollfds
              (set_pending_list (g_pending_list s ++ [node_fde node]) (put_fde (node_fde node) e s))
        end
  end.

(** [pollfds] pairs every polled descriptor with what [poll] says of it, in the
    order of the map; [None] is a [poll] that failed. *)
Definition fdevent_process (pollfds : option (list (Z * Z))) (s : loop) : outcome loop :=
  _ ← CHECK (0 <? Z.of_nat (size (g_poll_node_map s))) "pollfds.size() > 0";
  match pollfds with None => Ret s | Some l => post_events l s end.

(** The events the handler of [p] is called with. *)
Definition fdevent_call_fdfunc (p : Z) (s : loop) : outcome (Z * loop) :=
  e ← get_fde p s;
  let ev := events e in
  _ ← CHECK (has (state e) FDE_PENDING) "fde->state & FDE_PENDING";
  Ret (ev, put_fde p (mkFdevent (fd e) (Z.land (state e) (Z.lnot FDE_PENDING)) 0) s).

(** ** The run queue *)

(** [fdevent_run_func]: [adb_read] takes what there is, up to the buffer. *)
Definition fdevent_run_func (n ev : Z) (s : loop) : outcome loop :=
  _ ← CHECK (0 <=? n) "fd >= 0";
  _ ← CHECK (has ev FDE_READ) "ev & FDE_READ";
  if pipe s =? 0 then Abort "failed to empty run queue notify fd"
  else Ret (set_run_needs_flush true (set_pipe (Z.max 0 (pipe s - 1024)) s)).

(** The socketpair is [n, m]. *)
Definition fdevent_run_setup (n m : Z) (s : loop) : outcome loop :=
  _ ← CHECK (run_queue_notify_fd s =? -1) "run_queue_notify_fd.get() == -1";
  '(p, s) ← fdevent_create m s;
  fdevent_add p FDE_READ (set_notify n (Some p) s).

(** The byte may find the pipe full, but not empty. *)
Definition fdevent_run_on_main_thread (fn : Z) (full : bool) (s : loop) : loop :=
  let s := set_run_queue (run_queue s ++ [fn]) s in
  if negb (run_queue_notify_fd s =? -1) then
    if full && (0 <? pipe s) then s else set_pipe (pipe s + 1) s
  else s.

(** ** The loop and the threads beside it *)

(** The operations a handler performs on fdevents. *)
Inductive op := OpCreate (n : Z) | OpDestroy (p : Z) | OpSet (p ev : Z) | OpAdd (p ev : Z) | OpDel (p ev : Z).

Definition run_op (o : op) (s : loop) : outcome loop :=
  match o with
  | OpCreate n => r ← fdevent_create n s; Ret r.2
  | OpDestroy p => fdevent_destroy p s
  | OpSet p ev => fdevent_set p ev s
  | OpAdd p ev => fdevent_add p ev s
  | OpDel p ev => fdevent_del p ev s
  end.

(** A handler uses fdevents that exist, and not the one of the run queue. *)
Definition op_ok (s : loop) (o : op) : Prop :=
  match o with
  | OpCreate n => 0 ≤ n ∧ g_poll_node_map s !! n = None
  | OpDestroy p | OpSet p _ | OpAdd p _ | OpDel p _ => is_Some (fdevents s !! p) ∧ notify_fde s ≠ Some p
  end.

(** Where the main thread is; the flag tells the flush of the setup from the
    one at the end of a round. *)
Inductive pc :=
  | Start | AtTop | Draining | Handling (p ev : Z) | Flushing (setup : bool) | Running (setup : bool) (fn : Z) | FlushEnd | Done.

(** With what has happened: the fdevents the last [poll] posted, those called
    since, and the functions submitted and run. *)
Record config := mkConfig {
  at_ : pc; st : loop;
  posted : list Z; called : list Z; submitted : list Z; ran : list Z
}.

Inductive move :=
  | MSetup (n m : Z) | MPoll (l : option (list (Z * Z))) | MExit | MCall | MOp (o : op) | MReturn
  | MDrained | MPop | MFlushed | MReset | MSubmit (fn : Z) (full : bool) | MTerminate.

Definition enabled (mv : move) (c : config) : Prop :=
  match mv, at_ c with
  | MSetup n m, Start => 0 ≤ n ∧ 0 ≤ m ∧ g_poll_node_map (st c) !! m = None
  | MPoll None, AtTop => terminate_loop (st c) = false
  | MPoll (Some l), AtTop => terminate_loop (st c) = false ∧
      (fst <$> l) ≡ₚ elements (dom (g_poll_node_map (st c))) ∧
      (∀ n r p e, (n, r) ∈ l → notify_fde (st c) = Some p → fdevents (st c) !! p = Some e → fd e = n →
         r = if 0 <? pipe (st c) then POLLIN else 0)
  | MExit, AtTop => terminate_loop (st c) = true
  | MCall, Draining => g_pending_list (st c) ≠ []
  | MDrained, Draining => g_pending_list (st c) = []
  | MOp o, (Start | Handling _ _ | Running _ _) => op_ok (st c) o
  | MReturn, (Handling _ _ | Running _ _) => True
  | MPop, Flushing _ => run_queue (st c) ≠ []
  | MFlushed, Flushing _ => run_queue (st c) = []
  | MReset, FlushEnd => True
  | MSubmit _ _, _ | MTerminate, _ => True
  | _, _ => False
  end.

Definition goto (k : pc) (s : loop) (c : config) : config := mkConfig k s (posted c) (called c) (submitted c) (ran c).

Definition run_move (mv : move) (c : config) : outcome config :=
  let s := st c in
  match mv with
  | MSetup n m => s ← fdevent_run_setup n m s; Ret (goto (Flushing true) s c)
  | MPoll l => s ← fdevent_process l s; Ret (mkConfig Draining s (g_pending_list s) [] (submitted c) (ran c))
  | MExit => Ret (goto Done s c)
  | MCall =>
      match g_pending_list s with
      | [] => Abort "front of an empty list"
      | p :: l =>
          '(ev, s) ← fdevent_call_fdfunc p (set_pending_list l s);
          if decide (notify_fde s = Some p) then
            s ← fdevent_run_func 0 ev s;
            Ret (mkConfig Draining s (posted c) (called c ++ [p]) (submitted c) (ran c))
          else Ret (mkConfig (Handling p ev) s (posted c) (called c ++ [p]) (submitted c) (ran c))
      end
  | MOp o => s ← run_op o s; Ret (goto (at_ c) s c)
  | MReturn => Ret (goto (match at_ c with Running b _ => Flushing b | _ => Draining end) s c)
  | MDrained => Ret (goto (if run_needs_flush s then Flushing false else AtTop) s c)
  | MPop =>
      match run_queue s, at_ c with
      | fn :: q, Flushing b => Ret (mkConfig (Running b fn) (set_run_queue q s) (posted c) (called c) (submitted c) (ran c ++ [fn]))
      | _, _ => Abort "front of an empty queue"
      end
  | MFlushed => Ret (goto (match at_ c with Flushing true => AtTop | _ => FlushEnd end) s c)
  | MReset => Ret (goto AtTop (set_run_needs_flush false s) c)
  | MSubmit fn full =>
      Ret (mkConfig (at_ c) (fdevent_run_on_main_thread fn full s) (posted c) (called c) (submitted c ++ [fn]) (ran c))
  | MTerminate => Ret (goto (at_ c) (set_terminate_loop true s) c)
  end.

Definition config_init : config := mkConfig Start loop_init [] [] [] [].

Inductive reachable : config → Prop :=
  | reach_init : reachable config_init
  | reach_move c mv c' : reachable c → enabled mv c → run_move mv c = Ret c' → reachable c'.

(** ** Bits *)

Lemma has_bit x k : 0 ≤ k → has x (2 ^ k) = Z.testbit x k.
Proof.
  intros Hk. unfold has. assert (Z.land x (2 ^ k) = if Z.testbit x k then 2 ^ k else 0) as ->.
  { apply Z.bits_inj'. intros n Hn. rewrite Z.land_spec, Z.pow2_bits_eqb by done.
    destruct (Z.eqb_spec k n) as [->|Hne].
    - destruct (Z.testbit x n) eqn:E; [rewrite Z.pow2_bits_true by done; by rewrite andb_true_r|by rewrite Z.bits_0, andb_true_r].
    - rewrite andb_false_r. destruct (Z.testbit x k); [by rewrite Z.pow2_bits_false|by rewrite Z.bits_0]. }
  assert (0 < 2 ^ k) by (by apply Z.pow_pos_nonneg).
  destruct (Z.testbit x k); [|done]. by rewrite (proj2 (Z.eqb_neq _ _)) by lia.
Qed.

Lemma has_READ x : has x FDE_READ = Z.testbit x 0.
Proof. by apply (has_bit x 0). Qed.
Lemma has_WRITE x : has x FDE_WRITE = Z.testbit x 1.
Proof. by apply (has_bit x 1). Qed.
Lemma has_ACTIVE x : has x FDE_ACTIVE = Z.testbit x 8.
Proof. by apply (has_bit x 8). Qed.
Lemma has_PENDING x : has x FDE_PENDING = Z.testbit x 9.
Proof. by apply (has_bit x 9). Qed.
Lemma has_CREATED x : has x FDE_CREATED = Z.testbit x 10.
Proof. by apply (has_bit x 10). Qed.

#[local] Arguments Z.testbit : simpl never.

(** Evaluates the bits of constants. *)
Ltac const_bits :=
  repeat match goal with
  | |- context [Z.testbit ?m ?k] =>
      lazymatch m with FDE_STATEMASK => idtac | FDE_EVENTMASK => idtac | FDE_PENDING => idtac end;
      let b := eval vm_compute in (Z.testbit m k) in change (Z.testbit m k) with b
  end.
(** A bit of a bitwise expression, the constants evaluated. *)
Ltac bits :=
  rewrite ?Z.lor_spec, ?Z.land_spec, ?Z.lnot_spec by lia; const_bits; cbn [negb];
  rewrite ?andb_true_r, ?andb_false_r, ?orb_false_r, ?orb_true_r, ?andb_true_l, ?orb_false_l.

(** ** The invariant of the fdevents *)

(** What an fdevent waits for is what its poll node asks. *)
Definition node_ok (p : Z) (e : fdevent) (node : PollNode) : Prop :=
  node_fde node = p ∧
  Z.testbit (pollfd_events node) 0 = Z.testbit (state e) 0 ∧
  Z.testbit (pollfd_events node) 2 = Z.testbit (state e) 1.

Record fde_ok (s : loop) (p : Z) (e : fdevent) : Prop := {
  fo_id : p < fdevent_id s;
  fo_node : ∃ node, g_poll_node_map s !! fd e = Some node ∧ node_ok p e node;
  fo_active : Z.testbit (state e) 8 = true;
  fo_created : Z.testbit (state e) 10 = true;
  fo_pending : Z.testbit (state e) 9 = true ↔ p ∈ g_pending_list s;
  fo_events : events e ≠ 0 ↔ p ∈ g_pending_list s
}.

Record fde_inv (s : loop) : Prop := {
  fi_fde : ∀ p e, fdevents s !! p = Some e → fde_ok s p e;
  fi_node : ∀ n node, g_poll_node_map s !! n = Some node → ∃ e, fdevents s !! node_fde node = Some e ∧ fd e = n;
  fi_pending : ∀ p, p ∈ g_pending_list s → is_Some (fdevents s !! p);
  fi_nodup : NoDup (g_pending_list s)
}.

(** What an operation on [p] leaves alone. *)
Record loop_frame (p : Z) (s s' : loop) : Prop := {
  lf_pending : g_pending_list s' `sublist_of` g_pending_list s;
  lf_other : ∀ q, q ≠ p → fdevents s' !! q = fdevents s !! q;
  lf_flags : terminate_loop s' = terminate_loop s ∧ run_needs_flush s' = run_needs_flush s ∧
    run_queue_notify_fd s' = run_queue_notify_fd s ∧ notify_fde s' = notify_fde s ∧
    pipe s' = pipe s ∧ run_queue s' = run_queue s
}.

Lemma elem_of_remove p q l : q ∈ list_remove p l ↔ q ≠ p ∧ q ∈ l.
Proof. unfold list_remove. by rewrite list_elem_of_filter. Qed.
Lemma remove_sublist p l : list_remove p l `sublist_of` l.
Proof.
  unfold list_remove. induction l as [|x l IH]; [done|]. destruct (decide (x = p)).
  - rewrite filter_cons_False by naive_solver. by apply sublist_cons.
  - rewrite filter_cons_True by naive_solver. by apply sublist_skip.
Qed.

Lemma remove_not_in p l : p ∉ l → list_remove p l = l.
Proof.
  unfold list_remove. induction l as [|x l IH]; intros Hp; [done|]. rewrite not_elem_of_cons in Hp.
  rewrite filter_cons_True by naive_solver. f_equal. naive_solver.
Qed.

(** One fdevent and its node change. *)
Lemma fde_inv_upd s s' p e e' node :
  fde_inv s → fdevents s !! p = Some e → fd e' = fd e →
  fdevents s' = <[p := e']> (fdevents s) → fdevent_id s' = fdevent_id s →
  g_poll_node_map s' = <[fd e := node]> (g_poll_node_map s) → node_ok p e' node →
  (∀ q, q ≠ p → q ∈ g_pending_list s' ↔ q ∈ g_pending_list s) → NoDup (g_pending_list s') →
  Z.testbit (state e') 8 = true → Z.testbit (state e') 10 = true →
  (Z.testbit (state e') 9 = true ↔ p ∈ g_pending_list s') → (events e' ≠ 0 ↔ p ∈ g_pending_list s') →
  fde_inv s'.
Proof.
  intros Hinv Hp Hfd Hf Hi Hm Hn Hq Hnd Ha Hc Hb Hev. destruct (fi_fde s Hinv p e Hp) as [Hid (n0 & Hn0 & Hp0 & _) _ _ _ _].
  constructor; try done.
  - intros q eq. rewrite Hf. rewrite lookup_insert_Some. intros [[<- <-]|[Hne Hqe]].
    + constructor; try done; [by rewrite Hi|]. exists node. rewrite Hm, Hfd, lookup_insert_eq. done.
    + destruct (fi_fde s Hinv q eq Hqe) as [H1 (nq & Hnq & Hq0 & ?) H3 H4 H5 H6].
      constructor; try done; [by rewrite Hi| |by rewrite Hq by done|by rewrite Hq by done].
      exists nq. rewrite Hm. rewrite lookup_insert_ne; [done|]. intros He. rewrite <-He, Hn0 in Hnq. congruence.
  - intros n nd. rewrite Hm, lookup_insert_Some. intros [[<- <-]|[Hne Hnd']].
    + exists e'. rewrite Hf, (proj1 Hn), lookup_insert_eq. done.
    + destruct (fi_node s Hinv n nd Hnd') as (e2 & He2 & Hfd2). exists e2. rewrite Hf.
      destruct (decide (node_fde nd = p)) as [Heq|]; [|by rewrite lookup_insert_ne].
      rewrite Heq, Hp in He2. congruence.
  - intros q Hin. rewrite Hf. destruct (decide (q = p)) as [->|Hne]; [rewrite lookup_insert_eq; eauto|].
    rewrite lookup_insert_ne by done. apply (fi_pending s Hinv). by apply Hq.
Qed.

Lemma frame_refl p s : loop_frame p s s.
Proof. by repeat constructor. Qed.

Lemma create_ok n s :
  fde_inv s → 0 ≤ n → g_poll_node_map s !! n = None →
  ∃ s', fdevent_create n s = Ret (fdevent_id s, s') ∧ fde_inv s' ∧ loop_frame (fdevent_id s) s s' ∧
    g_pending_list s' = g_pending_list s ∧
    fdevents s' !! fdevent_id s = Some (mkFdevent n (Z.lor FDE_ACTIVE FDE_CREATED) 0).
Proof.
  intros Hinv Hn Hm. unfold fdevent_create. rewrite (proj2 (Z.leb_le _ _) Hn). cbn [CHECK mbind outcome_bind].
  cbn [g_poll_node_map set_fdevent_id]. rewrite Hm. eexists. split; [done|]. set (p := fdevent_id s).
  assert (Hfresh : fdevents s !! p = None).
  { destruct (fdevents s !! p) as [e|] eqn:E; [|done]. pose proof (fo_id s p e (fi_fde s Hinv p e E)). lia. }
  assert (Hnp : p ∉ g_pending_list s).
  { intros Hin. destruct (fi_pending s Hinv p Hin). congruence. }
  split; [|split_and!; [|done|cbn; by rewrite lookup_insert_eq]].
  - constructor; cbn.
    + intros q e. rewrite lookup_insert_Some. intros [[<- <-]|[Hne Hq]].
      * constructor; cbn; try done; [lia|]. exists (mkNode p POLLRDHUP). by rewrite lookup_insert_eq.
      * destruct (fi_fde s Hinv q e Hq) as [H1 (nq & Hnq & ?) H3 H4 H5 H6]. constructor; cbn; try done; [lia|].
        exists nq. rewrite lookup_insert_ne; [done|]. intros ->. congruence.
    + intros m nd. rewrite lookup_insert_Some. intros [[<- <-]|[Hne Hnd]].
      * eexists. cbn. by rewrite lookup_insert_eq.
      * destruct (fi_node s Hinv m nd Hnd) as (e & He & ?). exists e. rewrite lookup_insert_ne; [done|]. congruence.
    + intros q Hin. rewrite lookup_insert_ne; [by apply (fi_pending s Hinv)|]. by intros <-.
    + apply Hinv.
  - constructor; try done. intros q Hq. cbn. by rewrite lookup_insert_ne.
Qed.

Lemma destroy_ok p s :
  fde_inv s → is_Some (fdevents s !! p) →
  ∃ s', fdevent_destroy p s = Ret s' ∧ fde_inv s' ∧ loop_frame p s s' ∧ fdevents s' !! p = None.
Proof.
  intros Hinv [e He]. destruct (fi_fde s Hinv p e He) as [Hid (nd & Hnd & Hnp & _) Ha Hc Hpe Hev].
  unfold fdevent_destroy, get_fde. rewrite He. cbn [mbind outcome_bind].
  rewrite has_CREATED, Hc, has_ACTIVE, Ha, has_PENDING. cbn [negb]. eexists. split; [done|].
  set (s1 := if Z.testbit _ _ then _ else _).
  assert (Hp1 : g_pending_list s1 = list_remove p (g_pending_list s) ∧ fdevents s1 = fdevents s ∧ fdevent_id s1 = fdevent_id s ∧
    g_poll_node_map s1 = delete (fd e) (g_poll_node_map s)).
  { unfold s1. destruct (Z.testbit (state e) 9) eqn:E; cbn; [done|]. split; [|done].
    symmetry. apply remove_not_in. intros Hin%Hpe. congruence. }
  destruct Hp1 as (Hp1 & Hf1 & Hi1 & Hm1).
  split; [|split; [constructor; cbn|cbn; by rewrite lookup_delete_eq]].
  - constructor; cbn; rewrite ?Hf1, ?Hp1, ?Hm1.
    + intros q eq [Hne Hq]%lookup_delete_Some. destruct (fi_fde s Hinv q eq Hq) as [H1 (nq & Hnq & Hq0 & ?) H3 H4 H5 H6].
      constructor; cbn; rewrite ?Hp1, ?Hi1, ?Hm1, ?elem_of_remove; try done; try (split; naive_solver).
      exists nq. rewrite lookup_delete_ne; [done|]. intros Heq. rewrite <-Heq, Hnd in Hnq. congruence.
    + intros n nd' [Hne Hn]%lookup_delete_Some. destruct (fi_node s Hinv n nd' Hn) as (e2 & He2 & Hfd2).
      exists e2. rewrite lookup_delete_ne; [done|]. intros Heq. rewrite <-Heq, He in He2. congruence.
    + intros q [Hne Hq]%elem_of_remove. rewrite lookup_delete_ne by done. by apply (fi_pending s Hinv).
    + apply NoDup_filter, Hinv.
  - rewrite Hp1. apply remove_sublist.
  - intros q Hq. rewrite Hf1. by rewrite lookup_delete_ne.
  - unfold s1. by destruct (Z.testbit (state e) 9).
Qed.

Lemma poll_bit_same want bit k ev :
  0 ≤ k → bit = 2 ^ k → Z.testbit (set_poll_bit want bit ev) k = want.
Proof.
  intros Hk ->. unfold set_poll_bit. destruct want.
  - by rewrite Z.lor_spec, Z.pow2_bits_true, orb_true_r.
  - by rewrite Z.land_spec, Z.lnot_spec, Z.pow2_bits_true, andb_false_r.
Qed.
Lemma poll_bit_other want bit k n ev :
  0 ≤ k → 0 ≤ n → k ≠ n → bit = 2 ^ k → Z.testbit (set_poll_bit want bit ev) n = Z.testbit ev n.
Proof.
  intros Hk Hn Hne ->. unfold set_poll_bit. destruct want.
  - by rewrite Z.lor_spec, Z.pow2_bits_false, orb_false_r.
  - by rewrite Z.land_spec, Z.lnot_spec, Z.pow2_bits_false, andb_true_r.
Qed.

(** The state after [fdevent_update], bit by bit. *)
Lemma update_bits s v k :
  0 ≤ k → Z.testbit (Z.lor (Z.land s FDE_STATEMASK) (Z.land v FDE_EVENTMASK)) k =
    (Z.testbit s k && Z.testbit FDE_STATEMASK k) || (Z.testbit v k && Z.testbit FDE_EVENTMASK k).
Proof. intros. by rewrite Z.lor_spec, !Z.land_spec. Qed.

Lemma set_ok p ev s e :
  fde_inv s → fdevents s !! p = Some e →
  ∃ s', fdevent_set p ev s = Ret s' ∧ fde_inv s' ∧ loop_frame p s s' ∧
    ∃ e', fdevents s' !! p = Some e' ∧ fd e' = fd e ∧
      Z.land (state e') FDE_EVENTMASK = Z.land ev FDE_EVENTMASK ∧
      (∀ k, 0 ≤ k → Z.testbit (events e') k = true → Z.testbit (events e) k = true).
Proof.
  intros Hinv He. pose proof (fi_fde s Hinv p e He) as [Hid (nd & Hnd & Hnp & Hb0 & Hb2) Ha Hc Hpe Hev].
  unfold fdevent_set, get_fde. rewrite He. cbn [mbind outcome_bind].
  destruct (Z.eqb_spec (Z.land (state e) FDE_EVENTMASK) (Z.land ev FDE_EVENTMASK)) as [Heq|Hneq].
  { exists s. split_and!; [done|done|apply frame_refl|]. exists e. auto. }
  rewrite has_ACTIVE, Ha. cbn [CHECK mbind outcome_bind]. unfold fdevent_update, get_fde. rewrite He. cbn [mbind outcome_bind].
  rewrite Hnd. cbn [mbind outcome_bind put_fde fdevents set_fdevents]. rewrite lookup_insert_eq. cbn [mbind outcome_bind].
  set (v := Z.land ev FDE_EVENTMASK). set (st' := Z.lor (Z.land (state e) FDE_STATEMASK) v).
  set (node := mkNode _ _).
  assert (Hbit : ∀ k, 0 ≤ k → Z.testbit st' k = (Z.testbit (state e) k && Z.testbit FDE_STATEMASK k) || (Z.testbit ev k && Z.testbit FDE_EVENTMASK k))
    by (intros; by apply update_bits).
  assert (Hst9 : Z.testbit st' 9 = Z.testbit (state e) 9) by (rewrite Hbit by lia; by bits).
  assert (Hst8 : Z.testbit st' 8 = true) by (rewrite Hbit by lia; by bits).
  assert (Hst10 : Z.testbit st' 10 = true) by (rewrite Hbit by lia; by bits).
  assert (Hv : ∀ k, 0 ≤ k < 2 → Z.testbit st' k = Z.testbit v k).
  { intros k Hk. rewrite Hbit by lia. unfold v. rewrite Z.land_spec. assert (k = 0 ∨ k = 1) as [-> | ->] by lia; by bits. }
  assert (Hnode : ∀ c, Z.testbit (state c) 0 = Z.testbit st' 0 → Z.testbit (state c) 1 = Z.testbit st' 1 → node_ok p c node).
  { intros c H0 H1. unfold node_ok. rewrite H0, H1, !Hv by lia. cbn. split; [done|]. rewrite has_READ, has_WRITE. split.
    - rewrite (poll_bit_other _ _ 2 0), (poll_bit_same _ _ 0) by done. done.
    - by rewrite (poll_bit_same _ _ 2). }
  assert (Hmask : Z.land st' FDE_EVENTMASK = v).
  { apply Z.bits_inj'. intros k Hk. unfold v. rewrite !Z.land_spec, Hbit by done.
    assert (Z.testbit FDE_STATEMASK k && Z.testbit FDE_EVENTMASK k = false)%bool as Hd
      by (rewrite <-Z.land_spec; apply Z.bits_0).
    destruct (Z.testbit FDE_STATEMASK k), (Z.testbit FDE_EVENTMASK k); try done; by rewrite ?andb_false_r, ?andb_true_r, ?orb_false_r. }
  clearbody st' node. rewrite has_PENDING. cbn [state set_state]. rewrite Hst9. destruct (Z.testbit (state e) 9) eqn:E9.
  - cbn [events set_state set_events]. pose proof (proj1 Hpe eq_refl) as Hin.
    destruct (Z.eqb_spec (Z.land (events e) v) 0) as [Hz|Hz].
    + eexists. split; [done|]. split; [|split].
      * eapply (fde_inv_upd s _ p e (set_state (Z.land st' (Z.lnot FDE_PENDING)) (set_events (Z.land (events e) v) (set_state st' e))) node Hinv He); cbn; try done.
        -- by rewrite insert_insert_eq.
        -- apply Hnode; cbn; bits; done.
        -- intros q Hq. rewrite elem_of_remove. naive_solver.
        -- apply NoDup_filter, Hinv.
        -- bits; done.
        -- bits; done.
        -- rewrite elem_of_remove. bits. naive_solver.
        -- rewrite elem_of_remove. naive_solver.
      * constructor; cbn; try done; [apply remove_sublist|]. intros q Hq. by rewrite !lookup_insert_ne.
      * eexists. cbn. rewrite lookup_insert_eq. split_and!; [done|done| |].
        -- rewrite <-Hmask. apply Z.bits_inj'. intros k Hk. cbn. rewrite !Z.land_spec, Z.lnot_spec by done.
           destruct (decide (k = 9)) as [->|]; [by bits|].
           change FDE_PENDING with (2 ^ 9). rewrite (Z.pow2_bits_false 9 k) by lia. by rewrite andb_true_r.
        -- intros k Hk. cbn. rewrite Hz. by rewrite Z.bits_0.
    + eexists. split; [done|]. split; [|split].
      * eapply (fde_inv_upd s _ p e (set_events (Z.land (events e) v) (set_state st' e)) node Hinv He); cbn; try done.
        -- by rewrite insert_insert_eq.
        -- by apply Hnode.
        -- apply Hinv.
      * constructor; cbn; try done. intros q Hq. by rewrite !lookup_insert_ne.
      * eexists. cbn. rewrite lookup_insert_eq. split_and!; [done|done|done|].
        intros k Hk. cbn. rewrite Z.land_spec. by intros [? _]%andb_true_iff.
  - assert (Hnin : p ∉ g_pending_list s) by (intros Hin%Hpe; done).
    eexists. split; [done|]. split; [|split].
    + eapply (fde_inv_upd s _ p e (set_state st' e) node Hinv He); cbn; try done.
      * by apply Hnode.
      * apply Hinv.
      * by rewrite Hst9.
    + constructor; cbn; try done. intros q Hq. by rewrite !lookup_insert_ne.
    + eexists. cbn. rewrite lookup_insert_eq. split_and!; done.
Qed.

Lemma add_ok p ev s e :
  fde_inv s → fdevents s !! p = Some e →
  ∃ s', fdevent_add p ev s = Ret s' ∧ fde_inv s' ∧ loop_frame p s s' ∧
    ∃ e', fdevents s' !! p = Some e' ∧ fd e' = fd e ∧
      Z.land (state e') FDE_EVENTMASK = Z.land (Z.lor (Z.land (state e) FDE_EVENTMASK) ev) FDE_EVENTMASK ∧
      (∀ k, 0 ≤ k → Z.testbit (events e') k = true → Z.testbit (events e) k = true).
Proof. intros Hinv He. unfold fdevent_add, get_fde. rewrite He. by apply set_ok. Qed.

(** Every operation a handler may perform returns, and keeps the invariant. *)
Lemma op_run o s :
  fde_inv s → op_ok s o → (∀ p, notify_fde s = Some p → is_Some (fdevents s !! p)) →
  ∃ s' p, run_op o s = Ret s' ∧ fde_inv s' ∧ loop_frame p s s' ∧ notify_fde s ≠ Some p.
Proof.
  intros Hinv Ho Hnot. destruct o as [n|p|p ev|p ev|p ev]; cbn [op_ok run_op] in *.
  - destruct Ho as [Hn Hm]. destruct (create_ok n s Hinv Hn Hm) as (s' & -> & ? & ? & _).
    exists s', (fdevent_id s). split_and!; try done. intros Hs. destruct (Hnot _ Hs) as [e He].
    pose proof (fo_id s _ e (fi_fde s Hinv _ e He)). lia.
  - destruct Ho as [Hl Hn]. destruct (destroy_ok p s Hinv Hl) as (s' & -> & ? & ? & _). by exists s', p.
  - destruct Ho as [[e He] Hn]. destruct (set_ok p ev s e Hinv He) as (s' & -> & ? & ? & _). by exists s', p.
  - destruct Ho as [[e He] Hn]. destruct (add_ok p ev s e Hinv He) as (s' & -> & ? & ? & _). by exists s', p.
  - destruct Ho as [[e He] Hn]. unfold fdevent_del, get_fde. rewrite He. cbn [mbind outcome_bind].
    match goal with |- context [fdevent_set p ?v s] => destruct (set_ok p v s e Hinv He) as (s' & -> & ? & ? & _) end. by exists s', p.
Qed.

(** ** Posting what poll reports *)

(** The fdevents [post_events] posts, in its order. *)
Fixpoint ready_fdes (l : list (Z * Z)) (m : gmap Z PollNode) : list Z :=
  match l with
  | [] => []
  | (n, revents) :: l =>
      match m !! n with
      | Some node => if events_of revents =? 0 then ready_fdes l m else node_fde node :: ready_fdes l m
      | None => ready_fdes l m
      end
  end.

Lemma lor_ne_0 a b : b ≠ 0 → Z.lor a b ≠ 0.
Proof. rewrite Z.lor_eq_0_iff. tauto. Qed.

Lemma post_ok l s :
  fde_inv s → NoDup (fst <$> l) → (∀ n, n ∈ fst <$> l → is_Some (g_poll_node_map s !! n)) →
  (∀ p e, p ∈ g_pending_list s → fdevents s !! p = Some e → fd e ∉ fst <$> l) →
  ∃ s', post_events l s = Ret s' ∧ fde_inv s' ∧
    g_pending_list s' = g_pending_list s ++ ready_fdes l (g_poll_node_map s) ∧
    g_poll_node_map s' = g_poll_node_map s ∧
    (terminate_loop s' = terminate_loop s ∧ run_needs_flush s' = run_needs_flush s ∧
     run_queue_notify_fd s' = run_queue_notify_fd s ∧ notify_fde s' = notify_fde s ∧
     pipe s' = pipe s ∧ run_queue s' = run_queue s) ∧
    (∀ p e, fdevents s !! p = Some e → ∃ e', fdevents s' !! p = Some e' ∧ fd e' = fd e ∧
       (e' = e ∨ ∃ r, (fd e, r) ∈ l ∧ events_of r ≠ 0 ∧ events e' = Z.lor (events e) (events_of r))).
Proof.
  revert s. induction l as [|[n r] l IH]; intros s Hinv Hnd Hm Hpend; cbn [post_events fmap list_fmap fst ready_fdes] in *.
  { exists s. rewrite app_nil_r. split_and!; try done. intros p e He. exists e. auto. }
  apply NoDup_cons in Hnd as [Hn Hnd]. destruct (Hm n ltac:(by left)) as [node Hnode]. rewrite Hnode.
  assert (Hm' : ∀ n, n ∈ fst <$> l → is_Some (g_poll_node_map s !! n)) by (intros; apply Hm; by right).
  destruct (Z.eqb_spec (events_of r) 0) as [Hz|Hz].
  { destruct (IH s Hinv Hnd Hm') as (s' & ? & ? & ? & ? & ? & Hfd).
    { intros p e Hp He Hin. apply (Hpend p e Hp He). by right. }
    exists s'. do 5 (split; [done|]). intros p e He. destruct (Hfd p e He) as (e' & ? & ? & Hor). exists e'.
    split_and!; try done. destruct Hor as [->|(q & ? & ?)]; [by left|]. right. exists q. split; [by right|done]. }
  destruct (fi_node s Hinv n node Hnode) as (e & He & Hfd). unfold get_fde. rewrite He. cbn [mbind outcome_bind].
  rewrite (proj2 (Z.eqb_eq _ _) Hfd). cbn [CHECK mbind outcome_bind].
  set (p := node_fde node) in *. set (e1 := mkFdevent (fd e) (Z.lor (state e) FDE_PENDING) (Z.lor (events e) (events_of r))).
  destruct (fi_fde s Hinv p e He) as [Hid (nd & Hnd2 & Hok) Ha Hc Hpe Hev].
  assert (nd = node) as -> by congruence.
  assert (Hnin : p ∉ g_pending_list s). { intros Hin. apply (Hpend p e Hin He). rewrite Hfd. by left. }
  set (s1 := set_pending_list (g_pending_list s ++ [p]) (put_fde p e1 s)).
  assert (Hi1 : fde_inv s1).
  { apply (fde_inv_upd s s1 p e e1 node Hinv He); cbn; try done.
    - by rewrite insert_id.
    - destruct Hok as (? & ? & ?). unfold node_ok. cbn. split_and!; [done|bits; done|bits; done].
    - intros q Hq. rewrite elem_of_app, list_elem_of_singleton. tauto.
    - apply NoDup_app. split; [apply Hinv|]. split; [|apply NoDup_singleton]. by intros q Hq ->%list_elem_of_singleton.
    - bits. done.
    - bits. done.
    - bits. split; [intros _|done]. apply elem_of_app. right. by left.
    - split; [intros _|intros _; by apply lor_ne_0]. apply elem_of_app. right. by left. }
  destruct (IH s1 Hi1 Hnd Hm') as (s' & Hs' & ? & Hp' & ? & ? & Hfd').
  { intros q eq. cbn. rewrite elem_of_app, list_elem_of_singleton, lookup_insert_Some.
    intros Hq [[Hpq <-]|[Hne Heq]]; [cbn; by rewrite Hfd|]. destruct Hq as [Hq|Hq]; [|congruence].
    intros Hin. apply (Hpend q eq Hq Heq). by right. }
  exists s'. do 2 (split; [done|]). split; [rewrite Hp'; cbn; by rewrite <-app_assoc|]. do 2 (split; [done|]).
  intros q eq Heq. destruct (decide (q = p)) as [->|Hne].
  - assert (eq = e) as -> by congruence. destruct (Hfd' p e1) as (e' & ? & Hfe & Hor); [cbn; apply lookup_insert_eq|].
    exists e'. split_and!; try done. right. exists r. split; [rewrite Hfd; by left|]. split; [done|].
    destruct Hor as [->|(r2 & Hin & _)]; [done|]. exfalso. apply Hn. apply list_elem_of_fmap. exists (fd e1, r2). split; [cbn; by rewrite Hfd|done].
  - destruct (Hfd' q eq) as (e' & ? & ? & Hor); [cbn; by rewrite lookup_insert_ne|]. exists e'. split_and!; try done.
    destruct Hor as [->|(r2 & Hin & ?)]; [by left|]. right. exists r2. split; [by right|done].
Qed.

(** ** The invariant of the loop *)

(** The fdevent of the run queue is pending only while its pipe has bytes. *)
Definition notify_inv (s : loop) : Prop :=
  0 ≤ pipe s ∧
  match notify_fde s with
  | None => run_queue_notify_fd s = -1
  | Some p => run_queue_notify_fd s ≠ -1 ∧ ∃ e, fdevents s !! p = Some e ∧
      (p ∈ g_pending_list s → Z.testbit (events e) 0 = true ∧ 0 < pipe s)
  end.

Definition in_round (c : config) : Prop :=
  called c ++ g_pending_list (st c) `sublist_of` posted c ∧ NoDup (posted c).

Definition pc_inv (c : config) : Prop :=
  let s := st c in
  match at_ c with
  | Start => notify_fde s = None ∧ g_pending_list s = [] ∧ run_needs_flush s = false
  | AtTop | Done => is_Some (notify_fde s) ∧ g_pending_list s = [] ∧ run_needs_flush s = false ∧ (run_queue s ≠ [] → 0 < pipe s)
  | Draining | Handling _ _ => is_Some (notify_fde s) ∧ in_round c ∧
      (run_queue s ≠ [] → run_needs_flush s = true ∨ 0 < pipe s)
  | Flushing b | Running b _ => is_Some (notify_fde s) ∧ g_pending_list s = [] ∧ (b = true → run_needs_flush s = false)
  | FlushEnd => is_Some (notify_fde s) ∧ g_pending_list s = [] ∧ (run_queue s ≠ [] → 0 < pipe s)
  end.

Record loop_inv (c : config) : Prop := {
  li_fde : fde_inv (st c);
  li_notify : notify_inv (st c);
  li_pc : pc_inv c;
  li_fifo : submitted c = ran c ++ run_queue (st c)
}.

Lemma notify_frame p s s' :
  notify_inv s → loop_frame p s s' → notify_fde s ≠ Some p → notify_inv s'.
Proof.
  intros [Hp Hn] [Hpe Ho (_ & _ & Hfd & Hnf & Hpi & _)] Hne. unfold notify_inv. rewrite Hfd, Hnf, Hpi. split; [done|].
  destruct (notify_fde s) as [q|]; [|done]. destruct Hn as (? & e & He & Hpend). split; [done|].
  exists e. rewrite Ho by congruence. split; [done|]. intros Hin. apply Hpend. eapply sublist_subseteq; eauto.
Qed.

(** Changes that the fdevents do not notice. *)
Lemma fde_inv_same s s' :
  fdevents s' = fdevents s → fdevent_id s' = fdevent_id s → g_poll_node_map s' = g_poll_node_map s →
  g_pending_list s' = g_pending_list s → fde_inv s → fde_inv s'.
Proof.
  intros H1 H2 H3 H4 []. constructor; rewrite ?H1, ?H3, ?H4; try done.
  intros p e Hp. destruct (fi_fde0 p e Hp). constructor; rewrite ?H2, ?H3, ?H4; done.
Qed.

Lemma sublist_nil_eq {A} (l : list A) : l `sublist_of` [] → l = [].
Proof. intros H. by apply sublist_nil_r in H. Qed.

Lemma pc_frame p c s' :
  pc_inv c → loop_frame p (st c) s' → pc_inv (goto (at_ c) s' c).
Proof.
  intros Hpc [Hpe _ (Ht & Hf & _ & Hn & Hpi & Hq)]. unfold pc_inv in *. cbn. rewrite Hf, Hn, Hpi, Hq.
  assert (Hnil : g_pending_list (st c) = [] → g_pending_list s' = []).
  { intros He. rewrite He in Hpe. by apply sublist_nil_eq. }
  assert (Hround : in_round c → in_round (goto (at_ c) s' c)).
  { intros [Hs Hnd]. split; [|done]. cbn. etrans; [|exact Hs]. by apply sublist_app. }
  destruct (at_ c); repeat match goal with H : _ ∧ _ |- _ => destruct H end; split_and?; auto.
Qed.

Lemma setup_ok n m s :
  fde_inv s → notify_inv s → notify_fde s = None → 0 ≤ n → 0 ≤ m → g_poll_node_map s !! m = None → g_pending_list s = [] →
  ∃ s', fdevent_run_setup n m s = Ret s' ∧ fde_inv s' ∧ notify_inv s' ∧ is_Some (notify_fde s') ∧ g_pending_list s' = [] ∧
    run_needs_flush s' = run_needs_flush s ∧ run_queue s' = run_queue s.
Proof.
  intros Hinv [Hpi Hn] Hnone Hn0 Hm Hmap Hpe. rewrite Hnone in Hn. unfold fdevent_run_setup.
  rewrite (proj2 (Z.eqb_eq _ _) Hn). cbn [CHECK mbind outcome_bind].
  destruct (create_ok m s Hinv Hm Hmap) as (s1 & -> & Hi1 & [_ _ (_ & Hf1 & _ & _ & Hpi1 & Hq1)] & Hp1 & He1).
  cbn [mbind outcome_bind]. set (p := fdevent_id s) in *. set (s2 := set_notify n (Some p) s1).
  assert (Hi2 : fde_inv s2) by (by apply (fde_inv_same s1)).
  destruct (add_ok p FDE_READ s2 _ Hi2 He1) as (s3 & -> & Hi3 & [Hp3 _ (_ & Hf3 & Hfd3 & Hnf3 & Hpi3 & Hq3)] & e3 & He3 & _).
  assert (Hp3' : g_pending_list s3 = []).
  { apply sublist_nil_eq. cbn in Hp3. by rewrite Hp1, Hpe in Hp3. }
  exists s3. split_and!; try done.
  - unfold notify_inv. rewrite Hnf3, Hfd3, Hpi3, Hp3'. cbn. split; [lia|]. split; [lia|]. exists e3. split; [done|].
    intros Hin. by apply not_elem_of_nil in Hin.
  - rewrite Hnf3. by eexists.
  - by rewrite Hf3.
  - by rewrite Hq3.
Qed.

(** ** Each move *)

Ltac with_pc := unfold enabled, pc_inv in *; cbn [at_ st submitted ran] in *.

Lemma poll_move l c : loop_inv c → enabled (MPoll l) c → ∃ c', run_move (MPoll l) c = Ret c' ∧ loop_inv c'.
Proof.
  intros [Hi [Hpi Hn] Hpc Hq] Hen. destruct c as [k s po ca su ra]. cbn [st at_] in *. destruct k; with_pc; try (by destruct l).
  destruct Hpc as ([p Hp] & Hpe & Hf & Hw). rewrite Hp in Hn. destruct Hn as (Hfd & e & He & _).
  destruct (fi_fde s Hi p e He) as [_ (nd & Hnd & _) _ _ _ _].
  assert (Hsz : 0 < Z.of_nat (size (g_poll_node_map s))).
  { assert (size (g_poll_node_map s) ≠ 0%nat); [|lia]. apply map_size_non_empty_iff. intros Hm. rewrite Hm in Hnd. done. }
  cbn [run_move st]. unfold fdevent_process. rewrite (proj2 (Z.ltb_lt _ _) Hsz). cbn [CHECK mbind outcome_bind].
  destruct l as [l|]; cbn [mbind outcome_bind].
  - destruct Hen as (_ & Hperm & Hpoll).
    assert (Hnd2 : NoDup (fst <$> l)) by (rewrite Hperm; apply NoDup_elements).
    destruct (post_ok l s Hi Hnd2) as (s' & -> & Hi' & Hp' & Hm' & (_ & Hf' & Hfd' & Hnf' & Hpi' & Hq') & Hev).
    { intros n. rewrite Hperm, elem_of_elements, elem_of_dom. done. }
    { intros q eq. rewrite Hpe. intros Hin. by apply not_elem_of_nil in Hin. }
    cbn [mbind outcome_bind]. eexists. split; [done|]. constructor; cbn; try done; [| |by rewrite Hq'].
    + unfold notify_inv. rewrite Hnf', Hfd', Hpi', Hp. split; [done|]. split; [done|].
      destruct (Hev p e He) as (e' & He' & Hfe & Hor). exists e'. split; [done|]. intros Hin.
      destruct Hor as [->|(r & Hr & Hr0 & Hre)].
      * exfalso. pose proof (proj2 (fo_events s' p e (fi_fde s' Hi' p e He')) Hin) as Hne.
        pose proof (proj1 (fo_events s p e (fi_fde s Hi p e He)) Hne) as Hin2. rewrite Hpe in Hin2. by apply not_elem_of_nil in Hin2.
      * pose proof (Hpoll (fd e) r p e Hr Hp He eq_refl) as Hrr. destruct (Z.ltb_spec 0 (pipe s)); [|by subst r].
        rewrite Hre, Hrr. split; [|done]. by rewrite Z.lor_spec, orb_true_iff; right.
    + rewrite Hnf', Hf', Hpi', Hq', Hp. split; [by eexists|]. split; [|auto]. split; cbn; [done|apply Hi'].
  - eexists. split; [done|]. constructor; cbn; try done.
    { unfold notify_inv. rewrite Hp. split_and!; try done. exists e. split; [done|]. intros Hin. rewrite Hpe in Hin. by apply not_elem_of_nil in Hin. }
    rewrite Hp. split; [by eexists|]. split; [|auto]. split; cbn; [done|apply Hi].
Qed.

Lemma call_ok p l s :
  fde_inv s → g_pending_list s = p :: l →
  ∃ ev e s', fdevent_call_fdfunc p (set_pending_list l s) = Ret (ev, s') ∧ fde_inv s' ∧ ev ≠ 0 ∧
    fdevents s !! p = Some e ∧ ev = events e ∧
    s' = put_fde p (mkFdevent (fd e) (Z.land (state e) (Z.lnot FDE_PENDING)) 0) (set_pending_list l s) ∧ p ∉ l.
Proof.
  intros Hinv Hl. assert (Hin : p ∈ g_pending_list s) by (rewrite Hl; by left).
  destruct (fi_pending s Hinv p Hin) as [e He]. destruct (fi_fde s Hinv p e He) as [Hid (nd & Hnd & Hok) Ha Hc Hpe Hev].
  pose proof (fi_nodup s Hinv) as Hnd2. rewrite Hl in Hnd2. apply NoDup_cons in Hnd2 as [Hnl Hnd2].
  unfold fdevent_call_fdfunc, get_fde. cbn [fdevents set_pending_list]. rewrite He. cbn [mbind outcome_bind].
  rewrite has_PENDING, (proj2 Hpe Hin). cbn [CHECK mbind outcome_bind]. do 3 eexists. split; [done|].
  split; [|split_and!; try done; by apply Hev].
  eapply (fde_inv_upd s _ p e (mkFdevent (fd e) (Z.land (state e) (Z.lnot FDE_PENDING)) 0) nd Hinv He); cbn; try done.
  - by rewrite insert_id.
  - destruct Hok as (? & ? & ?). unfold node_ok. cbn. split_and!; [done|bits; done|bits; done].
  - intros q Hq. rewrite Hl, elem_of_cons. naive_solver.
  - bits. done.
  - bits. done.
  - bits. naive_solver.
Qed.

Lemma call_move c : loop_inv c → enabled MCall c → ∃ c', run_move MCall c = Ret c' ∧ loop_inv c' ∧
  (length (g_pending_list (st c')) < length (g_pending_list (st c)))%nat.
Proof.
  intros [Hi [Hpi Hn] Hpc Hq] Hen. destruct c as [k s po ca su ra]. cbn [st at_ submitted ran] in *. destruct k; with_pc; try done.
  cbn [run_move st]. destruct (g_pending_list s) as [|p l] eqn:Hl; [done|].
  destruct Hpc as (Hsome & [Hsub Hnd] & Hw). cbn [called posted st] in *. rewrite Hl in Hsub.
  destruct (call_ok p l s Hi Hl) as (ev & e & s' & -> & Hi' & Hev & He & -> & Hs' & Hnl). cbn [mbind outcome_bind].
  assert (Hnf : notify_fde s' = notify_fde s) by (by rewrite Hs').
  assert (Hsub2 : (ca ++ [p]) ++ l `sublist_of` po) by (by rewrite <-app_assoc).
  destruct (decide (notify_fde s' = Some p)) as [Hp|Hp].
  - rewrite Hnf in Hp. rewrite Hp in Hn. destruct Hn as (Hfd & e2 & He2 & Hpend). assert (e2 = e) as -> by congruence.
    destruct (Hpend ltac:(rewrite ?Hl; by left)) as [Hrd Hpos]. unfold fdevent_run_func. rewrite has_READ, Hrd.
    change (0 <=? 0) with true. cbn [CHECK mbind outcome_bind]. rewrite Hs'. cbn [pipe put_fde set_fdevents set_pending_list].
    rewrite (proj2 (Z.eqb_neq _ _)) by lia. cbn [mbind outcome_bind]. eexists. split; [done|]. split; [|cbn; lia].
    constructor; cbn; try done.
    + apply (fde_inv_same s'); try done; by rewrite Hs'.
    + unfold notify_inv. cbn. rewrite Hp. split; [lia|]. split; [done|]. eexists. rewrite lookup_insert_eq. split; [done|]. done.
    + split; [done|]. split; [split; cbn; done|]. auto.
  - eexists. split; [done|]. split; [|cbn; rewrite Hs'; cbn; lia]. constructor; cbn; try done; [| |by rewrite Hs'].
    + rewrite Hnf in Hp. unfold notify_inv. rewrite Hs'. cbn. split; [done|]. destruct (notify_fde s) as [q|] eqn:Hqf; [|done].
      destruct Hn as (? & e2 & He2 & Hpend). split; [done|]. exists e2. rewrite lookup_insert_ne by congruence. split; [done|].
      intros Hin. apply Hpend. rewrite ?Hl. by right.
    + rewrite Hnf, Hs'. cbn. split; [done|]. split; [split; cbn; done|done].
Qed.

Lemma submit_ok fn full s :
  notify_inv s → let s' := fdevent_run_on_main_thread fn full s in
  fdevents s' = fdevents s ∧ fdevent_id s' = fdevent_id s ∧ g_poll_node_map s' = g_poll_node_map s ∧
  g_pending_list s' = g_pending_list s ∧ run_needs_flush s' = run_needs_flush s ∧ notify_fde s' = notify_fde s ∧
  run_queue s' = run_queue s ++ [fn] ∧ notify_inv s' ∧ (is_Some (notify_fde s) → 0 < pipe s').
Proof.
  intros [Hp Hn]. unfold fdevent_run_on_main_thread. cbn [run_queue_notify_fd set_run_queue pipe].
  destruct (Z.eqb_spec (run_queue_notify_fd s) (-1)) as [He|He]; cbn [negb].
  - split_and!; try done. intros [p Hs]. rewrite Hs in Hn. destruct Hn. done.
  - destruct full; cbn [andb]; [destruct (Z.ltb_spec 0 (pipe s))|]; cbn; split_and!; try done; try lia;
      unfold notify_inv; cbn; (split; [lia|]); destruct (notify_fde s); try done;
      destruct Hn as (? & e & ? & Hpd); (split; [done|]); exists e; (split; [done|]); intros Hin; split; (by apply Hpd) || lia.
Qed.

Lemma loop_move mv c : loop_inv c → enabled mv c → ∃ c', run_move mv c = Ret c' ∧ loop_inv c'.
Proof.
  intros Hli Hen. pose proof Hli as [Hi Hn Hpc Hq].
  destruct mv as [n m|l| | |o| | | | | |fn full|].
  - destruct c as [k s po ca su ra]. cbn [st] in *. destruct k; with_pc; try done. destruct Hpc as (H1 & H2 & H3), Hen as (? & ? & ?).
    destruct (setup_ok n m s) as (s' & Hs & ? & ? & ? & ? & Hf & Hr); try done. cbn [run_move st]. rewrite Hs. cbn [mbind outcome_bind].
    eexists. split; [done|]. constructor; cbn; try done; [|by rewrite Hr]. split_and!; try done. intros _. by rewrite Hf.
  - by apply poll_move.
  - destruct c as [k s po ca su ra]. destruct k; with_pc; try done. eexists. split; [done|]. by constructor.
  - destruct (call_move c Hli Hen) as (c' & ? & ? & _). eauto.
  - assert (Ho : op_ok (st c) o) by (destruct c as [k s po ca su ra]; destruct k; with_pc; done).
    assert (Hnot : ∀ p, notify_fde (st c) = Some p → is_Some (fdevents (st c) !! p)).
    { intros p Hp. destruct Hn as [_ Hn]. rewrite Hp in Hn. destruct Hn as (_ & e & He & _). by eexists. }
    destruct (op_run o (st c) Hi Ho Hnot) as (s' & p & Hs & Hi' & Hfr & Hne). cbn [run_move]. rewrite Hs. cbn [mbind outcome_bind].
    eexists. split; [done|]. constructor; cbn; [done|by eapply notify_frame|by eapply pc_frame|].
    destruct Hfr as [_ _ (_ & _ & _ & _ & _ & ->)]. done.
  - destruct c as [k s po ca su ra]. destruct k; with_pc; try done; eexists; (split; [done|]); by constructor.
  - destruct c as [k s po ca su ra]. destruct k; with_pc; try done. destruct Hpc as (? & ? & Hw). eexists. split; [done|].
    constructor; cbn; try done. destruct (run_needs_flush s) eqn:E; cbn; [done|]. split_and!; try done. naive_solver.
  - destruct c as [k s po ca su ra]. destruct k; with_pc; try done. cbn [run_move st at_].
    destruct (run_queue s) as [|fn q] eqn:Hrq; [done|]. eexists. split; [done|].
    constructor; cbn; [by apply (fde_inv_same s)|exact Hn|done|by rewrite Hq, <-app_assoc].
  - destruct c as [k s po ca su ra]. destruct k as [| | | |b| | |]; with_pc; try done. destruct Hpc as (? & ? & Hf). eexists. split; [done|].
    constructor; cbn; try done; destruct b; cbn; rewrite Hen; naive_solver.
  - destruct c as [k s po ca su ra]. destruct k; with_pc; try done. eexists. split; [done|].
    constructor; cbn; [by apply (fde_inv_same s)|exact Hn| |done]. naive_solver.
  - destruct (submit_ok fn full (st c) Hn) as (H1 & H2 & H3 & H4 & H5 & H6 & H7 & H8 & H9).
    eexists. split; [done|]. destruct c as [k s po ca su ra]. cbn [st submitted ran] in *.
    constructor; cbn; [by apply (fde_inv_same s)|done| |by rewrite H7, Hq, app_assoc].
    with_pc. rewrite H5, H6. unfold in_round in *. cbn in *. rewrite H4. destruct k; naive_solver.
  - eexists. split; [done|]. constructor; [by apply (fde_inv_same (st c))|exact Hn| |done]. destruct c as [k s po ca su ra]. by destruct k.
Qed.

Lemma loop_inv_init : loop_inv config_init.
Proof. constructor; cbn; try done. constructor; cbn; try done; [intros p Hp; by apply not_elem_of_nil in Hp|constructor]. Qed.

Lemma loop_reachable_inv c : reachable c → loop_inv c.
Proof.
  induction 1 as [|c mv c' _ IH Hen Hrun]; [apply loop_inv_init|].
  destruct (loop_move mv c IH Hen) as (c2 & Hc2 & ?). congruence.
Qed.

(** C7: the event loop keeps its books.  Whatever the handlers, the run queue's
    functions and the other threads do, in every reachable state each fdevent
    has exactly one poll node, which asks [poll] for what the fdevent waits
    for; an fdevent is in the pending list exactly when it is marked so and has
    events to deliver, and at most once; and every move that is possible ends
    without a failed CHECK and without touching a destroyed fdevent. *)
Theorem event_loop_safe c mv :
  reachable c → enabled mv c → fde_inv (st c) ∧ ∃ c', run_move mv c = Ret c' ∧ fde_inv (st c').
Proof.
  intros Hr Hen. pose proof (loop_reachable_inv c Hr) as Hli. split; [apply Hli|].
  destruct (loop_move mv c Hli Hen) as (c' & Hc' & []). eauto.
Qed.


(** C19: functions queued for the main thread are run in the order they were
    queued, none twice and none lost, and no wake-up is lost: whenever the main
    thread is about to wait in [poll] with functions queued, the pipe behind
    the notify descriptor holds a byte, so that [poll] returns. *)
Theorem run_queue_correct c :
  reachable c →
  submitted c = ran c ++ run_queue (st c) ∧
  (at_ c = AtTop → run_queue (st c) ≠ [] → is_Some (notify_fde (st c)) ∧ 0 < pipe (st c)).
Proof.
  intros Hr. destruct (loop_reachable_inv c Hr) as [_ _ Hpc Hq]. split; [done|]. intros Ha Hne.
  unfold pc_inv in Hpc. rewrite Ha in Hpc. naive_solver.
Qed.

(** ** A run *)

(** A descriptor is watched, a thread queues a function, [poll] reports both. *)
Definition demo_moves : list move :=
  [MOp (OpCreate 5); MOp (OpAdd 0 FDE_READ); MSetup 8 9; MFlushed; MSubmit 42 false;
   MPoll (Some [(5, POLLIN); (9, POLLIN)]); MCall].
Definition run_moves (l : list move) (c : config) : outcome config :=
  fold_left (λ r mv, c ← r; run_move mv c) l (Ret c).
Definition demo (l : list move) : config :=
  match run_moves l config_init with Ret c => c | Abort _ => config_init end.

Example demo_ex :
  let c := demo (demo_moves ++ [MOp (OpDestroy 0); MReturn; MCall; MDrained; MPop; MReturn; MFlushed; MReset]) in
  at_ c = AtTop ∧ called c = [0; 1] ∧ posted c = [0; 1] ∧ ran c = [42] ∧ pipe (st c) = 0 ∧
  dom (g_poll_node_map (st c)) = {[9]}.
Proof. vm_compute. split_and!; reflexivity. Qed.

(** Reachability of a concrete run, move by move. *)
Definition demo_at (k : nat) : config := demo (firstn k demo_moves).
Ltac demo_step k mv :=
  apply (reach_move (demo_at k) mv); [|vm_compute; repeat split; eauto; done|vm_compute; reflexivity].

Lemma demo_polls : reachable (demo_at 5).
Proof.
  demo_step 4%nat (MSubmit 42 false). demo_step 3%nat MFlushed. demo_step 2%nat (MSetup 8 9).
  demo_step 1%nat (MOp (OpAdd 0 FDE_READ)). demo_step 0%nat (MOp (OpCreate 5)). apply reach_init.
Qed.

Lemma demo_draining : reachable (demo_at 6).
Proof.
  apply (reach_move (demo_at 5) (MPoll (Some [(5, POLLIN); (9, POLLIN)]))); [apply demo_polls| |vm_compute; reflexivity].
  vm_compute. split_and!; [done|apply Permutation_swap|]. intros n r p e Hin [= <-] [= <-] <-.
  apply elem_of_cons in Hin as [Hin|Hin]; [done|]. by apply list_elem_of_singleton in Hin as [= ->].
Qed.

Lemma event_loop_safe_witness :
  fde_inv (st (demo_at 6)) ∧ ∃ c', run_move MCall (demo_at 6) = Ret c' ∧ fde_inv (st c').
Proof. apply (event_loop_safe _ _ demo_draining). vm_compute. done. Defined.


Lemma run_queue_correct_witness :
  submitted (demo_at 5) = ran (demo_at 5) ++ run_queue (st (demo_at 5)) ∧
  (at_ (demo_at 5) = AtTop → run_queue (st (demo_at 5)) ≠ [] → is_Some (notify_fde (st (demo_at 5))) ∧ 0 < pipe (st (demo_at 5))).
Proof. apply (run_queue_correct _ demo_polls). Defined.
