(* ===== verification/TransportReg.v ===== *)
(** * Registering, reconnecting and deleting transports
    (src/src/transport.cpp)

    A transport is created by one thread, registered and deleted on the main
    thread by messages through a socketpair, run by its connection, and
    reconnected by a thread of its own.  All of it is one transition system:
    what each of them does under its lock is a move.  The transports it works on
    are those of Transport.v. *)

From Stdlib Require Import ZArith Lia List String.
From stdpp Require Import base numbers list gmap sorting relations.
From S2P Require Import Prelude.
From S2P Require Import Libc.
From S2P Require Import Packet.
From S2P Require Import Connection.
From S2P Require Import Transport.

(** ** ReconnectAttempt *)

Record ReconnectAttempt := mkAttempt { transport : Z; reconnect_time : Z; attempts_left : Z }.

(** [operator<]; a pointer is compared as an integer. *)
Definition attempt_ltb (lhs rhs : ReconnectAttempt) : bool :=
  if reconnect_time lhs =? reconnect_time rhs then transport lhs <? transport rhs
  else reconnect_time lhs <? reconnect_time rhs.

(** [std::set::emplace]: nothing happens if an equivalent element is there. *)
Fixpoint emplace (a : ReconnectAttempt) (q : list ReconnectAttempt) : list ReconnectAttempt :=
  match q with
  | [] => [a]
  | b :: q =>
      if attempt_ltb a b then a :: b :: q
      else if attempt_ltb b a then b :: emplace a q
      else b :: q
  end.

(** Milliseconds. *)
Definition kDefaultTimeout : Z := 10000.
Definition kMaxAttempts : Z := 6.

Inductive ReconnectResult := Retry | Success | AbortReconnect.

(** ** State *)

Inductive handler_thread := HWaiting | HAttempt (a : ReconnectAttempt) | HExited.

(** [messages] is the socketpair of [transport_registration_send]; [registering]
    are the threads between the lists and [register_transport]; [connected] the
    transports whose connection runs; [main_queue] what
    [fdevent_run_on_main_thread] has been given by the error callbacks. *)
Record reg := mkReg {
  transports : gmap Z atransport;
  next_transport : Z;
  pending_list : list Z;
  transport_list : list Z;
  messages : list (Z * Z);
  registering : list Z;
  connected : list Z;
  main_queue : list Z;
  reconnect_queue : list ReconnectAttempt;
  running : bool;
  handler : handler_thread
}.
Definition set_transports (v : gmap Z atransport) (s : reg) : reg :=
  mkReg v (next_transport s) (pending_list s) (transport_list s) (messages s) (registering s) (connected s) (main_queue s) (reconnect_queue s) (running s) (handler s).
Definition set_lists (p l : list Z) (s : reg) : reg :=
  mkReg (transports s) (next_transport s) p l (messages s) (registering s) (connected s) (main_queue s) (reconnect_queue s) (running s) (handler s).
Definition set_messages (v : list (Z * Z)) (s : reg) : reg :=
  mkReg (transports s) (next_transport s) (pending_list s) (transport_list s) v (registering s) (connected s) (main_queue s) (reconnect_queue s) (running s) (handler s).
Definition set_registering (v : list Z) (s : reg) : reg :=
  mkReg (transports s) (next_transport s) (pending_list s) (transport_list s) (messages s) v (connected s) (main_queue s) (reconnect_queue s) (running s) (handler s).
Definition set_connected (v : list Z) (s : reg) : reg :=
  mkReg (transports s) (next_transport s) (pending_list s) (transport_list s) (messages s) (registering s) v (main_queue s) (reconnect_queue s) (running s) (handler s).
Definition set_main_queue (v : list Z) (s : reg) : reg :=
  mkReg (transports s) (next_transport s) (pending_list s) (transport_list s) (messages s) (registering s) (connected s) v (reconnect_queue s) (running s) (handler s).
Definition set_reconnect_queue (v : list ReconnectAttempt) (s : reg) : reg :=
  mkReg (transports s) (next_transport s) (pending_list s) (transport_list s) (messages s) (registering s) (connected s) (main_queue s) v (running s) (handler s).
Definition set_running (v : bool) (s : reg) : reg :=
  mkReg (transports s) (next_transport s) (pending_list s) (transport_list s) (messages s) (registering s) (connected s) (main_queue s) (reconnect_queue s) v (handler s).
Definition set_handler (v : handler_thread) (s : reg) : reg :=
  mkReg (transports s) (next_transport s) (pending_list s) (transport_list s) (messages s) (registering s) (connected s) (main_queue s) (reconnect_queue s) (running s) v.

Definition reg_init : reg := mkReg ∅ 0 [] [] [] [] [] [] [] true HWaiting.

Definition get_transport (t : Z) (s : reg) : outcome atransport :=
  match transports s !! t with Some a => Ret a | None => Abort "use after free" end.
Definition put_transport (t : Z) (a : atransport) (s : reg) : reg := set_transports (<[t := a]> (transports s)) s.
(** A new object. *)
Definition new_transport (a : atransport) (s : reg) : Z * reg :=
  let t := next_transport s in
  (t, mkReg (<[t := a]> (transports s)) (t + 1) (pending_list s) (transport_list s) (messages s) (registering s) (connected s) (main_queue s) (reconnect_queue s) (running s) (handler s)).
Definition list_remove (t : Z) (l : list Z) : list Z := filter (λ u, u ≠ t) l.

(** ** Messages *)

Definition register_transport (t : Z) (s : reg) : reg := set_messages (messages s ++ [(t, 1)]) s.
Definition remove_transport (t : Z) (s : reg) : reg := set_messages (messages s ++ [(t, 0)]) s.

Definition no_perm (a : atransport) : bool := bool_decide (connection_state_ a = kCsNoPerm).

(** [transport_registration_func] for the next message; [connection()->Start()]
    is fatal for a connection that was started. *)
Definition transport_registration_func (s : reg) : outcome reg :=
  match messages s with
  | [] => Abort "cannot read transport registration socket"
  | (t, action) :: l =>
      let s := set_messages l s in
      a ← get_transport t s;
      if action =? 0 then
        let s := set_lists (pending_list s) (list_remove t (transport_list s)) s in
        Ret (set_transports (delete t (transports s)) s)
      else
        s ← (if no_perm a then Ret s
             else
               let s := put_transport t (set_ref_count (ref_count a + 1) a) s in
               _ ← CHECK (bool_decide (t ∉ connected s)) "BlockingConnectionAdapter started multiple times";
               Ret (set_connected (t :: connected s) s));
        if bool_decide (t ∈ pending_list s)
        then Ret (set_lists (list_remove t (pending_list s)) (t :: transport_list s) s)
        else Ret s
  end.

(** ** Reference counts *)

Definition TrackTransport (t now : Z) (s : reg) : reg :=
  if running s then set_reconnect_queue (emplace (mkAttempt t (now + 250) kMaxAttempts) (reconnect_queue s)) s else s.

Definition transport_unref (t now : Z) (s : reg) : outcome reg :=
  a ← get_transport t s;
  _ ← CHECK (0 <? ref_count a) "t->ref_count > 0";
  let s := put_transport t (set_ref_count (ref_count a - 1) a) s in
  if ref_count a - 1 =? 0 then
    if IsTcpDevice a && negb (kicked_ a) then Ret (TrackTransport t now s) else Ret (remove_transport t s)
  else Ret s.

(** ** The reconnect handler *)

(** The scan for transports that were kicked: what stays in the queue. *)
Fixpoint remove_kicked (q : list ReconnectAttempt) (s : reg) : outcome (list ReconnectAttempt * reg) :=
  match q with
  | [] => Ret ([], s)
  | it :: q =>
      a ← get_transport (transport it) s;
      if kicked_ a then remove_kicked q (remove_transport (transport it) s)
      else '(kept, s) ← remove_kicked q s; Ret (it :: kept, s)
  end.

(** One round of [Run] that has woken up at [now], up to the attempt. *)
Definition handler_wake (now : Z) (s : reg) : outcome reg :=
  if negb (running s) then Ret (set_handler HExited s)
  else
    '(queue, s) ← remove_kicked (reconnect_queue s) s;
    match queue with
    | [] => Ret (set_reconnect_queue [] s)
    | attempt :: q =>
        if now <? reconnect_time attempt then Ret (set_reconnect_queue (attempt :: q) s)
        else Ret (set_handler (HAttempt attempt) (set_reconnect_queue q s))
    end.

(** What [Run] does with the result of [Reconnect]. *)
Definition handler_result (attempt : ReconnectAttempt) (r : ReconnectResult) (now : Z) (s : reg) : reg :=
  let s := set_handler HWaiting s in
  match r with
  | Retry =>
      if attempts_left attempt =? 0 then remove_transport (transport attempt) s
      else set_reconnect_queue
             (emplace (mkAttempt (transport attempt) (now + kDefaultTimeout) (u64 (attempts_left attempt - 1))) (reconnect_queue s)) s
  | Success => register_transport (transport attempt) s
  | AbortReconnect => remove_transport (transport attempt) s
  end.

(** [ReconnectHandler::Stop] after the join: the queue is drained. *)
Definition drain_queue (s : reg) : reg :=
  set_reconnect_queue [] (fold_left (λ s a, remove_transport (transport a) s) (reconnect_queue s) s).

(** ** Creating transports *)

Definition has_serial (sn : bytes) (s : reg) (t : Z) : bool :=
  match transports s !! t with Some a => bool_decide (serial a = sn) | None => false end.

(** [register_socket_transport] up to [lock.unlock()]: whether it goes on.  [a] is
    the transport [init_socket_transport] has filled in. *)
Definition register_socket_transport (a : atransport) (sn : bytes) (s : reg) : bool * reg :=
  if existsb (has_serial sn s) (pending_list s) || existsb (has_serial sn s) (transport_list s) then (false, s)
  else
    let '(t, s) := new_transport (set_serial sn a) s in
    (true, set_registering (t :: registering s) (set_lists (t :: pending_list s) (transport_list s) s)).

Definition register_usb_transport (a : atransport) (s : reg) : reg :=
  let '(t, s) := new_transport a s in
  set_registering (t :: registering s) (set_lists (t :: pending_list s) (transport_list s) s).

(** [unregister_usb_transport] of the handle behind [t]. *)
Definition unregister_usb_transport (t : Z) (s : reg) : outcome reg :=
  if bool_decide (t ∈ transport_list s) then
    a ← get_transport t s;
    Ret (if no_perm a then set_lists (pending_list s) (list_remove t (transport_list s)) s else s)
  else Ret s.

(** [kick_transport]. *)
Definition kick_transport (t : Z) (s : reg) : outcome reg :=
  if bool_decide (t ∈ transport_list s) then a ← get_transport t s; Ret (put_transport t (set_kicked_ true a) s) else Ret s.

(** [close_usb_devices] of a predicate: what it holds of is kicked. *)
Fixpoint kick_where (predicate : atransport → bool) (l : list Z) (s : reg) : outcome reg :=
  match l with
  | [] => Ret s
  | t :: l => a ← get_transport t s; kick_where predicate l (if predicate a then put_transport t (set_kicked_ true a) s else s)
  end.
Definition close_usb_devices (predicate : atransport → bool) (s : reg) : outcome reg := kick_where predicate (transport_list s) s.
Definition kick_all_tcp_devices (s : reg) : outcome reg := kick_where IsTcpDevice (transport_list s) s.
(** The part of [kick_all_transports] that follows [reconnect_handler.Stop()]. *)
Definition kick_all_transports (s : reg) : outcome reg := kick_where (λ _, true) (transport_list s) s.

Fixpoint find_listed (sn : bytes) (l : list Z) (s : reg) : outcome (option Z) :=
  match l with
  | [] => Ret None
  | t :: l => a ← get_transport t s; if bool_decide (serial a = sn) then Ret (Some t) else find_listed sn l s
  end.
Definition find_transport (sn : bytes) (s : reg) : outcome (option Z) := find_listed sn (transport_list s) s.

(** ** Moves *)

Inductive move :=
  | MSocket (a : atransport) (sn : bytes) | MUsb (a : atransport) | MRegister (t : Z)
  | MMessage | MError (t : Z) | MUnref (now : Z) | MKick (t : Z) | MUnregister (t : Z)
  | MKickWhere (predicate : atransport → bool) | MState (t : Z) (state : ConnectionState)
  | MWake (now : Z) | MResult (r : ReconnectResult) (now : Z) | MStop | MDrain.

(** A transport as its constructor and [init_usb_transport] or
    [init_socket_transport] leave it. *)
Definition fresh_transport (a : atransport) : Prop := ref_count a = 0 ∧ kicked_ a = false.

Definition enabled (mv : move) (s : reg) : Prop :=
  match mv with
  | MSocket a _ => fresh_transport a ∧ connection_state_ a = kCsOffline ∧ type a = kTransportLocal
  | MUsb a => fresh_transport a ∧ type a = kTransportUsb
  | MRegister t => t ∈ registering s
  | MMessage => messages s ≠ []
  | MError t => t ∈ connected s
  | MUnref _ => main_queue s ≠ []
  | MState t _ => t ∈ connected s ++ main_queue s
  | MWake _ => handler s = HWaiting
  | MResult _ _ => ∃ a, handler s = HAttempt a
  | MDrain => handler s = HExited
  | _ => True
  end.

Definition run_move (mv : move) (s : reg) : outcome reg :=
  match mv with
  | MSocket a sn => Ret (register_socket_transport a sn s).2
  | MUsb a => Ret (register_usb_transport a s)
  | MRegister t => Ret (register_transport t (set_registering (list_remove t (registering s)) s))
  | MMessage => transport_registration_func s
  | MError t => Ret (set_main_queue (main_queue s ++ [t]) (set_connected (list_remove t (connected s)) s))
  | MUnref now =>
      match main_queue s with
      | t :: q => transport_unref t now (set_main_queue q s)
      | [] => Abort "empty queue"
      end
  | MKick t => kick_transport t s
  | MUnregister t => unregister_usb_transport t s
  | MKickWhere predicate => close_usb_devices predicate s
  | MState t state => a ← get_transport t s; Ret (put_transport t (SetConnectionState state a) s)
  | MWake now => handler_wake now s
  | MResult r now => match handler s with HAttempt a => Ret (handler_result a r now s) | _ => Abort "no attempt" end
  | MStop => Ret (set_running false s)
  | MDrain => Ret (drain_queue s)
  end.

Inductive reachable : reg → Prop :=
  | reach_init : reachable reg_init
  | reach_move s mv s' : reachable s → enabled mv s → run_move mv s = Ret s' → reachable s'.

(** ** Owners *)

(** Who is to do something with a transport next; each occurrence is one owner. *)
Definition attempt_of (h : handler_thread) : list Z := match h with HAttempt a => [transport a] | _ => [] end.
Definition owners (s : reg) : list Z :=
  registering s ++ (fst <$> messages s) ++ connected s ++ main_queue s ++ (transport <$> reconnect_queue s) ++ attempt_of (handler s).

#[local] Arguments owners : simpl never.

Definition left_ok (a : ReconnectAttempt) : Prop := 0 ≤ attempts_left a ≤ kMaxAttempts.

Record reg_inv (s : reg) : Prop := {
  ri_next : ∀ t a, transports s !! t = Some a → t < next_transport s;
  ri_owners : NoDup (owners s);
  ri_live : ∀ t, t ∈ owners s → is_Some (transports s !! t);
  ri_owned : ∀ t a, transports s !! t = Some a → t ∈ owners s ∨ no_perm a = true ∨ running s = false;
  ri_refs : ∀ t a, transports s !! t = Some a → ref_count a = if decide (t ∈ connected s ++ main_queue s) then 1 else 0;
  ri_lists : NoDup (pending_list s ++ transport_list s);
  ri_listed : ∀ t, t ∈ pending_list s ++ transport_list s → is_Some (transports s !! t);
  ri_pending : ∀ t, t ∈ pending_list s → t ∈ registering s ∨ (t, 1) ∈ messages s;
  ri_left : Forall left_ok (reconnect_queue s) ∧ ∀ a, handler s = HAttempt a → left_ok a;
  ri_exited : handler s = HExited → running s = false
}.

Lemma remove_perm t (l : list Z) : NoDup l → t ∈ l → l ≡ₚ t :: list_remove t l.
Proof.
  intros Hnd Hin. apply NoDup_Permutation; [done| |].
  - constructor; [|by apply NoDup_filter]. unfold list_remove. rewrite list_elem_of_filter. naive_solver.
  - intros x. unfold list_remove. rewrite elem_of_cons, list_elem_of_filter. destruct (decide (x = t)); naive_solver.
Qed.

Lemma elem_of_list_remove t u l : u ∈ list_remove t l ↔ u ≠ t ∧ u ∈ l.
Proof. unfold list_remove. by rewrite list_elem_of_filter. Qed.

Lemma emplace_perm a q : transport a ∉ transport <$> q → emplace a q ≡ₚ a :: q.
Proof.
  induction q as [|b q IH]; intros Hn; cbn [emplace]; [done|].
  rewrite fmap_cons, not_elem_of_cons in Hn. destruct Hn as [Hne Hn].
  destruct (attempt_ltb a b) eqn:E1; [done|]. destruct (attempt_ltb b a) eqn:E2.
  - rewrite IH by done. constructor.
  - exfalso. unfold attempt_ltb in *. destruct (Z.eqb_spec (reconnect_time a) (reconnect_time b)) as [He|He].
    + rewrite He, Z.eqb_refl in E2. reflect_Z. lia.
    + rewrite (proj2 (Z.eqb_neq _ _)) in E2 by done. reflect_Z. lia.
Qed.

(** Owners change places; the transports and the lists stay. *)
Lemma inv_shuffle s s' :
  reg_inv s → transports s' = transports s → next_transport s' = next_transport s →
  pending_list s' = pending_list s → transport_list s' = transport_list s →
  owners s' ≡ₚ owners s → (∀ t, t ∈ connected s' ++ main_queue s' ↔ t ∈ connected s ++ main_queue s) →
  (running s' = running s ∨ running s' = false) →
  (∀ t, t ∈ registering s ∨ (t, 1) ∈ messages s → t ∈ registering s' ∨ (t, 1) ∈ messages s') →
  (Forall left_ok (reconnect_queue s') ∧ ∀ a, handler s' = HAttempt a → left_ok a) →
  (handler s' = HExited → running s' = false) → reg_inv s'.
Proof.
  intros [] Ht Hn Hp Hl Ho Hc Hr Hreg Hleft Hex. constructor; rewrite ?Ht, ?Hn, ?Hp, ?Hl; try done.
  - by rewrite Ho.
  - intros t. rewrite Ho. apply ri_live0.
  - intros t a Ha. rewrite Ho. destruct (ri_owned0 t a Ha) as [?|[?|?]]; [by left|right; by left|]. right. right.
    destruct Hr; congruence.
  - intros t a Ha. rewrite (ri_refs0 t a Ha). destruct (decide _) as [Hd|Hd], (decide _) as [Hd2|Hd2]; try done; by rewrite Hc in Hd2.
  - intros t Ht'. by apply Hreg, ri_pending0.
Qed.

Definition removals (gone : list Z) : list (Z * Z) := (λ t, (t, 0)) <$> gone.
Lemma fst_removals gone : fst <$> removals gone = gone.
Proof. unfold removals. rewrite <-list_fmap_compose. apply list_fmap_id. Qed.

Lemma remove_kicked_ok q s :
  (∀ t, t ∈ transport <$> q → is_Some (transports s !! t)) →
  ∃ kept gone, remove_kicked q s = Ret (kept, set_messages (messages s ++ removals gone) s) ∧
    transport <$> q ≡ₚ (transport <$> kept) ++ gone ∧ kept `sublist_of` q.
Proof.
  revert s. induction q as [|it q IH]; intros s Hl; cbn [remove_kicked].
  { exists [], []. split_and!; [|done|done]. cbn. rewrite app_nil_r. by destruct s. }
  destruct (Hl (transport it) ltac:(by left)) as [a Ha]. unfold get_transport. rewrite Ha. cbn [mbind outcome_bind].
  assert (Hl' : ∀ t, t ∈ transport <$> q → is_Some (transports s !! t)) by (intros; apply Hl; by right).
  destruct (kicked_ a).
  - destruct (IH (remove_transport (transport it) s) Hl') as (kept & gone & -> & Hp & Hs).
    exists kept, (transport it :: gone). split_and!.
    + cbn. by rewrite <-app_assoc.
    + rewrite fmap_cons, Hp. by rewrite Permutation_middle.
    + by apply sublist_cons.
  - destruct (IH s Hl') as (kept & gone & -> & Hp & Hs). cbn [mbind outcome_bind].
    exists (it :: kept), gone. split_and!; [done| |by apply sublist_skip]. rewrite !fmap_cons, Hp. done.
Qed.

Lemma Forall_sublist {A} (P : A → Prop) l k : Forall P k → l `sublist_of` k → Forall P l.
Proof. intros HP Hs. apply Forall_forall. intros x Hx. eapply Forall_forall; [exact HP|]. by eapply sublist_subseteq. Qed.

Lemma NoDup_app_disjoint {A} (l k : list A) x : NoDup (l ++ k) → x ∈ l → x ∉ k.
Proof. rewrite NoDup_app. intros (_ & H & _). apply H. Qed.

Lemma wake_ok now s :
  reg_inv s → handler s = HWaiting → ∃ s', handler_wake now s = Ret s' ∧ reg_inv s'.
Proof.
  intros Hi Hh. pose proof Hi as []. unfold handler_wake. destruct (running s) eqn:Hr; cbn [negb].
  2:{ eexists. split; [done|]. apply (inv_shuffle s); cbn; try done; auto.
      - unfold owners. cbn. by rewrite Hh.
      - split; [apply ri_left0|done]. }
  destruct (remove_kicked_ok (reconnect_queue s) s) as (kept & gone & -> & Hp & Hs).
  { intros t Ht. apply ri_live0. unfold owners. rewrite !elem_of_app. tauto. }
  cbn [mbind outcome_bind]. destruct ri_left0 as [Hq _].
  assert (Hk : Forall left_ok kept) by (by eapply Forall_sublist).
  assert (Hperm : ∀ h k, (transport <$> k) ++ attempt_of h ≡ₚ (transport <$> kept) →
    owners (set_handler h (set_reconnect_queue k (set_messages (messages s ++ removals gone) s))) ≡ₚ owners s).
  { intros h k Hhk. unfold owners. cbn. rewrite Hhk, fmap_app, fst_removals, Hp, Hh. cbn. solve_Permutation. }
  assert (Hmsg : ∀ t, t ∈ registering s ∨ (t, 1) ∈ messages s → t ∈ registering s ∨ (t, 1) ∈ messages s ++ removals gone).
  { intros t. rewrite elem_of_app. tauto. }
  assert (Hstay : ∀ k, k = kept → reg_inv (set_reconnect_queue k (set_messages (messages s ++ removals gone) s))).
  { intros k ->. apply (inv_shuffle s); cbn; try done; auto.
    - specialize (Hperm HWaiting kept). cbn in Hperm. rewrite app_nil_r in Hperm. specialize (Hperm ltac:(done)).
      etrans; [|exact Hperm]. unfold owners. cbn. rewrite Hh. cbn. by rewrite app_nil_r.
    - split; [done|]. intros a. by rewrite Hh.
    - by rewrite Hh. }
  destruct kept as [|attempt q]; [eexists; split; [done|by apply Hstay]|].
  destruct (now <? reconnect_time attempt); [eexists; split; [done|by apply Hstay]|].
  eexists. split; [done|]. apply Forall_cons in Hk as [Hk1 Hk2].
  apply (inv_shuffle s); cbn; try done; auto.
  - apply (Hperm (HAttempt attempt) q). cbn. by rewrite Permutation_app_comm.
  - split; [done|]. by intros a [= <-].
Qed.

Lemma result_ok a r now s :
  reg_inv s → handler s = HAttempt a → reg_inv (handler_result a r now s).
Proof.
  intros Hi Hh. pose proof Hi as []. destruct ri_left0 as [Hq Hatt]. specialize (Hatt a Hh). unfold left_ok in Hatt.
  unfold handler_result. destruct r; [destruct (Z.eqb_spec (attempts_left a) 0) as [Hz|Hz]| |].
  - apply (inv_shuffle s); cbn; try done; auto; [unfold owners; cbn; rewrite Hh, fmap_app; cbn; solve_Permutation|].
    intros t. rewrite elem_of_app. tauto.
  - set (b := mkAttempt _ _ _). assert (Hb : transport b ∉ transport <$> reconnect_queue s).
    { intros Hin. unfold owners in ri_owners0. rewrite !app_assoc in ri_owners0. rewrite Hh in ri_owners0.
      apply (NoDup_app_disjoint _ _ (transport a) ri_owners0); [|by left]. rewrite elem_of_app. by right. }
    apply (inv_shuffle s); cbn; try done; auto.
    + unfold owners. cbn. rewrite emplace_perm by done. rewrite Hh. cbn. solve_Permutation.
    + split; [|done]. rewrite emplace_perm by done. constructor; [|done]. unfold left_ok, b, kMaxAttempts in *. cbn. rewrite u64_small; lia.
  - apply (inv_shuffle s); cbn; try done; auto; [unfold owners; cbn; rewrite Hh, fmap_app; cbn; solve_Permutation|].
    intros t. rewrite elem_of_app. tauto.
  - apply (inv_shuffle s); cbn; try done; auto; [unfold owners; cbn; rewrite Hh, fmap_app; cbn; solve_Permutation|].
    intros t. rewrite elem_of_app. tauto.
Qed.

(** *** Messages *)

Lemma list_remove_not_in t l : t ∉ l → list_remove t l = l.
Proof.
  unfold list_remove. induction l as [|x l IH]; intros Hp; [done|]. rewrite not_elem_of_cons in Hp.
  rewrite filter_cons_True by naive_solver. f_equal. naive_solver.
Qed.

Lemma NoDup_remove_app t p l : NoDup (p ++ l) → NoDup (p ++ list_remove t l) ∧ NoDup (list_remove t p ++ l).
Proof.
  rewrite !NoDup_app. intros (Hp & Hd & Hl). unfold list_remove. split; split_and!; try done; try by apply NoDup_filter.
  - intros x Hx. rewrite list_elem_of_filter. intros [_ ?]. by eapply Hd.
  - intros x. rewrite list_elem_of_filter. intros [_ ?]. by apply Hd.
Qed.

(** A transport that is pending goes to the list. *)
Lemma lists_move t p l : NoDup (p ++ l) → t ∈ p →
  NoDup (list_remove t p ++ t :: l) ∧ ∀ x, x ∈ list_remove t p ++ t :: l ↔ x ∈ p ++ l.
Proof.
  intros Hnd Hin. assert (p ++ l ≡ₚ list_remove t p ++ t :: l) as Hperm.
  { rewrite (remove_perm t p) at 1; [|by apply NoDup_app in Hnd as [? _]|done]. solve_Permutation. }
  split; [by rewrite <-Hperm|]. intros x. by rewrite Hperm.
Qed.

(** The owner of [t] when the next message is about it: only that message. *)
Lemma message_owner s t k l :
  NoDup (owners s) → messages s = (t, k) :: l →
  t ∉ registering s ∧ t ∉ fst <$> l ∧ t ∉ connected s ++ main_queue s ∧
  owners s ≡ₚ t :: registering s ++ (fst <$> l) ++ connected s ++ main_queue s ++ (transport <$> reconnect_queue s) ++ attempt_of (handler s).
Proof.
  intros Hnd Hm. assert (Hp : owners s ≡ₚ t :: registering s ++ (fst <$> l) ++ connected s ++ main_queue s ++ (transport <$> reconnect_queue s) ++ attempt_of (handler s)).
  { unfold owners. rewrite Hm. cbn. solve_Permutation. }
  rewrite Hp in Hnd. apply NoDup_cons in Hnd as [Hn _]. rewrite !elem_of_app in Hn. rewrite elem_of_app. tauto.
Qed.

Lemma delete_ok s t l :
  reg_inv s → messages s = (t, 0) :: l →
  reg_inv (set_transports (delete t (transports s)) (set_lists (pending_list s) (list_remove t (transport_list s)) (set_messages l s))).
Proof.
  intros [] Hm. destruct (message_owner s t 0 l ri_owners0 Hm) as (Hr & Hl & Hc & Hp).
  set (s' := set_transports _ _).
  assert (Ho : owners s ≡ₚ t :: owners s') by done. clear Hp. rewrite Ho in ri_owners0. apply NoDup_cons in ri_owners0 as [Hn Hnd].
  assert (Hpend : t ∉ pending_list s).
  { intros Hin. destruct (ri_pending0 t Hin) as [?|H1]; [done|]. rewrite Hm in H1. apply elem_of_cons in H1 as [[=]|H1].
    apply Hl. apply list_elem_of_fmap. by exists (t, 1). }
  constructor; cbn; try done.
  - intros u a [_ Hu]%lookup_delete_Some. by eapply ri_next0.
  - intros u Hu. rewrite lookup_delete_ne by (by intros <-). apply ri_live0. rewrite Ho. by right.
  - intros u a [Hne Hu]%lookup_delete_Some. destruct (ri_owned0 u a Hu) as [Hin|?]; [|by right]. left.
    rewrite Ho in Hin. by apply elem_of_cons in Hin as [->|?].
  - intros u a [_ Hu]%lookup_delete_Some. by apply ri_refs0.
  - by apply NoDup_remove_app.
  - intros u. rewrite elem_of_app, elem_of_list_remove. intros Hu.
    assert (u ≠ t) by (destruct Hu as [Hu|[? _]]; [by intros ->|done]). rewrite lookup_delete_ne by done. apply ri_listed0.
    rewrite elem_of_app. tauto.
  - intros u Hu. destruct (ri_pending0 u Hu) as [?|H1]; [by left|right]. rewrite Hm in H1. by apply elem_of_cons in H1 as [[=]|H1].
Qed.

(** The list part of a registration. *)
Definition listed (t : Z) (s : reg) : reg :=
  if bool_decide (t ∈ pending_list s) then set_lists (list_remove t (pending_list s)) (t :: transport_list s) s else s.

Lemma listed_ok s s1 t k l :
  reg_inv s → messages s = (t, k) :: l →
  pending_list s1 = pending_list s → transport_list s1 = transport_list s → messages s1 = l → registering s1 = registering s →
  reconnect_queue s1 = reconnect_queue s → handler s1 = handler s → running s1 = running s → main_queue s1 = main_queue s →
  (∀ u a, transports s1 !! u = Some a → u < next_transport s1) →
  NoDup (owners s1) → (∀ u, is_Some (transports s !! u) ↔ is_Some (transports s1 !! u)) →
  (∀ u, u ∈ owners s1 → is_Some (transports s1 !! u)) →
  (∀ u a, transports s1 !! u = Some a → u ∈ owners s1 ∨ no_perm a = true ∨ running s1 = false) →
  (∀ u a, transports s1 !! u = Some a → ref_count a = if decide (u ∈ connected s1 ++ main_queue s1) then 1 else 0) →
  reg_inv (listed t s1).
Proof.
  intros [] Hm Hpl Htl Hms Hrg Hq Hh Hrn Hmq Hnx Hnd Hsome Hlive Hown Href.
  unfold owners in Hnd, Hlive, Hown. rewrite Hq, Hh in Hnd, Hlive, Hown. rewrite Hrn in Hown. unfold listed. case_bool_decide as Hin.
  - rewrite Hpl in Hin. destruct (lists_move t _ _ ri_lists0 Hin) as [Hnd2 Hin2].
    constructor; unfold owners; cbn; rewrite ?Hpl, ?Htl, ?Hq, ?Hh, ?Hrn; try done.
    + intros u Hu. apply (proj1 (Hsome u)), ri_listed0. by apply Hin2.
    + intros u. rewrite elem_of_list_remove. intros [Hne Hu]. rewrite Hrg, Hms. destruct (ri_pending0 u Hu) as [?|H1]; [by left|right].
      rewrite Hm in H1. by apply elem_of_cons in H1 as [[= ? ?]|H1].
  - rewrite Hpl in Hin. constructor; unfold owners; rewrite ?Hpl, ?Htl, ?Hq, ?Hh, ?Hrn; try done.
    + intros u Hu. by apply (proj1 (Hsome u)), ri_listed0.
    + intros u Hu. rewrite Hrg, Hms. destruct (ri_pending0 u Hu) as [?|H1]; [by left|right].
      rewrite Hm in H1. apply elem_of_cons in H1 as [[= -> ->]|H1]; done.
Qed.

Lemma message_ok s : reg_inv s → messages s ≠ [] → ∃ s', transport_registration_func s = Ret s' ∧ reg_inv s'.
Proof.
  intros Hi Hne. pose proof Hi as []. unfold transport_registration_func. destruct (messages s) as [|[t k] l] eqn:Hm; [done|].
  destruct (message_owner s t k l ri_owners0 Hm) as (Hr & Hl & Hc & Hp).
  assert (Hlive : is_Some (transports s !! t)) by (apply ri_live0; rewrite Hp; by left). destruct Hlive as [a Ha].
  unfold get_transport. cbn [transports set_messages]. rewrite Ha. cbn [mbind outcome_bind].
  destruct (Z.eqb_spec k 0) as [->|Hk]. { eexists. split; [done|]. exact (delete_ok s t l Hi Hm). }
  assert (Hnd := ri_owners0). rewrite Hp in Hnd. apply NoDup_cons in Hnd as [Hn Hnd].
  destruct (no_perm a) eqn:Hnp; cbn [mbind outcome_bind].
  - match goal with |- ∃ s', (if _ then Ret ?x else Ret ?y) = Ret s' ∧ _ => exists (listed t y) end.
    split; [by unfold listed; destruct (bool_decide _)|].
    apply (listed_ok s _ t k l); try done.
    + intros u Hu. apply ri_live0. rewrite Hp. by right.
    + intros u b Hu. cbn in Hu. destruct (ri_owned0 u b Hu) as [Hin|?]; [|by right]. rewrite Hp in Hin.
      apply elem_of_cons in Hin as [->|?]; [right; left; congruence|by left].
  - unfold put_transport. cbn [connected set_transports set_messages]. rewrite bool_decide_eq_true_2 by (rewrite elem_of_app in Hc; tauto).
    cbn [CHECK mbind outcome_bind].
    match goal with |- ∃ s', (if _ then Ret ?x else Ret ?y) = Ret s' ∧ _ => exists (listed t y); set (s1 := y) end.
    split; [by unfold listed; destruct (bool_decide _)|].
    assert (Ho : owners s1 ≡ₚ owners s) by (rewrite Hp; unfold owners; cbn; solve_Permutation).
    apply (listed_ok s s1 t k l); try done; cbn.
    + intros u b. rewrite lookup_insert_Some. intros [[<- <-]|[_ Hu]]; eauto.
    + by rewrite Ho.
    + intros u. destruct (decide (u = t)) as [->|]; [rewrite lookup_insert_eq, Ha; split; eauto|by rewrite lookup_insert_ne].
    + intros u. rewrite Ho. intros Hu. destruct (decide (u = t)) as [->|]; [rewrite lookup_insert_eq; eauto|].
      rewrite lookup_insert_ne by done. by apply ri_live0.
    + intros u b. rewrite Ho, lookup_insert_Some. intros [[<- <-]|[_ Hu]]; [left; rewrite Hp; by left|eauto].
    + intros u b. rewrite lookup_insert_Some. intros [[<- <-]|[Hne2 Hu]].
      * rewrite decide_True by (rewrite elem_of_cons; auto). cbn. rewrite (ri_refs0 t a Ha), decide_False by done. done.
      * rewrite (ri_refs0 u b Hu). cbn. destruct (decide _) as [Hd|Hd], (decide _) as [Hd2|Hd2]; try done; rewrite elem_of_cons in Hd2; naive_solver.
Qed.

(** *** The other moves *)

Lemma unref_ok t q now s :
  reg_inv s → main_queue s = t :: q → ∃ s', transport_unref t now (set_main_queue q s) = Ret s' ∧ reg_inv s'.
Proof.
  intros Hi Hm. pose proof Hi as [].
  set (rest := registering s ++ (fst <$> messages s) ++ connected s ++ q ++ (transport <$> reconnect_queue s) ++ attempt_of (handler s)).
  assert (Hp : owners s ≡ₚ t :: rest) by (unfold owners, rest; rewrite Hm; solve_Permutation).
  assert (Hnd := ri_owners0). rewrite Hp in Hnd. apply NoDup_cons in Hnd as [Hn Hnd]. unfold rest in Hn. rewrite !elem_of_app in Hn.
  assert (Hlive : is_Some (transports s !! t)) by (apply ri_live0; rewrite Hp; by left). destruct Hlive as [a Ha].
  assert (Href : ref_count a = 1).
  { rewrite (ri_refs0 t a Ha), decide_True; [done|]. rewrite Hm, elem_of_app, elem_of_cons. auto. }
  unfold transport_unref, get_transport. cbn [transports set_main_queue]. rewrite Ha. cbn [mbind outcome_bind]. rewrite Href.
  cbn [CHECK mbind outcome_bind Z.ltb Z.compare Z.sub Z.add Z.opp Z.pos_sub Z.eqb]. unfold put_transport. cbn [transports set_main_queue].
  set (s1 := set_transports _ (set_main_queue q s)).
  (* Whoever owns the transport now, the rest is in order. *)
  assert (Hgen : ∀ s2, transports s2 = transports s1 → next_transport s2 = next_transport s → pending_list s2 = pending_list s →
    transport_list s2 = transport_list s → registering s2 = registering s → connected s2 = connected s → main_queue s2 = q →
    running s2 = running s → handler s2 = handler s → (∀ x, (x, 1) ∈ messages s → (x, 1) ∈ messages s2) →
    Forall left_ok (reconnect_queue s2) → (owners s2 ≡ₚ t :: rest ∨ (running s = false ∧ owners s2 ≡ₚ rest)) → reg_inv s2).
  { intros s2 E1 E2 E3 E4 E5 E6 E7 E8 E9 E10 E11 E12.
    assert (Hsub : ∀ u, u ∈ owners s2 → u ∈ owners s).
    { intros u. rewrite Hp, elem_of_cons. destruct E12 as [->|[_ ->]]; rewrite ?elem_of_cons; tauto. }
    assert (Hsome : ∀ u, is_Some (transports s !! u) → is_Some (transports s2 !! u)).
    { intros u Hu. rewrite E1. unfold s1. cbn. destruct (decide (u = t)) as [->|]; [rewrite lookup_insert_eq; eauto|by rewrite lookup_insert_ne]. }
    constructor; rewrite ?E2, ?E3, ?E4, ?E5, ?E6, ?E7, ?E8, ?E9; try done.
    - intros u b. rewrite E1. unfold s1. cbn. rewrite lookup_insert_Some. intros [[<- <-]|[_ Hu]]; eauto.
    - destruct E12 as [->|[_ ->]]; [by rewrite <-Hp|done].
    - intros u Hu. by apply Hsome, ri_live0, Hsub.
    - intros u b. rewrite E1. unfold s1. cbn. rewrite lookup_insert_Some. intros [[<- <-]|[Hne Hu]].
      + destruct E12 as [->|[? _]]; [left; by left|auto].
      + destruct (ri_owned0 u b Hu) as [Hin|?]; [|auto]. rewrite Hp, elem_of_cons in Hin. destruct Hin as [->|Hin]; [done|]. left.
        destruct E12 as [->|[_ ->]]; [by right|done].
    - intros u b. rewrite E1. unfold s1. cbn. rewrite lookup_insert_Some. intros [[<- <-]|[Hne Hu]].
      + cbn. rewrite decide_False; [done|]. rewrite elem_of_app. tauto.
      + rewrite (ri_refs0 u b Hu), Hm. destruct (decide _) as [Hd|Hd], (decide _) as [Hd2|Hd2]; try done;
          rewrite elem_of_app, elem_of_cons in Hd; rewrite elem_of_app in Hd2; naive_solver.
    - intros u Hu. by apply Hsome, ri_listed0.
    - intros u Hu. destruct (ri_pending0 u Hu) as [?|?]; auto.
    - split; [done|]. apply ri_left0. }
  destruct (IsTcpDevice a && negb (kicked_ a))%bool.
  - eexists. split; [done|]. unfold TrackTransport. change (running s1) with (running s). destruct (running s) eqn:Hr.
    + set (b := mkAttempt _ _ _). assert (Hb : transport b ∉ transport <$> reconnect_queue s) by (cbn; tauto).
      apply Hgen; cbn; try done.
      * rewrite emplace_perm by done. constructor; [done|apply ri_left0].
      * left. unfold owners, rest. cbn. rewrite emplace_perm by done. cbn. solve_Permutation.
    + apply Hgen; cbn; try done; [apply ri_left0|]. right. split; [done|]. by unfold owners, rest.
  - eexists. split; [done|]. apply Hgen; cbn; try done.
    + intros x. rewrite elem_of_app. tauto.
    + apply ri_left0.
    + left. unfold owners, rest. cbn. rewrite fmap_app. cbn. solve_Permutation.
Qed.

Lemma error_ok t s :
  reg_inv s → t ∈ connected s → reg_inv (set_main_queue (main_queue s ++ [t]) (set_connected (list_remove t (connected s)) s)).
Proof.
  intros Hi Hin. pose proof Hi as []. assert (Hc : NoDup (connected s)).
  { unfold owners in ri_owners0. apply NoDup_app in ri_owners0 as (_ & _ & H1). apply NoDup_app in H1 as (_ & _ & H2). by apply NoDup_app in H2 as [? _]. }
  pose proof (remove_perm t _ Hc Hin) as Hp.
  apply (inv_shuffle s); cbn; try done; auto.
  - unfold owners. cbn. set (c := list_remove t (connected s)) in *. clearbody c. rewrite Hp. cbn. solve_Permutation.
  - intros u. rewrite !elem_of_app, elem_of_list_remove, list_elem_of_singleton. destruct (decide (u = t)); naive_solver.
Qed.

Lemma registering_ok t s :
  reg_inv s → t ∈ registering s → reg_inv (register_transport t (set_registering (list_remove t (registering s)) s)).
Proof.
  intros Hi Hin. pose proof Hi as []. assert (Hc : NoDup (registering s)) by (by apply NoDup_app in ri_owners0 as [? _]).
  pose proof (remove_perm t _ Hc Hin) as Hp.
  apply (inv_shuffle s); cbn; try done; auto.
  - unfold owners. cbn. set (c := list_remove t (registering s)) in *. clearbody c. rewrite Hp, fmap_app. cbn. solve_Permutation.
  - intros u. rewrite elem_of_list_remove, elem_of_app, list_elem_of_singleton. destruct (decide (u = t)); naive_solver.
Qed.

Lemma fresh_ok a s :
  reg_inv s → ref_count a = 0 →
  reg_inv (set_registering (next_transport s :: registering s)
    (set_lists (next_transport s :: pending_list s) (transport_list s) (new_transport a s).2)).
Proof.
  intros [] Hr. set (t := next_transport s). unfold new_transport. cbn [snd]. fold t.
  assert (Hfresh : transports s !! t = None).
  { destruct (transports s !! t) as [b|] eqn:E; [|done]. specialize (ri_next0 t b E). unfold t in ri_next0. lia. }
  assert (Hno : t ∉ owners s) by (intros Hin; destruct (ri_live0 t Hin); congruence).
  assert (Hnl : t ∉ pending_list s ++ transport_list s) by (intros Hin; destruct (ri_listed0 t Hin); congruence).
  set (s' := set_registering _ _). assert (Ho : owners s' = t :: owners s) by done.
  assert (Hsome : ∀ u, is_Some (transports s !! u) → is_Some (transports s' !! u)).
  { intros u Hu. cbn. rewrite lookup_insert_ne; [done|]. intros <-. destruct Hu. congruence. }
  constructor; rewrite ?Ho; cbn; try done.
  - intros u b. rewrite lookup_insert_Some. intros [[<- <-]|[_ Hu]]; [lia|]. specialize (ri_next0 u b Hu). lia.
  - by constructor.
  - intros u. rewrite elem_of_cons. intros [->|Hu]; [rewrite lookup_insert_eq; eauto|by apply Hsome, ri_live0].
  - intros u b. rewrite lookup_insert_Some, elem_of_cons. intros [[<- <-]|[_ Hu]]; [auto|]. destruct (ri_owned0 u b Hu); auto.
  - intros u b. rewrite lookup_insert_Some. intros [[<- <-]|[_ Hu]]; [|by apply ri_refs0]. rewrite Hr, decide_False; [done|].
    intros Hin. apply Hno. unfold owners. rewrite !elem_of_app in *. tauto.
  - by constructor.
  - intros u. rewrite elem_of_cons. intros [->|Hu]; [rewrite lookup_insert_eq; eauto|by apply Hsome, ri_listed0].
  - intros u. rewrite !elem_of_cons. intros [->|Hu]; [auto|]. destruct (ri_pending0 u Hu); auto.
Qed.

(** *** Serial numbers *)

Definition all_listed (s : reg) : list Z := pending_list s ++ transport_list s.

(** Two listed transports with one serial number: one of them is on USB. *)
Definition serials_ok (s : reg) : Prop :=
  ∀ t u a b, t ∈ all_listed s → u ∈ all_listed s → t ≠ u → transports s !! t = Some a → transports s !! u = Some b →
    serial a = serial b → type a = kTransportUsb ∨ type b = kTransportUsb.

(** What is listed was listed, with the serial number and type it has. *)
Definition lists_from (s s' : reg) : Prop :=
  ∀ t a', t ∈ all_listed s' → transports s' !! t = Some a' →
    t ∈ all_listed s ∧ ∃ a, transports s !! t = Some a ∧ serial a = serial a' ∧ type a = type a'.

Lemma from_ok s s' : lists_from s s' → serials_ok s → serials_ok s'.
Proof.
  intros Hf Hs t u a b Ht Hu Hne Ha Hb He. destruct (Hf t a Ht Ha) as (Ht' & a' & Ha' & Hsa & <-).
  destruct (Hf u b Hu Hb) as (Hu' & b' & Hb' & Hsb & <-). apply (Hs t u); congruence.
Qed.

Lemma from_same s s' : all_listed s' ⊆ all_listed s → transports s' = transports s → lists_from s s'.
Proof. intros Hl Ht t a Hin Ha. rewrite Ht in Ha. split; [by apply Hl|]. eauto. Qed.

Lemma from_put s s' t a b :
  transports s' = <[t := b]> (transports s) → transports s !! t = Some a → serial b = serial a → type b = type a →
  all_listed s' ⊆ all_listed s → lists_from s s'.
Proof.
  intros He Ha Hs Ht Hl u c Hin. rewrite He, lookup_insert_Some. intros [[<- <-]|[_ Hu]]; (split; [by apply Hl|]); eauto.
Qed.

Lemma from_trans s1 s2 s3 : lists_from s1 s2 → lists_from s2 s3 → lists_from s1 s3.
Proof.
  intros H12 H23 t a3 Hin Ha. destruct (H23 t a3 Hin Ha) as (H2 & a2 & Ha2 & <- & <-). exact (H12 t a2 H2 Ha2).
Qed.

(** *** Moves that change a transport *)

(** A change of one transport that its owners do not see. *)
Lemma put_ok t a b s :
  reg_inv s → transports s !! t = Some a → ref_count b = ref_count a → no_perm b = no_perm a ∨ t ∈ owners s → reg_inv (put_transport t b s).
Proof.
  intros [] Ha Hr Hn. unfold put_transport.
  assert (Hsome : ∀ u, is_Some (transports s !! u) → is_Some (<[t := b]> (transports s) !! u)).
  { intros u Hu. destruct (decide (u = t)) as [->|]; [rewrite lookup_insert_eq; eauto|by rewrite lookup_insert_ne]. }
  constructor; unfold owners; cbn; try done.
  - intros u c. rewrite lookup_insert_Some. intros [[<- <-]|[_ Hu]]; eauto.
  - intros u Hu. by apply Hsome, ri_live0.
  - intros u c. rewrite lookup_insert_Some. intros [[<- <-]|[_ Hu]]; [|eauto]. destruct Hn as [->|?]; [|auto]. exact (ri_owned0 t a Ha).
  - intros u c. rewrite lookup_insert_Some. intros [[<- <-]|[_ Hu]]; [rewrite Hr|]; by apply ri_refs0.
  - intros u Hu. by apply Hsome, ri_listed0.
Qed.

Lemma kick_ok t s : reg_inv s → ∃ s', kick_transport t s = Ret s' ∧ reg_inv s'.
Proof.
  intros Hi. pose proof Hi as []. unfold kick_transport. case_bool_decide as Hin; [|by eauto].
  destruct (ri_listed0 t ltac:(apply elem_of_app; by right)) as [a Ha]. unfold get_transport. rewrite Ha. cbn [mbind outcome_bind].
  eexists. split; [done|]. apply (put_ok t a); auto.
Qed.

Lemma kick_where_ok predicate l s :
  reg_inv s → (∀ t, t ∈ l → is_Some (transports s !! t)) →
  ∃ s', kick_where predicate l s = Ret s' ∧ reg_inv s' ∧ (serials_ok s → serials_ok s').
Proof.
  revert s. induction l as [|t l IH]; intros s Hi Hl; cbn [kick_where]; [by eauto|].
  destruct (Hl t ltac:(by left)) as [a Ha]. unfold get_transport. rewrite Ha. cbn [mbind outcome_bind].
  assert (Hl' : ∀ u, u ∈ l → is_Some (transports s !! u)) by (intros; apply Hl; by right).
  destruct (predicate a); [|by apply IH].
  destruct (IH (put_transport t (set_kicked_ true a) s)) as (s' & Hr & Hi' & Hs').
  - apply (put_ok t a); auto.
  - intros u Hu. cbn. destruct (decide (u = t)) as [->|]; [rewrite lookup_insert_eq; eauto|]. rewrite lookup_insert_ne by done. by apply Hl'.
  - exists s'. split_and!; [done..|]. intros Hs. apply Hs', (from_ok s); [|done]. by apply (from_put s _ t a (set_kicked_ true a)).
Qed.

Lemma close_ok predicate s : reg_inv s → ∃ s', close_usb_devices predicate s = Ret s' ∧ reg_inv s' ∧ (serials_ok s → serials_ok s').
Proof. intros Hi. apply kick_where_ok; [done|]. intros t Ht. apply (ri_listed s Hi), elem_of_app. by right. Qed.

Lemma state_ok t state s : reg_inv s → t ∈ connected s ++ main_queue s →
  ∃ a, transports s !! t = Some a ∧ reg_inv (put_transport t (SetConnectionState state a) s).
Proof.
  intros Hi Hin. assert (Ho : t ∈ owners s) by (unfold owners; rewrite !elem_of_app in *; tauto).
  destruct (ri_live s Hi t Ho) as [a Ha]. exists a. split; [done|]. apply (put_ok t a); auto.
Qed.

Lemma unregister_ok t s : reg_inv s → ∃ s', unregister_usb_transport t s = Ret s' ∧ reg_inv s'.
Proof.
  intros Hi. pose proof Hi as []. unfold unregister_usb_transport. case_bool_decide as Hin; [|by eauto].
  destruct (ri_listed0 t ltac:(apply elem_of_app; by right)) as [a Ha]. unfold get_transport. rewrite Ha. cbn [mbind outcome_bind].
  eexists. split; [done|]. destruct (no_perm a); [|done]. constructor; unfold owners; cbn; try done.
  - by apply NoDup_remove_app.
  - intros u. rewrite elem_of_app, elem_of_list_remove. intros Hu. apply ri_listed0, elem_of_app. tauto.
Qed.

Lemma drain_messages q s :
  fold_left (λ s a, remove_transport (transport a) s) q s = set_messages (messages s ++ removals (transport <$> q)) s.
Proof.
  revert s. induction q as [|a q IH]; intros s; cbn [fold_left fmap list_fmap]; [destruct s; cbn; by rewrite app_nil_r|].
  rewrite IH. cbn. by rewrite <-app_assoc.
Qed.

Lemma drain_ok s : reg_inv s → handler s = HExited → reg_inv (drain_queue s).
Proof.
  intros Hi Hh. unfold drain_queue. rewrite drain_messages. pose proof Hi as []. apply (inv_shuffle s); cbn; try done; auto.
  - unfold owners. cbn. rewrite fmap_app, fst_removals. solve_Permutation.
  - intros t. rewrite elem_of_app. tauto.
  - split; [done|]. by rewrite Hh.
Qed.

(** *** All moves *)

Lemma move_ok mv s : reg_inv s → enabled mv s → ∃ s', run_move mv s = Ret s' ∧ reg_inv s'.
Proof.
  intros Hi He. destruct mv; cbn [run_move enabled] in *.
  - destruct He as ((Hr & _) & _). eexists. split; [done|]. unfold register_socket_transport. destruct (_ || _)%bool; [done|]. exact (fresh_ok (set_serial sn a) s Hi Hr).
  - destruct He as ((Hr & _) & _). eexists. split; [done|]. exact (fresh_ok a s Hi Hr).
  - eexists. split; [done|]. by apply registering_ok.
  - by apply message_ok.
  - eexists. split; [done|]. by apply error_ok.
  - destruct (main_queue s) as [|t q] eqn:Hq; [done|]. by apply unref_ok.
  - by apply kick_ok.
  - by apply unregister_ok.
  - destruct (close_ok predicate s Hi) as (s' & ? & ? & _). eauto.
  - destruct (state_ok t state s Hi He) as (a & Ha & ?). unfold get_transport. rewrite Ha. cbn. eauto.
  - by apply wake_ok.
  - destruct He as [a Ha]. rewrite Ha. eexists. split; [done|]. by apply result_ok.
  - eexists. split; [done|]. pose proof Hi as []. apply (inv_shuffle s); cbn; try done; auto.
  - eexists. split; [done|]. by apply drain_ok.
Qed.

Lemma init_ok : reg_inv reg_init.
Proof. constructor; unfold owners; cbn; try apply NoDup_nil_2; try (by intros ?; inversion 1); try done. Qed.

Lemma reg_reachable_inv s : reachable s → reg_inv s.
Proof.
  induction 1 as [|s mv s' _ IH He Hr]; [exact init_ok|]. destruct (move_ok mv s IH He) as (s2 & Hr2 & Hi). congruence.
Qed.

(** A new transport whose serial number is not listed, or on USB. *)
Lemma fresh_serial a s :
  reg_inv s → serials_ok s →
  (type a = kTransportUsb ∨ ∀ t b, t ∈ all_listed s → transports s !! t = Some b → serial b ≠ serial a) →
  serials_ok (set_registering (next_transport s :: registering s)
    (set_lists (next_transport s :: pending_list s) (transport_list s) (new_transport a s).2)).
Proof.
  intros [] Hs Hnew t u b c. unfold all_listed. cbn. rewrite !elem_of_cons, !lookup_insert_Some.
  intros Ht Hu Hne [[<- <-]|[Hn1 Hb]] [[E <-]|[Hn2 Hc]] He.
  - done.
  - destruct Hu as [->|Hu]; [done|]. destruct Hnew as [?|Hnew]; [auto|]. exfalso. exact (Hnew u c Hu Hc (eq_sym He)).
  - destruct Ht as [->|Ht]; [done|]. destruct Hnew as [?|Hnew]; [auto|]. exfalso. exact (Hnew t b Ht Hb He).
  - destruct Ht as [->|Ht]; [done|]. destruct Hu as [->|Hu]; [done|]. exact (Hs t u b c Ht Hu Hne Hb Hc He).
Qed.

Lemma has_serial_none sn l s :
  existsb (has_serial sn s) l = false → ∀ t b, t ∈ l → transports s !! t = Some b → serial b ≠ sn.
Proof.
  intros He t b Hin Hb Heq. assert (existsb (has_serial sn s) l = true); [|congruence]. apply existsb_exists. exists t.
  split; [by apply list_elem_of_In|]. unfold has_serial. rewrite Hb. by apply bool_decide_eq_true_2.
Qed.

Lemma kicked_from q s kept s' : remove_kicked q s = Ret (kept, s') → all_listed s' = all_listed s ∧ transports s' = transports s.
Proof.
  revert s kept s'. induction q as [|it q IH]; intros s kept s' Hr; cbn [remove_kicked] in Hr; [by simplify_eq|].
  destruct (get_transport _ _) as [a|] eqn:E; [|done]. cbn [mbind outcome_bind] in Hr. destruct (kicked_ a); [by apply IH in Hr|].
  destruct (remove_kicked q s) as [[k s1]|] eqn:E2; [|done]. cbn in Hr. simplify_eq. by apply (IH s k).
Qed.

Lemma move_serials mv s s' : reg_inv s → serials_ok s → enabled mv s → run_move mv s = Ret s' → serials_ok s'.
Proof.
  intros Hi Hs He Hr. destruct mv; cbn [run_move enabled] in *.
  - simplify_eq. unfold register_socket_transport. destruct (_ || _)%bool eqn:Hex; [done|]. apply orb_false_iff in Hex as [H1 H2].
    apply (fresh_serial (set_serial sn a) s Hi Hs). right. intros t b Hin Hb. cbn. apply elem_of_app in Hin as [Hin|Hin];
      [exact (has_serial_none sn _ s H1 t b Hin Hb)|exact (has_serial_none sn _ s H2 t b Hin Hb)].
  - simplify_eq. apply (fresh_serial a s Hi Hs). left. tauto.
  - simplify_eq. apply (from_ok s); [|done]. by apply from_same.
  - apply (from_ok s); [|done]. unfold transport_registration_func in Hr. destruct (messages s) as [|[t k] l]; [done|].
    unfold get_transport in Hr. cbn [transports set_messages] in Hr. destruct (transports s !! t) as [a|] eqn:Ha; [|done]. cbn [mbind outcome_bind] in Hr.
    destruct (k =? 0).
    + simplify_eq. intros u b. unfold all_listed. cbn. rewrite !elem_of_app, elem_of_list_remove, lookup_delete_Some. intros Hu [_ Hb].
      split; [tauto|eauto].
    + assert (Hlist : ∀ s1 s2, lists_from s s1 → pending_list s1 = pending_list s → transport_list s1 = transport_list s →
        (if bool_decide (t ∈ pending_list s1) then Ret (set_lists (list_remove t (pending_list s1)) (t :: transport_list s1) s1) else Ret s1) = Ret s2 →
        lists_from s s2).
      { intros s1 s2 H1 Hp Hl H2. case_bool_decide as Hin; simplify_eq; [|done]. refine (from_trans _ _ _ H1 _). apply from_same; [|done].
        intros u. unfold all_listed. cbn. rewrite !elem_of_app, elem_of_cons, elem_of_list_remove. naive_solver. }
      destruct (no_perm a); cbn [mbind outcome_bind] in Hr; [refine (Hlist _ _ _ _ _ Hr); try done; by apply from_same|].
      destruct (bool_decide _) in Hr; [|done]. cbn [CHECK mbind outcome_bind] in Hr. refine (Hlist _ _ _ _ _ Hr); try done.
      eapply (from_put s _ t a); done.
  - simplify_eq. apply (from_ok s); [|done]. by apply from_same.
  - apply (from_ok s); [|done]. destruct (main_queue s) as [|t q]; [done|]. unfold transport_unref, get_transport in Hr.
    cbn [transports set_main_queue] in Hr. destruct (transports s !! t) as [a|] eqn:Ha; [|done]. cbn [mbind outcome_bind] in Hr.
    destruct (0 <? ref_count a); [|done]. cbn [CHECK mbind outcome_bind] in Hr. unfold TrackTransport in Hr.
    repeat case_match; simplify_eq; eapply (from_put s _ t a); done.
  - apply (from_ok s); [|done]. unfold kick_transport in Hr. case_bool_decide; [|simplify_eq; by apply from_same].
    unfold get_transport in Hr. destruct (transports s !! t) as [a|] eqn:Ha; [|done]. cbn in Hr. simplify_eq. by eapply (from_put s _ t a).
  - apply (from_ok s); [|done]. unfold unregister_usb_transport in Hr. case_bool_decide; [|simplify_eq; by apply from_same].
    destruct (get_transport t s) as [a|]; [|done]. cbn in Hr. simplify_eq. destruct (no_perm a); apply from_same; try done.
    intros u. unfold all_listed. cbn. rewrite !elem_of_app, elem_of_list_remove. tauto.
  - destruct (close_ok predicate s Hi) as (s2 & ? & _ & H2). replace s' with s2 by congruence. by apply H2.
  - apply (from_ok s); [|done]. unfold get_transport in Hr. destruct (transports s !! t) as [a|] eqn:Ha; [|done]. cbn in Hr. simplify_eq.
    by eapply (from_put s _ t a).
  - apply (from_ok s); [|done]. unfold handler_wake in Hr. destruct (running s); cbn [negb] in Hr; [|simplify_eq; by apply from_same].
    destruct (remove_kicked _ _) as [[q s1]|] eqn:E; [|done]. cbn [mbind outcome_bind] in Hr. destruct (kicked_from _ _ _ _ E) as [H1 H2].
    repeat case_match; simplify_eq; apply from_same; try done; change (all_listed s1 ⊆ all_listed s); by rewrite H1.
  - apply (from_ok s); [|done]. destruct He as [a Ha]. rewrite Ha in Hr. simplify_eq. unfold handler_result. repeat case_match; by apply from_same.
  - simplify_eq. apply (from_ok s); [|done]. by apply from_same.
  - simplify_eq. apply (from_ok s); [|done]. unfold drain_queue. rewrite drain_messages. by apply from_same.
Qed.

Lemma reg_reachable_serials s : reachable s → serials_ok s.
Proof.
  induction 1 as [|s mv s' Hreach IH He Hr]; [by intros ? ? ? ? Hin%elem_of_nil|]. eapply move_serials; eauto using reg_reachable_inv.
Qed.

Lemma find_listed_ok sn l s :
  (∀ t, t ∈ l → is_Some (transports s !! t)) →
  ∃ r, find_listed sn l s = Ret r ∧
    match r with
    | Some t => t ∈ l ∧ serial <$> transports s !! t = Some sn
    | None => ∀ t, t ∈ l → serial <$> transports s !! t ≠ Some sn
    end.
Proof.
  induction l as [|t l IH]; intros Hl; cbn [find_listed]; [eexists; split; [done|]; by intros t ?%elem_of_nil|].
  destruct (Hl t ltac:(by left)) as [a Ha]. unfold get_transport. rewrite Ha. cbn [mbind outcome_bind].
  case_bool_decide as Hs; [eexists; split; [done|]; split; [by left|]; rewrite Ha; cbn; by rewrite Hs|].
  destruct IH as ([u|] & Hr & H1); [intros u Hu; apply Hl; by right| |]; (eexists; split; [exact Hr|]).
  - split; [right|]; tauto.
  - intros u [->|Hu]%elem_of_cons; [|by apply H1]. rewrite Ha. cbn. congruence.
Qed.

(** ** The claims *)

Definition listed_serial (s : reg) (t : Z) (sn : bytes) : Prop := t ∈ transport_list s ∧ serial <$> transports s !! t = Some sn.


(** C17: In every reachable state a transport has at most one owner: a thread that
    registers it, a message about it, its connection, an error it has posted, the
    reconnect queue or the attempt under way.  An owned or listed transport has not
    been deleted, and its reference count is one exactly while its connection runs
    or its error waits for the main thread.  No transport is forgotten, except one
    without permission or after the reconnect handler was stopped.  A queued attempt
    has at most [kMaxAttempts] to go. *)
Theorem one_owner s :
  reachable s →
  NoDup (owners s) ∧ NoDup (pending_list s ++ transport_list s) ∧
  (∀ t, t ∈ owners s ++ pending_list s ++ transport_list s → is_Some (transports s !! t)) ∧
  (∀ t a, transports s !! t = Some a →
     (t ∈ owners s ∨ no_perm a = true ∨ running s = false) ∧
     ref_count a = if decide (t ∈ connected s ++ main_queue s) then 1 else 0) ∧
  Forall (λ a, 0 ≤ attempts_left a ≤ kMaxAttempts) (reconnect_queue s).
Proof.
  intros Hs. destruct (reg_reachable_inv s Hs) as [_ H2 H3 H4 H5 H6 H7 _ [H9 _] _]. split_and!; try done.
  - intros t. rewrite elem_of_app. intros [?|?]; auto.
  - intros t a Ha. split; [by eapply H4|by apply H5].
Qed.

(** Two transports that are listed, pending or registered, have different
    serial numbers, unless one of them is on USB: [register_socket_transport]
    refuses a serial number that is there. *)
Theorem socket_serials_unique s t u a b :
  reachable s → t ∈ pending_list s ++ transport_list s → u ∈ pending_list s ++ transport_list s → t ≠ u →
  transports s !! t = Some a → transports s !! u = Some b → type a ≠ kTransportUsb → type b ≠ kTransportUsb →
  serial a ≠ serial b.
Proof. intros Hs Ht Hu Hne Ha Hb H1 H2 He. by destruct (reg_reachable_serials s Hs t u a b Ht Hu Hne Ha Hb He). Qed.

(** *** A run *)

Definition an_emulator : atransport := set_type kTransportLocal (atransport_new 1 kCsOffline).

(** Two emulators are registered, the first one loses its connection and waits to
    be reconnected. *)
Definition a_run : list move :=
  [MSocket an_emulator $"emulator-5554"; MSocket an_emulator $"emulator-5554"; MSocket an_emulator $"emulator-5556"; MRegister 0; MMessage;
   MError 0; MUnref 1000].
Fixpoint run_moves (ms : list move) (s : reg) : outcome reg :=
  match ms with [] => Ret s | mv :: ms => s ← run_move mv s; run_moves ms s end.
Definition a_state : reg := match run_moves a_run reg_init with Ret s => s | Abort _ => reg_init end.

Example a_state_ex :
  (pending_list a_state, transport_list a_state, registering a_state, reconnect_queue a_state) = ([1], [0], [1], [mkAttempt 0 1250 6]).
Proof. vm_compute. reflexivity. Qed.

Fixpoint all_enabled (ms : list move) (s : reg) : Prop :=
  match ms with [] => True | mv :: ms => enabled mv s ∧ match run_move mv s with Ret s => all_enabled ms s | Abort _ => False end end.

#[local] Instance handler_dec : EqDecision handler_thread.
Proof. intros x y. unfold Decision. decide equality. decide equality; apply Z.eq_dec. Defined.
#[local] Instance enabled_dec mv s : Decision (enabled mv s).
Proof.
  destruct mv; cbn [enabled]; unfold fresh_transport; try apply _.
  destruct (handler s) as [|a|] eqn:E; [right|left|right]; [intros [? ?]; congruence|by exists a|intros [? ?]; congruence].
Defined.
#[local] Instance all_enabled_dec ms s : Decision (all_enabled ms s).
Proof. revert s. induction ms as [|mv ms IH]; intros s; cbn; [apply _|]. destruct (run_move mv s); apply _. Defined.

Lemma reachable_run ms s : reachable s → all_enabled ms s → ∃ s', run_moves ms s = Ret s' ∧ reachable s'.
Proof.
  revert s. induction ms as [|mv ms IH]; intros s Hs He; cbn [run_moves all_enabled] in *; [by eauto|]. destruct He as [He Hms].
  destruct (run_move mv s) as [s1|] eqn:E; [|done]. apply IH; [|done]. by eapply reach_move.
Qed.

Lemma a_state_reachable : reachable a_state.
Proof.
  destruct (reachable_run a_run reg_init reach_init) as (s & Hr & Hs); [|unfold a_state; by rewrite Hr].
  apply (bool_decide_unpack _). by vm_compute.
Qed.

Definition the_transports (s : reg) (t : Z) : atransport := default an_emulator (transports s !! t).


Lemma one_owner_witness :
  owners a_state = [1; 0] ∧
  NoDup (owners a_state) ∧ NoDup (pending_list a_state ++ transport_list a_state) ∧
  (∀ t, t ∈ owners a_state ++ pending_list a_state ++ transport_list a_state → is_Some (transports a_state !! t)) ∧
  (∀ t a, transports a_state !! t = Some a →
     (t ∈ owners a_state ∨ no_perm a = true ∨ running a_state = false) ∧
     ref_count a = if decide (t ∈ connected a_state ++ main_queue a_state) then 1 else 0) ∧
  Forall (λ a, 0 ≤ attempts_left a ≤ kMaxAttempts) (reconnect_queue a_state).
Proof. split; [reflexivity|]. exact (one_owner a_state a_state_reachable). Defined.

Lemma socket_serials_unique_witness :
  serial (the_transports a_state 0) ≠ serial (the_transports a_state 1).
Proof.
  apply (socket_serials_unique a_state 0 1 (the_transports a_state 0) (the_transports a_state 1) a_state_reachable);
    first [discriminate|reflexivity|apply (bool_decide_unpack _); vm_compute; exact I].
Defined.
