(* ===== verification/FdConn.v ===== *)
(** * The non-blocking connection (src/src/transport_fd.cpp)

    [NonblockingFdConnection] reads whatever the descriptor has into a chain of
    blocks and cuts packets off its front; writers put packets on another chain
    and write as much of it as the descriptor takes.  The thread of the
    connection and the threads that write are interleaved as a transition
    system whose moves are the critical sections.  The reference for what is
    read is the blocking [FdConnection] of Packet.v. *)

From Stdlib Require Import ZArith Lia List Ascii String.
From stdpp Require Import base numbers list strings.
From S2P Require Import Prelude.
From S2P Require Import Libc.
From S2P Require Import AdbIo.
From S2P Require Import IOVector.
From S2P Require Import Wire.
From S2P Require Import Packet.

(** ** State *)

(** Where the thread is: not created, about to run, at the top of the loop, in
    [adb_poll], with the events [poll] reported still to be handled (writable, readable,
    woken), or gone. *)
Inductive run_thread := TNone | TStarting | TTop | TPolling | TPolled (out_ in_ wake : bool) | TDone.
#[export] Instance run_thread_dec : EqDecision run_thread.
Proof. solve_decision. Defined.

(** [in_fd] and [out_fd] are the two directions of [fd_]; [wakes] counts the
    words in the wake-up socketpair.  [delivered] and [errors] are what the
    callbacks were given and [accepted] what [Write] was given. *)
Record nbconn := mkNb {
  started_ : bool;
  running_ : bool;
  thread_ : run_thread;
  read_header_ : option amessage;
  read_buffer_ : IOVector;
  in_fd : rd_fd;
  wakes : Z;
  writable_ : bool;
  write_buffer_ : IOVector;
  out_fd : wr_fd;
  delivered : list apacket;
  errors : list string;
  accepted : list apacket
}.

Definition with_thread (t : run_thread) (s : nbconn) : nbconn :=
  mkNb (started_ s) (running_ s) t (read_header_ s) (read_buffer_ s) (in_fd s) (wakes s) (writable_ s) (write_buffer_ s) (out_fd s) (delivered s) (errors s) (accepted s).
Definition with_running (b : bool) (s : nbconn) : nbconn :=
  mkNb (started_ s) b (thread_ s) (read_header_ s) (read_buffer_ s) (in_fd s) (wakes s) (writable_ s) (write_buffer_ s) (out_fd s) (delivered s) (errors s) (accepted s).
Definition with_read (h : option amessage) (v : IOVector) (fd : rd_fd) (d : list apacket) (s : nbconn) : nbconn :=
  mkNb (started_ s) (running_ s) (thread_ s) h v fd (wakes s) (writable_ s) (write_buffer_ s) (out_fd s) d (errors s) (accepted s).
Definition with_write (w : bool) (v : IOVector) (fd : wr_fd) (s : nbconn) : nbconn :=
  mkNb (started_ s) (running_ s) (thread_ s) (read_header_ s) (read_buffer_ s) (in_fd s) (wakes s) w v fd (delivered s) (errors s) (accepted s).
Definition with_wakes (n : Z) (s : nbconn) : nbconn :=
  mkNb (started_ s) (running_ s) (thread_ s) (read_header_ s) (read_buffer_ s) (in_fd s) n (writable_ s) (write_buffer_ s) (out_fd s) (delivered s) (errors s) (accepted s).
Definition with_accepted (l : list apacket) (s : nbconn) : nbconn :=
  mkNb (started_ s) (running_ s) (thread_ s) (read_header_ s) (read_buffer_ s) (in_fd s) (wakes s) (writable_ s) (write_buffer_ s) (out_fd s) (delivered s) (errors s) l.

(** The constructor; [running_] has no initial value in the source and is read
    by the thread only after [Run] has set it. *)
Definition NonblockingFdConnection (i : rd_fd) (o : wr_fd) : nbconn :=
  mkNb false false TNone None IOVector_empty i 0 true IOVector_empty o [] [] [].

(** [error_callback_] at the end of the thread. *)
Definition thread_ends (error : string) (s : nbconn) : nbconn :=
  mkNb (started_ s) (running_ s) TDone (read_header_ s) (read_buffer_ s) (in_fd s) (wakes s) (writable_ s) (write_buffer_ s) (out_fd s) (delivered s) (errors s ++ [error]) (accepted s).

(** ** Writing *)

Inductive WriteResult := WriteError | Completed | TryAgain.

Definition adb_writev (fd : wr_fd) (iovs : list bytes) : wr_result * wr_fd := adb_write fd (concat iovs).

Definition DispatchWrites (s : nbconn) : outcome (WriteResult * nbconn) :=
  CHECK (negb (IOVector_is_empty (write_buffer_ s))) "!write_buffer_.empty()" ;;
  if negb (writable_ s) then Ret (TryAgain, s)
  else
    iovs ← iovecs (write_buffer_ s);
    let '(rc, fd) := adb_writev (out_fd s) iovs in
    let s := with_write (writable_ s) (write_buffer_ s) fd s in
    match rc with
    | WroteErr _ => Ret (WriteError, s)
    | Wrote rc =>
        if rc =? 0 then Ret (WriteError, s)
        else
          '(_, rest) ← take_front (write_buffer_ s) rc;
          let s := with_write (writable_ s) rest (out_fd s) s in
          Ret (if IOVector_is_empty rest then (Completed, s) else (TryAgain, s))
    end.

(** [Write]: the header block, the payload block unless it is empty. *)
Definition Write (packet : apacket) (s : nbconn) : outcome (bool * nbconn) :=
  let s := with_accepted (accepted s ++ [packet]) s in
  header_block ← Block_of_range (wire_encode (msg packet));
  v ← append (write_buffer_ s) header_block;
  v ← (if bool_decide (payload packet = []) then Ret v
       else payload_block ← Block_of_range (payload packet); append v payload_block);
  '(result, s) ← DispatchWrites (with_write (writable_ s) v (out_fd s) s);
  Ret (match result with WriteError => false | _ => true end, s).

(** The [POLLOUT] branch of [Run]. *)
Definition handle_out (in_ wake : bool) (s : nbconn) : outcome nbconn :=
  '(result, s) ← DispatchWrites s;
  match result with
  | WriteError => Ret (thread_ends "write failed" s)
  | Completed => Ret (with_thread (TPolled false in_ wake) (with_write true (write_buffer_ s) (out_fd s) s))
  | TryAgain => Ret (with_thread (TPolled false in_ wake) s)
  end.

(** ** Reading *)

(** The first [if] after the block was appended: a header is cut off. *)
Definition take_header (h : option amessage) (v : IOVector) : outcome (option amessage * IOVector) :=
  match h with
  | None =>
      if wire_size amessage <=? IOVector_size v then
        '(head, v) ← take_front v (wire_size amessage);
        header_buf ← coalesce head;
        CHECK (wire_size amessage =? size_ header_buf) "sizeof(amessage) == header_buf.size()" ;;
        Ret (Some (wire_decode (Block_chars header_buf)), v)
      else Ret (None, v)
  | Some _ => Ret (h, v)
  end.

(** The second: a payload is cut off and the packet is complete. *)
Definition take_packet (h : option amessage) (v : IOVector) : outcome (option amessage * IOVector * list apacket) :=
  match h with
  | Some m =>
      if data_length m <=? IOVector_size v then
        '(data_chain, v) ← take_front v (data_length m);
        payload ← coalesce data_chain;
        Ret (None, v, [mkPacket m (Block_chars payload)])
      else Ret (h, v, [])
  | None => Ret (h, v, [])
  end.

(** The [POLLIN] branch of [Run]. *)
Definition handle_in (wake : bool) (s : nbconn) : outcome nbconn :=
  block ← Block_new MAX_PAYLOAD;
  let '(rc, fd) := adb_read (in_fd s) (size_ block) in
  let s := with_read (read_header_ s) (read_buffer_ s) fd (delivered s) s in
  match rc with
  | GotErr _ => Ret (thread_ends "read failed" s)
  | GotEof => Ret (thread_ends "read failed: EOF" s)
  | GotData d =>
      block ← Block_fill block 0 d;
      block ← Block_resize block (zlen d);
      v ← append (read_buffer_ s) block;
      '(h, v) ← take_header (read_header_ s) v;
      '(h, v, packets) ← take_packet h v;
      Ret (with_thread (TPolled false false wake) (with_read h v (in_fd s) (delivered s ++ packets) s))
  end.

(** ** Moves *)

(** What the threads do next.  [NPoll] is a return of [adb_poll]: [None] is an
    error, else the events of the two descriptors. *)
Inductive nb_move :=
  | NStart | NWrite (p : apacket) | NStop | NRunning | NTop | NPoll (r : option (bool * bool * bool)) | NOut | NIn | NWake.

(** [POLLOUT] is asked for only while [writable_] is unset; the wake-up end is
    readable only while something is in it. *)
Definition nb_enabled (mv : nb_move) (s : nbconn) : Prop :=
  match mv with
  | NStart => started_ s = false
  | NWrite p => packet_ok p
  | NStop => started_ s = true
  | NRunning => thread_ s = TStarting
  | NTop => thread_ s = TTop
  | NPoll r => thread_ s = TPolling ∧ match r with Some (o, _, w) => (o = true → writable_ s = false) ∧ (w = true → 0 < wakes s) | None => True end
  | NOut => match thread_ s with TPolled true _ _ => True | _ => False end
  | NIn => match thread_ s with TPolled false true _ => True | _ => False end
  | NWake => match thread_ s with TPolled false false _ => True | _ => False end
  end.

Definition nb_run (mv : nb_move) (s : nbconn) : outcome nbconn :=
  match mv with
  | NStart =>
      CHECK (negb (started_ s)) "Connection started multiple times?" ;;
      Ret (mkNb true (running_ s) TStarting (read_header_ s) (read_buffer_ s) (in_fd s) (wakes s) (writable_ s) (write_buffer_ s) (out_fd s) (delivered s) (errors s) (accepted s))
  | NWrite p => '(_, s) ← Write p s; Ret s
  | NStop => Ret (with_wakes (wakes s + 1) (with_running false s))
  | NRunning => Ret (with_thread TTop (with_running true s))
  | NTop => Ret (if running_ s then with_thread TPolling s else thread_ends "connection closed" s)
  | NPoll None => Ret (thread_ends "poll failed" s)
  | NPoll (Some (o, i, w)) => Ret (with_thread (TPolled o i w) s)
  | NOut => match thread_ s with TPolled _ i w => handle_out i w s | _ => Abort "not polled" end
  | NIn => match thread_ s with TPolled _ _ w => handle_in w s | _ => Abort "not polled" end
  | NWake =>
      match thread_ s with
      | TPolled _ _ w =>
          if w then
            CHECK (0 <? wakes s) "sizeof(buf) == rc" ;;
            Ret (with_thread TTop (with_wakes (wakes s - 1) s))
          else Ret (with_thread TTop s)
      | _ => Abort "not polled"
      end
  end.

Inductive nb_reachable (s0 : nbconn) : nbconn → Prop :=
  | nb_init : nb_reachable s0 s0
  | nb_next s mv s' : nb_reachable s0 s → nb_enabled mv s → nb_run mv s = Ret s' → nb_reachable s0 s'.

(** ** The chain that is left *)

Lemma pop_front_rest v v' : pop_front_block v = Ret v' → chain_ v' `suffix_of` chain_ v ∧ end_offset_ v' = end_offset_ v.
Proof.
  unfold pop_front_block, front. destruct (chain_ v) as [|b l] eqn:E; [done|]. cbn. intros [= <-].
  split; [|done]. by exists [b].
Qed.

Lemma take_front_loop_rest fuel head v len h r :
  take_front_loop fuel head v len = Ret (h, r) → chain_ r `suffix_of` chain_ v ∧ end_offset_ r = end_offset_ v.
Proof.
  revert head v. induction fuel as [|fuel IH]; intros head v; cbn [take_front_loop]; destruct (_ <? _); try done.
  - by intros [= _ <-].
  - intros H. invert_outcome. 
    match goal with H : pop_front_block _ = _ |- _ => apply pop_front_rest in H as [Ha Hb] end.
    match goal with H : take_front_loop _ _ _ _ = _ |- _ => apply IH in H as [Hc Hd] end. split; [by etrans|congruence].
  - by intros [= _ <-].
Qed.

(** Taking from the front leaves a suffix of the blocks. *)
Lemma take_front_rest v len h r : take_front v len = Ret (h, r) → chain_ r `suffix_of` chain_ v ∧ end_offset_ r = end_offset_ v.
Proof.
  unfold take_front. destruct (len =? 0); [by intros [= _ <-]|]. intros H. invert_outcome. destruct x3 as [h' r']. cbn [fst snd] in *.
  match goal with H : take_front_loop _ _ _ _ = _ |- _ => apply take_front_loop_rest in H as [Ha Hb] end.
  match goal with H : take_front_finish _ _ _ = _ |- _ => rename H into Hf end.
  unfold take_front_finish in Hf. destruct (_ =? _); invert_outcome; simplify_eq.
  - match goal with H : pop_front_block _ = _ |- _ => apply pop_front_rest in H as [Hc Hd] end. cbn in *. split; [by etrans|congruence].
  - done.
Qed.

(** ** Buffers

    A buffer that is only appended to and taken from the front: it owns at most
    the [n] bytes it was ever given. *)
Record buf_ok (v : IOVector) (n : Z) : Prop := {
  bo_wf : iov_wf v;
  bo_end : end_offset_ v = 0;
  bo_len : chain_length_ v ≤ n
}.

Lemma flat_suffix l k : l `suffix_of` k → zlen (flat l) ≤ zlen (flat k).
Proof. intros [j ->]. rewrite flat_app, zlen_app. pose proof (zlen_nonneg (flat j)). lia. Qed.

Lemma buf_append v n b :
  buf_ok v n → live b → n + size_ b < 2 ^ 64 →
  ∃ v', append v b = Ret v' ∧ buf_ok v' (n + size_ b) ∧ bytes_of v' = bytes_of v ++ Block_chars b.
Proof.
  intros [Hwf He Hl] Hb Hn. destruct (append_Ret v b Hwf Hb He) as (v' & Ha & Hwf' & He' & Hv'); [lia|].
  exists v'. split_and!; [done| |done]. constructor; [done..|].
  unfold append in Ha. invert_outcome. cbn. unfold u64. assert (0 ≤ chain_length_ v) by (rewrite (wf_length _ Hwf); apply zlen_nonneg).
  pose proof (live_size b Hb). rewrite Z.mod_small; lia.
Qed.

Lemma buf_take v n len :
  buf_ok v n → 0 ≤ len ≤ zlen (bytes_of v) →
  ∃ h r, take_front v len = Ret (h, r) ∧ iov_wf h ∧ buf_ok r n ∧
    bytes_of h = take (Z.to_nat len) (bytes_of v) ∧ bytes_of r = drop (Z.to_nat len) (bytes_of v).
Proof.
  intros [Hwf He Hl] Hlen. destruct (take_front_Ret v len Hwf Hlen) as (h & r & Ht & Hh & Hr & Hbh & Hbr).
  exists h, r. split_and!; try done. apply take_front_rest in Ht as [Hs He']. constructor; [done|congruence|].
  rewrite (wf_length _ Hr). etrans; [apply flat_suffix, Hs|]. by rewrite <-(wf_length _ Hwf).
Qed.

Lemma buf_mono v n m : buf_ok v n → n ≤ m → buf_ok v m.
Proof. intros [] ?. constructor; [done..|lia]. Qed.

Lemma buf_empty : buf_ok IOVector_empty 0.
Proof. constructor; [|done..]. constructor; cbn; try done; lia. Qed.

(** A block that [read] has filled with [d]. *)
Lemma read_block n d :
  0 < zlen d ≤ n →
  ∃ b0 b1 b2, Block_new n = Ret b0 ∧ size_ b0 = n ∧ Block_fill b0 0 d = Ret b1 ∧ Block_resize b1 (zlen d) = Ret b2 ∧
    live b2 ∧ size_ b2 = zlen d ∧ Block_chars b2 = d.
Proof.
  intros Hd. destruct (Block_new_Ret n) as (b0 & Hnew & Hb0 & Hs & Hc & _); [lia|].
  destruct (Block_fill_Ret b0 [] d) as (b1 & Hf & Hb1 & Hc1 & Hs1 & Ht); [done|lia|done|rewrite zlen_nil; lia|].
  destruct Hb1 as (H1 & H2 & H3). unfold Block_resize.
  destruct (data_ b1) as [a|] eqn:E; [|specialize (H3 eq_refl); lia].
  eexists b0, b1, (mkBlock (Some a) (capacity_ b1) (zlen d)). split_and!; try done.
  - rewrite E, (proj2 (Z.leb_le _ _)) by lia. done.
  - split; [|cbn; lia]. unfold block_wf, Block_data in *. cbn. rewrite E in H1. cbn in H1. split_and!; [done|lia|lia|done].
  - unfold Block_chars, Block_data in *. rewrite E in Ht. cbn in *. rewrite take_take in Ht.
    unfold zlen in *. rewrite Nat2Z.id. rewrite Nat.min_l in Ht by lia. done.
Qed.

Lemma range_live d : 0 < zlen d → ∃ b, Block_of_range d = Ret b ∧ live b ∧ size_ b = zlen d ∧ Block_chars b = d.
Proof.
  intros Hd. destruct (Block_of_range_Ret d) as (b & Hb & Hwf & Hc & Hs). exists b. split_and!; try done. split; [done|lia].
Qed.

(** ** Reading *)

Definition wire_of (l : list apacket) : bytes := concat ((λ p, wire_encode (msg p) ++ payload p) <$> l).
#[local] Arguments wire_of : simpl never.
Lemma wire_of_app l k : wire_of (l ++ k) = wire_of l ++ wire_of k.
Proof. unfold wire_of. by rewrite fmap_app, concat_app. Qed.
Lemma wire_of_one p : wire_of [p] = wire_encode (msg p) ++ payload p.
Proof. unfold wire_of. cbn. by rewrite app_nil_r. Qed.

Definition header_bytes (h : option amessage) : bytes := match h with Some m => wire_encode m | None => [] end.
Definition header_ok (h : option amessage) : Prop := match h with Some m => msg_ok m | None => True end.

Lemma take_header_ok h v n :
  buf_ok v n → header_ok h →
  ∃ h' v', take_header h v = Ret (h', v') ∧ buf_ok v' n ∧ header_ok h' ∧
    header_bytes h' ++ bytes_of v' = header_bytes h ++ bytes_of v ∧ (h' = None → zlen (bytes_of v') < wire_size amessage).
Proof.
  intros Hb Hh. unfold take_header. destruct h as [m|]; [by exists (Some m), v|].
  rewrite size_view by apply Hb. destruct (Z.leb_spec (wire_size amessage) (zlen (bytes_of v))) as [Hle|Hle]; [|by exists None, v].
  destruct (buf_take v n (wire_size amessage) Hb) as (head & r & -> & Hwf & Hr & Hbh & Hbr); [cbn; cbn in Hle; lia|].
  cbn [mbind outcome_bind]. destruct (coalesce_Ret head Hwf) as (b & -> & Hbw & Hbc). cbn [mbind outcome_bind].
  assert (Hl : zlen (Block_chars b) = wire_size amessage) by (rewrite Hbc, Hbh, zlen_take; [done|cbn; cbn in Hle; lia]).
  rewrite <-(zlen_chars b Hbw), Hl, Z.eqb_refl. cbn [CHECK mbind outcome_bind].
  destruct (wire_encode_decode (Block_chars b) Hl) as [He Hok].
  eexists _, _. split_and!; [done|done|exact Hok| |done].
  change (wire_encode (wire_decode (Block_chars b) : amessage) ++ bytes_of r = bytes_of v). rewrite He, Hbc, Hbh, Hbr. apply take_drop.
Qed.

(** A packet is delivered unless none is complete. *)
Lemma take_packet_ok h v n :
  buf_ok v n → header_ok h →
  ∃ h' v' l, take_packet h v = Ret (h', v', l) ∧ buf_ok v' n ∧ header_ok h' ∧ Forall packet_ok l ∧
    wire_of l ++ header_bytes h' ++ bytes_of v' = header_bytes h ++ bytes_of v ∧
    (l = [] ∧ h' = h ∧ v' = v ∧ match h with Some m => zlen (bytes_of v) < data_length m | None => True end ∨ length l = 1%nat).
Proof.
  intros Hb Hh. unfold take_packet. destruct h as [m|]; [|by exists None, v, []; split_and!; auto].
  rewrite size_view by apply Hb. destruct (Z.leb_spec (data_length m) (zlen (bytes_of v))) as [Hle|Hle];
    [|by exists (Some m), v, []; split_and!; auto].
  assert (Hm : 0 ≤ data_length m) by (destruct Hh as (_ & _ & _ & [? _] & _); done).
  destruct (buf_take v n (data_length m) Hb) as (head & r & -> & Hwf & Hr & Hbh & Hbr); [lia|].
  cbn [mbind outcome_bind]. destruct (coalesce_Ret head Hwf) as (b & -> & Hbw & Hbc). cbn [mbind outcome_bind].
  eexists _, _, _. split_and!; [done|done|done| | |by right].
  - constructor; [|constructor]. split; [exact Hh|]. cbn [msg payload]. rewrite Hbc, Hbh, zlen_take by lia. done.
  - rewrite wire_of_one. cbn [msg payload header_bytes]. rewrite Hbc, Hbh, Hbr, app_nil_l, <-app_assoc, take_drop. done.
Qed.

(** ** Writing *)

Lemma adb_write_spec fd buf :
  match adb_write fd buf with
  | (Wrote r, fd') => 0 ≤ r ≤ zlen buf ∧ wr_sent fd' = wr_sent fd ++ take (Z.to_nat r) buf
  | (WroteErr _, fd') => wr_sent fd' = wr_sent fd
  end.
Proof.
  unfold adb_write. destruct (wr_script fd) as [|[n|e] t]; cbn; [done| |done]. split; [|done]. pose proof (zlen_nonneg buf). lia.
Qed.

Lemma dispatch_ok s n :
  buf_ok (write_buffer_ s) n → writable_ s = true → 0 < zlen (bytes_of (write_buffer_ s)) →
  ∃ r v fd, DispatchWrites s = Ret (r, with_write true v fd s) ∧ buf_ok v n ∧
    wr_sent fd ++ bytes_of v = wr_sent (out_fd s) ++ bytes_of (write_buffer_ s).
Proof.
  intros Hb Hw Hne. unfold DispatchWrites, IOVector_is_empty. rewrite size_view by apply Hb.
  rewrite (proj2 (Z.eqb_neq _ _)) by lia. cbn [negb CHECK mbind outcome_bind]. rewrite Hw. cbn [negb].
  destruct (iovecs_Ret (write_buffer_ s) (bo_wf _ _ Hb)) as (l & -> & Hl). cbn [mbind outcome_bind].
  unfold adb_writev. rewrite Hl. pose proof (adb_write_spec (out_fd s) (bytes_of (write_buffer_ s))) as Hspec.
  destruct (adb_write _ _) as [[rc|e] fd]; [|by exists WriteError, (write_buffer_ s), fd; rewrite Hspec].
  destruct Hspec as [Hr Hs]. cbn [write_buffer_ with_write out_fd].
  destruct (Z.eqb_spec rc 0) as [->|Hz]; [exists WriteError, (write_buffer_ s), fd; by rewrite Hs, app_nil_r|].
  destruct (buf_take _ n rc Hb) as (h & v & -> & _ & Hv & _ & Hbv); [lia|]. cbn [mbind outcome_bind].
  exists (if IOVector_size v =? 0 then Completed else TryAgain), v, fd. split_and!; [by destruct (IOVector_size v =? 0)|done|].
  by rewrite Hs, Hbv, <-app_assoc, take_drop.
Qed.

Lemma write_ok p s n :
  buf_ok (write_buffer_ s) n → writable_ s = true → n + zlen (wire_of [p]) < 2 ^ 64 →
  ∃ ok v fd, Write p s = Ret (ok, with_accepted (accepted s ++ [p]) (with_write true v fd s)) ∧ buf_ok v (n + zlen (wire_of [p])) ∧
    wr_sent fd ++ bytes_of v = wr_sent (out_fd s) ++ bytes_of (write_buffer_ s) ++ wire_of [p].
Proof.
  intros Hb Hw Hn. rewrite wire_of_one, zlen_app in *. unfold Write. pose proof (wire_encode_length (msg p)) as Hh.
  pose proof (zlen_nonneg (payload p)) as Hp. rewrite Hh in *.
  destruct (range_live (wire_encode (msg p))) as (hb & -> & Hlive & Hs & Hc); [rewrite Hh; done|]. cbn [mbind outcome_bind].
  destruct (buf_append (write_buffer_ s) n hb Hb Hlive) as (v1 & Ha & Hb1 & Hv1); [lia|]. cbn [write_buffer_ with_accepted]. rewrite Ha.
  cbn [mbind outcome_bind]. rewrite Hs, Hh in Hb1. rewrite Hc in Hv1.
  assert (Hgo : ∀ v, buf_ok v (n + (wire_size amessage + zlen (payload p))) → bytes_of v = bytes_of v1 ++ payload p →
    ∃ ok v' fd, ('(result, s0) ← DispatchWrites (with_write (writable_ s) v (out_fd s) (with_accepted (accepted s ++ [p]) s));
                 Ret (match result with WriteError => false | _ => true end, s0))
      = Ret (ok, with_accepted (accepted s ++ [p]) (with_write true v' fd s)) ∧
      buf_ok v' (n + (wire_size amessage + zlen (payload p))) ∧
      wr_sent fd ++ bytes_of v' = wr_sent (out_fd s) ++ bytes_of (write_buffer_ s) ++ wire_encode (msg p) ++ payload p).
  { intros v Hv Hbv. destruct (dispatch_ok (with_write (writable_ s) v (out_fd s) (with_accepted (accepted s ++ [p]) s)) _ Hv Hw)
      as (r & v' & fd & Hd & Hb' & He).
    - cbn [write_buffer_ with_write]. rewrite Hbv, Hv1, !zlen_app, Hh. pose proof (zlen_nonneg (bytes_of (write_buffer_ s))). cbn. lia.
    - rewrite Hd. cbn [mbind outcome_bind]. eexists _, v', fd. split_and!; [done|done|]. rewrite He. cbn. by rewrite Hbv, Hv1, <-!app_assoc. }
  case_bool_decide as Hnil.
  - apply Hgo; [|by rewrite Hnil, app_nil_r]. eapply buf_mono; [exact Hb1|lia].
  - destruct (range_live (payload p)) as (pb & -> & Hlp & Hsp & Hcp).
    { destruct (payload p); [done|]. rewrite zlen_cons. pose proof (zlen_nonneg l). lia. }
    cbn [mbind outcome_bind]. destruct (buf_append v1 _ pb Hb1 Hlp) as (v2 & -> & Hb2 & Hv2); [lia|]. cbn [mbind outcome_bind].
    apply Hgo; [|by rewrite Hv2, Hcp]. eapply buf_mono; [exact Hb2|]. lia.
Qed.

(** ** What was written *)

(** The packets given to [Write] when a move is done. *)
Definition written_after (mv : nb_move) (s : nbconn) : list apacket := accepted s ++ match mv with NWrite p => [p] | _ => [] end.

Lemma dispatch_accepted s r s' : DispatchWrites s = Ret (r, s') → accepted s' = accepted s.
Proof.
  unfold DispatchWrites. intros H. invert_outcome. destruct (negb (writable_ s)); invert_outcome; [done|].
  destruct (adb_writev _ _) as [[rc|e] fd]; [|by invert_outcome]. destruct (rc =? 0); invert_outcome; [done|].
  repeat (invert_outcome; match goal with x : _ * _ |- _ => destruct x end). invert_outcome. by case_match; simplify_eq.
Qed.

Lemma accepted_run mv s s' : nb_run mv s = Ret s' → accepted s' = written_after mv s.
Proof.
  unfold written_after. intros H. destruct mv as [|p| | | |[[[out_ in_] w]|]| | |]; cbn [nb_run] in H; rewrite ?app_nil_r; invert_outcome; try done.
  - unfold Write in *. invert_outcome. destruct x3. invert_outcome. match goal with H : DispatchWrites _ = _ |- _ => by apply dispatch_accepted in H end.
  - by destruct (running_ s).
  - destruct (thread_ s); try done. unfold handle_out in H. invert_outcome. destruct x as [[] s1]; invert_outcome;
      match goal with H : DispatchWrites _ = _ |- _ => by apply dispatch_accepted in H end.
  - destruct (thread_ s); try done. unfold handle_in in H. invert_outcome. destruct (adb_read _ _) as [[d| |e] fd]; invert_outcome; try done.
    repeat (invert_outcome; match goal with x : _ * _ |- _ => destruct x end). by invert_outcome.
  - destruct (thread_ s) as [| | | |? ? []|]; try done; by invert_outcome.
Qed.

Lemma written_mono mv s : zlen (wire_of (accepted s)) ≤ zlen (wire_of (written_after mv s)).
Proof. unfold written_after. rewrite wire_of_app, zlen_app. pose proof (zlen_nonneg (wire_of (match mv with NWrite p => [p] | _ => [] end))). lia. Qed.

(** ** The invariant *)

Section nonblocking.
Context (i : rd_fd) (o : wr_fd).
Let init : nbconn := NonblockingFdConnection i o.

(** What was read so far is what was delivered, a header that waits for its
    payload, and the buffer. *)
Definition got (s : nbconn) : bytes := wire_of (delivered s) ++ header_bytes (read_header_ s) ++ bytes_of (read_buffer_ s).

Record nb_inv (s : nbconn) : Prop := {
  nv_got : got s `prefix_of` available i;
  nv_rest : thread_ s ≠ TDone → got s ++ available (in_fd s) = available i;
  nv_read : buf_ok (read_buffer_ s) (zlen (got s));
  nv_header : header_ok (read_header_ s);
  nv_delivered : Forall packet_ok (delivered s);
  nv_writable : writable_ s = true;
  nv_sent : wr_sent (out_fd s) ++ bytes_of (write_buffer_ s) = wr_sent o ++ wire_of (accepted s);
  nv_write : buf_ok (write_buffer_ s) (zlen (wire_of (accepted s)));
  nv_wakes : 0 ≤ wakes s ∧ match thread_ s with TPolled out_ _ w => out_ = false ∧ (w = true → 0 < wakes s) | _ => True end;
  nv_started : started_ s = false ↔ thread_ s = TNone;
  nv_errors : length (errors s) = match thread_ s with TDone => 1%nat | _ => 0%nat end
}.

Lemma nb_inv_init : nb_inv init.
Proof. constructor; cbn; try done; try apply prefix_nil; try exact buf_empty; by rewrite app_nil_r. Qed.

(** A move that leaves both buffers alone. *)
Lemma inv_thread s s' :
  nb_inv s → delivered s' = delivered s → read_header_ s' = read_header_ s → read_buffer_ s' = read_buffer_ s →
  writable_ s' = writable_ s → out_fd s' = out_fd s → write_buffer_ s' = write_buffer_ s → accepted s' = accepted s →
  (thread_ s' ≠ TDone → thread_ s ≠ TDone ∧ in_fd s' = in_fd s) →
  (0 ≤ wakes s' ∧ match thread_ s' with TPolled out_ _ w => out_ = false ∧ (w = true → 0 < wakes s') | _ => True end) →
  (started_ s' = false ↔ thread_ s' = TNone) → length (errors s') = match thread_ s' with TDone => 1%nat | _ => 0%nat end → nb_inv s'.
Proof.
  intros [] E1 E2 E3 E4 E5 E6 E7 E8 E9 E10 E11.
  assert (Hg : got s' = got s) by (unfold got; by rewrite E1, E2, E3).
  constructor; rewrite ?Hg, ?E1, ?E2, ?E3, ?E4, ?E5, ?E6, ?E7; try done.
  intros Hd. destruct (E8 Hd) as [? ->]. by apply nv_rest0.
Qed.

Lemma in_ok w s :
  nb_inv s → zlen (available i) < 2 ^ 64 → thread_ s = TPolled false true w →
  ∃ s', handle_in w s = Ret s' ∧ nb_inv s' ∧
    (thread_ s' = TDone ∨ length (delivered s') = S (length (delivered s)) ∨
     delivered s' = delivered s ∧
       match read_header_ s' with Some m => zlen (bytes_of (read_buffer_ s')) < data_length m | None => zlen (bytes_of (read_buffer_ s')) < wire_size amessage end).
Proof.
  intros Hi Hlt Ht. pose proof Hi as []. rewrite Ht in *. specialize (nv_rest0 ltac:(done)). unfold handle_in.
  assert (Hst : started_ s = true) by (destruct (started_ s); [done|]; discriminate (proj1 nv_started0 eq_refl)).
  pose proof (adb_read_spec (in_fd s) MAX_PAYLOAD ltac:(done)) as Hread.
  destruct (Block_new_Ret MAX_PAYLOAD) as (b0 & Hnew & _ & Hs0 & _ & _); [done|]. rewrite Hnew. cbn [mbind outcome_bind]. rewrite Hs0.
  destruct (adb_read (in_fd s) MAX_PAYLOAD) as [[d| |e] fd].
  2, 3: eexists; split; [done|]; split; [|by left]; apply (inv_thread s); cbn; try done; try tauto; [by rewrite Hst|rewrite length_app, nv_errors0; done].
  destruct Hread as [Hd Hav]. destruct (read_block MAX_PAYLOAD d Hd) as (b0' & b1 & b2 & Hnew' & _ & Hf & Hr & Hlive & Hs2 & Hc2).
  assert (b0' = b0) as -> by congruence. rewrite Hf. cbn [mbind outcome_bind]. rewrite Hr. cbn [mbind outcome_bind with_read read_buffer_ read_header_ in_fd delivered].
  assert (Htot : zlen (got s) + zlen d ≤ zlen (available i)).
  { rewrite <-nv_rest0, Hav, !zlen_app. pose proof (zlen_nonneg (available fd)). lia. }
  destruct (buf_append _ _ b2 nv_read0 Hlive) as (v1 & -> & Hb1 & Hv1); [lia|]. cbn [mbind outcome_bind]. rewrite Hs2 in Hb1. rewrite Hc2 in Hv1.
  destruct (take_header_ok (read_header_ s) v1 _ Hb1 nv_header0) as (h2 & v2 & -> & Hb2 & Hh2 & He2 & Hn2). cbn [mbind outcome_bind].
  destruct (take_packet_ok h2 v2 _ Hb2 Hh2) as (h3 & v3 & l & -> & Hb3 & Hh3 & Hl3 & He3 & Hp3). cbn [mbind outcome_bind].
  eexists. split; [done|].
  set (s' := with_thread _ _).
  assert (Hgot : got s' = got s ++ d).
  { unfold got. cbn. rewrite wire_of_app, <-!app_assoc, He3, He2, Hv1. done. }
  split; [constructor; rewrite ?Hgot; cbn; try done|].
  - exists (available fd). by rewrite <-nv_rest0, Hav, app_assoc.
  - intros _. by rewrite <-nv_rest0, Hav, app_assoc.
  - by rewrite zlen_app.
  - by apply Forall_app.
  - by rewrite Hst.
  - right. cbn [delivered with_thread with_read s' read_header_ read_buffer_]. destruct Hp3 as [(-> & -> & -> & Hp)|Hp].
    + right. split; [by rewrite app_nil_r|]. destruct h2; [done|by apply Hn2].
    + left. rewrite length_app, Hp. lia.
Qed.

Lemma nb_move_ok mv s :
  nb_inv s → zlen (available i) < 2 ^ 64 → nb_enabled mv s → zlen (wire_of (written_after mv s)) < 2 ^ 64 →
  ∃ s', nb_run mv s = Ret s' ∧ nb_inv s'.
Proof.
  intros Hi Hlt He Hw. pose proof Hi as []. unfold written_after in *.
  assert (Hst : thread_ s ≠ TNone → started_ s = true) by (destruct (started_ s); [done|]; by intros []; apply nv_started0).
  destruct mv as [|p| | | |[[[out_ in_] w]|]| | |]; cbn [nb_run nb_enabled] in *; rewrite ?app_nil_r in *.
  - rewrite He. cbn [negb CHECK mbind outcome_bind]. eexists. split; [done|].
    assert (thread_ s = TNone) as Hn by (by apply nv_started0). apply (inv_thread s); cbn; try done; rewrite ?Hn in *; try done.
  - rewrite wire_of_app, zlen_app in Hw. destruct (write_ok p s _ nv_write0 nv_writable0 Hw) as (ok & v & fd & -> & Hb & Hs). cbn [mbind outcome_bind].
    eexists. split; [done|]. constructor; cbn; try done.
    + by rewrite Hs, app_assoc, nv_sent0, wire_of_app, <-app_assoc.
    + by rewrite wire_of_app, zlen_app.
  - eexists. split; [done|]. apply (inv_thread s); cbn; try done. destruct nv_wakes0 as [Hw0 Hw1]. split; [lia|].
    destruct (thread_ s); try done. destruct Hw1 as [? Hw1]. split; [done|]. intros ->. specialize (Hw1 eq_refl). lia.
  - eexists. split; [done|]. apply (inv_thread s); cbn; try done; rewrite ?He in *; try done. by rewrite Hst.
  - eexists. split; [done|]. rewrite He in *. destruct (running_ s); apply (inv_thread s); cbn; try done; rewrite ?He in *; try done; try (by rewrite Hst).
    by rewrite length_app, nv_errors0.
  - destruct He as [He [Ho Hwk]]. eexists. split; [done|]. rewrite He in *. apply (inv_thread s); cbn; try done; rewrite ?He; try done; try (by rewrite Hst).
    split; [tauto|]. split; [|done]. destruct out_; [|done]. specialize (Ho eq_refl). congruence.
  - destruct He as [He _]. eexists. split; [done|]. rewrite He in *. apply (inv_thread s); cbn; try done; rewrite ?He; try done; try (by rewrite Hst).
    by rewrite length_app, nv_errors0.
  - destruct (thread_ s) as [| | | |[] ? ?|]; try done. by destruct nv_wakes0 as [_ [? _]].
  - destruct (thread_ s) as [| | | |[] [] w|] eqn:Ht; try done. destruct (in_ok w s Hi Hlt Ht) as (s' & ? & ? & _). by exists s'.
  - destruct (thread_ s) as [| | | |[] [] w|] eqn:Ht; try done. destruct nv_wakes0 as [Hw0 [_ Hw1]]. destruct w.
    + specialize (Hw1 eq_refl). rewrite (proj2 (Z.ltb_lt _ _)) by lia. cbn [CHECK mbind outcome_bind]. eexists. split; [done|].
      apply (inv_thread s); cbn; try done; rewrite ?Ht; try done; [lia|by rewrite Hst].
    + eexists. split; [done|]. apply (inv_thread s); cbn; try done; rewrite ?Ht; try done. by rewrite Hst.
Qed.

Lemma nb_reachable_inv s :
  nb_reachable init s → zlen (available i) < 2 ^ 64 → zlen (wire_of (accepted s)) < 2 ^ 64 → nb_inv s.
Proof.
  intros Hr Hi. induction Hr as [|s mv s' Hr IH He Hrun]; intros Hw; [exact nb_inv_init|].
  rewrite (accepted_run _ _ _ Hrun) in Hw. pose proof (written_mono mv s).
  destruct (nb_move_ok mv s (IH ltac:(lia)) Hi He Hw) as (s2 & ? & ?). congruence.
Qed.
End nonblocking.

(** ** The claims *)

(** The reference: [FdConnection::Read] called until it fails, [n] times at most. *)
Fixpoint read_packets (n : nat) (fd : rd_fd) : outcome (list apacket * rd_fd) :=
  match n with
  | O => Ret ([], fd)
  | S n =>
      '(p, fd) ← FdConnection_Read fd;
      match p with
      | None => Ret ([], fd)
      | Some p => '(l, fd) ← read_packets n fd; Ret (p :: l, fd)
      end
  end.

Definition fits (p : apacket) : Prop := zlen (payload p) ≤ MAX_PAYLOAD.
#[local] Instance fits_dec p : Decision (fits p).
Proof. unfold fits. apply _. Defined.

Lemma read_packets_Ret l fd more :
  Forall packet_ok l → Forall fits l → available fd = wire_of l ++ more →
  ∃ fd', read_packets (length l) fd = Ret (l, fd') ∧ available fd' = more.
Proof.
  revert fd. induction l as [|p l IH]; intros fd Hok Hfit Hav; cbn [read_packets length]; [by exists fd|].
  apply Forall_cons in Hok as [Hp Hok], Hfit as [Hf Hfit].
  change (wire_of (p :: l)) with ((wire_encode (msg p) ++ payload p) ++ wire_of l) in Hav. rewrite <-!app_assoc in Hav.
  destruct (FdConnection_Read_Ret fd p _ Hp Hf Hav) as (fd1 & -> & Ha1). cbn [mbind outcome_bind].
  destruct (IH fd1 Hok Hfit Ha1) as (fd2 & -> & Ha2). cbn. eauto.
Qed.

(** Neither a header nor the payload of the header that was read is complete. *)
Definition nothing_complete (s : nbconn) : Prop :=
  match read_header_ s with
  | Some m => zlen (bytes_of (read_buffer_ s)) < data_length m
  | None => zlen (bytes_of (read_buffer_ s)) < wire_size amessage
  end.


(** C20: Whatever the threads, [poll] and the descriptor do, no [CHECK] of the
    connection fires; the bytes sent are a prefix of the packets given to [Write],
    in order, and the others are in the write buffer; the error callback has run
    exactly once if the thread has ended and not at all before. *)
Theorem nonblocking_safe i o s mv :
  nb_reachable (NonblockingFdConnection i o) s → zlen (available i) < 2 ^ 64 → nb_enabled mv s → zlen (wire_of (written_after mv s)) < 2 ^ 64 →
  (∃ s', nb_run mv s = Ret s') ∧
  wr_sent (out_fd s) ++ bytes_of (write_buffer_ s) = wr_sent o ++ wire_of (accepted s) ∧
  length (errors s) = (if decide (thread_ s = TDone) then 1%nat else 0%nat).
Proof.
  intros Hr Hi He Hw. pose proof (written_mono mv s). assert (Hinv : nb_inv i o s) by (apply nb_reachable_inv; [done..|lia]).
  split_and!; [|apply Hinv|].
  - destruct (nb_move_ok i o mv s Hinv Hi He Hw) as (s' & ? & _). eauto.
  - rewrite (nv_errors _ _ _ Hinv). destruct (thread_ s); by case_decide.
Qed.

(** *** Runs *)

Definition a_packet : apacket := mkPacket (mkMsg A_WRTE 1 2 3 0 0) $"abc".
Definition another_packet : apacket := mkPacket (mkMsg A_OKAY 7 8 0 0 0) [].

#[local] Instance u32_ok_dec z : Decision (u32_ok z).
Proof. unfold u32_ok. apply _. Defined.
#[local] Instance packet_ok_dec p : Decision (packet_ok p).
Proof. unfold packet_ok, msg_ok. apply _. Defined.
#[local] Instance nb_enabled_dec mv s : Decision (nb_enabled mv s).
Proof.
  destruct mv as [| | | | |[[[o i] w]|]| | |]; cbn [nb_enabled]; try apply _; destruct (thread_ s) as [| | | |[] [] w|]; apply _.
Defined.

Fixpoint nb_runs (ms : list nb_move) (s : nbconn) : outcome nbconn :=
  match ms with [] => Ret s | mv :: ms => s ← nb_run mv s; nb_runs ms s end.
Fixpoint nb_all_enabled (ms : list nb_move) (s : nbconn) : bool :=
  match ms with
  | [] => true
  | mv :: ms => bool_decide (nb_enabled mv s) && match nb_run mv s with Ret s => nb_all_enabled ms s | Abort _ => false end
  end.

Lemma nb_reachable_runs s0 ms s :
  nb_reachable s0 s → nb_all_enabled ms s = true → ∃ s', nb_runs ms s = Ret s' ∧ nb_reachable s0 s'.
Proof.
  revert s. induction ms as [|mv ms IH]; intros s Hs He; cbn [nb_runs nb_all_enabled] in *; [by eauto|].
  apply andb_prop in He as [He Hms]. apply bool_decide_eq_true in He.
  destruct (nb_run mv s) as [s1|] eqn:E; [|done]. apply IH; [|done]. by eapply nb_next.
Qed.

(** Two packets that arrive in one piece. *)
Definition two_in_one : rd_fd := [RdData (wire_of [a_packet; another_packet])].
Definition one_round : list nb_move := [NTop; NPoll (Some (false, true, false)); NIn; NWake].
Definition after_round (ms : list nb_move) : nbconn :=
  match nb_runs (NStart :: NRunning :: ms) (NonblockingFdConnection two_in_one (mkWrFd [WrTake 30; WrTake 100] [])) with Ret s => s | Abort _ => NonblockingFdConnection [] (mkWrFd [] []) end.

(** Only the first one is delivered although the second is complete, and the
    next round waits for more to read. *)
Example second_packet_waits :
  delivered (after_round one_round) = [a_packet] ∧ read_header_ (after_round one_round) = None ∧
  bytes_of (read_buffer_ (after_round one_round)) = wire_of [another_packet] ∧ in_fd (after_round one_round) = [].
Proof. vm_compute. by split_and!. Qed.

(** A write that the descriptor takes in part leaves the rest behind, and
    [POLLOUT] is never asked for. *)
Example partial_write_waits :
  wr_sent (out_fd (after_round [NWrite a_packet; NWrite a_packet])) = wire_of [a_packet; a_packet] ∧
  wr_sent (out_fd (after_round [NWrite (mkPacket (mkMsg A_WRTE 1 2 9 0 0) $"abcdefghi")])) = take 30 (wire_of [mkPacket (mkMsg A_WRTE 1 2 9 0 0) $"abcdefghi"]) ∧
  writable_ (after_round [NWrite (mkPacket (mkMsg A_WRTE 1 2 9 0 0) $"abcdefghi")]) = true.
Proof. vm_compute. by split_and!. Qed.

(** [Run] sets [running_] itself: a [Stop] that comes before is lost, and its
    [join] waits for a thread that does not end. *)
Example early_stop_is_lost :
  ∃ s, nb_runs [NStart; NStop; NRunning; NTop; NPoll (Some (false, false, true)); NWake; NTop] (NonblockingFdConnection [] (mkWrFd [] [])) = Ret s ∧
    thread_ s = TPolling ∧ running_ s = true ∧ wakes s = 0.
Proof. eexists. split; [vm_compute; reflexivity|]. by split_and!. Qed.

Lemma after_one_round_reachable :
  nb_reachable (NonblockingFdConnection two_in_one (mkWrFd [WrTake 30; WrTake 100] [])) (after_round one_round).
Proof.
  destruct (nb_reachable_runs _ (NStart :: NRunning :: one_round) _ (nb_init (NonblockingFdConnection two_in_one (mkWrFd [WrTake 30; WrTake 100] []))))
    as (s & Hr & Hs); [by vm_compute|]. unfold after_round. by rewrite Hr.
Qed.


Lemma nonblocking_safe_witness :
  nb_enabled (NWrite a_packet) (after_round one_round) ∧
  (∃ s', nb_run (NWrite a_packet) (after_round one_round) = Ret s') ∧
  wr_sent (out_fd (after_round one_round)) ++ bytes_of (write_buffer_ (after_round one_round)) =
    wr_sent (mkWrFd [WrTake 30; WrTake 100] []) ++ wire_of (accepted (after_round one_round)) ∧
  length (errors (after_round one_round)) = (if decide (thread_ (after_round one_round) = TDone) then 1%nat else 0%nat).
Proof.
  assert (He : nb_enabled (NWrite a_packet) (after_round one_round)) by (apply (bool_decide_unpack _); vm_compute; exact I).
  split; [exact He|].
  apply (nonblocking_safe two_in_one (mkWrFd [WrTake 30; WrTake 100] []) (after_round one_round) (NWrite a_packet)
    after_one_round_reachable); [vm_compute; reflexivity|exact He|vm_compute; reflexivity].
Defined.
