(* ===== verification/ShellProto.v ===== *)
(** * The shell protocol
    (src/src/shell_protocol.h, src/src/shell_service_protocol.cpp)

    Packets of an id, a length and data, written from and read into a buffer.  A
    packet that is longer than the reader's buffer is read in pieces. *)

From Stdlib Require Import ZArith Lia List Ascii String.
From stdpp Require Import base numbers list strings.
From S2P Require Import Prelude.
From S2P Require Import Libc.
From S2P Require Import AdbIo.
From S2P Require Import IOVector.
From S2P Require Import Wire.

Definition kIdStdin : Z := 0.
Definition kIdStdout : Z := 1.
Definition kIdStderr : Z := 2.
Definition kIdExit : Z := 3.
Definition kIdCloseStdin : Z := 4.
Definition kIdWindowSizeChange : Z := 5.
Definition kIdInvalid : Z := 255.

Definition kBufferSize : Z := MAX_PAYLOAD.
Definition kHeaderSize : Z := 1 + 4.

(** [buffer_] up to [buffer_end_]; [data()] is what follows the header. *)
Record ShellProtocol := mkShell { buffer_ : bytes; data_length_ : Z; bytes_left_ : Z }.

(** The constructor: of the buffer, [rest] is what the memory held. *)
Definition ShellProtocol_new (rest : bytes) : ShellProtocol := mkShell (of_cval kIdInvalid :: rest) 0 0.

Definition data_capacity (p : ShellProtocol) : Z := zlen (buffer_ p) - kHeaderSize.
Definition id (p : ShellProtocol) : Z := schar (default NUL (head (buffer_ p))).
(** The [data_length()] bytes at [data()]. *)
Definition data (p : ShellProtocol) : bytes := slice (buffer_ p) kHeaderSize (data_length_ p).

(** What [ReadFdExactly] stored is in the buffer, whole or not. *)
Definition read_into (p : ShellProtocol) (off len : Z) (fd : rd_fd) : outcome (bool * ShellProtocol * rd_fd) :=
  '(ok, got, fd) ← ReadFdExactly fd len;
  b ← memcpy (buffer_ p) off got;
  Ret (ok, mkShell b (data_length_ p) (bytes_left_ p), fd).

Definition Read (p : ShellProtocol) (fd : rd_fd) : outcome (bool * ShellProtocol * rd_fd) :=
  '(ok, p, fd) ←
    (if bytes_left_ p =? 0 then
       '(ok, p, fd) ← read_into p 0 kHeaderSize fd;
       Ret (ok, if (ok : bool) then mkShell (buffer_ p) 0 (word_at (buffer_ p) 1) else p, fd)
     else Ret (true, p, fd));
  if negb (ok : bool) then Ret (false, p, fd)
  else
    let read_length := Z.min (bytes_left_ p) (data_capacity p) in
    '(ok, p, fd) ← (if negb (read_length =? 0) then read_into p kHeaderSize read_length fd else Ret (true, p, fd));
    if negb (ok : bool) then Ret (false, p, fd)
    else Ret (true, mkShell (buffer_ p) read_length (u64 (bytes_left_ p - read_length)), fd).

Definition Write (p : ShellProtocol) (i length : Z) (fd : wr_fd) : outcome (bool * ShellProtocol * wr_fd) :=
  b ← memcpy (buffer_ p) 0 [of_cval i];
  b ← memcpy b 1 (le32 (u32 length));
  CHECK (kHeaderSize + length <=? zlen b) "read past the end of the buffer" ;;
  '(ok, fd) ← WriteFdExactly fd (take (Z.to_nat (kHeaderSize + length)) b);
  Ret (ok, mkShell b (data_length_ p) (bytes_left_ p), fd).

(** The id that the constructor stores is not the one that is read back. *)
Example invalid_id rest : id (ShellProtocol_new rest) = -1 ∧ id (ShellProtocol_new rest) ≠ kIdInvalid.
Proof. done. Qed.

(** ** A packet read in pieces *)

(** [n] calls of [Read]: the ids and data they leave, as long as they succeed. *)
Fixpoint reads (n : nat) (p : ShellProtocol) (fd : rd_fd) : outcome (list (Z * bytes) * ShellProtocol * rd_fd) :=
  match n with
  | O => Ret ([], p, fd)
  | S n =>
      '(ok, p, fd) ← Read p fd;
      if negb (ok : bool) then Ret ([], p, fd)
      else '(l, q, fd) ← reads n p fd; Ret ((id p, data p) :: l, q, fd)
  end.

(** The buffer of a protocol with header [h] and [rest] behind it. *)
Lemma read_data h c len fd ps dl bl :
  zlen h = kHeaderSize → 0 ≤ len ≤ zlen c → len ≤ zlen (available fd) →
  ps = mkShell (h ++ c) dl bl →
  ∃ fd', read_into ps kHeaderSize len fd =
    Ret (true, mkShell (h ++ take (Z.to_nat len) (available fd) ++ drop (Z.to_nat len) c) dl bl, fd') ∧
    available fd' = drop (Z.to_nat len) (available fd).
Proof.
  intros Hh Hlen Hav ->. unfold read_into.
  destruct (ReadFdExactly_Ret fd len) as (ok & got & fd' & -> & Hr & _); [lia|]. destruct (Hr Hav) as (-> & -> & Ha).
  cbn [mbind outcome_bind buffer_ data_length_ bytes_left_]. rewrite <-Hh.
  pose proof (memcpy_at h (take (Z.to_nat len) c) (drop (Z.to_nat len) c) (take (Z.to_nat len) (available fd))) as Hm.
  rewrite take_drop in Hm. rewrite Hm; [by eexists|]. rewrite !length_take. unfold zlen in *. lia.
Qed.

(** The rest of a packet of [left] bytes, of which the stream begins with [d]. *)
Lemma reads_rest n h c d more dl fd :
  zlen h = kHeaderSize → 0 < zlen c → zlen d < 2 ^ 32 → available fd = d ++ more →
  (Z.of_nat n - 1) * zlen c < zlen d ≤ Z.of_nat n * zlen c →
  ∃ l c' fd' dl', reads n (mkShell (h ++ c) dl (zlen d)) fd = Ret (l, mkShell (h ++ c') dl' 0, fd') ∧
    length l = n ∧ Forall (λ x, x.1 = id (mkShell (h ++ c) dl 0)) l ∧ concat (snd <$> l) = d ∧ available fd' = more ∧ zlen c' = zlen c.
Proof.
  intros Hh Hc. revert c d dl fd Hc. induction n as [|n IH]; intros c d dl fd Hc Hd Hav Hn.
  { pose proof (zlen_nonneg d). assert (d = []) as -> by (apply zlen_0; lia). exists [], c, fd, dl. split_and!; try done. }
  assert (Hpos : 0 < zlen d) by nia. cbn [reads]. unfold Read. cbn [bytes_left_ data_capacity buffer_].
  rewrite (proj2 (Z.eqb_neq _ _)) by lia. cbn [mbind outcome_bind negb]. unfold data_capacity. cbn [buffer_ bytes_left_].
  rewrite zlen_app, Hh. replace (kHeaderSize + zlen c - kHeaderSize) with (zlen c) by lia.
  set (r := Z.min (zlen d) (zlen c)). rewrite (proj2 (Z.eqb_neq r 0)) by lia. cbn [negb].
  assert (Hav' : r ≤ zlen (available fd)) by (rewrite Hav, zlen_app; pose proof (zlen_nonneg more); lia).
  destruct (read_data h c r fd _ dl (zlen d) Hh ltac:(lia) Hav' eq_refl) as (fd' & -> & Ha). cbn [mbind outcome_bind negb buffer_ bytes_left_ data_length_].
  rewrite u64_small by lia. rewrite Hav in *. assert (Hrd : (Z.to_nat r ≤ length d)%nat) by (unfold zlen in *; lia).
  rewrite take_app_le, drop_app_le in * by done.
  set (c1 := take (Z.to_nat r) d ++ drop (Z.to_nat r) c).
  assert (Hc1 : zlen c1 = zlen c) by (unfold c1; rewrite zlen_app, zlen_take, zlen_drop by lia; lia).
  assert (Hleft : zlen d - r = zlen (drop (Z.to_nat r) d)) by (rewrite zlen_drop by lia; lia). rewrite Hleft.
  destruct (IH c1 (drop (Z.to_nat r) d) r fd') as (l & c' & fd2 & dl' & -> & Hl & Hid & Hcat & Ha2 & Hc').
  - lia.
  - lia.
  - done.
  - rewrite <-Hleft, Hc1. nia.
  - cbn [mbind outcome_bind]. eexists _, c', fd2, dl'. split; [done|]. split_and!.
    + cbn. by rewrite Hl.
    + assert (Hhd : ∀ x y z w a b, id (mkShell (h ++ x) a z) = id (mkShell (h ++ y) b w)).
      { intros. unfold id. cbn. destruct h; [done|done]. }
      constructor; cbn [fst]; [apply Hhd|]. eapply Forall_impl; [exact Hid|]. cbn. intros ? ->. apply Hhd.
    + cbn [fmap list_fmap concat snd]. rewrite Hcat. unfold data. cbn [buffer_ data_length_].
      rewrite (slice_suffix h c1 kHeaderSize r) by (rewrite Hh; done). rewrite Hh, Z.sub_diag. assert (Ht : zlen (take (Z.to_nat r) d) = r) by (rewrite zlen_take; lia).
      unfold c1. rewrite slice_prefix, slice_all by lia. apply take_drop.
    + done.
    + lia.
Qed.

(** The header on the wire. *)
Definition header_of (i len : Z) : bytes := of_cval i :: le32 len.

Lemma header_word i len c : 0 ≤ len < 2 ^ 32 → word_at (header_of i len ++ c) 1 = len.
Proof.
  intros Hl. unfold word_at, header_of. change ((of_cval i :: le32 len) ++ c) with ([of_cval i] ++ le32 len ++ c).
  rewrite slice_suffix by done. change (1 - zlen [of_cval i]) with 0. rewrite slice_prefix by done.
  rewrite slice_all by done. by apply le_val_le32.
Qed.

(** Reading a header and then is reading on with the length it says. *)
Lemma Read_header h c i len fd more dl :
  zlen h = kHeaderSize → 0 ≤ len < 2 ^ 32 → available fd = header_of i len ++ more →
  ∃ fd', available fd' = more ∧
    Read (mkShell (h ++ c) dl 0) fd =
      if len =? 0 then Ret (true, mkShell (header_of i len ++ c) 0 0, fd') else Read (mkShell (header_of i len ++ c) 0 len) fd'.
Proof.
  intros Hh Hl Hav. assert (Hhl : zlen (header_of i len) = kHeaderSize) by done.
  assert (∃ fd', read_into (mkShell (h ++ c) dl 0) 0 kHeaderSize fd = Ret (true, mkShell (header_of i len ++ c) dl 0, fd') ∧ available fd' = more)
    as (fd' & Hri & Ha).
  { unfold read_into. destruct (ReadFdExactly_Ret fd kHeaderSize) as (ok & got & fd' & -> & Hr & _); [done|].
    rewrite Hav, zlen_app, Hhl in Hr. pose proof (zlen_nonneg more).
    assert (Hn : Z.to_nat kHeaderSize = length (header_of i len)) by done.
    destruct Hr as (-> & -> & Ha); [lia|]. rewrite Hn, take_app_length in *. rewrite drop_app_length in Ha.
    exists fd'. split; [|done]. cbn [mbind outcome_bind buffer_ data_length_ bytes_left_].
    pose proof (memcpy_at [] h c (header_of i len)) as Hm. cbn [app] in Hm. rewrite zlen_nil in Hm.
    rewrite Hm by (unfold zlen in *; lia). done. }
  exists fd'. split; [done|]. unfold Read at 1. cbn [bytes_left_]. rewrite Z.eqb_refl, Hri. cbn [mbind outcome_bind buffer_ negb].
  rewrite header_word by done.
  destruct (Z.eqb_spec len 0) as [->|Hne].
  - cbn [bytes_left_]. rewrite Z.min_l by (unfold data_capacity; cbn [buffer_]; rewrite zlen_app, Hhl; pose proof (zlen_nonneg c); lia).
    cbn [Z.eqb negb mbind outcome_bind buffer_]. done.
  - unfold Read. cbn [bytes_left_]. rewrite (proj2 (Z.eqb_neq len 0)) by done. cbn [mbind outcome_bind negb bytes_left_]. reflexivity.
Qed.

Lemma schar_small i : 0 ≤ i < 128 → schar (of_cval i) = i.
Proof. intros Hi. unfold schar. rewrite cval_of_cval, Z.mod_small by lia. by rewrite (proj2 (Z.ltb_lt _ _)) by lia. Qed.

Lemma reads_packet h c i d more fd dl :
  zlen h = kHeaderSize → 0 < zlen c → 0 ≤ i < 128 → zlen d < 2 ^ 32 → available fd = header_of i (zlen d) ++ d ++ more →
  ∃ n l c' dl' fd', reads n (mkShell (h ++ c) dl 0) fd = Ret (l, mkShell (header_of i (zlen d) ++ c') dl' 0, fd') ∧
    length l = n ∧ (1 ≤ n)%nat ∧ (Z.of_nat n - 1) * zlen c ≤ zlen d ≤ Z.of_nat n * zlen c ∧
    Forall (λ x, x.1 = i) l ∧ concat (snd <$> l) = d ∧ available fd' = more ∧ zlen c' = zlen c.
Proof.
  intros Hh Hc Hi Hd Hav. pose proof (zlen_nonneg d) as Hd0.
  destruct (Read_header h c i (zlen d) fd _ dl Hh ltac:(lia) Hav) as (fd1 & Ha1 & Hread).
  assert (Hid : ∀ x a b, id (mkShell (header_of i (zlen d) ++ x) a b) = i) by (intros; unfold id; cbn; by apply schar_small).
  destruct (Z.eqb_spec (zlen d) 0) as [Hz|Hz].
  - exists 1%nat, [(i, [])], c, 0, fd1. cbn [reads]. rewrite Hread. cbn [mbind outcome_bind negb]. rewrite Hid.
    assert (d = []) as -> by by apply zlen_0. split_and!; try done; try lia. by constructor.
  - set (n := Z.to_nat ((zlen d + zlen c - 1) / zlen c)).
    assert (Hq : zlen d + zlen c - 1 = zlen c * ((zlen d + zlen c - 1) / zlen c) + (zlen d + zlen c - 1) mod zlen c) by (apply Z.div_mod; lia).
    pose proof (Z.mod_pos_bound (zlen d + zlen c - 1) (zlen c) Hc) as Hm.
    assert (Hq0 : 0 ≤ (zlen d + zlen c - 1) / zlen c) by (apply Z.div_pos; lia).
    assert (Hn : (Z.of_nat n - 1) * zlen c < zlen d ≤ Z.of_nat n * zlen c) by (unfold n; rewrite Z2Nat.id by done; nia).
    destruct n as [|n'] eqn:En; [lia|].
    destruct (reads_rest (S n') (header_of i (zlen d)) c d more 0 fd1) as (l & c' & fd2 & dl' & Hr & Hl & Hids & Hcat & Ha2 & Hc'); try done.
    exists (S n'), l, c', dl', fd2. split_and!; try done; try lia.
    + rewrite <-Hr. cbn [reads]. by rewrite Hread.
    + eapply Forall_impl; [exact Hids|]. cbn beta. intros ? ->. apply Hid.
Qed.

(** [Write] sends the header and the data in front of the buffer's rest. *)
Lemma Write_data h d rest i wfd dl bl :
  zlen h = kHeaderSize → zlen d < 2 ^ 32 →
  Write (mkShell (h ++ d ++ rest) dl bl) i (zlen d) wfd =
    '(ok, wfd') ← WriteFdExactly wfd (header_of i (zlen d) ++ d); Ret (ok, mkShell (header_of i (zlen d) ++ d ++ rest) dl bl, wfd').
Proof.
  intros Hh Hd. pose proof (zlen_nonneg d). unfold Write. cbn [buffer_].
  destruct h as [|h0 h]; [done|]. assert (Hl : length h = 4%nat) by (unfold zlen, kHeaderSize in Hh; cbn in Hh; lia).
  pose proof (memcpy_at [] [h0] (h ++ d ++ rest) [of_cval i] eq_refl) as Hm1. cbn [app] in Hm1. rewrite zlen_nil in Hm1.
  rewrite <-!app_comm_cons. rewrite Hm1. cbn [mbind outcome_bind].
  pose proof (memcpy_at [of_cval i] h (d ++ rest) (le32 (zlen d)) ltac:(by rewrite Hl)) as Hm2. cbn [app] in Hm2.
  rewrite u32_small by lia. change (zlen [of_cval i]) with 1 in Hm2. rewrite Hm2. cbn [mbind outcome_bind].
  set (b := of_cval i :: le32 (zlen d) ++ d ++ rest).
  assert (Hb : b = (header_of i (zlen d) ++ d) ++ rest) by (unfold b, header_of; by rewrite <-app_assoc).
  assert (Hlen : zlen (header_of i (zlen d) ++ d) = kHeaderSize + zlen d) by (rewrite zlen_app; done).
  assert (Hbl : zlen b = kHeaderSize + zlen d + zlen rest) by (by rewrite Hb, (zlen_app (header_of i (zlen d) ++ d) rest), Hlen).
  pose proof (zlen_nonneg rest). rewrite (proj2 (Z.leb_le (kHeaderSize + zlen d) (zlen b))) by lia. cbn [CHECK mbind outcome_bind].
  assert (Htake : take (Z.to_nat (kHeaderSize + zlen d)) b = header_of i (zlen d) ++ d).
  { rewrite Hb, <-Hlen. unfold zlen. rewrite Nat2Z.id. apply take_app_length. }
  rewrite Htake. reflexivity.
Qed.

(** Packets of the shell protocol round-trip.  Writing a packet whose data is
    in the buffer returns; when it reports success, a reader with a buffer of any
    other size gets the id with every piece and the data as the concatenation of
    the pieces, in as many reads as its capacity needs and at least one, and the
    stream is left where the packet ends. *)
Theorem shell_packet_roundtrip h d rest i wfd dl bl rh rc rdl rfd more :
  zlen h = kHeaderSize → zlen rh = kHeaderSize → 0 < zlen rc → 0 ≤ i < 128 → zlen d < 2 ^ 32 → wr_sent wfd = [] →
  ∃ ok p wfd', Write (mkShell (h ++ d ++ rest) dl bl) i (zlen d) wfd = Ret (ok, p, wfd') ∧
    (ok = true → available rfd = wr_sent wfd' ++ more →
     ∃ n l q rfd', reads n (mkShell (rh ++ rc) rdl 0) rfd = Ret (l, q, rfd') ∧ length l = n ∧ (1 ≤ n)%nat ∧
       (Z.of_nat n - 1) * zlen rc ≤ zlen d ≤ Z.of_nat n * zlen rc ∧
       Forall (λ x, x.1 = i) l ∧ concat (snd <$> l) = d ∧ bytes_left_ q = 0 ∧ available rfd' = more).
Proof.
  intros Hh Hrh Hrc Hi Hd Hsent. rewrite Write_data by done. assert (Hlen : zlen (header_of i (zlen d) ++ d) = kHeaderSize + zlen d) by (rewrite zlen_app; done).
  destruct (WriteFdExactly_Ret wfd (header_of i (zlen d) ++ d)) as (wfd' & -> & Hs). cbn [mbind outcome_bind].
  eexists _, _, wfd'. split; [done|]. intros Hok%bool_decide_eq_true Hav. rewrite Hsent, take_ge, app_nil_l in Hs by (unfold zlen in *; lia).
  rewrite Hs, <-app_assoc in Hav.
  destruct (reads_packet rh rc i d more rfd rdl Hrh Hrc Hi Hd Hav) as (n & l & c' & dl' & fd' & Hr & H1 & H2 & H3 & H4 & H5 & H6 & _).
  eexists n, l, _, fd'. split; [exact Hr|]. exact (conj H1 (conj H2 (conj H3 (conj H4 (conj H5 (conj eq_refl H6)))))).
Qed.

Lemma shell_packet_roundtrip_witness :
  ∃ p wfd', Write (mkShell ($"?????" ++ $"hello" ++ $"rest") 0 0) kIdStdout 5 (mkWrFd [WrTake 3; WrTake 9] []) = Ret (true, p, wfd') ∧
    ∃ n l q rfd', reads n (mkShell ($"?????" ++ $"xx") 0 0) [RdData (wr_sent wfd' ++ $"more")] = Ret (l, q, rfd') ∧
      length l = n ∧ concat (snd <$> l) = $"hello" ∧ available rfd' = $"more".
Proof.
  destruct (shell_packet_roundtrip $"?????" $"hello" $"rest" kIdStdout (mkWrFd [WrTake 3; WrTake 9] []) 0 0 $"?????" $"xx" 0
    [RdData ((header_of 1 5 ++ $"hello") ++ $"more")] $"more") as (ok & p & wfd' & Hw & Hr).
  - reflexivity.
  - reflexivity.
  - reflexivity.
  - split; [discriminate|reflexivity].
  - reflexivity.
  - reflexivity.
  - assert (Hc : Ret (ok, p, wfd') = Ret (true, mkShell (header_of 1 5 ++ $"hellorest") 0 0, mkWrFd [] (header_of 1 5 ++ $"hello"))).
    { rewrite <-Hw. vm_compute. reflexivity. }
    injection Hc as -> -> ->. eexists _, _. split; [exact Hw|]. destruct (Hr eq_refl) as (n & l & q & rfd' & H1 & H2 & _ & _ & _ & H3 & _ & H4).
    + reflexivity.
    + exists n, l, q, rfd'. repeat (split; [assumption|]). assumption.
Defined.
