(* ===== verification/Jstring.v ===== *)
(** * UTF-8 and UTF-16 strings
    (src/lib/libcutils/strdup8to16.c, strdup16to8.c)

    The conversions between Java's modified UTF-8 and UTF-16.  A [const char*]
    is the list of its bytes before the terminating NUL (or, for the function
    that takes a length, of all bytes of the buffer); UTF-16 units are numbers
    below 2^16. *)

From Stdlib Require Import ZArith Lia List Ascii String.
From stdpp Require Import base numbers list strings.
From S2P Require Import Prelude.
From S2P Require Import Libc.
From S2P Require Import Strings.

Abbreviation units := (list Z).
Definition u16 (z : Z) : Z := z mod 2 ^ 16.
Definition SIZE_MAX : Z := 2 ^ 64 - 1.

(** The character at the pointer; the one at the end of a string is NUL. *)
Definition at_ptr (s : bytes) : Z := schar (default NUL (head s)).

(** ** strdup16to8.c *)

Definition utf8_bytes (uic : Z) : Z := if 0x07ff <? uic then 3 else if (0x7f <? uic) || (uic =? 0) then 2 else 1.

Fixpoint strnlen_fast (s : units) (utf8Len : Z) : Z :=
  match s with [] => utf8Len | uic :: s => strnlen_fast s (u64 (utf8Len + utf8_bytes uic)) end.
(** The paranoid loop: [SIZE_MAX-1] on overflow. *)
Fixpoint strnlen_slow (s : units) (utf8Len : Z) : Z :=
  match s with
  | [] => if utf8Len =? SIZE_MAX then SIZE_MAX - 1 else utf8Len
  | uic :: s =>
      let utf8Cur := utf8Len in
      let utf8Len := u64 (utf8Len + utf8_bytes uic) in
      if utf8Len <? utf8Cur then SIZE_MAX - 1 else strnlen_slow s utf8Len
  end.
Definition strnlen16to8 (s : units) : Z :=
  if zlen s <? (SIZE_MAX - 1) / 3 then strnlen_fast s 0 else strnlen_slow s 0.

(** What is written, the terminating NUL included. *)
Fixpoint strncpy16to8 (s : units) : bytes :=
  match s with
  | [] => [NUL]
  | uic :: s =>
      if 0x07ff <? uic then
        of_cval (Z.lor (Z.shiftr uic 12) 0xe0) :: of_cval (Z.lor (Z.land (Z.shiftr uic 6) 0x3f) 0x80) ::
        of_cval (Z.lor (Z.land uic 0x3f) 0x80) :: strncpy16to8 s
      else if (0x7f <? uic) || (uic =? 0) then
        of_cval (Z.lor (Z.shiftr uic 6) 0xc0) :: of_cval (Z.lor (Z.land uic 0x3f) 0x80) :: strncpy16to8 s
      else
        of_cval uic :: (if uic =? 0 then [NUL] else strncpy16to8 s)
  end.

(** A null pointer is [None]; [malloc] fails or returns the bytes asked for,
    and writing past them is undefined. *)
Definition strndup16to8 (malloc : Z → bool) (s : option units) : outcome (option bytes) :=
  match s with
  | None => Ret None
  | Some s =>
      let len := strnlen16to8 s in
      if SIZE_MAX - 1 <=? len then Ret None
      else if negb (malloc (len + 1)) then Ret None
      else
        CHECK (zlen (strncpy16to8 s) <=? len + 1) "heap overflow" ;;
        Ret (Some (strncpy16to8 s))
  end.

(** ** strdup8to16.c *)

Definition UTF16_REPLACEMENT_CHAR : Z := 0xfffd.
Definition UNICODE_UPPER_LIMIT : Z := 0x10fffd.
Definition UTF8_SEQ_LENGTH (ch : Z) : Z := Z.land (Z.shiftr 0xe5000000 (Z.land (Z.shiftr ch 3) 0x1e)) 3 + 1.
Definition UTF8_SHIFT_AND_MASK (unicode byte : Z) : Z := Z.lor (u32 (Z.shiftl unicode 6)) (Z.land 0x3f byte).

(** A byte that starts with the bits 10. *)
Definition extension (ic : Z) : bool := Z.land ic 0xc0 =? 0x80.

Fixpoint strlen8to16_from (s : bytes) (len expected : Z) : Z :=
  match s with
  | [] => len
  | c :: s =>
      let ic := schar c in
      if ic =? 0 then len
      else if extension ic then
        let expected := s32 (expected - 1) in
        strlen8to16_from s (if expected <? 0 then u64 (len + 1) else len) expected
      else
        let len := u64 (len + 1) in
        let expected := UTF8_SEQ_LENGTH ic - 1 in
        strlen8to16_from s (if expected =? 3 then u64 (len + 1) else len) expected
  end.
Definition strlen8to16 (s : bytes) : Z := strlen8to16_from s 0 0.

(** [static const char leaderMask]. *)
Definition leaderMask : list Z := [-1; 0x1f; 0x0f; 0x07].

(** The [for] loop over [n] more bytes: the value, or the replacement character,
    and where the pointer is then. *)
Fixpoint utf32_rest (n : nat) (s : bytes) (ret : Z) : Z * bytes :=
  match n with
  | O => (ret, s)
  | S n =>
      let c := at_ptr s in
      if c =? 0 then (UTF16_REPLACEMENT_CHAR, s)
      else if negb (extension c) then (UTF16_REPLACEMENT_CHAR, s)
      else utf32_rest n (tail s) (UTF8_SHIFT_AND_MASK ret c)
  end.

Definition getUtf32FromUtf8 (s : bytes) : Z * bytes :=
  let c := at_ptr s in
  if extension c then (UTF16_REPLACEMENT_CHAR, tail s)
  else
    let seq_len := UTF8_SEQ_LENGTH c in
    let ret := u32 (Z.land c (nth (Z.to_nat (seq_len - 1)) leaderMask 0)) in
    if c =? 0 then (ret, s) else utf32_rest (Z.to_nat (seq_len - 1)) (tail s) ret.

(** The units stored for one character. *)
Definition utf16_units (ret : Z) : units :=
  if ret <=? 0xffff then [u16 ret]
  else if ret <=? UNICODE_UPPER_LIMIT then
    [u16 (Z.lor 0xd800 (Z.shiftr (ret - 0x10000) 10)); u16 (Z.lor 0xdc00 (Z.land (ret - 0x10000) 0x3ff))]
  else [UTF16_REPLACEMENT_CHAR].

(** The loops; a round advances, unless it is at a NUL. *)
Fixpoint strcpy8to16_loop (fuel : nat) (s : bytes) : outcome units :=
  if at_ptr s =? 0 then Ret []
  else
    match fuel with
    | O => Abort "out of fuel"
    | S fuel => let '(ret, s) := getUtf32FromUtf8 s in out ← strcpy8to16_loop fuel s; Ret (utf16_units ret ++ out)
    end.
Definition strcpy8to16 (s : bytes) : outcome units := strcpy8to16_loop (length s) s.

(** [end_ - utf8Str] is what is left of [length]. *)
Fixpoint strcpylen8to16_loop (fuel : nat) (s : bytes) (left : Z) : outcome units :=
  if left <=? 0 then Ret []
  else
    match fuel with
    | O => Abort "out of fuel"
    | S fuel =>
        let '(ret, s') := getUtf32FromUtf8 s in
        out ← strcpylen8to16_loop fuel s' (left - (zlen s - zlen s')); Ret (utf16_units ret ++ out)
    end.

(** The result of [malloc] is not looked at. *)
Definition strdup8to16 (malloc : Z → bool) (s : option bytes) : outcome (option units) :=
  match s with
  | None => Ret None
  | Some s =>
      let len := strlen8to16 s in
      if negb (len =? 0) && (SIZE_MAX / len <? 2) then Ret None
      else
        out ← strcpy8to16 s;
        if malloc (2 * len) then CHECK (2 * zlen out <=? 2 * len) "heap overflow" ;; Ret (Some out)
        else CHECK (bool_decide (out = [])) "null pointer" ;; Ret None
  end.

Example convert_ex :
  strcpy8to16 ($"a" ++ (of_cval <$> [0xc3; 0xa9; 0xf0; 0x9f; 0x98; 0x80; 0x80])) = Ret [97; 0xe9; 0xd83d; 0xde00; 0xfffd] ∧
  strlen8to16 ($"a" ++ (of_cval <$> [0xc3; 0xa9; 0xf0; 0x9f; 0x98; 0x80; 0x80])) = 5 ∧ strncpy16to8 [97; 0; 0xe9] = of_cval <$> [97; 0xc0; 0x80; 0xc3; 0xa9; 0].
Proof. by vm_compute. Qed.

(** ** Bytes *)

Lemma byte_all (P : ascii → bool) :
  forallb (λ n, P (ascii_of_nat n)) (seq 0 256) = true → ∀ c, P c = true.
Proof.
  intros H c. rewrite forallb_forall in H. rewrite <-(ascii_nat_embedding c). apply H. apply in_seq.
  pose proof (nat_ascii_bounded c). lia.
Qed.

(** Every byte: what the loops ask of it. *)
Lemma extension_cval c : extension (schar c) = (128 <=? cval c) && (cval c <? 192).
Proof. apply eqb_prop. revert c. apply byte_all. by vm_compute. Qed.
Lemma schar_zero c : (schar c =? 0) = (cval c =? 0).
Proof. apply eqb_prop. revert c. apply byte_all. by vm_compute. Qed.
Lemma seq_length_cval c :
  UTF8_SEQ_LENGTH (schar c) = (if cval c <? 192 then 1 else if cval c <? 224 then 2 else if cval c <? 240 then 3 else 4).
Proof. apply Z.eqb_eq. revert c. apply byte_all. by vm_compute. Qed.
Lemma low_bits c : Z.land 0x3f (schar c) = cval c mod 64.
Proof. apply Z.eqb_eq. revert c. apply byte_all. by vm_compute. Qed.
Lemma leader_bits c :
  cval c < 128 ∨ 192 ≤ cval c →
  u32 (Z.land (schar c) (nth (Z.to_nat (UTF8_SEQ_LENGTH (schar c) - 1)) leaderMask 0)) =
    if cval c <? 128 then cval c else if cval c <? 224 then cval c mod 32 else if cval c <? 240 then cval c mod 16 else cval c mod 8.
Proof.
  intros Hc. assert (H : ((128 <=? cval c) && (cval c <? 192) || (u32 (Z.land (schar c) (nth (Z.to_nat (UTF8_SEQ_LENGTH (schar c) - 1)) leaderMask 0)) =?
    if cval c <? 128 then cval c else if cval c <? 224 then cval c mod 32 else if cval c <? 240 then cval c mod 16 else cval c mod 8)) = true).
  { clear Hc. revert c. apply byte_all. by vm_compute. }
  apply orb_prop in H as [H|H]; reflect_Z; [lia|done].
Qed.

Lemma shift_and_mask r c : 0 ≤ r < 2 ^ 26 → UTF8_SHIFT_AND_MASK r (schar c) = r * 64 + cval c mod 64.
Proof.
  intros Hr. unfold UTF8_SHIFT_AND_MASK. rewrite low_bits. rewrite u32_small by (rewrite Z.shiftl_mul_pow2 by lia; lia).
  apply (lor_disjoint r 6); [lia|]. apply Z.mod_pos_bound. lia.
Qed.

(** The tags in front of a few bits. *)
Lemma tag_bits tag n x :
  (tag = 0x80 ∧ n = 64) ∨ (tag = 0xc0 ∧ n = 32) ∨ (tag = 0xe0 ∧ n = 16) → 0 ≤ x < n → cval (of_cval (Z.lor x tag)) = tag + x.
Proof.
  intros Ht Hx. assert (Z.lor x tag = tag + x) as ->.
  { rewrite Z.lor_comm. destruct Ht as [[-> ->]|[[-> ->]|[-> ->]]].
    - apply (lor_disjoint 2 6 x); lia.
    - apply (lor_disjoint 6 5 x); lia.
    - apply (lor_disjoint 14 4 x); lia. }
  rewrite cval_of_cval, Z.mod_small by lia. done.
Qed.

(** ** One character *)

Lemma rest_step n c s ret :
  128 ≤ cval c < 192 → 0 ≤ ret < 2 ^ 26 → utf32_rest (S n) (c :: s) ret = utf32_rest n s (ret * 64 + cval c mod 64).
Proof.
  intros Hc Hr. cbn [utf32_rest]. unfold at_ptr. cbn [head default tail from_option id]. rewrite schar_zero, extension_cval.
  rewrite (proj2 (Z.eqb_neq _ _)), (proj2 (Z.leb_le _ _)), (proj2 (Z.ltb_lt _ _)) by lia. cbn [andb negb]. by rewrite shift_and_mask.
Qed.

Definition cclass (c : ascii) : Z := if cval c <? 192 then 1 else if cval c <? 224 then 2 else if cval c <? 240 then 3 else 4.

(** The first byte of a character. *)
Lemma get_lead c s :
  0 < cval c → cval c < 128 ∨ 192 ≤ cval c →
  getUtf32FromUtf8 (c :: s) = utf32_rest (Z.to_nat (cclass c - 1)) s
    (if cval c <? 128 then cval c else if cval c <? 224 then cval c mod 32 else if cval c <? 240 then cval c mod 16 else cval c mod 8).
Proof.
  intros H0 Hc. unfold getUtf32FromUtf8, at_ptr. cbn [head default tail from_option id]. rewrite extension_cval, leader_bits by done.
  replace ((128 <=? cval c) && (cval c <? 192)) with false.
  2:{ symmetry. destruct (Z.leb_spec 128 (cval c)), (Z.ltb_spec (cval c) 192); try done; lia. }
  rewrite schar_zero, (proj2 (Z.eqb_neq _ _)) by lia. by rewrite seq_length_cval.
Qed.

Definition unit_ok (x : Z) : Prop := 0 ≤ x < 2 ^ 16.

(** The bytes of one unit. *)
Definition encode (uic : Z) : bytes :=
  if 0x07ff <? uic then
    [of_cval (Z.lor (Z.shiftr uic 12) 0xe0); of_cval (Z.lor (Z.land (Z.shiftr uic 6) 0x3f) 0x80); of_cval (Z.lor (Z.land uic 0x3f) 0x80)]
  else if (0x7f <? uic) || (uic =? 0) then [of_cval (Z.lor (Z.shiftr uic 6) 0xc0); of_cval (Z.lor (Z.land uic 0x3f) 0x80)]
  else [of_cval uic].

Lemma strncpy_cons u s : strncpy16to8 (u :: s) = encode u ++ strncpy16to8 s.
Proof.
  cbn [strncpy16to8]. unfold encode. destruct (0x07ff <? u); [done|]. destruct (Z.ltb_spec 0x7f u), (Z.eqb_spec u 0); cbn [orb]; done.
Qed.

(** What the bytes of a unit are. *)
Lemma encode_cvals u : unit_ok u →
  cval <$> encode u =
    if 0x07ff <? u then [224 + u / 4096; 128 + u / 64 mod 64; 128 + u mod 64]
    else if (0x7f <? u) || (u =? 0) then [192 + u / 64; 128 + u mod 64] else [u].
Proof.
  intros Hu. unfold unit_ok in Hu. unfold encode. change 0x3f with (Z.ones 6). rewrite !Z.land_ones, !Z.shiftr_div_pow2 by lia.
  change (2 ^ 6) with 64. change (2 ^ 12) with 4096.
  assert (0 ≤ u mod 64 < 64) by (apply Z.mod_pos_bound; lia). assert (0 ≤ u / 64 mod 64 < 64) by (apply Z.mod_pos_bound; lia).
  pose proof (Z.div_mod u 64). pose proof (Z.div_mod u 4096). pose proof (Z.mod_pos_bound u 4096).
  destruct (Z.ltb_spec 0x07ff u); [|destruct (_ || _)%bool eqn:E]; cbn [fmap list_fmap].
  - rewrite (tag_bits 0xe0 16), !(tag_bits 0x80 64) by lia. done.
  - rewrite (tag_bits 0xc0 32), (tag_bits 0x80 64) by lia. done.
  - apply orb_false_iff in E as [E1 E2]. reflect_Z. rewrite cval_of_cval, Z.mod_small by lia. done.
Qed.

Lemma tag_mod k n x : 0 ≤ x < n → (k * n + x) mod n = x.
Proof. intros Hx. rewrite Z.add_comm, Z_mod_plus_full. by apply Z.mod_small. Qed.

Lemma decode_encode u s : unit_ok u → getUtf32FromUtf8 (encode u ++ s) = (u, s).
Proof.
  intros Hu. pose proof (encode_cvals u Hu) as He. unfold unit_ok in Hu.
  assert (0 ≤ u mod 64 < 64) by (apply Z.mod_pos_bound; lia). assert (0 ≤ u / 64 mod 64 < 64) by (apply Z.mod_pos_bound; lia).
  pose proof (Z.div_mod u 64 ltac:(lia)). pose proof (Z.div_mod (u / 64) 64 ltac:(lia)). pose proof (Z.div_mod u 4096 ltac:(lia)). pose proof (Z.mod_pos_bound u 4096 ltac:(lia)).
  assert (Hdd : u / 4096 = u / 64 / 64) by (rewrite Z.div_div by lia; done).
  destruct (Z.ltb_spec 0x07ff u) as [Hbig|Hbig]; [|destruct (_ || _)%bool eqn:E].
  - destruct (encode u) as [|a [|b [|c [|]]]]; try done. injection He as Ha Hb Hc. cbn [app].
    assert (u / 4096 < 16) by lia.
    rewrite get_lead by lia. unfold cclass. rewrite Ha, (proj2 (Z.ltb_ge _ 192)), (proj2 (Z.ltb_ge _ 224)), (proj2 (Z.ltb_lt _ 240)), (proj2 (Z.ltb_ge _ 128)) by lia.
    change (Z.to_nat (3 - 1)) with 2%nat. rewrite (tag_mod 14 16) by lia.
    rewrite rest_step by lia. rewrite Hb, (tag_mod 2 64) by lia. rewrite rest_step by lia. cbn [utf32_rest]. rewrite Hc, (tag_mod 2 64) by lia. f_equal. lia.
  - destruct (encode u) as [|a [|b [|]]]; try done. injection He as Ha Hb. cbn [app].
    assert (u / 64 < 32) by lia.
    rewrite get_lead by lia. unfold cclass. rewrite Ha, (proj2 (Z.ltb_ge _ 192)), (proj2 (Z.ltb_lt _ 224)), (proj2 (Z.ltb_ge _ 128)) by lia.
    change (Z.to_nat (2 - 1)) with 1%nat. rewrite (tag_mod 6 32) by lia.
    rewrite rest_step by lia. cbn [utf32_rest]. rewrite Hb, (tag_mod 2 64) by lia. f_equal. lia.
  - destruct (encode u) as [|a [|]]; try done. injection He as Ha. cbn [app]. apply orb_false_iff in E as [E1 E2]. reflect_Z.
    rewrite get_lead by lia. unfold cclass. rewrite Ha, (proj2 (Z.ltb_lt _ 192)), (proj2 (Z.ltb_lt _ 128)) by lia. done.
Qed.

(** ** Strings *)

Definition encode_all (s : units) : bytes := concat (encode <$> s).
Fixpoint total_bytes (s : units) : Z := match s with [] => 0 | u :: s => utf8_bytes u + total_bytes s end.

Lemma strncpy_all s : strncpy16to8 s = encode_all s ++ [NUL].
Proof. induction s as [|u s IH]; [done|]. rewrite strncpy_cons, IH. unfold encode_all. cbn. by rewrite <-app_assoc. Qed.

Lemma encode_length u : unit_ok u → zlen (encode u) = utf8_bytes u.
Proof.
  intros Hu. pose proof (encode_cvals u Hu) as He. assert (zlen (cval <$> encode u) = utf8_bytes u) as <-; [|by rewrite zlen_fmap].
  rewrite He. unfold utf8_bytes. destruct (_ <? _); [done|]. by destruct (_ || _)%bool.
Qed.

Lemma encode_first u : unit_ok u → ∃ c l, encode u = c :: l ∧ 0 < cval c.
Proof.
  intros Hu. pose proof (encode_cvals u Hu) as He. unfold unit_ok in Hu. assert (0 ≤ u / 64) by (apply Z.div_pos; lia). assert (0 ≤ u / 4096) by (apply Z.div_pos; lia).
  destruct (0x07ff <? u); [|destruct (_ || _)%bool eqn:E]; destruct (encode u) as [|c l]; try done; injection He as Hc _; exists c, l; split; try done; try lia.
Qed.

Lemma encode_nul_free u : unit_ok u → nul_free (encode u).
Proof.
  intros Hu Hin. pose proof (encode_cvals u Hu) as He. unfold unit_ok in Hu.
  assert (Hz : 0 ∈ cval <$> encode u) by (apply list_elem_of_fmap; by exists NUL). rewrite He in Hz.
  assert (0 ≤ u / 64) by (apply Z.div_pos; lia). assert (0 ≤ u / 4096) by (apply Z.div_pos; lia).
  assert (0 ≤ u mod 64) by (apply Z.mod_pos_bound; lia). assert (0 ≤ u / 64 mod 64) by (apply Z.mod_pos_bound; lia).
  destruct (0x07ff <? u); [|destruct (_ || _)%bool eqn:E]; rewrite ?elem_of_cons, ?elem_of_nil in Hz.
  - destruct Hz as [?|[?|[?|[]]]]; lia.
  - destruct Hz as [?|[?|[]]]; lia.
  - apply orb_false_iff in E as [? ?]. reflect_Z. destruct Hz as [?|[]]. lia.
Qed.

Lemma utf16_unit u : unit_ok u → utf16_units u = [u].
Proof. intros Hu. unfold unit_ok in Hu. unfold utf16_units, u16. rewrite (proj2 (Z.leb_le _ _)), Z.mod_small by lia. done. Qed.

Lemma strcpy_encode_all s fuel : Forall unit_ok s → (length (encode_all s) ≤ fuel)%nat → strcpy8to16_loop fuel (encode_all s) = Ret s.
Proof.
  revert fuel. induction s as [|u s IH]; intros fuel Hs Hf; [by destruct fuel|]. apply Forall_cons in Hs as [Hu Hs].
  change (encode_all (u :: s)) with (encode u ++ encode_all s) in *. destruct (encode_first u Hu) as (c & l & Hc & Hpos).
  rewrite length_app, Hc in Hf. cbn [length] in Hf. destruct fuel as [|fuel]; [lia|]. cbn [strcpy8to16_loop].
  replace (at_ptr (encode u ++ encode_all s) =? 0) with false.
  2:{ rewrite Hc. unfold at_ptr. cbn [app head default from_option id]. by rewrite schar_zero, (proj2 (Z.eqb_neq _ _)) by lia. }
  rewrite decode_encode by done. rewrite IH by (done || lia). cbn [mbind outcome_bind]. by rewrite utf16_unit.
Qed.

Lemma utf8_bytes_range u : 1 ≤ utf8_bytes u ≤ 3.
Proof. unfold utf8_bytes. destruct (_ <? _); [lia|]. destruct (_ || _)%bool; lia. Qed.

Lemma total_range s : 0 ≤ total_bytes s ≤ 3 * zlen s.
Proof. induction s as [|u s IH]; cbn; [done|]. rewrite zlen_cons. pose proof (utf8_bytes_range u). lia. Qed.

Lemma encode_all_length s : Forall unit_ok s → zlen (encode_all s) = total_bytes s.
Proof.
  induction 1 as [|u s Hu _ IH]; [done|]. change (encode_all (u :: s)) with (encode u ++ encode_all s). cbn [total_bytes].
  rewrite zlen_app, IH, encode_length by done. done.
Qed.

Lemma strnlen_fast_total s acc : 0 ≤ acc → acc + 3 * zlen s < 2 ^ 64 → strnlen_fast s acc = acc + total_bytes s.
Proof.
  revert acc. induction s as [|u s IH]; intros acc Ha Hl; cbn [strnlen_fast total_bytes]; [lia|]. rewrite zlen_cons in Hl.
  pose proof (utf8_bytes_range u). pose proof (zlen_nonneg s). rewrite u64_small by lia. rewrite IH by lia. lia.
Qed.

Lemma encode_all_nul_free s : Forall unit_ok s → nul_free (encode_all s).
Proof.
  induction 1 as [|u s Hu _ IH]; [apply not_elem_of_nil|]. change (encode_all (u :: s)) with (encode u ++ encode_all s).
  apply nul_free_app. split; [by apply encode_nul_free|done].
Qed.

(** C25: UTF-16 survives modified UTF-8.  For any units at all, zeros and unpaired
    surrogates included, [strndup16to8] allocates exactly what it writes, a string
    without inner NULs, and [strcpy8to16] turns that string back into the units;
    [strndup16to8] fails only when [malloc] does. *)
Theorem jstring_roundtrip s malloc :
  Forall unit_ok s → zlen s < (SIZE_MAX - 1) / 3 →
  ∃ t, strnlen16to8 s = zlen t ∧ nul_free t ∧ strcpy8to16 t = Ret s ∧
    strndup16to8 malloc (Some s) = Ret (if malloc (zlen t + 1) then Some (t ++ [NUL]) else None).
Proof.
  intros Hs Hlen. exists (encode_all s). pose proof (total_range s) as Ht. pose proof (encode_all_length s Hs) as Hl.
  assert (H3 : 3 * zlen s < 2 ^ 64 - 2). { unfold SIZE_MAX in Hlen. pose proof (Z.mul_div_le (2 ^ 64 - 1 - 1) 3). lia. }
  assert (Hn : strnlen16to8 s = zlen (encode_all s)).
  { unfold strnlen16to8. rewrite (proj2 (Z.ltb_lt _ _)) by done. rewrite strnlen_fast_total by lia. lia. }
  split_and!; [done|by apply encode_all_nul_free|by apply strcpy_encode_all|].
  unfold strndup16to8. rewrite Hn, strncpy_all. rewrite (proj2 (Z.leb_gt _ _)) by (unfold SIZE_MAX; lia).
  destruct (malloc _); cbn [negb]; [|done]. rewrite zlen_app. change (zlen [NUL]) with 1. rewrite Z.leb_refl. done.
Qed.

Lemma jstring_roundtrip_witness :
  ∃ t, strnlen16to8 [0; 0xd800; 65] = zlen t ∧ nul_free t ∧ strcpy8to16 t = Ret [0; 0xd800; 65].
Proof.
  destruct (jstring_roundtrip [0; 0xd800; 65] (λ _, true)) as (t & H1 & H2 & H3 & _).
  - repeat apply Forall_cons_2; try apply Forall_nil_2; (split; [discriminate|reflexivity]).
  - reflexivity.
  - exists t. split; [exact H1|]. split; [exact H2|exact H3].
Defined.

(** ** The length that is allocated *)

(** What [strlen8to16] adds for [s], with [e] extension bytes expected. *)
Fixpoint counted (s : bytes) (e : Z) : Z :=
  match s with
  | [] => 0
  | c :: s =>
      if extension (schar c) then (if e <=? 0 then 1 else 0) + counted s (e - 1)
      else (if UTF8_SEQ_LENGTH (schar c) =? 4 then 2 else 1) + counted s (UTF8_SEQ_LENGTH (schar c) - 1)
  end.

Lemma seq_length_range c : 1 ≤ UTF8_SEQ_LENGTH (schar c) ≤ 4.
Proof. rewrite seq_length_cval. repeat case_match; lia. Qed.

Lemma nul_free_schar c s : nul_free (c :: s) → (schar c =? 0) = false ∧ nul_free s.
Proof.
  intros Hn. split; [|intros Hin; apply Hn; by apply list_elem_of_further]. rewrite schar_zero. apply Z.eqb_neq.
  intros Hz. apply Hn. assert (c = NUL) as -> by (by apply cval_inj). apply list_elem_of_here.
Qed.

Lemma strlen_count s len e :
  nul_free s → 0 ≤ len → len + 2 * zlen s < 2 ^ 64 → zlen s < 2 ^ 31 → - 2 ^ 31 + zlen s ≤ e ≤ 3 → strlen8to16_from s len e = len + counted s e.
Proof.
  revert len e. induction s as [|c s IH]; intros len e Hn Hl Hb Hs He; cbn [strlen8to16_from counted]; [lia|].
  apply nul_free_schar in Hn as [-> Hn]. rewrite zlen_cons in Hb, Hs, He. pose proof (zlen_nonneg s).
  destruct (extension (schar c)).
  - rewrite s32_small by lia. destruct (Z.leb_spec e 0).
    + rewrite (proj2 (Z.ltb_lt _ _)), u64_small by lia. rewrite IH by (done || lia). lia.
    + rewrite (proj2 (Z.ltb_ge _ _)) by lia. rewrite IH by (done || lia). lia.
  - pose proof (seq_length_range c). rewrite (u64_small (len + 1)) by lia. destruct (Z.eqb_spec (UTF8_SEQ_LENGTH (schar c)) 4) as [E|E].
    + rewrite E. change (4 - 1 =? 3) with true. rewrite (u64_small (len + 1 + 1)) by lia. rewrite IH by (done || lia). lia.
    + rewrite (proj2 (Z.eqb_neq _ 3)) by lia. rewrite IH by (done || lia). lia.
Qed.

(** Where no extension byte comes next, what is expected does not matter. *)
Lemma counted_lead s e e' : match s with c :: _ => extension (schar c) = false | [] => True end → counted s e = counted s e'.
Proof. destruct s as [|c s]; [done|]. cbn [counted]. by intros ->. Qed.

Lemma counted_unexpected s e e' : e ≤ 0 → e' ≤ 0 → counted s e = counted s e'.
Proof.
  revert e e'. induction s as [|c s IH]; intros e e' He He'; [done|]. cbn [counted]. destruct (extension (schar c)); [|done].
  rewrite (proj2 (Z.leb_le _ _)), (proj2 (Z.leb_le e' _)) by done. f_equal. apply IH; lia.
Qed.

Lemma counted_nonneg s e : 0 ≤ counted s e.
Proof.
  revert e. induction s as [|c s IH]; intros e; cbn [counted]; [done|]. pose proof (IH (e - 1)). pose proof (IH (UTF8_SEQ_LENGTH (schar c) - 1)).
  repeat case_match; lia.
Qed.

Lemma counted_le s e : counted s e ≤ 2 * zlen s.
Proof.
  revert e. induction s as [|c s IH]; intros e; cbn [counted]; [done|]. rewrite zlen_cons. pose proof (IH (e - 1)). pose proof (IH (UTF8_SEQ_LENGTH (schar c) - 1)).
  repeat case_match; lia.
Qed.

(** The loop stops where a new character starts, or at an extension byte that the
    count does not expect either. *)
Lemma rest_fits n s ret r s' :
  nul_free s → 0 ≤ ret < 2 ^ 32 → utf32_rest n s ret = (r, s') →
  (∃ k, s' = drop k s) ∧ counted s' 0 ≤ counted s (Z.of_nat n) ∧ ((ret + 1) * 64 ^ Z.of_nat n ≤ 2 ^ 16 → r < 2 ^ 16).
Proof.
  revert s ret. induction n as [|n IH]; intros s ret Hn Hr H; cbn [utf32_rest] in H.
  { injection H as <- <-. split; [by exists 0%nat|]. split; [done|]. rewrite Z.pow_0_r. lia. }
  destruct s as [|c s]; unfold at_ptr in H; cbn [head default tail from_option id] in H.
  { injection H as <- <-. split; [by exists 0%nat|]. split; [done|]. intros _. done. }
  apply nul_free_schar in Hn as [Hz Hn]. rewrite Hz in H. destruct (extension (schar c)) eqn:Ex; cbn [negb] in H.
  2:{ injection H as <- <-. split; [by exists 0%nat|]. split; [|done]. apply Z.eq_le_incl. by apply counted_lead. }
  assert (Hlt : 0 ≤ UTF8_SHIFT_AND_MASK ret (schar c) < 2 ^ 32).
  { unfold UTF8_SHIFT_AND_MASK. rewrite low_bits. pose proof (Z.mod_pos_bound (cval c) 64 ltac:(lia)).
    assert (0 ≤ u32 (Z.shiftl ret 6) < 2 ^ 32) by (apply Z.mod_pos_bound; lia).
    split; [apply Z.lor_nonneg; lia|]. destruct (decide (Z.lor (u32 (Z.shiftl ret 6)) (cval c mod 64) = 0)) as [->|Hnz]; [lia|].
    apply Z.log2_lt_cancel. rewrite Z.log2_lor by lia. apply Z.max_lub_lt.
    - destruct (decide (u32 (Z.shiftl ret 6) = 0)) as [->|]; [done|]. rewrite (Z.log2_pow2 32) by lia. apply Z.log2_lt_pow2; lia.
    - destruct (decide (cval c mod 64 = 0)) as [->|]; [done|]. rewrite (Z.log2_pow2 32) by lia. apply Z.log2_lt_pow2; lia. }
  destruct (IH s _ Hn Hlt H) as ((k & ->) & Hc & Hb). split; [by exists (S k)|]. split.
  - cbn [counted]. rewrite Ex, (proj2 (Z.leb_gt _ _)) by lia. replace (Z.of_nat (S n) - 1) with (Z.of_nat n) by lia. lia.
  - intros Hp. apply Hb. rewrite Nat2Z.inj_succ, Z.pow_succ_r in Hp by lia. assert (1 ≤ 64 ^ Z.of_nat n) by (apply (Z.pow_le_mono_r 64 0); lia).
    assert (ret < 2 ^ 26) by nia. rewrite shift_and_mask by lia. pose proof (Z.mod_pos_bound (cval c) 64 ltac:(lia)). nia.
Qed.

Lemma utf16_units_length r : zlen (utf16_units r) ≤ 2 ∧ (r < 2 ^ 16 → zlen (utf16_units r) = 1).
Proof. unfold utf16_units. split; [by repeat case_match|]. intros H. by rewrite (proj2 (Z.leb_le _ _)) by lia. Qed.

Lemma character_fits c s :
  nul_free (c :: s) →
  ∃ r k, getUtf32FromUtf8 (c :: s) = (r, drop k s) ∧ zlen (utf16_units r) + counted (drop k s) 0 ≤ counted (c :: s) 0.
Proof.
  intros Hn. apply nul_free_schar in Hn as [Hz Hn]. unfold getUtf32FromUtf8, at_ptr. cbn [head default tail from_option id counted].
  rewrite Hz. destruct (extension (schar c)) eqn:Ex.
  - exists UTF16_REPLACEMENT_CHAR, 0%nat. split; [done|]. rewrite drop_0, Z.leb_refl.
    change (zlen (utf16_units UTF16_REPLACEMENT_CHAR)) with 1. cut (counted s 0 = counted s (0 - 1)); [lia|]. by apply counted_unexpected.
  - pose proof (seq_length_range c) as Hsl. pose proof (leader_bits c) as Hlead. rewrite extension_cval in Ex. apply andb_false_iff in Ex as Hcl.
    rewrite !Z.leb_gt, !Z.ltb_ge in Hcl. specialize (Hlead ltac:(lia)). rewrite Hlead. rewrite seq_length_cval in *.
    set (r0 := if cval c <? 128 then _ else _) in *. set (l := if cval c <? 192 then _ else _) in *.
    pose proof (Z.mod_pos_bound (cval c) 32 ltac:(lia)). pose proof (Z.mod_pos_bound (cval c) 16 ltac:(lia)). pose proof (Z.mod_pos_bound (cval c) 8 ltac:(lia)).
    pose proof (cval_range c). assert (Hr0 : 0 ≤ r0 < 2 ^ 32) by (unfold r0; repeat case_match; lia).
    destruct (utf32_rest (Z.to_nat (l - 1)) s r0) as [r s'] eqn:E. destruct (rest_fits _ _ _ _ _ Hn Hr0 E) as ((k & ->) & Hc & Hb).
    exists r, k. split; [done|]. rewrite Z2Nat.id in * by lia. destruct (utf16_units_length r) as [Hu1 Hu2].
    destruct (Z.eqb_spec l 4) as [|Hl]; [lia|]. assert (r < 2 ^ 16) as Hr; [|specialize (Hu2 Hr); lia].
    apply Hb. unfold l, r0 in *. revert Hl. repeat case_match; reflect_Z; cbn; lia.
Qed.

Lemma loop_fits fuel s :
  nul_free s → (length s ≤ fuel)%nat → ∃ out, strcpy8to16_loop fuel s = Ret out ∧ zlen out ≤ counted s 0.
Proof.
  revert s. induction fuel as [|fuel IH]; intros [|c s] Hn Hf; cbn [length] in Hf; try lia; try by exists [].
  cbn [strcpy8to16_loop]. destruct (character_fits c s Hn) as (r & k & -> & Hc). apply nul_free_schar in Hn as [Hz Hn].
  change (at_ptr (c :: s)) with (schar c). rewrite Hz.
  destruct (IH (drop k s)) as (out & -> & Ho); [by apply nul_free_drop|rewrite length_drop; lia|].
  cbn [mbind outcome_bind]. eexists. split; [done|]. rewrite zlen_app. lia.
Qed.

(** The buffer that [strdup8to16] allocates is large enough.  For every string
    below 2 GiB, well-formed or not, the conversion comes to the end, writes at most
    the [strlen8to16] units that were counted, which are at most two for a byte,
    and with a buffer [strdup8to16] returns what was written; without one it writes
    through the null pointer, unless the string is empty. *)
Theorem strdup8to16_fits s malloc :
  nul_free s → zlen s < 2 ^ 31 →
  ∃ out, strcpy8to16 s = Ret out ∧ zlen out ≤ strlen8to16 s ≤ 2 * zlen s ∧
    strdup8to16 malloc (Some s) =
      if malloc (2 * strlen8to16 s) then Ret (Some out) else if bool_decide (out = []) then Ret None else Abort "null pointer".
Proof.
  intros Hn Hl. destruct (loop_fits (length s) s Hn (le_n _)) as (out & Hr & Ho). pose proof (zlen_nonneg s).
  assert (Hc : strlen8to16 s = counted s 0) by (unfold strlen8to16; rewrite strlen_count by (done || lia); lia).
  pose proof (counted_le s 0) as Hle. pose proof (counted_nonneg s 0). exists out. rewrite Hc. split; [exact Hr|]. split; [lia|].
  unfold strdup8to16. rewrite Hc. unfold strcpy8to16. rewrite Hr. cbn [mbind outcome_bind].
  replace (negb (counted s 0 =? 0) && (SIZE_MAX / counted s 0 <? 2)) with false.
  - destruct (malloc _); [rewrite (proj2 (Z.leb_le _ _)) by lia; done|]. by destruct (bool_decide (out = [])).
  - symmetry. apply andb_false_iff. destruct (Z.eqb_spec (counted s 0) 0); [by left|]. right. apply Z.ltb_ge. unfold SIZE_MAX.
    apply Z.div_le_lower_bound; lia.
Qed.

Lemma strdup8to16_fits_witness :
  let s := of_cval <$> [0xf0; 0x9f; 0x98; 0x80; 0x80; 0xe2; 65] in
  ∃ out, strcpy8to16 s = Ret out ∧ zlen out ≤ strlen8to16 s ≤ 2 * zlen s ∧ strdup8to16 (λ n, n <=? 10) (Some s) = Ret (Some out).
Proof.
  intros s. destruct (strdup8to16_fits s (λ n, n <=? 10)) as (out & H1 & H2 & H3).
  - apply (bool_decide_unpack _). vm_compute. exact I.
  - reflexivity.
  - exists out. split; [exact H1|]. split; [exact H2|exact H3].
Defined.

(** The same loop with a length instead of a terminator does not pass a NUL: it
    is converted again and again, and never comes to the end. *)
Lemma strcpylen8to16_stuck fuel s left : 0 < left → at_ptr s = 0 → strcpylen8to16_loop fuel s left = Abort "out of fuel".
Proof.
  intros Hl Hz. assert (Hg : getUtf32FromUtf8 s = (0, s)) by (unfold getUtf32FromUtf8; rewrite Hz; done).
  induction fuel as [|fuel IH]; cbn [strcpylen8to16_loop]; rewrite (proj2 (Z.leb_gt _ _)) by done; [done|].
  rewrite Hg. replace (left - (zlen s - zlen s)) with left by lia. by rewrite IH.
Qed.
