(* ===== verification/Hashmap.v ===== *)
(** * Hash maps (src/lib/libcutils/hashmap.c)

    Chained hash tables whose keys and values are pointers.  The table grows by
    powers of two; a failed allocation leaves it as it was.  The operations are
    shown to be those of a finite map from what [equals] compares of a key. *)

From Stdlib Require Import ZArith Lia List.
From stdpp Require Import base numbers list gmap fin_maps.
From S2P Require Import Prelude.
From S2P Require Import Libc.

(** ** Hashing *)

(** [hashmapHash]: [*data] is a [char]; the [int] wraps. *)
Fixpoint hash_bytes (h : Z) (data : bytes) : Z :=
  match data with [] => h | c :: data => hash_bytes (s32 (h * 31 + schar c)) data end.
Definition hashmapHash (data : bytes) : Z := hash_bytes (s32 (zlen data)) data.

(** The secondary hash of [hashKey], on the [int] that the client's function gave. *)
Definition spread (h : Z) : Z :=
  let h := s32 (h + Z.lnot (s32 (Z.shiftl h 9))) in
  let h := s32 (Z.lxor (u32 h) (Z.shiftr (u32 h) 14)) in
  let h := s32 (h + s32 (Z.shiftl h 4)) in
  s32 (Z.lxor (u32 h) (Z.shiftr (u32 h) 10)).

(** [bucketCount] is a power of two. *)
Definition calculateIndex (bucketCount hash : Z) : Z := Z.land (u64 hash) (bucketCount - 1).

(** ** The table *)

Section hashmap.
Context {K V C : Type} `{EqDecision K}.
(** The client's functions, and the null pointer. *)
Context (hash : K → Z) (equals : K → K → bool) (null : V).

Record Entry := mkEntry { e_key : K; e_hash : Z; e_value : V }.
Record Hashmap := mkHashmap { buckets : list (list Entry); size : Z }.
Definition bucketCount (m : Hashmap) : Z := Z.of_nat (length (buckets m)).

(** The loop doubles from 1; the shift is of a [size_t]. *)
Fixpoint count_loop (fuel : nat) (count minimum : Z) : option Z :=
  match fuel with
  | O => None
  | S fuel => if count <=? minimum then count_loop fuel (u64 (Z.shiftl count 1)) minimum else Some count
  end.
Definition initial_count (initialCapacity : Z) : option Z := count_loop 64 1 (u64 (initialCapacity * 4) / 3).
(** [memory_ok]: both allocations succeed. *)
Definition hashmapCreate (initialCapacity : Z) (memory_ok : bool) : option Hashmap :=
  count ← initial_count initialCapacity;
  if memory_ok then Some (mkHashmap (replicate (Z.to_nat count) []) 0) else None.

Definition hashKey (key : K) : Z := spread (hash key).

(** [calloc] has memory for the new buckets, or not. *)
Definition move_entry (b : list (list Entry)) (e : Entry) : list (list Entry) :=
  alter (cons e) (Z.to_nat (calculateIndex (Z.of_nat (length b)) (e_hash e))) b.
Definition expandIfNecessary (buckets_ok : bool) (m : Hashmap) : Hashmap :=
  if bucketCount m * 3 / 4 <? size m then
    if buckets_ok
    then mkHashmap (fold_left move_entry (concat (buckets m)) (replicate (2 * length (buckets m)) [])) (size m)
    else m
  else m.

Definition equalKeys (keyA : K) (hashA : Z) (keyB : K) (hashB : Z) : bool :=
  if bool_decide (keyA = keyB) then true
  else if negb (hashA =? hashB) then false
  else equals keyA keyB.

(** The walks along a bucket. *)
Fixpoint find_in (key : K) (h : Z) (es : list Entry) : option Entry :=
  match es with
  | [] => None
  | e :: es => if equalKeys (e_key e) (e_hash e) key h then Some e else find_in key h es
  end.
Fixpoint replace_in (key : K) (h : Z) (value : V) (es : list Entry) : option (V * list Entry) :=
  match es with
  | [] => None
  | e :: es =>
      if equalKeys (e_key e) (e_hash e) key h then Some (e_value e, mkEntry (e_key e) (e_hash e) value :: es)
      else '(old, es) ← replace_in key h value es; Some (old, e :: es)
  end.
Fixpoint remove_in (key : K) (h : Z) (es : list Entry) : option (V * list Entry) :=
  match es with
  | [] => None
  | e :: es =>
      if equalKeys (e_key e) (e_hash e) key h then Some (e_value e, es)
      else '(old, es) ← remove_in key h es; Some (old, e :: es)
  end.

Definition index_of (m : Hashmap) (key : K) : nat := Z.to_nat (calculateIndex (bucketCount m) (hashKey key)).
Definition bucket_of (m : Hashmap) (key : K) : list Entry := default [] (buckets m !! index_of m key).
Definition set_bucket (m : Hashmap) (key : K) (es : list Entry) : list (list Entry) := <[index_of m key := es]> (buckets m).

(** A new entry at the end of its bucket. *)
Definition add_entry (m : Hashmap) (key : K) (value : V) (buckets_ok : bool) : Hashmap :=
  expandIfNecessary buckets_ok
    (mkHashmap (set_bucket m key (bucket_of m key ++ [mkEntry key (hashKey key) value])) (u64 (size m + 1))).

(** [entry_ok]: [malloc] has memory for an entry. *)
Definition hashmapPut (key : K) (value : V) (entry_ok buckets_ok : bool) (m : Hashmap) : V * Hashmap :=
  match replace_in key (hashKey key) value (bucket_of m key) with
  | Some (old, es) => (old, mkHashmap (set_bucket m key es) (size m))
  | None => (null, if entry_ok then add_entry m key value buckets_ok else m)
  end.

Definition hashmapGet (key : K) (m : Hashmap) : V :=
  match find_in key (hashKey key) (bucket_of m key) with Some e => e_value e | None => null end.

Definition hashmapContainsKey (key : K) (m : Hashmap) : bool :=
  match find_in key (hashKey key) (bucket_of m key) with Some e => true | None => false end.

Definition hashmapMemoize (key : K) (initialValue : K → V) (entry_ok buckets_ok : bool) (m : Hashmap) : V * Hashmap :=
  match find_in key (hashKey key) (bucket_of m key) with
  | Some e => (e_value e, m)
  | None => if entry_ok then (initialValue key, add_entry m key (initialValue key) buckets_ok) else (null, m)
  end.

Definition hashmapRemove (key : K) (m : Hashmap) : V * Hashmap :=
  match remove_in key (hashKey key) (bucket_of m key) with
  | Some (old, es) => (old, mkHashmap (set_bucket m key es) (u64 (size m - 1)))
  | None => (null, m)
  end.

(** The callback carries a state, and ends the walk with [false]. *)
Fixpoint for_each {S} (callback : K → V → S → bool * S) (es : list Entry) (s : S) : S :=
  match es with
  | [] => s
  | e :: es => let '(go, s) := callback (e_key e) (e_value e) s in if (go : bool) then for_each callback es s else s
  end.
Definition hashmapForEach {S} (callback : K → V → S → bool * S) (m : Hashmap) (s : S) : S :=
  for_each callback (concat (buckets m)) s.

Definition hashmapSize (m : Hashmap) : Z := size m.
Definition hashmapCurrentCapacity (m : Hashmap) : Z := bucketCount m * 3 / 4.
Definition hashmapCountCollisions (m : Hashmap) : Z := foldr (λ es n, Z.of_nat (length es - 1) + n) 0 (buckets m).
End hashmap.

Arguments Entry : clear implicits.
Arguments Hashmap : clear implicits.

(** ** What a client does with a table *)

Section clients.
Context {K V C : Type} `{EqDecision K, Countable C} (hash : K → Z) (equals : K → K → bool) (null : V) (canon : K → C).

(** The booleans say whether an allocation for it succeeds. *)
Inductive op :=
  | Put (key : K) (value : V) (entry_ok buckets_ok : bool) | Get (key : K) | ContainsKey (key : K)
  | Memoize (key : K) (initialValue : K → V) (entry_ok buckets_ok : bool) | Remove (key : K) | Size.
Inductive result := RValue (v : V) | RBool (b : bool) | RSize (n : Z).

Definition run_op (o : op) (m : Hashmap K V) : result * Hashmap K V :=
  match o with
  | Put key value e b => let '(v, m) := hashmapPut hash equals null key value e b m in (RValue v, m)
  | Get key => (RValue (hashmapGet hash equals null key m), m)
  | ContainsKey key => (RBool (hashmapContainsKey hash equals key m), m)
  | Memoize key f e b => let '(v, m) := hashmapMemoize hash equals null key f e b m in (RValue v, m)
  | Remove key => let '(v, m) := hashmapRemove hash equals null key m in (RValue v, m)
  | Size => (RSize (hashmapSize m), m)
  end.
Fixpoint run_ops (os : list op) (m : Hashmap K V) : list result * Hashmap K V :=
  match os with
  | [] => ([], m)
  | o :: os => let '(r, m) := run_op o m in let '(rs, m) := run_ops os m in (r :: rs, m)
  end.

(** The same on a finite map, which keeps the key that was put first. *)
Definition spec_op (o : op) (M : gmap C (K * V)) : result * gmap C (K * V) :=
  match o with
  | Put key v entry_ok _ =>
      match M !! canon key with
      | Some (k, old) => (RValue old, <[canon key := (k, v)]> M)
      | None => (RValue null, if entry_ok then <[canon key := (key, v)]> M else M)
      end
  | Get key => (RValue (default null (snd <$> M !! canon key)), M)
  | ContainsKey key => (RBool (bool_decide (is_Some (M !! canon key))), M)
  | Memoize key f entry_ok _ =>
      match M !! canon key with
      | Some (_, v) => (RValue v, M)
      | None => if entry_ok then (RValue (f key), <[canon key := (key, f key)]> M) else (RValue null, M)
      end
  | Remove key => (RValue (default null (snd <$> M !! canon key)), delete (canon key) M)
  | Size => (RSize (Z.of_nat (base.size M)), M)
  end.
Fixpoint spec_ops (os : list op) (M : gmap C (K * V)) : list result * gmap C (K * V) :=
  match os with
  | [] => ([], M)
  | o :: os => let '(r, M) := spec_op o M in let '(rs, M) := spec_ops os M in (r :: rs, M)
  end.

(** What [hashmapForEach] shows to a callback that never stops it. *)
Definition visited (m : Hashmap K V) : list (K * V) := hashmapForEach (λ k v seen, (true, seen ++ [(k, v)])) m [].
End clients.
Arguments op : clear implicits.
Arguments result : clear implicits.

(** ** Lists of lists *)

Lemma concat_split {A} (b : list (list A)) i es :
  b !! i = Some es → concat b ≡ₚ es ++ concat (delete i b).
Proof. intros Hi. rewrite (delete_Permutation b i es Hi) at 1. done. Qed.

Lemma delete_insert_list {A} (l : list A) i y : delete i (<[i := y]> l) = delete i l.
Proof. revert i. induction l as [|x l IH]; intros [|i]; cbn; try done. f_equal. apply IH. Qed.

Lemma concat_insert {A} (b : list (list A)) i es es' :
  b !! i = Some es → concat (<[i := es']> b) ≡ₚ es' ++ concat (delete i b).
Proof.
  intros Hi. apply lookup_lt_Some in Hi as Hl. rewrite (concat_split (<[i := es']> b) i es') by by apply list_lookup_insert_eq.
  by rewrite delete_insert_list.
Qed.

Lemma concat_alter {A} (b : list (list A)) i x :
  (i < length b)%nat → concat (alter (cons x) i b) ≡ₚ x :: concat b.
Proof.
  intros [es Hi]%lookup_lt_is_Some_2. assert (alter (cons x) i b = <[i := x :: es]> b) as ->.
  { apply list_eq. intros j. destruct (decide (i = j)) as [->|].
    - by rewrite list_lookup_alter_eq, list_lookup_insert_eq, Hi by (by eapply lookup_lt_Some).
    - by rewrite list_lookup_alter_ne, list_lookup_insert_ne. }
  rewrite (concat_insert b i es) by done. rewrite (concat_split b i es) by done. done.
Qed.

(** ** A table and the map it is *)

Section refinement.
Context {K V C : Type} `{EqDecision K, Countable C}.
Context (hash : K → Z) (equals : K → K → bool) (null : V) (canon : K → C).
(** What the client has to give: [equals] compares a part of the key, and keys
    that are equal have the same hash. *)
Hypothesis equals_canon : ∀ a b, equals a b = bool_decide (canon a = canon b).
Hypothesis hash_canon : ∀ a b, canon a = canon b → hash a = hash b.

Definition entries (m : Hashmap K V) : list (Entry K V) := concat (buckets m).
Definition entry_canon (e : Entry K V) : C := canon (e_key e).
Definition entry_pair (e : Entry K V) : C * (K * V) := (entry_canon e, (e_key e, e_value e)).
Definition denote (m : Hashmap K V) : gmap C (K * V) := list_to_map (entry_pair <$> entries m).

Definition well_hashed (e : Entry K V) : Prop := e_hash e = hashKey hash (e_key e).

Record map_inv (m : Hashmap K V) : Prop := {
  mi_count : ∃ k : nat, bucketCount m = 2 ^ Z.of_nat k;
  mi_placed : ∀ i es e, buckets m !! i = Some es → e ∈ es → well_hashed e ∧ index_of hash m (e_key e) = i;
  mi_distinct : NoDup (entry_canon <$> entries m);
  mi_size : size m = Z.of_nat (length (entries m))
}.

Lemma equalKeys_canon e key :
  well_hashed e → equalKeys equals (e_key e) (e_hash e) key (hashKey hash key) = bool_decide (entry_canon e = canon key).
Proof.
  intros ->. unfold equalKeys, entry_canon, hashKey. rewrite equals_canon. case_bool_decide as Hk; [by rewrite Hk, bool_decide_eq_true_2|].
  destruct (Z.eqb_spec (spread (hash (e_key e))) (spread (hash key))) as [|Hne]; [done|]. cbn.
  symmetry. apply bool_decide_eq_false_2. intros Hc. by rewrite (hash_canon _ _ Hc) in Hne.
Qed.

(** A bucket splits at the entry of a key. *)
Lemma split_bucket key es :
  Forall well_hashed es →
  (∃ pre e post, es = pre ++ e :: post ∧ entry_canon e = canon key ∧
     find_in equals key (hashKey hash key) es = Some e ∧
     (∀ v, replace_in equals key (hashKey hash key) v es = Some (e_value e, pre ++ mkEntry (e_key e) (e_hash e) v :: post)) ∧
     remove_in equals key (hashKey hash key) es = Some (e_value e, pre ++ post)) ∨
  (canon key ∉ entry_canon <$> es ∧ find_in equals key (hashKey hash key) es = None ∧
     (∀ v, replace_in equals key (hashKey hash key) v es = None) ∧ remove_in equals key (hashKey hash key) es = None).
Proof.
  induction 1 as [|e es He _ IH]; [right; split_and!; try done; apply not_elem_of_nil|].
  cbn [find_in replace_in remove_in]. rewrite (equalKeys_canon e key He). case_bool_decide as Hc.
  - left. by exists [], e, es.
  - destruct IH as [(pre & x & post & -> & Hx & Hf & Hr & Hm)|(Hn & Hf & Hr & Hm)].
    + left. exists (e :: pre), x, post. rewrite Hm. split_and!; try done. intros v. by rewrite Hr.
    + right. rewrite Hm. split_and!; try done; [|intros v; by rewrite Hr]. cbn. rewrite not_elem_of_cons. done.
Qed.

Lemma index_lt m hash0 : map_inv m → (Z.to_nat (calculateIndex (bucketCount m) hash0) < length (buckets m))%nat.
Proof.
  intros [[k Hk] _ _ _]. unfold calculateIndex.
  replace (bucketCount m - 1) with (Z.ones (Z.of_nat k)) by (rewrite Z.ones_equiv, Hk; lia). rewrite Z.land_ones by lia.
  pose proof (Z.mod_pos_bound (u64 hash0) (2 ^ Z.of_nat k) ltac:(lia)). unfold bucketCount in Hk. lia.
Qed.

Definition pairs (l : list (Entry K V)) : gmap C (K * V) := list_to_map (entry_pair <$> l).

Lemma pairs_keys (l : list (Entry K V)) : (entry_pair <$> l).*1 = entry_canon <$> l.
Proof. by rewrite <-list_fmap_compose. Qed.
Lemma pairs_perm l l' : NoDup (entry_canon <$> l) → l ≡ₚ l' → pairs l = pairs l'.
Proof. intros Hnd Hp. unfold pairs. apply list_to_map_proper; [by rewrite pairs_keys|by rewrite Hp]. Qed.
Lemma pairs_cons e l : pairs (e :: l) = <[entry_canon e := (e_key e, e_value e)]> (pairs l).
Proof. done. Qed.
Lemma pairs_none l c : c ∉ entry_canon <$> l → pairs l !! c = None.
Proof. intros Hc. apply not_elem_of_list_to_map_1. by rewrite pairs_keys. Qed.

Lemma index_canon (m : Hashmap K V) a b : canon a = canon b → index_of hash m a = index_of hash m b.
Proof. intros Hc. unfold index_of, hashKey. by rewrite (hash_canon _ _ Hc). Qed.

(** The bucket of a key, and the entries elsewhere. *)
Lemma locate key m :
  map_inv m →
  let es := bucket_of hash m key in ∃ rest,
    buckets m !! index_of hash m key = Some es ∧
    Forall (λ e, well_hashed e ∧ index_of hash m (e_key e) = index_of hash m key) es ∧
    canon key ∉ entry_canon <$> rest ∧ (∀ es', concat (set_bucket hash m key es') ≡ₚ es' ++ rest) ∧ entries m ≡ₚ es ++ rest.
Proof.
  intros Hinv es. pose proof (index_lt m (hashKey hash key) Hinv) as Hlt.
  assert (Hes : buckets m !! index_of hash m key = Some es).
  { unfold es, bucket_of, index_of. by destruct (lookup_lt_is_Some_2 _ _ Hlt) as [x ->]. }
  exists (concat (delete (index_of hash m key) (buckets m))). split_and!; [done|..].
  - apply Forall_forall. intros e He. by apply (mi_placed m Hinv _ es).
  - intros (e & Hc & He)%list_elem_of_fmap. apply list_elem_of_In, in_concat in He as (es' & Hes'%list_elem_of_In & He%list_elem_of_In).
    apply list_elem_of_lookup in Hes' as [j Hj].
    assert (∃ i, i ≠ index_of hash m key ∧ buckets m !! i = Some es') as (i & Hne & Hi).
    { destruct (decide (j < index_of hash m key)%nat).
      - exists j. split; [lia|]. by rewrite list_lookup_delete_lt in Hj.
      - exists (S j). split; [lia|]. by rewrite list_lookup_delete_ge in Hj by lia. }
    destruct (mi_placed m Hinv i es' e Hi He) as [_ Hp]. apply Hne. rewrite <-Hp. by apply index_canon.
  - intros es'. by apply (concat_insert _ _ es).
  - by apply concat_split.
Qed.

(** A bucket with other entries of the same index. *)
Lemma set_bucket_inv m key es l n :
  map_inv m → Forall (λ e, well_hashed e ∧ index_of hash m (e_key e) = index_of hash m key) es →
  concat (set_bucket hash m key es) ≡ₚ l → NoDup (entry_canon <$> l) → n = Z.of_nat (length l) →
  map_inv (mkHashmap (set_bucket hash m key es) n) ∧ denote (mkHashmap (set_bucket hash m key es) n) = pairs l.
Proof.
  intros Hinv Hes Hl Hnd ->. assert (Hlen : length (set_bucket hash m key es) = length (buckets m)) by apply length_insert.
  assert (Hnd' : NoDup (entry_canon <$> entries (mkHashmap (set_bucket hash m key es) (Z.of_nat (length l))))) by (unfold entries; cbn; by rewrite Hl).
  split; [|by apply pairs_perm]. constructor; [| |done|].
  - destruct (mi_count m Hinv) as [k Hk]. exists k. unfold bucketCount in *. cbn. by rewrite Hlen.
  - assert (Hidx : ∀ k, index_of hash (mkHashmap (set_bucket hash m key es) (Z.of_nat (length l))) k = index_of hash m k).
    { intros k. unfold index_of, bucketCount. cbn. by rewrite Hlen. }
    intros i es' e Hi He. rewrite Hidx. cbn in Hi. apply list_lookup_insert_Some in Hi as [(<- & <- & _)|[_ Hi]].
    + by apply (proj1 (Forall_forall _ _) Hes).
    + by apply (mi_placed m Hinv i es').
  - cbn. unfold entries. cbn. by rewrite Hl.
Qed.

(** Moving the entries to a larger table. *)
Definition placed (b : list (list (Entry K V))) : Prop :=
  ∀ i es e, b !! i = Some es → e ∈ es → well_hashed e ∧ Z.to_nat (calculateIndex (Z.of_nat (length b)) (e_hash e)) = i.

Lemma index_of_hash (m : Hashmap K V) e :
  well_hashed e → index_of hash m (e_key e) = Z.to_nat (calculateIndex (Z.of_nat (length (buckets m))) (e_hash e)).
Proof. unfold well_hashed, index_of, bucketCount. by intros <-. Qed.

Lemma inv_placed m : map_inv m → placed (buckets m).
Proof. intros Hinv i es e Hi He. destruct (mi_placed m Hinv i es e Hi He) as [Hw Hp]. split; [done|]. by rewrite index_of_hash in Hp. Qed.

Lemma move_length l (b : list (list (Entry K V))) : length (fold_left move_entry l b) = length b.
Proof. revert b. induction l as [|e l IH]; intros b; [done|]. cbn [fold_left]. rewrite IH. apply length_alter. Qed.

Lemma move_placed l k : Forall well_hashed l → ∀ b, length b = (2 ^ k)%nat → placed b →
  placed (fold_left move_entry l b) ∧ concat (fold_left move_entry l b) ≡ₚ l ++ concat b.
Proof.
  induction 1 as [|e l He _ IH]; intros b Hb Hp; [done|]. cbn [fold_left].
  set (i := Z.to_nat (calculateIndex (Z.of_nat (length b)) (e_hash e))).
  assert (Hi : (i < length b)%nat).
  { assert (Hz : Z.of_nat (length b) = 2 ^ Z.of_nat k) by (rewrite Hb; by rewrite Nat2Z.inj_pow). unfold i, calculateIndex. rewrite Hz.
    replace (2 ^ Z.of_nat k - 1) with (Z.ones (Z.of_nat k)) by (rewrite Z.ones_equiv; lia). rewrite Z.land_ones by lia.
    pose proof (Z.mod_pos_bound (u64 (e_hash e)) (2 ^ Z.of_nat k) ltac:(lia)). lia. }
  destruct (IH (move_entry b e)) as [Hp' Hc]; [by unfold move_entry; rewrite length_alter| |].
  - intros j es x. unfold move_entry. rewrite length_alter. fold i. destruct (decide (i = j)) as [<-|Hne].
    + rewrite list_lookup_alter_eq. intros (es0 & Hes0 & ->)%fmap_Some [->|Hx]%elem_of_cons; [done|by apply (Hp i es0)].
    + rewrite list_lookup_alter_ne by done. apply Hp.
  - split; [done|]. rewrite Hc. unfold move_entry. rewrite concat_alter by done. symmetry. apply Permutation_middle.
Qed.

Lemma concat_replicate_nil {A} n : concat (replicate n ([] : list A)) = [].
Proof. by induction n. Qed.

Lemma expand_inv ok m : map_inv m → map_inv (expandIfNecessary ok m) ∧ denote (expandIfNecessary ok m) = denote m.
Proof.
  intros Hinv. unfold expandIfNecessary. destruct (_ <? _); [|done]. destruct ok; [|done].
  destruct (mi_count m Hinv) as [k Hk]. unfold bucketCount in Hk.
  assert (Hn : (2 * length (buckets m))%nat = (2 ^ S k)%nat).
  { apply Nat2Z.inj. rewrite Nat2Z.inj_mul, Hk, Nat2Z.inj_pow, (Nat2Z.inj_succ k), Z.pow_succ_r by lia. done. }
  assert (Hwh : Forall well_hashed (concat (buckets m))).
  { apply Forall_concat, Forall_lookup. intros i es Hi. apply Forall_forall. intros e He. by apply (inv_placed m Hinv i es). }
  destruct (move_placed _ (S k) Hwh (replicate (2 * length (buckets m)) [])) as [Hp Hc]; [by rewrite length_replicate| |].
  { intros i es e [-> _]%lookup_replicate He. by apply not_elem_of_nil in He. }
  rewrite concat_replicate_nil, app_nil_r in Hc. fold (entries m) in Hc.
  set (b := fold_left _ _ _) in *. assert (Hb : length b = (2 ^ S k)%nat) by (unfold b; by rewrite move_length, length_replicate).
  assert (Hnd : NoDup (entry_canon <$> entries (mkHashmap b (size m)))).
  { unfold entries at 1. cbn. rewrite Hc. apply mi_distinct, Hinv. }
  split; [|by apply pairs_perm]. constructor; [|..|done|].
  - exists (S k). unfold bucketCount. cbn. by rewrite Hb, Nat2Z.inj_pow.
  - intros i es e Hi He. destruct (Hp i es e Hi He) as [Hw Hx]. split; [done|]. by rewrite index_of_hash.
  - unfold entries. cbn. rewrite Hc. apply mi_size, Hinv.
Qed.

(** *** The operations *)

Lemma bucket_hashed key m : map_inv m → Forall well_hashed (bucket_of hash m key).
Proof. intros Hinv. destruct (locate key m Hinv) as (rest & _ & Hes & _). eapply Forall_impl; [done|]. by intros e [? _]. Qed.

Lemma nodup_split (pre post rest : list (Entry K V)) e :
  NoDup (entry_canon <$> ((pre ++ e :: post) ++ rest)) → NoDup (entry_canon <$> (e :: (pre ++ post) ++ rest)).
Proof. intros Hnd. rewrite <-Permutation_middle in Hnd. done. Qed.

(** The table with another bucket for a key. *)
Definition rebucket (m : Hashmap K V) (key : K) (es : list (Entry K V)) (n : Z) : Hashmap K V := mkHashmap (set_bucket hash m key es) n.
Definition becomes (m : Hashmap K V) (M : gmap C (K * V)) : Prop := map_inv m ∧ denote m = M.

(** The key is there, or not. *)
Definition present (m : Hashmap K V) (key : K) (e : Entry K V) (R : list (Entry K V)) : Prop :=
  entry_canon e = canon key ∧ canon key ∉ entry_canon <$> R ∧ denote m = pairs (e :: R) ∧
  find_in equals key (hashKey hash key) (bucket_of hash m key) = Some e ∧
  (∀ v, ∃ es, replace_in equals key (hashKey hash key) v (bucket_of hash m key) = Some (e_value e, es) ∧
     becomes (rebucket m key es (size m)) (pairs (mkEntry (e_key e) (e_hash e) v :: R))) ∧
  (∃ es, remove_in equals key (hashKey hash key) (bucket_of hash m key) = Some (e_value e, es) ∧
     becomes (rebucket m key es (size m - 1)) (pairs R)).
Definition absent (m : Hashmap K V) (key : K) : Prop :=
  denote m !! canon key = None ∧
  find_in equals key (hashKey hash key) (bucket_of hash m key) = None ∧
  (∀ v, replace_in equals key (hashKey hash key) v (bucket_of hash m key) = None) ∧
  remove_in equals key (hashKey hash key) (bucket_of hash m key) = None ∧
  (∀ v, becomes (rebucket m key (bucket_of hash m key ++ [mkEntry key (hashKey hash key) v]) (size m + 1)) (<[canon key := (key, v)]> (denote m))).

Lemma find_key m key : map_inv m → (∃ e R, present m key e R) ∨ absent m key.
Proof.
  intros Hinv. destruct (locate key m Hinv) as (rest & Hb & Hes & Hrest & Hset & Hent).
  pose proof (mi_distinct m Hinv) as Hnd. rewrite Hent in Hnd. pose proof (mi_size m Hinv) as Hsz. rewrite Hent in Hsz.
  destruct (split_bucket key _ (bucket_hashed key m Hinv)) as [(pre & e & post & He & Hc & Hf & Hr & Hm)|(Hn & Hf & Hr & Hm)].
  - rewrite He in Hes, Hnd, Hsz, Hent. pose proof Hes as [Hpre [[Hwe Hie] Hpost]%Forall_cons]%Forall_app.
    set (R := (pre ++ post) ++ rest). apply nodup_split in Hnd. fold R in Hnd.
    assert (Hlen : size m = Z.of_nat (S (length R))).
    { rewrite Hsz. unfold R. rewrite !length_app. cbn [length]. lia. }
    left. exists e, R. split_and!; [done|..|done| |].
    + apply NoDup_cons in Hnd as [Hnd _]. by rewrite <-Hc.
    + apply pairs_perm; [apply (mi_distinct m Hinv)|]. rewrite Hent. unfold R. rewrite <-Permutation_middle. done.
    + intros v. eexists. split; [by apply Hr|]. apply (set_bucket_inv m key _ (mkEntry (e_key e) (e_hash e) v :: R)); [done| | |done|done].
      * apply Forall_app. split; [done|]. by constructor.
      * rewrite Hset. unfold R. rewrite <-Permutation_middle. done.
    + eexists. split; [exact Hm|]. apply (set_bucket_inv m key _ R); [done|by apply Forall_app|by rewrite Hset| |lia].
      by apply NoDup_cons in Hnd as [_ Hnd].
  - assert (Hnone : canon key ∉ entry_canon <$> (bucket_of hash m key ++ rest)).
    { rewrite fmap_app, elem_of_app. tauto. }
    assert (Hden : denote m = pairs (bucket_of hash m key ++ rest)) by (by apply pairs_perm; [apply (mi_distinct m)|]).
    right. split_and!; [rewrite Hden; by apply pairs_none|done..|].
    intros v. rewrite Hden.
    apply (set_bucket_inv m key _ (mkEntry key (hashKey hash key) v :: bucket_of hash m key ++ rest)); [done|..].
    + apply Forall_app. split; [done|]. by repeat constructor.
    + rewrite Hset, <-app_assoc. cbn. symmetry. apply Permutation_middle.
    + cbn. by constructor.
    + cbn [length]. lia.
Qed.

Lemma added key v ok m :
  map_inv m → size m + 1 < 2 ^ 64 → absent m key → becomes (add_entry hash m key v ok) (<[canon key := (key, v)]> (denote m)).
Proof.
  intros Hinv Hsz (_ & _ & _ & _ & Hadd). destruct (Hadd v) as [Hi Hd]. unfold add_entry.
  rewrite u64_small by (rewrite (mi_size m Hinv) in *; lia).
  destruct (expand_inv ok _ Hi) as [Hi' Hd']. split; [exact Hi'|]. rewrite <-Hd. exact Hd'.
Qed.

Lemma denote_present m key e R : present m key e R → denote m !! canon key = Some (e_key e, e_value e).
Proof. intros (Hc & _ & -> & _). rewrite pairs_cons, Hc. apply lookup_insert_eq. Qed.

(** Put, get, remove and memoize are those of the finite map. *)
Lemma Put_refines key v entry_ok ok m :
  map_inv m → size m + 1 < 2 ^ 64 →
  let '(old, m') := hashmapPut hash equals null key v entry_ok ok m in
  old = default null (snd <$> denote m !! canon key) ∧
  becomes m' (match denote m !! canon key with
              | Some (k, _) => <[canon key := (k, v)]> (denote m)
              | None => if entry_ok then <[canon key := (key, v)]> (denote m) else denote m end).
Proof.
  intros Hinv Hsz. unfold hashmapPut. destruct (find_key m key Hinv) as [(e & R & Hp)|Ha].
  - rewrite (denote_present m key e R Hp). destruct Hp as (Hc & Hn & Hd & _ & Hr & _). destruct (Hr v) as (es & -> & Hi & Hd').
    split; [done|]. split; [exact Hi|]. unfold rebucket in Hd'. rewrite Hd', Hd, !pairs_cons, Hc.
    change (entry_canon (mkEntry (e_key e) (e_hash e) v)) with (entry_canon e). by rewrite Hc, insert_insert_eq.
  - destruct (Ha) as (-> & _ & -> & _). split; [done|]. destruct entry_ok; [by apply added|done].
Qed.

Lemma Get_refines key m :
  map_inv m → hashmapGet hash equals null key m = default null (snd <$> denote m !! canon key) ∧
  hashmapContainsKey hash equals key m = bool_decide (is_Some (denote m !! canon key)).
Proof.
  intros Hinv. unfold hashmapGet, hashmapContainsKey. destruct (find_key m key Hinv) as [(e & R & Hp)|Ha].
  - rewrite (denote_present m key e R Hp). by destruct Hp as (_ & _ & _ & -> & _).
  - by destruct Ha as (-> & -> & _).
Qed.

Lemma Remove_refines key m :
  map_inv m → size m < 2 ^ 64 →
  let '(old, m') := hashmapRemove hash equals null key m in
  old = default null (snd <$> denote m !! canon key) ∧ becomes m' (delete (canon key) (denote m)).
Proof.
  intros Hinv Hsz. unfold hashmapRemove. destruct (find_key m key Hinv) as [(e & R & Hp)|Ha].
  - rewrite (denote_present m key e R Hp). destruct Hp as (Hc & Hn & Hd & _ & _ & es & -> & Hi & Hd').
    assert (Hpos : 0 < size m).
    { pose proof (mi_size _ Hi) as Hs. cbn in Hs. lia. }
    rewrite u64_small by lia. split; [done|]. split; [exact Hi|]. rewrite Hd, pairs_cons, Hc.
    rewrite delete_insert_id by by apply pairs_none. exact Hd'.
  - destruct Ha as (Hnone & _ & _ & -> & _). rewrite Hnone. split; [done|]. by rewrite delete_id.
Qed.

Lemma Memoize_refines key f entry_ok ok m :
  map_inv m → size m + 1 < 2 ^ 64 →
  let '(v, m') := hashmapMemoize hash equals null key f entry_ok ok m in
  match denote m !! canon key with
  | Some (_, v0) => v = v0 ∧ becomes m' (denote m)
  | None => if entry_ok then v = f key ∧ becomes m' (<[canon key := (key, f key)]> (denote m)) else v = null ∧ becomes m' (denote m)
  end.
Proof.
  intros Hinv Hsz. unfold hashmapMemoize. destruct (find_key m key Hinv) as [(e & R & Hp)|Ha].
  - rewrite (denote_present m key e R Hp). by destruct Hp as (_ & _ & _ & -> & _).
  - pose proof Ha as (-> & -> & _). destruct entry_ok; [|done]. split; [done|]. by apply added.
Qed.

Lemma size_denote m : map_inv m → size m = Z.of_nat (base.size (denote m)).
Proof.
  intros Hinv. rewrite (mi_size m Hinv). f_equal. unfold denote. rewrite <-length_map_to_list.
  rewrite map_to_list_to_map; [by rewrite length_fmap|]. rewrite pairs_keys. apply (mi_distinct m Hinv).
Qed.

Lemma for_each_all (es : list (Entry K V)) seen :
  for_each (λ k v seen, (true, seen ++ [(k, v)])) es seen = seen ++ ((λ e, (e_key e, e_value e)) <$> es).
Proof.
  revert seen. induction es as [|e es IH]; intros seen; [by rewrite app_nil_r|]. cbn [for_each fmap list_fmap]. by rewrite IH, <-app_assoc.
Qed.

(** Every pair of the map is shown to the callback once. *)
Lemma visited_pairs m : map_inv m → visited m ≡ₚ (map_to_list (denote m)).*2.
Proof.
  intros Hinv. unfold visited, hashmapForEach. rewrite for_each_all. cbn [app]. unfold denote.
  rewrite map_to_list_to_map by (rewrite pairs_keys; apply (mi_distinct m Hinv)). by rewrite <-list_fmap_compose.
Qed.

Lemma op_refines o m M :
  becomes m M → size m + 1 < 2 ^ 64 →
  (run_op hash equals null o m).1 = (spec_op null canon o M).1 ∧ becomes (run_op hash equals null o m).2 (spec_op null canon o M).2.
Proof.
  intros [Hinv <-] Hsz. destruct o as [key v e b|key|key|key f e b|key|]; cbn [run_op spec_op].
  - pose proof (Put_refines key v e b m Hinv Hsz) as Hp. destruct (hashmapPut _ _ _ _ _ _ _ _) as [old m'].
    destruct (denote m !! canon key) as [[k v0]|]; cbn in *; destruct Hp as [-> Hb]; done.
  - destruct (Get_refines key m Hinv) as [-> _]. done.
  - destruct (Get_refines key m Hinv) as [_ ->]. done.
  - pose proof (Memoize_refines key f e b m Hinv Hsz) as Hp. destruct (hashmapMemoize _ _ _ _ _ _ _ _) as [v m'].
    destruct (denote m !! canon key) as [[k v0]|]; [|destruct e]; destruct Hp as [-> Hb]; done.
  - pose proof (Remove_refines key m Hinv ltac:(lia)) as Hp. destruct (hashmapRemove _ _ _ _ _) as [old m']. destruct Hp as [-> Hb]. done.
  - unfold hashmapSize. by rewrite size_denote.
Qed.

Lemma spec_size o (M : gmap C (K * V)) : (base.size (spec_op null canon o M).2 ≤ S (base.size M))%nat.
Proof.
  assert (Hins : ∀ c x, (base.size (<[c := x]> M) ≤ S (base.size M))%nat).
  { intros c x. rewrite map_size_insert. destruct (M !! c); cbn; lia. }
  destruct o; cbn [spec_op]; repeat case_match; cbn [snd]; auto; try lia. rewrite map_size_delete. case_match; cbn; lia.
Qed.

Lemma ops_refine os m M :
  becomes m M → size m + zlen os < 2 ^ 64 →
  (run_ops hash equals null os m).1 = (spec_ops null canon os M).1 ∧ becomes (run_ops hash equals null os m).2 (spec_ops null canon os M).2.
Proof.
  revert m M. induction os as [|o os IH]; intros m M Hb Hsz; [done|]. cbn [run_ops spec_ops]. unfold zlen in *. cbn [length] in Hsz.
  destruct (op_refines o m M Hb ltac:(lia)) as [Hr Hb']. pose proof (spec_size o M) as Hgrow.
  destruct (run_op _ _ _ o m) as [r m1], (spec_op _ _ o M) as [r' M1]. cbn [fst snd] in *.
  destruct (IH m1 M1 Hb') as [Hrs Hb2].
  { destruct Hb as [Hi <-], Hb' as [Hi1 <-]. rewrite size_denote in * by done. lia. }
  destruct (run_ops _ _ _ os m1) as [rs m2], (spec_ops _ _ os M1) as [rs' M2]. cbn [fst snd] in *. by subst.
Qed.

(** *** Creating a table *)

Lemma count_loop_pow fuel j minimum :
  minimum < 2 ^ 63 → Z.of_nat fuel + j = 64 → 0 ≤ j → (0 < fuel)%nat →
  ∃ k : nat, count_loop fuel (2 ^ j) minimum = Some (2 ^ Z.of_nat k) ∧ minimum < 2 ^ Z.of_nat k ∧ (2 ^ Z.of_nat k = 2 ^ j ∨ 2 ^ Z.of_nat k ≤ 2 * minimum).
Proof.
  revert j. induction fuel as [|fuel IH]; intros j Hmin Hf Hj Hpos; [lia|]. cbn [count_loop].
  destruct (Z.leb_spec (2 ^ j) minimum) as [Hle|Hgt].
  - assert (Hj' : j < 63).
    { destruct (Z.ltb_spec j 63) as [|Hge]; [done|]. pose proof (Z.pow_le_mono_r 2 63 j ltac:(lia) Hge). lia. }
    rewrite Z.shiftl_mul_pow2 by lia. replace (2 ^ j * 2 ^ 1) with (2 ^ (j + 1)) by (rewrite Z.pow_add_r by lia; done).
    rewrite u64_small by (split; [lia|]; apply Z.pow_lt_mono_r; lia).
    destruct (IH (j + 1)) as (k & Hk & Hm & Hb); [lia..|]. exists k. split; [done|]. split; [done|]. right.
    rewrite Z.pow_add_r in Hb by lia. lia.
  - exists (Z.to_nat j). rewrite Z2Nat.id by lia. auto.
Qed.

(** The loop ends for every capacity; an overflow of [initialCapacity * 4] only
    makes the table smaller. *)
Lemma Create_Ret cap : 0 ≤ cap < 2 ^ 64 → ∃ m, hashmapCreate cap true = Some m ∧ becomes m ∅ ∧ size m = 0 ∧ u64 (cap * 4) / 3 < bucketCount m.
Proof.
  intros Hcap. pose proof (u64_range (cap * 4)) as Hu.
  destruct (count_loop_pow 64 0 (u64 (cap * 4) / 3)) as (k & Hk & Hm & _); [|lia..|].
  { apply Z.div_lt_upper_bound; lia. }
  unfold hashmapCreate, initial_count. change 1 with (2 ^ 0). rewrite Hk. cbn [mbind option_bind]. eexists. split; [done|].
  set (n := Z.to_nat (2 ^ Z.of_nat k)). assert (Hent : entries (mkHashmap (replicate n []) 0) = []) by apply concat_replicate_nil.
  assert (Hcount : bucketCount (mkHashmap (K := K) (V := V) (replicate n []) 0) = 2 ^ Z.of_nat k).
  { unfold bucketCount. cbn. rewrite length_replicate. unfold n. lia. }
  split_and!; [|done|by rewrite Hcount]. split; [|unfold denote; by rewrite Hent]. constructor.
  - by exists k.
  - intros i es e [-> _]%lookup_replicate He. by apply not_elem_of_nil in He.
  - rewrite Hent. constructor.
  - by rewrite Hent.
Qed.

(** C26: a table of libcutils is a finite map: from any initial capacity, whatever
    a client does with it and whichever allocations fail, each operation returns
    what the same operation on the map returns, a walk visits each pair of the map
    exactly once, and the size is that of the map. *)
Theorem hashmap_refines cap os :
  0 ≤ cap < 2 ^ 64 → zlen os < 2 ^ 64 →
  ∃ m0, hashmapCreate cap true = Some m0 ∧
  let '(results, m) := run_ops hash equals null os m0 in
  let '(expected, M) := spec_ops null canon os ∅ in
  results = expected ∧ visited m ≡ₚ (map_to_list M).*2 ∧ hashmapSize m = Z.of_nat (base.size M).
Proof.
  intros Hcap Hos. destruct (Create_Ret cap Hcap) as (m0 & Hc & Hb & Hs & _). exists m0. split; [done|].
  destruct (ops_refine os m0 ∅ Hb) as [Hr [Hi Hd]]; [lia|].
  destruct (run_ops hash equals null os m0) as [rs m], (spec_ops null canon os ∅) as [rs' M]. cbn [fst snd] in *.
  split; [done|]. rewrite <-Hd. split; [by apply visited_pairs|by apply size_denote].
Qed.
End refinement.

(** ** Keys that are pointers to integers *)

(** The address, and the [int] there. *)
Abbreviation int_key := (Z * Z)%type.
Definition hashmapIntHash (key : int_key) : Z := key.2.
Definition hashmapIntEquals (a b : int_key) : bool := a.2 =? b.2.

Lemma int_equals a b : hashmapIntEquals a b = bool_decide (a.2 = b.2).
Proof. unfold hashmapIntEquals. case_bool_decide; [by apply Z.eqb_eq|by apply Z.eqb_neq]. Qed.
Lemma int_hash (a b : int_key) : a.2 = b.2 → hashmapIntHash a = hashmapIntHash b.
Proof. done. Qed.

(** A table that grows twice; an equal key at another address; a removal. *)
Definition int_ops : list (op int_key Z) :=
  [Put (100, 1) 11 true true; Put (104, -2) 22 true true; Put (108, 3) 33 true true; Put (112, 1) 44 true true;
   Get (116, 3); Memoize (120, 7) (λ k, k.2 * 2) true false; Remove (124, -2); ContainsKey (104, -2); Size].
Lemma hashmap_refines_witness :
  ∃ m0, hashmapCreate 0 true = Some m0 ∧
  let '(results, m) := run_ops hashmapIntHash hashmapIntEquals 0 int_ops m0 in
  let '(expected, M) := spec_ops 0 snd int_ops ∅ in
  results = expected ∧ visited m ≡ₚ (map_to_list M).*2 ∧ hashmapSize m = Z.of_nat (base.size M).
Proof.
  apply (hashmap_refines hashmapIntHash hashmapIntEquals 0 snd int_equals int_hash 0 int_ops); [lia|vm_compute; reflexivity].
Defined.

Example int_results :
  (m0 ← hashmapCreate 0 true; Some (run_ops hashmapIntHash hashmapIntEquals 0 int_ops m0).1) =
  Some [RValue 0; RValue 0; RValue 0; RValue 11; RValue 33; RValue 14; RValue 22; RBool false; RSize 3].
Proof. vm_compute. reflexivity. Qed.
