(* ===== verification/LogEvents.v ===== *)
(** * Lists of events
    (src/lib/liblog/log_event_list.c, src/include/log/log.h)

    The binary event log: a writer that builds a list of numbers, strings and
    lists in a buffer of fixed size, and the parser that takes such a message
    apart again, element by element.  Both walk arrays that are indexed by the
    depth of nesting; an index out of range is [Abort]. *)

From Stdlib Require Import ZArith Lia List Ascii String.
From stdpp Require Import base numbers list strings.
From S2P Require Import Prelude.
From S2P Require Import Libc.
From S2P Require Import Wire.
From S2P Require Import IOVector.

Definition LOGGER_ENTRY_MAX_PAYLOAD : Z := 4068.
Definition MAX_EVENT_PAYLOAD : Z := LOGGER_ENTRY_MAX_PAYLOAD - 4.
Definition ANDROID_MAX_LIST_NEST_DEPTH : Z := 8.

Definition EVENT_TYPE_LIST_STOP : Z := 10.
Definition EVENT_TYPE_UNKNOWN : Z := 63.
Definition EVENT_TYPE_INT : Z := 0.
Definition EVENT_TYPE_LONG : Z := 1.
Definition EVENT_TYPE_STRING : Z := 2.
Definition EVENT_TYPE_LIST : Z := 3.
Definition EVENT_TYPE_FLOAT : Z := 4.

Definition EIO : Z := 5.
Definition EBADF : Z := 9.
Definition EINVAL : Z := 22.
Definition EOVERFLOW : Z := 75.

(** ** The context *)

Inductive rw_flag := kAndroidLoggerRead | kAndroidLoggerWrite.

Record context := mkContext {
  tag : Z;
  pos : Z;
  count : list Z;
  list_ : list Z;
  list_nest_depth : Z;
  len : Z;
  overflow : bool;
  list_stop : bool;
  read_write_flag : rw_flag;
  storage : bytes
}.
Definition set_pos (v : Z) (c : context) : context :=
  mkContext (tag c) v (count c) (list_ c) (list_nest_depth c) (len c) (overflow c) (list_stop c) (read_write_flag c) (storage c).
Definition set_count (v : list Z) (c : context) : context :=
  mkContext (tag c) (pos c) v (list_ c) (list_nest_depth c) (len c) (overflow c) (list_stop c) (read_write_flag c) (storage c).
Definition set_list_ (v : list Z) (c : context) : context :=
  mkContext (tag c) (pos c) (count c) v (list_nest_depth c) (len c) (overflow c) (list_stop c) (read_write_flag c) (storage c).
Definition set_list_nest_depth (v : Z) (c : context) : context :=
  mkContext (tag c) (pos c) (count c) (list_ c) v (len c) (overflow c) (list_stop c) (read_write_flag c) (storage c).
Definition set_len (v : Z) (c : context) : context :=
  mkContext (tag c) (pos c) (count c) (list_ c) (list_nest_depth c) v (overflow c) (list_stop c) (read_write_flag c) (storage c).
Definition set_overflow (v : bool) (c : context) : context :=
  mkContext (tag c) (pos c) (count c) (list_ c) (list_nest_depth c) (len c) v (list_stop c) (read_write_flag c) (storage c).
Definition set_list_stop (v : bool) (c : context) : context :=
  mkContext (tag c) (pos c) (count c) (list_ c) (list_nest_depth c) (len c) (overflow c) v (read_write_flag c) (storage c).
Definition set_storage (v : bytes) (c : context) : context :=
  mkContext (tag c) (pos c) (count c) (list_ c) (list_nest_depth c) (len c) (overflow c) (list_stop c) (read_write_flag c) v.

(** Elements of the arrays. *)
Definition at_ (l : list Z) (i : Z) : outcome Z :=
  match l !! Z.to_nat i with Some v => Ret v | None => Abort "array index" end.
Definition set_at (l : list Z) (i v : Z) : outcome (list Z) :=
  CHECK (i <? zlen l) "array index" ;; Ret (<[Z.to_nat i := v]> l).
Definition set_count_at (i v : Z) (c : context) : outcome context := l ← set_at (count c) i v; Ret (set_count l c).
Definition set_list_at (i v : Z) (c : context) : outcome context := l ← set_at (list_ c) i v; Ret (set_list_ l c).
(** Bytes of [storage]. *)
Definition store (off : Z) (data : bytes) (c : context) : outcome context :=
  s ← memcpy (storage c) off data; Ret (set_storage s c).
Definition load (off n : Z) (c : context) : outcome bytes :=
  CHECK (off + n <=? zlen (storage c)) "read past the end of storage" ;; Ret (slice (storage c) off n).

(** ** Writing *)

(** [copy4LE], [copy8LE]. *)
Definition le64 (z : Z) : bytes := le32 z ++ le32 (Z.shiftr z 32).

Definition no_counts : list Z := replicate 9 0.
Definition create_android_logger (tag : Z) : outcome context :=
  let c := mkContext tag 0 no_counts no_counts 0 0 false false kAndroidLoggerWrite (replicate (Z.to_nat LOGGER_ENTRY_MAX_PAYLOAD) NUL) in
  let needed := 2 in
  let c := if MAX_EVENT_PAYLOAD <? pos c + needed then set_overflow true c else c in
  c ← store (pos c) [of_cval EVENT_TYPE_LIST] c;
  c ← set_list_at 0 (pos c + 1) c;
  Ret (set_pos (pos c + needed) c).

(** Each returns 0 or a negative error, or a length. *)
Definition android_log_write_list_begin (c : context) : outcome (Z * context) :=
  match read_write_flag c with
  | kAndroidLoggerRead => Ret (- EBADF, c)
  | kAndroidLoggerWrite =>
      if ANDROID_MAX_LIST_NEST_DEPTH <? list_nest_depth c then Ret (- EOVERFLOW, set_overflow true c)
      else if MAX_EVENT_PAYLOAD <? pos c + 2 then Ret (- EIO, set_overflow true c)
      else
        n ← at_ (count c) (list_nest_depth c);
        c ← set_count_at (list_nest_depth c) (u32 (n + 1)) c;
        let c := set_list_nest_depth (list_nest_depth c + 1) c in
        if ANDROID_MAX_LIST_NEST_DEPTH <? list_nest_depth c then Ret (- EOVERFLOW, set_overflow true c)
        else if overflow c then Ret (- EIO, c)
        else
          c ← store (pos c) [of_cval EVENT_TYPE_LIST; of_cval 0] c;
          c ← set_list_at (list_nest_depth c) (pos c + 1) c;
          c ← set_count_at (list_nest_depth c) 0 c;
          Ret (0, set_pos (pos c + 2) c)
  end.

(** A number: its type and its bytes. *)
Definition write_value (type : Z) (value : bytes) (c : context) : outcome (Z * context) :=
  match read_write_flag c with
  | kAndroidLoggerRead => Ret (- EBADF, c)
  | kAndroidLoggerWrite =>
      if overflow c then Ret (- EIO, c)
      else
        let needed := 1 + zlen value in
        if MAX_EVENT_PAYLOAD <? pos c + needed then Ret (- EIO, set_overflow true c)
        else
          n ← at_ (count c) (list_nest_depth c);
          c ← set_count_at (list_nest_depth c) (u32 (n + 1)) c;
          c ← store (pos c) [of_cval type] c;
          c ← store (pos c + 1) value c;
          Ret (0, set_pos (pos c + needed) c)
  end.
Definition android_log_write_int32 (value : Z) : context → outcome (Z * context) := write_value EVENT_TYPE_INT (le32 value).
Definition android_log_write_int64 (value : Z) : context → outcome (Z * context) := write_value EVENT_TYPE_LONG (le64 value).
(** The [float] is its bits. *)
Definition android_log_write_float32 (bits : Z) : context → outcome (Z * context) := write_value EVENT_TYPE_FLOAT (le32 bits).

(** [value] is a C string, or null. *)
Definition android_log_write_string8_len (value : option bytes) (maxlen : Z) (c : context) : outcome (Z * context) :=
  match read_write_flag c with
  | kAndroidLoggerRead => Ret (- EBADF, c)
  | kAndroidLoggerWrite =>
      if overflow c then Ret (- EIO, c)
      else
        let value := take (Z.to_nat maxlen) (c_str (default [] value)) in
        let needed := 1 + 4 + zlen value in
        let truncated := MAX_EVENT_PAYLOAD <? pos c + needed in
        let len := if truncated then MAX_EVENT_PAYLOAD - pos c - 1 - 4 else zlen value in
        if truncated && (len <=? 0) then Ret (- EIO, set_overflow true c)
        else
          n ← at_ (count c) (list_nest_depth c);
          c ← set_count_at (list_nest_depth c) (u32 (n + 1)) c;
          c ← store (pos c) [of_cval EVENT_TYPE_STRING] c;
          c ← store (pos c + 1) (le32 len) c;
          c ← store (pos c + 5) (take (Z.to_nat len) value) c;
          Ret (len, set_pos (pos c + needed) c)
  end.
Definition android_log_write_string8 (value : option bytes) : context → outcome (Z * context) :=
  android_log_write_string8_len value MAX_EVENT_PAYLOAD.

Definition android_log_write_list_end (c : context) : outcome (Z * context) :=
  match read_write_flag c with
  | kAndroidLoggerRead => Ret (- EBADF, c)
  | kAndroidLoggerWrite =>
      if ANDROID_MAX_LIST_NEST_DEPTH <? list_nest_depth c then
        Ret (- EOVERFLOW, set_list_nest_depth (list_nest_depth c - 1) (set_overflow true c))
      else if list_nest_depth c =? 0 then Ret (- EOVERFLOW, set_overflow true c)
      else
        l ← at_ (list_ c) (list_nest_depth c);
        if l <=? 0 then Ret (- EOVERFLOW, set_overflow true (set_list_nest_depth (list_nest_depth c - 1) c))
        else
          n ← at_ (count c) (list_nest_depth c);
          c ← store l [of_cval n] c;
          Ret (0, set_list_nest_depth (list_nest_depth c - 1) c)
  end.

Definition LOG_ID_EVENTS : Z := 2.
Definition LOG_ID_SECURITY : Z := 5.

(** The error, or the message that is given to the log. *)
Definition android_log_write_list (id : Z) (c : context) : outcome (Z + bytes) :=
  if negb (id =? LOG_ID_EVENTS) && negb (id =? LOG_ID_SECURITY) then Ret (inl (- EINVAL))
  else
    match read_write_flag c with
    | kAndroidLoggerRead => Ret (inl (- EBADF))
    | kAndroidLoggerWrite =>
        if negb (list_nest_depth c =? 0) then Ret (inl (- EIO))
        else
          n ← at_ (count c) 0;
          c ← store 1 [of_cval n] c;
          let len := pos c in
          msg ← (if n <=? 1 then load 2 (if len - 2 <? 0 then 0 else len - 2) c else load 0 len c);
          Ret (inr msg)
    end.

(** ** Reading *)

Definition create_android_log_parser (msg : bytes) : outcome context :=
  let len := if zlen msg <=? MAX_EVENT_PAYLOAD then zlen msg else MAX_EVENT_PAYLOAD in
  store 0 (take (Z.to_nat len) msg)
    (mkContext 0 0 no_counts no_counts 0 len false false kAndroidLoggerRead (replicate (Z.to_nat LOGGER_ENTRY_MAX_PAYLOAD) NUL)).

(** The union [data]; the string it points to is [e_len] bytes of [storage]. *)
Inductive element_data := NoData | Int32 (v : Z) | Int64 (v : Z) | StringAt (s : bytes).
Record element := mkElement { e_type : Z; e_complete : bool; e_len : Z; e_data : element_data }.

(** [get8LE]. *)
Definition get64 (b : bytes) : Z := Z.lor (Z.shiftl (word_at b 4) 32) (word_at b 0).
Definition s64 (z : Z) : Z := (z + 2 ^ 63) mod 2 ^ 64 - 2 ^ 63.
Definition u16 (z : Z) : Z := z mod 2 ^ 16.

(** What follows the reading of a value: one element less, and the position. *)
Definition value_read (p : Z) (c : context) : outcome context :=
  n ← at_ (count c) (list_nest_depth c);
  c ← (if n =? 0 then Ret (set_list_stop true c)
       else c ← set_count_at (list_nest_depth c) (n - 1) c;
            Ret (if n - 1 =? 0 then set_list_stop true c else c));
  Ret (set_pos p c).

(** A number of [size] bytes at [p]. *)
Definition read_number (type p size : Z) (value : bytes → element_data) (peek : bool) (c : context) : outcome (element * context) :=
  if len c <? p + size then Ret (mkElement EVENT_TYPE_UNKNOWN false size NoData, c)
  else
    b ← load p size c;
    n0 ← at_ (count c) 0;
    let e := mkElement type ((list_nest_depth c =? 0) && (n0 =? 0)) size (value b) in
    if peek then Ret (e, c) else c ← value_read (p + size) c; Ret (e, c).

Definition read_string (p : Z) (peek : bool) (c : context) : outcome (element * context) :=
  if len c <? p + 4 then Ret (mkElement EVENT_TYPE_UNKNOWN true 0 NoData, c)
  else
    b ← load p 4 c;
    let n := u16 (le_val b) in
    let p := p + 4 in
    let n := if len c <? p + n then u16 (len c - p) else n in
    if (len c <? p + u16 (le_val b)) && (n =? 0) then Ret (mkElement EVENT_TYPE_UNKNOWN true n NoData, c)
    else
      s ← load p n c;
      n0 ← at_ (count c) 0;
      let e := mkElement EVENT_TYPE_STRING ((list_nest_depth c =? 0) && (n0 =? 0)) n (StringAt s) in
      if peek then Ret (e, c) else c ← value_read (p + n) c; Ret (e, c).

Definition read_list (p : Z) (peek : bool) (c : context) : outcome (element * context) :=
  if len c <? p + 1 then Ret (mkElement EVENT_TYPE_UNKNOWN true 0 NoData, c)
  else
    let e := mkElement EVENT_TYPE_LIST (ANDROID_MAX_LIST_NEST_DEPTH <=? list_nest_depth c) 0 NoData in
    if peek then Ret (e, c)
    else
      n ← at_ (count c) (list_nest_depth c);
      c ← (if n =? 0 then Ret c else set_count_at (list_nest_depth c) (n - 1) c);
      b ← load p 1 c;
      let c := set_list_nest_depth (list_nest_depth c + 1) (set_list_stop (le_val b =? 0) c) in
      c ← (if list_nest_depth c <=? ANDROID_MAX_LIST_NEST_DEPTH then set_count_at (list_nest_depth c) (le_val b) c else Ret c);
      Ret (e, set_pos (p + 1) c).

(** The end of a list whose elements have all been read. *)
Definition read_stop (peek : bool) (c : context) : outcome (element * context) :=
  n0 ← at_ (count c) 0;
  n1 ← at_ (count c) 1;
  let e := mkElement EVENT_TYPE_LIST_STOP
    ((n0 =? 0) && ((list_nest_depth c =? 0) || ((list_nest_depth c =? 1) && (n1 =? 0)))) 0 NoData in
  if peek then Ret (e, c)
  else
    b ← load (pos c) 1 c;
    let c := if le_val b =? EVENT_TYPE_LIST_STOP then set_pos (pos c + 1) c else c in
    if list_nest_depth c =? 0 then Ret (e, set_list_stop false c)
    else
      let c := set_list_nest_depth (list_nest_depth c - 1) c in
      n ← at_ (count c) (list_nest_depth c);
      Ret (e, if n =? 0 then c else set_list_stop false c).

(** The byte of a stop that nothing asked for. *)
Definition surprise_stop (p : Z) (peek : bool) (c : context) : outcome (element * context) :=
  let c' := if peek then c else set_pos p c in
  if list_nest_depth c =? 0 then Ret (mkElement EVENT_TYPE_UNKNOWN true 0 NoData, c')
  else Ret (mkElement EVENT_TYPE_LIST_STOP false 0 NoData, if peek then c' else set_list_nest_depth (list_nest_depth c - 1) c').

(** There is nothing to parse, or no more than can be. *)
Definition nothing_left (c : context) : outcome bool :=
  match read_write_flag c with
  | kAndroidLoggerWrite => Ret true
  | kAndroidLoggerRead =>
      if ANDROID_MAX_LIST_NEST_DEPTH <? list_nest_depth c then Ret true
      else n ← at_ (count c) (list_nest_depth c); Ret (MAX_EVENT_PAYLOAD / 2 <=? n)
  end.
Definition last_element (c : context) : outcome element :=
  stop ← (if list_stop c then Ret true
          else if list_nest_depth c <=? ANDROID_MAX_LIST_NEST_DEPTH
               then n ← at_ (count c) (list_nest_depth c); Ret (n =? 0)
               else Ret false);
  Ret (mkElement (if (stop : bool) then EVENT_TYPE_LIST_STOP else EVENT_TYPE_UNKNOWN) true 0 NoData).

Definition android_log_read_next_internal (peek : bool) (c : context) : outcome (element * context) :=
  nothing ← nothing_left c;
  if nothing : bool then e ← last_element c; Ret (e, c)
  else if list_stop c then read_stop peek c
  else if len c <? pos c + 1 then Ret (mkElement EVENT_TYPE_UNKNOWN true 0 NoData, c)
  else
    b ← load (pos c) 1 c;
    let type := le_val b in
    let p := pos c + 1 in
    if (type =? EVENT_TYPE_FLOAT) || (type =? EVENT_TYPE_INT) then read_number type p 4 (λ b, Int32 (s32 (le_val b))) peek c
    else if type =? EVENT_TYPE_LONG then read_number type p 8 (λ b, Int64 (s64 (get64 b))) peek c
    else if type =? EVENT_TYPE_STRING then read_string p peek c
    else if type =? EVENT_TYPE_LIST then read_list p peek c
    else if type =? EVENT_TYPE_LIST_STOP then surprise_stop p peek c
    else Ret (mkElement EVENT_TYPE_UNKNOWN false 0 NoData, c).
Definition android_log_read_next : context → outcome (element * context) := android_log_read_next_internal false.
Definition android_log_peek_next : context → outcome (element * context) := android_log_read_next_internal true.

(** ** Types *)

(** An element carries what its type says. *)
Definition well_typed (e : element) : Prop :=
  match e_data e with
  | Int32 v => (e_type e = EVENT_TYPE_INT ∨ e_type e = EVENT_TYPE_FLOAT) ∧ e_len e = 4 ∧ - 2 ^ 31 ≤ v < 2 ^ 31
  | Int64 v => e_type e = EVENT_TYPE_LONG ∧ e_len e = 8 ∧ - 2 ^ 63 ≤ v < 2 ^ 63
  | StringAt s => e_type e = EVENT_TYPE_STRING ∧ zlen s = e_len e ∧ e_len e < 2 ^ 16
  | NoData => e_type e = EVENT_TYPE_LIST ∨ e_type e = EVENT_TYPE_LIST_STOP ∨ e_type e = EVENT_TYPE_UNKNOWN
  end.

(** A parser of [msg]; its arrays and its buffer keep their sizes. *)
Record parser_inv (msg : bytes) (c : context) : Prop := {
  pa_flag : read_write_flag c = kAndroidLoggerRead;
  pa_storage : storage c = msg ++ replicate (Z.to_nat (LOGGER_ENTRY_MAX_PAYLOAD - zlen msg)) NUL;
  pa_len : len c = zlen msg;
  pa_max : zlen msg ≤ MAX_EVENT_PAYLOAD;
  pa_pos : 0 ≤ pos c ≤ zlen msg;
  pa_count : length (count c) = 9%nat;
  pa_depth : 0 ≤ list_nest_depth c ≤ ANDROID_MAX_LIST_NEST_DEPTH + 1
}.

Lemma at_Ret l i : length l = 9%nat → 0 ≤ i ≤ ANDROID_MAX_LIST_NEST_DEPTH → ∃ v, at_ l i = Ret v ∧ l !! Z.to_nat i = Some v.
Proof.
  unfold ANDROID_MAX_LIST_NEST_DEPTH, at_. intros Hl Hi. destruct (lookup_lt_is_Some_2 l (Z.to_nat i) ltac:(lia)) as [v Hv]. exists v. by rewrite Hv.
Qed.
Lemma set_at_Ret l i v : length l = 9%nat → 0 ≤ i ≤ ANDROID_MAX_LIST_NEST_DEPTH → set_at l i v = Ret (<[Z.to_nat i := v]> l).
Proof. unfold ANDROID_MAX_LIST_NEST_DEPTH, set_at, zlen. intros -> Hi. by rewrite (proj2 (Z.ltb_lt _ _)) by lia. Qed.

Section parser.
Context (msg : bytes).

Lemma storage_zlen c : parser_inv msg c → zlen (storage c) = LOGGER_ENTRY_MAX_PAYLOAD.
Proof.
  intros Hi. rewrite (pa_storage _ _ Hi), zlen_app, zlen_replicate; [lia|].
  pose proof (pa_max _ _ Hi). unfold MAX_EVENT_PAYLOAD in *. lia.
Qed.

Lemma load_Ret off n c :
  parser_inv msg c → 0 ≤ off → 0 ≤ n → off + n ≤ LOGGER_ENTRY_MAX_PAYLOAD →
  load off n c = Ret (slice (storage c) off n) ∧ zlen (slice (storage c) off n) = n.
Proof.
  intros Hi Ho Hn Hl. unfold load. pose proof (storage_zlen c Hi) as Hs. rewrite (proj2 (Z.leb_le _ _)) by lia. split; [done|].
  by apply zlen_slice; [..|lia].
Qed.

Lemma inv_count c i v :
  parser_inv msg c → 0 ≤ i ≤ ANDROID_MAX_LIST_NEST_DEPTH →
  ∃ c', set_count_at i v c = Ret c' ∧ parser_inv msg c' ∧ pos c' = pos c ∧ list_nest_depth c' = list_nest_depth c.
Proof.
  intros Hi Hr. unfold set_count_at. rewrite set_at_Ret by (done || apply Hi). eexists. split; [done|]. split; [|done].
  destruct Hi. constructor; cbn; try done. by rewrite length_insert.
Qed.

Lemma inv_pos c p : parser_inv msg c → 0 ≤ p ≤ zlen msg → parser_inv msg (set_pos p c).
Proof. intros [] Hp. by constructor. Qed.
Lemma inv_stop c b : parser_inv msg c → parser_inv msg (set_list_stop b c).
Proof. intros []. by constructor. Qed.
Lemma inv_depth c d : parser_inv msg c → 0 ≤ d ≤ ANDROID_MAX_LIST_NEST_DEPTH + 1 → parser_inv msg (set_list_nest_depth d c).
Proof. intros [] Hd. by constructor. Qed.

(** A call returns a well-typed element, and the parser goes on. *)
Definition reads_well (m : outcome (element * context)) : Prop := ∃ e c, m = Ret (e, c) ∧ parser_inv msg c ∧ well_typed e.

Lemma value_read_Ret p c :
  parser_inv msg c → list_nest_depth c ≤ ANDROID_MAX_LIST_NEST_DEPTH → 0 ≤ p ≤ zlen msg →
  ∃ c', value_read p c = Ret c' ∧ parser_inv msg c'.
Proof.
  intros Hi Hd Hp. pose proof (pa_depth _ _ Hi). unfold value_read.
  destruct (at_Ret (count c) (list_nest_depth c)) as (n & -> & _); [apply Hi|lia|]. cbn [mbind outcome_bind].
  destruct (n =? 0); [eexists; split; [done|]; by apply inv_pos; [apply inv_stop|]|].
  destruct (inv_count c (list_nest_depth c) (n - 1) Hi) as (c' & -> & Hi' & _); [lia|]. cbn [mbind outcome_bind].
  destruct (n - 1 =? 0); eexists; (split; [done|]); apply inv_pos; try done. by apply inv_stop.
Qed.

Lemma read_number_well type p size value peek c :
  parser_inv msg c → list_nest_depth c ≤ ANDROID_MAX_LIST_NEST_DEPTH → 0 ≤ p → 0 < size →
  (∀ b n, zlen b = size → well_typed (mkElement type n size (value b))) → reads_well (read_number type p size value peek c).
Proof.
  intros Hi Hd Hp Hs Hv. pose proof (pa_len _ _ Hi) as Hl. pose proof (pa_max _ _ Hi) as Hm. unfold read_number, reads_well.
  destruct (Z.ltb_spec (len c) (p + size)) as [|Hfit]; [eexists _, c; split; [done|]; split; [done|]; cbn; auto|].
  destruct (load_Ret p size c Hi) as [-> Hb]; [lia|lia|unfold MAX_EVENT_PAYLOAD in *; lia|]. cbn [mbind outcome_bind].
  destruct (at_Ret (count c) 0) as (n0 & -> & _); [apply Hi|done|]. cbn [mbind outcome_bind].
  destruct peek; [eexists _, c; split; [done|]; split; [done|]; by apply Hv|].
  destruct (value_read_Ret (p + size) c Hi Hd) as (c' & -> & Hi'); [lia|]. eexists _, c'. split; [done|]. split; [done|]. by apply Hv.
Qed.

Lemma u16_range z : 0 ≤ u16 z < 2 ^ 16.
Proof. apply Z.mod_pos_bound. lia. Qed.

Lemma read_string_well p peek c :
  parser_inv msg c → list_nest_depth c ≤ ANDROID_MAX_LIST_NEST_DEPTH → 0 ≤ p → reads_well (read_string p peek c).
Proof.
  intros Hi Hd Hp. pose proof (pa_len _ _ Hi) as Hl. pose proof (pa_max _ _ Hi) as Hm. unfold read_string, reads_well.
  destruct (Z.ltb_spec (len c) (p + 4)) as [|Hfit]; [eexists _, c; split; [done|]; split; [done|]; cbn; auto|].
  destruct (load_Ret p 4 c Hi) as [-> Hb]; [lia|lia|unfold MAX_EVENT_PAYLOAD in *; lia|]. cbn [mbind outcome_bind]. cbv zeta.
  set (m := u16 (le_val _)). pose proof (u16_range (le_val (slice (storage c) p 4))) as Hu. fold m in Hu.
  set (n := if len c <? p + 4 + m then u16 (len c - (p + 4)) else m).
  assert (Hn : 0 ≤ n < 2 ^ 16 ∧ p + 4 + n ≤ len c).
  { unfold n. destruct (Z.ltb_spec (len c) (p + 4 + m)); [|lia]. unfold u16. rewrite Z.mod_small; [lia|]. unfold MAX_EVENT_PAYLOAD, LOGGER_ENTRY_MAX_PAYLOAD in *. lia. }
  clearbody n. destruct (_ && _)%bool; [eexists _, c; split; [done|]; split; [done|]; cbn; auto|].
  destruct (load_Ret (p + 4) n c Hi) as [-> Hs]; [lia|lia|unfold MAX_EVENT_PAYLOAD in *; lia|]. cbn [mbind outcome_bind].
  destruct (at_Ret (count c) 0) as (n0 & -> & _); [apply Hi|done|]. cbn [mbind outcome_bind].
  assert (Hw : ∀ b, well_typed (mkElement EVENT_TYPE_STRING b n (StringAt (slice (storage c) (p + 4) n)))) by (intros b; cbn; lia).
  destruct peek; [eexists _, c; split; [done|]; split; [done|]; apply Hw|].
  destruct (value_read_Ret (p + 4 + n) c Hi Hd) as (c' & -> & Hi'); [lia|]. eexists _, c'. split; [done|]. split; [done|]. apply Hw.
Qed.

Lemma read_list_well p peek c :
  parser_inv msg c → list_nest_depth c ≤ ANDROID_MAX_LIST_NEST_DEPTH → 0 ≤ p → reads_well (read_list p peek c).
Proof.
  intros Hi Hd Hp. pose proof (pa_len _ _ Hi) as Hl. pose proof (pa_max _ _ Hi) as Hm. pose proof (pa_depth _ _ Hi) as Hd0. unfold read_list, reads_well.
  destruct (Z.ltb_spec (len c) (p + 1)) as [|Hfit]; [eexists _, c; split; [done|]; split; [done|]; cbn; auto|].
  assert (Hw : ∀ b, well_typed (mkElement EVENT_TYPE_LIST b 0 NoData)) by (cbn; auto). cbv zeta.
  destruct peek; [eexists _, c; split; [done|]; split; [done|]; apply Hw|].
  destruct (at_Ret (count c) (list_nest_depth c)) as (n & -> & _); [apply Hi|lia|]. cbn [mbind outcome_bind].
  assert (∃ c1, (if n =? 0 then Ret c else set_count_at (list_nest_depth c) (n - 1) c) = Ret c1 ∧ parser_inv msg c1 ∧ list_nest_depth c1 = list_nest_depth c)
    as (c1 & -> & Hi1 & Hd1).
  { destruct (n =? 0); [by exists c|]. destruct (inv_count c (list_nest_depth c) (n - 1) Hi) as (c1 & ? & ? & _ & ?); [lia|]. by exists c1. }
  cbn [mbind outcome_bind]. destruct (load_Ret p 1 c1 Hi1) as [-> _]; [lia|lia|unfold MAX_EVENT_PAYLOAD in *; lia|]. cbn [mbind outcome_bind]. cbv zeta.
  set (c2 := set_list_nest_depth _ _). assert (Hi2 : parser_inv msg c2).
  { apply inv_depth; [by apply inv_stop|]. cbn. lia. }
  assert (Hd2 : list_nest_depth c2 = list_nest_depth c + 1) by (cbn; lia). clearbody c2.
  assert (∃ c3, (if list_nest_depth c2 <=? ANDROID_MAX_LIST_NEST_DEPTH then set_count_at (list_nest_depth c2) (le_val (slice (storage c1) p 1)) c2 else Ret c2) = Ret c3 ∧ parser_inv msg c3)
    as (c3 & -> & Hi3).
  { destruct (Z.leb_spec (list_nest_depth c2) ANDROID_MAX_LIST_NEST_DEPTH); [|by exists c2].
    destruct (inv_count c2 (list_nest_depth c2) (le_val (slice (storage c1) p 1)) Hi2) as (c3 & ? & ? & _); [lia|]. by exists c3. }
  eexists _, _. split; [done|]. split; [|apply Hw]. apply inv_pos; [done|lia].
Qed.

(** Behind the message the buffer is zero. *)
Lemma stop_inside c : parser_inv msg c → le_val (slice (storage c) (pos c) 1) = EVENT_TYPE_LIST_STOP → pos c + 1 ≤ zlen msg.
Proof.
  intros Hi He. pose proof (pa_pos _ _ Hi). pose proof (pa_max _ _ Hi). destruct (Z.ltb_spec (pos c) (zlen msg)) as [|Hge]; [lia|].
  rewrite (pa_storage _ _ Hi), slice_suffix in He by lia. replace (pos c - zlen msg) with 0 in He by lia.
  unfold MAX_EVENT_PAYLOAD, LOGGER_ENTRY_MAX_PAYLOAD in *. destruct (Z.to_nat (4068 - zlen msg)) eqn:En; [lia|]. discriminate He.
Qed.

Lemma read_stop_well peek c :
  parser_inv msg c → list_nest_depth c ≤ ANDROID_MAX_LIST_NEST_DEPTH → reads_well (read_stop peek c).
Proof.
  intros Hi Hd. pose proof (pa_max _ _ Hi) as Hm. pose proof (pa_depth _ _ Hi) as Hd0. pose proof (pa_pos _ _ Hi) as Hp. unfold read_stop, reads_well.
  destruct (at_Ret (count c) 0) as (n0 & -> & _); [apply Hi|done|]. destruct (at_Ret (count c) 1) as (n1 & -> & _); [apply Hi|done|].
  cbn [mbind outcome_bind]. cbv zeta.
  assert (Hw : ∀ b, well_typed (mkElement EVENT_TYPE_LIST_STOP b 0 NoData)) by (cbn; auto).
  destruct peek; [eexists _, c; split; [done|]; split; [done|]; apply Hw|].
  destruct (load_Ret (pos c) 1 c Hi) as [-> _]; [lia|lia|unfold MAX_EVENT_PAYLOAD in *; lia|]. cbn [mbind outcome_bind].
  set (c1 := if _ : bool then set_pos (pos c + 1) c else c).
  assert (Hi1 : parser_inv msg c1).
  { unfold c1. destruct (Z.eqb_spec (le_val (slice (storage c) (pos c) 1)) EVENT_TYPE_LIST_STOP) as [He|]; [|done].
    apply inv_pos; [done|]. pose proof (stop_inside c Hi He). lia. }
  assert (Hd1 : list_nest_depth c1 = list_nest_depth c) by (unfold c1; by destruct (_ =? _)). clearbody c1.
  destruct (Z.eqb_spec (list_nest_depth c1) 0); [eexists _, _; split; [done|]; split; [by apply inv_stop|apply Hw]|].
  set (c2 := set_list_nest_depth _ c1). assert (Hi2 : parser_inv msg c2) by (apply inv_depth; [done|lia]).
  destruct (at_Ret (count c2) (list_nest_depth c2)) as (m & -> & _); [apply Hi2|cbn; lia|]. cbn [mbind outcome_bind].
  eexists _, _. split; [done|]. split; [|apply Hw]. destruct (m =? 0); [done|by apply inv_stop].
Qed.

Lemma surprise_stop_well p peek c : parser_inv msg c → 0 ≤ p ≤ zlen msg → reads_well (surprise_stop p peek c).
Proof.
  intros Hi Hp. pose proof (pa_depth _ _ Hi) as Hd. unfold surprise_stop, reads_well. cbv zeta.
  assert (Hi' : parser_inv msg (if peek then c else set_pos p c)) by (destruct peek; [done|by apply inv_pos]).
  destruct (Z.eqb_spec (list_nest_depth c) 0); [eexists _, _; split; [done|]; split; [done|cbn; auto]|].
  eexists _, _. split; [done|]. split; [|cbn; auto]. destruct peek; [done|]. apply inv_depth; [done|lia].
Qed.

Lemma s32_range z : - 2 ^ 31 ≤ s32 z < 2 ^ 31.
Proof. unfold s32. pose proof (Z.mod_pos_bound (z + 2 ^ 31) (2 ^ 32) ltac:(lia)). lia. Qed.
Lemma s64_range z : - 2 ^ 63 ≤ s64 z < 2 ^ 63.
Proof. unfold s64. pose proof (Z.mod_pos_bound (z + 2 ^ 63) (2 ^ 64) ltac:(lia)). lia. Qed.

Lemma read_next_well peek c : parser_inv msg c → reads_well (android_log_read_next_internal peek c).
Proof.
  intros Hi. pose proof (pa_depth _ _ Hi) as Hd. pose proof (pa_pos _ _ Hi) as Hp. pose proof (pa_max _ _ Hi) as Hm. pose proof (pa_len _ _ Hi) as Hl.
  unfold android_log_read_next_internal, nothing_left. rewrite (pa_flag _ _ Hi).
  assert (Hlast : ∃ e, last_element c = Ret e ∧ well_typed e).
  { unfold last_element. destruct (list_stop c); [eexists; split; [done|]; cbn; auto|].
    destruct (Z.leb_spec (list_nest_depth c) ANDROID_MAX_LIST_NEST_DEPTH); [|eexists; split; [done|]; cbn; auto].
    destruct (at_Ret (count c) (list_nest_depth c)) as (n & -> & _); [apply Hi|lia|]. eexists. split; [done|]. cbn. destruct (n =? 0); auto. }
  destruct Hlast as (e & He & Hwe).
  destruct (Z.ltb_spec ANDROID_MAX_LIST_NEST_DEPTH (list_nest_depth c)) as [|Hdl]; [cbn; rewrite He; by eexists e, c|].
  destruct (at_Ret (count c) (list_nest_depth c)) as (n & -> & _); [apply Hi|lia|]. cbn [mbind outcome_bind].
  destruct (_ <=? n); [rewrite He; by eexists e, c|]. destruct (list_stop c); [by apply read_stop_well|].
  destruct (Z.ltb_spec (len c) (pos c + 1)); [eexists _, c; split; [done|]; split; [done|]; cbn; auto|].
  destruct (load_Ret (pos c) 1 c Hi) as [-> _]; [lia|lia|unfold MAX_EVENT_PAYLOAD in *; lia|]. cbn [mbind outcome_bind]. cbv zeta.
  set (type := le_val _). clearbody type.
  destruct (_ || _) eqn:E1.
  { apply read_number_well; [done..|lia|lia|]. intros b f Hb. cbn. pose proof (s32_range (le_val b)). apply orb_true_iff in E1 as [?%Z.eqb_eq|?%Z.eqb_eq]; auto. }
  destruct (Z.eqb_spec type EVENT_TYPE_LONG) as [->|].
  { apply read_number_well; [done..|lia|lia|]. intros b f Hb. cbn. pose proof (s64_range (get64 b)). auto. }
  destruct (type =? EVENT_TYPE_STRING); [apply read_string_well; [done..|lia]|].
  destruct (type =? EVENT_TYPE_LIST); [apply read_list_well; [done..|lia]|].
  destruct (type =? EVENT_TYPE_LIST_STOP); [apply surprise_stop_well; [done|lia]|]. eexists _, c. split; [done|]. split; [done|]. cbn. auto.
Qed.

Fixpoint read_elements (peeks : list bool) (c : context) : outcome (list element * context) :=
  match peeks with
  | [] => Ret ([], c)
  | peek :: peeks => '(e, c) ← android_log_read_next_internal peek c; '(es, c) ← read_elements peeks c; Ret (e :: es, c)
  end.

Lemma read_elements_well peeks c :
  parser_inv msg c → ∃ es c', read_elements peeks c = Ret (es, c') ∧ length es = length peeks ∧ Forall well_typed es.
Proof.
  revert c. induction peeks as [|peek peeks IH]; intros c Hi; [by eexists _, _|]. cbn [read_elements].
  destruct (read_next_well peek c Hi) as (e & c1 & -> & Hi1 & He). destruct (IH c1 Hi1) as (es & c' & Hr & Hl & Hes).
  exists (e :: es), c'. cbn. rewrite Hr. split; [done|]. cbn. rewrite Hl. split; [done|]. by constructor.
Qed.
End parser.

Lemma create_parser_Ret msg :
  let shown := take (Z.to_nat MAX_EVENT_PAYLOAD) msg in
  ∃ c, create_android_log_parser msg = Ret c ∧ parser_inv shown c ∧ pos c = 0 ∧ list_nest_depth c = 0 ∧ list_stop c = false ∧ count c = no_counts.
Proof.
  intros shown. unfold create_android_log_parser. cbv zeta. set (n := if _ <=? _ then _ else _).
  assert (Hn : n = zlen shown ∧ take (Z.to_nat n) msg = shown).
  { unfold n, shown. destruct (Z.leb_spec (zlen msg) MAX_EVENT_PAYLOAD) as [Hle|Hgt].
    - rewrite (take_ge msg (Z.to_nat MAX_EVENT_PAYLOAD)) by (unfold zlen in Hle; lia). split; [done|]. apply take_ge. unfold zlen. lia.
    - split; [|done]. unfold zlen in *. rewrite length_take. unfold MAX_EVENT_PAYLOAD, LOGGER_ENTRY_MAX_PAYLOAD in *. lia. }
  destruct Hn as [-> ->]. assert (Hmax : zlen shown ≤ MAX_EVENT_PAYLOAD).
  { unfold shown, zlen. rewrite length_take. unfold MAX_EVENT_PAYLOAD, LOGGER_ENTRY_MAX_PAYLOAD. lia. }
  clearbody shown. unfold store. cbn [storage].
  assert (Hsplit : replicate (Z.to_nat LOGGER_ENTRY_MAX_PAYLOAD) NUL = [] ++ replicate (length shown) NUL ++ replicate (Z.to_nat (LOGGER_ENTRY_MAX_PAYLOAD - zlen shown)) NUL).
  { cbn [app]. rewrite <-replicate_add. f_equal. unfold zlen, MAX_EVENT_PAYLOAD in *. lia. }
  rewrite Hsplit. change 0 with (zlen (@nil ascii)) at 1. rewrite memcpy_at by by rewrite length_replicate.
  cbn [mbind outcome_bind]. eexists. split; [done|]. split; [|done]. constructor; cbn; try done.
  split; [done|]. apply zlen_nonneg.
Qed.

(** C34: whatever bytes a message consists of and however a reader mixes reading
    and peeking, each call returns an element that carries what its type says: a
    number of its width, or a string of the length given; no array of the parser
    and not its buffer is read or written out of range. *)
Theorem parser_well_typed msg peeks :
  ∃ c0, create_android_log_parser msg = Ret c0 ∧
  ∃ es c, read_elements peeks c0 = Ret (es, c) ∧ length es = length peeks ∧ Forall well_typed es.
Proof. destruct (create_parser_Ret msg) as (c0 & -> & Hi & _). exists c0. split; [done|]. by eapply read_elements_well. Qed.
