(* ===== verification/LogRoundtrip.v ===== *)
(** * Lists of events, from a writer to a reader
    (src/lib/liblog/log_event_list.c)

    What a client writes with the calls of LogEvents.v, the bytes that the log
    is given for it, and the elements that a parser of these bytes returns. *)

From Stdlib Require Import ZArith Lia List Ascii String.
From stdpp Require Import base numbers list strings.
From S2P Require Import Prelude.
From S2P Require Import Libc.
From S2P Require Import Wire.
From S2P Require Import IOVector.
From S2P Require Import LogEvents.

(** What can be logged; a [float] is its bits. *)
Inductive item := IInt (v : Z) | ILong (v : Z) | IFloat (bits : Z) | IString (s : bytes) | IList (l : list item).

Section item_induction.
Context (P : item → Prop) (Hint : ∀ v, P (IInt v)) (Hlong : ∀ v, P (ILong v)) (Hfloat : ∀ b, P (IFloat b))
  (Hstring : ∀ s, P (IString s)) (Hlist : ∀ l, Forall P l → P (IList l)).
Fixpoint item_induction (i : item) : P i :=
  match i with
  | IInt v => Hint v | ILong v => Hlong v | IFloat b => Hfloat b | IString s => Hstring s
  | IList l => Hlist l ((fix go l : Forall P l := match l with [] => Forall_nil_2 P | i :: l => Forall_cons_2 P i l (item_induction i) (go l) end) l)
  end.
End item_induction.

(** How deep lists are nested. *)
Fixpoint nesting (i : item) : Z :=
  match i with IList l => 1 + foldr Z.max 0 (nesting <$> l) | _ => 0 end.
(** Values of their type, C strings, and lists whose length is a byte. *)
Fixpoint item_ok (i : item) : Prop :=
  match i with
  | IInt v => - 2 ^ 31 ≤ v < 2 ^ 31
  | ILong v => - 2 ^ 63 ≤ v < 2 ^ 63
  | IFloat b => 0 ≤ b < 2 ^ 32
  | IString s => nul_free s
  | IList l => (length l < 256)%nat ∧ foldr (λ P Q, P ∧ Q) True (item_ok <$> l)
  end.

(** A client writes them. *)
Fixpoint write_item (i : item) (c : context) : outcome (bool * context) :=
  let sent m := '(r, c) ← m c; Ret (0 <=? r, c) in
  match i with
  | IInt v => sent (android_log_write_int32 v)
  | ILong v => sent (android_log_write_int64 v)
  | IFloat b => sent (android_log_write_float32 b)
  | IString s => sent (android_log_write_string8 (Some s))
  | IList l =>
      '(b, c) ← sent android_log_write_list_begin;
      '(bs, c) ← (fix go l c := match l with [] => Ret (true, c) | i :: l => '(b, c) ← write_item i c; '(bs, c) ← go l c; Ret (b && bs, c) end) l c;
      '(e, c) ← '(r, c) ← android_log_write_list_end c; Ret (0 <=? r, c);
      Ret (b && bs && e, c)
  end.
Fixpoint write_items (l : list item) (c : context) : outcome (bool * context) :=
  match l with [] => Ret (true, c) | i :: l => '(b, c) ← write_item i c; '(bs, c) ← write_items l c; Ret (b && bs, c) end.

(** The bytes of an item. *)
Fixpoint encode (i : item) : bytes :=
  match i with
  | IInt v => of_cval EVENT_TYPE_INT :: le32 v
  | ILong v => of_cval EVENT_TYPE_LONG :: le64 v
  | IFloat b => of_cval EVENT_TYPE_FLOAT :: le32 b
  | IString s => of_cval EVENT_TYPE_STRING :: le32 (zlen s) ++ s
  | IList l => of_cval EVENT_TYPE_LIST :: of_cval (zlen l) :: concat (encode <$> l)
  end.
Definition message (l : list item) : bytes :=
  if zlen l <=? 1 then concat (encode <$> l) else encode (IList l).

(** ** The writer *)

(** [pre] has been written, at the depth [d]. *)
Record writing (pre : bytes) (d : Z) (c : context) : Prop := {
  wr_flag : read_write_flag c = kAndroidLoggerWrite;
  wr_overflow : overflow c = false;
  wr_storage : ∃ rest, storage c = pre ++ rest;
  wr_size : zlen (storage c) = LOGGER_ENTRY_MAX_PAYLOAD;
  wr_pos : pos c = zlen pre;
  wr_depth : list_nest_depth c = d;
  wr_range : 0 ≤ d ≤ ANDROID_MAX_LIST_NEST_DEPTH;
  wr_count : length (count c) = 9%nat;
  wr_list : length (list_ c) = 9%nat
}.

(** Elements were added at the depth [d]; what belongs to the lists around them
    is as before. *)
Record added (pre : bytes) (d n : Z) (c c' : context) : Prop := {
  ad_writing : writing pre d c';
  ad_count : ∀ m, count c !! Z.to_nat d = Some m → 0 ≤ m → m + n < 2 ^ 32 → count c' !! Z.to_nat d = Some (m + n);
  ad_counts : ∀ j, (j < Z.to_nat d)%nat → count c' !! j = count c !! j;
  ad_lists : ∀ j, (j ≤ Z.to_nat d)%nat → list_ c' !! j = list_ c !! j
}.

Lemma store_Ret pre rest data c :
  storage c = pre ++ rest → zlen pre + zlen data ≤ zlen (storage c) →
  ∃ rest', store (zlen pre) data c = Ret (set_storage (pre ++ data ++ rest') c) ∧ zlen (pre ++ data ++ rest') = zlen (storage c).
Proof.
  intros Hs Hl. unfold store. rewrite Hs in *. rewrite zlen_app in Hl.
  rewrite <-(take_drop (length data) rest). exists (drop (length data) rest).
  rewrite memcpy_at by (rewrite length_take; unfold zlen in *; lia). split; [done|].
  rewrite take_drop, !zlen_app. unfold zlen in *. rewrite length_drop. lia.
Qed.

Lemma item_limits : 0 < LOGGER_ENTRY_MAX_PAYLOAD ∧ MAX_EVENT_PAYLOAD + 4 = LOGGER_ENTRY_MAX_PAYLOAD ∧ LOGGER_ENTRY_MAX_PAYLOAD < 2 ^ 16.
Proof. done. Qed.

(** The count of the list that is being written. *)
Lemma bump_Ret pre d c :
  writing pre d c →
  ∃ m c1, at_ (count c) d = Ret m ∧ set_count_at d (u32 (m + 1)) c = Ret c1 ∧ c1 = set_count (<[Z.to_nat d := u32 (m + 1)]> (count c)) c ∧
    count c !! Z.to_nat d = Some m.
Proof.
  intros Hw. destruct (at_Ret (count c) d) as (m & Hm & Hl); [apply Hw|apply Hw|].
  exists m. eexists. split; [done|]. unfold set_count_at. rewrite set_at_Ret by apply Hw. done.
Qed.

Lemma added_one pre pre' d m c c' :
  writing pre d c → count c !! Z.to_nat d = Some m → writing pre' d c' →
  count c' = <[Z.to_nat d := u32 (m + 1)]> (count c) → list_ c' = list_ c → added pre' d 1 c c'.
Proof.
  intros Hw Hm Hw' Hc Hl. constructor; [done|..].
  - intros m' Hm' H0 Hm1. rewrite Hm in Hm'. injection Hm' as <-. rewrite Hc, list_lookup_insert_eq; [by rewrite u32_small by lia|].
    by eapply lookup_lt_Some.
  - intros j Hj. rewrite Hc, list_lookup_insert_ne by lia. done.
  - intros j Hj. by rewrite Hl.
Qed.

Lemma write_value_Ret type value pre d c :
  writing pre d c → zlen pre + 1 + zlen value ≤ MAX_EVENT_PAYLOAD →
  ∃ c', write_value type value c = Ret (0, c') ∧ added (pre ++ of_cval type :: value) d 1 c c'.
Proof.
  intros Hw Hfit. pose proof item_limits as (_ & Hlim & _). pose proof (zlen_nonneg value) as Hv.
  destruct (bump_Ret pre d c Hw) as (m & c1 & Hm & Hc1 & -> & Hlk).
  unfold write_value. rewrite (wr_flag _ _ _ Hw), (wr_overflow _ _ _ Hw), (wr_pos _ _ _ Hw), (wr_depth _ _ _ Hw).
  rewrite (proj2 (Z.ltb_ge _ _)) by lia. rewrite Hm. cbn [mbind outcome_bind]. rewrite Hc1. cbn [mbind outcome_bind pos set_count].
  destruct (wr_storage _ _ _ Hw) as [rest Hs]. rewrite (wr_pos _ _ _ Hw). set (c1 := set_count _ c) in *.
  destruct (store_Ret pre rest [of_cval type] c1) as (rest1 & -> & Hl1); [exact Hs|change (storage c1) with (storage c); rewrite (wr_size _ _ _ Hw); change (zlen [of_cval type]) with 1; lia|].
  cbn [mbind outcome_bind]. set (c2 := set_storage _ c1) in *. assert (Hp2 : pos c2 + 1 = zlen (pre ++ [of_cval type])).
  { rewrite zlen_app. cbn. rewrite (wr_pos _ _ _ Hw). done. }
  rewrite Hp2. destruct (store_Ret (pre ++ [of_cval type]) rest1 value c2) as (rest2 & -> & Hl2).
  { cbn. by rewrite <-app_assoc. }
  { change (storage c2) with (pre ++ [of_cval type] ++ rest1). rewrite Hl1. change (storage c1) with (storage c).
    rewrite (wr_size _ _ _ Hw), zlen_app. change (zlen [of_cval type]) with 1. lia. }
  cbn [mbind outcome_bind]. eexists. split; [done|].
  apply (added_one pre _ d m c _ Hw Hlk); [|done|done]. destruct Hw. constructor; cbn -[zlen app]; try done.
  - exists rest2. by rewrite <-!app_assoc.
  - rewrite Hl2. change (storage c2) with (pre ++ [of_cval type] ++ rest1). by rewrite Hl1.
  - rewrite wr_pos0, zlen_app, zlen_cons. lia.
  - by rewrite length_insert.
Qed.

(** Two stores, one behind the other. *)
Lemma store_twice pre rest d1 d2 c :
  storage c = pre ++ rest → zlen pre + zlen d1 + zlen d2 ≤ zlen (storage c) →
  ∃ rest', (c ← store (zlen pre) d1 c; store (zlen pre + zlen d1) d2 c) = Ret (set_storage (pre ++ (d1 ++ d2) ++ rest') c) ∧
    zlen (pre ++ (d1 ++ d2) ++ rest') = zlen (storage c).
Proof.
  intros Hs Hl. pose proof (zlen_nonneg d2). destruct (store_Ret pre rest d1 c Hs) as (rest1 & -> & Hl1); [lia|]. cbn [mbind outcome_bind].
  set (c1 := set_storage _ c). destruct (store_Ret (pre ++ d1) rest1 d2 c1) as (rest2 & Hr & Hl2).
  { cbn. by rewrite <-app_assoc. }
  { change (storage c1) with (pre ++ d1 ++ rest1). rewrite Hl1, zlen_app. lia. }
  rewrite zlen_app in Hr. rewrite Hr. exists rest2. rewrite <-!app_assoc in *. split; [done|]. rewrite Hl2. change (storage c1) with (pre ++ d1 ++ rest1). done.
Qed.

Lemma write_string_Ret s pre d c :
  writing pre d c → nul_free s → zlen pre + 5 + zlen s ≤ MAX_EVENT_PAYLOAD →
  ∃ c', android_log_write_string8 (Some s) c = Ret (zlen s, c') ∧ added (pre ++ encode (IString s)) d 1 c c'.
Proof.
  intros Hw Hs Hfit. pose proof item_limits as (_ & Hlim & _). pose proof (zlen_nonneg s) as Hv. pose proof (zlen_nonneg pre) as Hpre.
  destruct (bump_Ret pre d c Hw) as (m & c1 & Hm & Hc1 & -> & Hlk).
  unfold android_log_write_string8, android_log_write_string8_len. cbn [default].
  rewrite c_str_id by done. rewrite (take_ge s) by (unfold zlen in *; lia).
  rewrite (wr_flag _ _ _ Hw), (wr_overflow _ _ _ Hw), (wr_pos _ _ _ Hw), (wr_depth _ _ _ Hw). cbv zeta.
  rewrite (proj2 (Z.ltb_ge MAX_EVENT_PAYLOAD _)) by lia. cbn [andb]. rewrite Hm. cbn [mbind outcome_bind]. rewrite Hc1. cbn [mbind outcome_bind].
  set (c1 := set_count _ c) in *. change (pos c1) with (pos c). rewrite (wr_pos _ _ _ Hw).
  destruct (wr_storage _ _ _ Hw) as [rest Hst].
  destruct (store_Ret pre rest [of_cval EVENT_TYPE_STRING] c1) as (rest1 & -> & Hl1); [exact Hst|change (storage c1) with (storage c); rewrite (wr_size _ _ _ Hw); change (zlen [of_cval EVENT_TYPE_STRING]) with 1; lia|].
  cbn [mbind outcome_bind]. set (c2 := set_storage _ c1) in *. set (pre1 := pre ++ [of_cval EVENT_TYPE_STRING]).
  assert (Hp1 : zlen pre1 = pos c2 + 1) by (unfold pre1; rewrite zlen_app; change (pos c2) with (pos c); rewrite (wr_pos _ _ _ Hw); done).
  rewrite (take_ge s) by (unfold zlen in *; lia).
  destruct (store_twice pre1 rest1 (le32 (zlen s)) s c2) as (rest2 & Hr & Hl2).
  { change (storage c2) with (pre ++ [of_cval EVENT_TYPE_STRING] ++ rest1). unfold pre1. by rewrite <-app_assoc. }
  { change (storage c2) with (pre ++ [of_cval EVENT_TYPE_STRING] ++ rest1). rewrite Hl1. change (storage c1) with (storage c).
    rewrite (wr_size _ _ _ Hw), Hp1, le32_length. change (pos c2) with (pos c). rewrite (wr_pos _ _ _ Hw). lia. }
  rewrite le32_length, Hp1 in Hr. replace (pos c2 + 1 + 4) with (pos c2 + 5) in Hr by lia.
  destruct (store (pos c2 + 1) (le32 (zlen s)) c2) as [c3|why] eqn:E; [|done]. cbn [mbind outcome_bind] in Hr |- *.
  assert (Hp3 : pos c3 = pos c2).
  { unfold store in E. destruct (memcpy _ _ _); [|done]. by injection E as <-. }
  rewrite Hp3, Hr. cbn [mbind outcome_bind]. eexists. split; [done|].
  apply (added_one pre _ d m c _ Hw Hlk); [|done|done]. destruct Hw. constructor; cbn -[zlen app le32]; try done.
  - exists rest2. unfold pre1. cbn [encode]. by rewrite <-!app_assoc.
  - rewrite Hl2. change (storage c2) with (pre ++ [of_cval EVENT_TYPE_STRING] ++ rest1). by rewrite Hl1.
  - cbn [encode]. rewrite wr_pos0, !zlen_app, zlen_cons, zlen_app, le32_length. lia.
  - by rewrite length_insert.
Qed.

Lemma list_begin_Ret pre d c :
  writing pre d c → d < ANDROID_MAX_LIST_NEST_DEPTH → zlen pre + 2 ≤ MAX_EVENT_PAYLOAD →
  ∃ m c', android_log_write_list_begin c = Ret (0, c') ∧ writing (pre ++ [of_cval EVENT_TYPE_LIST; of_cval 0]) (d + 1) c' ∧
    count c !! Z.to_nat d = Some m ∧ count c' = <[Z.to_nat (d + 1) := 0]> (<[Z.to_nat d := u32 (m + 1)]> (count c)) ∧
    list_ c' = <[Z.to_nat (d + 1) := zlen pre + 1]> (list_ c).
Proof.
  intros Hw Hd Hfit. pose proof item_limits as (_ & Hlim & _). pose proof (wr_range _ _ _ Hw) as Hr.
  destruct (bump_Ret pre d c Hw) as (m & c1 & Hm & Hc1 & -> & Hlk). exists m.
  unfold android_log_write_list_begin. rewrite (wr_flag _ _ _ Hw), (wr_pos _ _ _ Hw), (wr_depth _ _ _ Hw).
  rewrite !(proj2 (Z.ltb_ge _ _)) by lia. rewrite Hm. cbn [mbind outcome_bind]. rewrite Hc1. cbn [mbind outcome_bind].
  change (list_nest_depth (set_count _ c)) with (list_nest_depth c). rewrite (wr_depth _ _ _ Hw). cbv zeta.
  cbn [list_nest_depth set_list_nest_depth overflow set_count pos]. rewrite (proj2 (Z.ltb_ge _ _)) by lia. rewrite (wr_overflow _ _ _ Hw), (wr_pos _ _ _ Hw).
  set (c1 := set_list_nest_depth _ _). destruct (wr_storage _ _ _ Hw) as [rest Hst].
  destruct (store_Ret pre rest [of_cval EVENT_TYPE_LIST; of_cval 0] c1) as (rest1 & -> & Hl1); [exact Hst|change (storage c1) with (storage c); rewrite (wr_size _ _ _ Hw); change (zlen [_; _]) with 2; lia|].
  cbn [mbind outcome_bind]. unfold set_list_at, set_count_at. cbn [list_ count set_storage c1 set_list_nest_depth set_count list_nest_depth].
  rewrite set_at_Ret by (apply Hw || lia). cbn [mbind outcome_bind list_ count set_storage set_list_ list_nest_depth c1 set_list_nest_depth set_count].
  rewrite set_at_Ret by (rewrite ?length_insert; apply Hw || lia). cbn [mbind outcome_bind].
  eexists. split; [done|]. split_and!; try done; [|cbn; by rewrite (wr_pos _ _ _ Hw)].
  destruct Hw. constructor; cbn -[zlen app]; try done.
  - exists rest1. by rewrite <-app_assoc.
  - rewrite Hl1. done.
  - rewrite wr_pos0, zlen_app. done.
  - lia.
  - by rewrite !length_insert.
  - by rewrite length_insert.
Qed.

Lemma list_end_Ret pre x body d n c :
  writing (pre ++ [of_cval EVENT_TYPE_LIST; x] ++ body) (d + 1) c → 0 ≤ d →
  list_ c !! Z.to_nat (d + 1) = Some (zlen pre + 1) → count c !! Z.to_nat (d + 1) = Some n →
  ∃ c', android_log_write_list_end c = Ret (0, c') ∧ writing (pre ++ [of_cval EVENT_TYPE_LIST; of_cval n] ++ body) d c' ∧
    count c' = count c ∧ list_ c' = list_ c.
Proof.
  intros Hw Hd Hl Hn. pose proof (wr_range _ _ _ Hw) as Hr. pose proof (zlen_nonneg pre). unfold android_log_write_list_end.
  rewrite (wr_flag _ _ _ Hw), (wr_depth _ _ _ Hw), (proj2 (Z.ltb_ge _ _)), (proj2 (Z.eqb_neq _ _)) by lia.
  assert (at_ (list_ c) (d + 1) = Ret (zlen pre + 1)) as -> by (unfold at_; by rewrite Hl). cbn [mbind outcome_bind].
  rewrite (proj2 (Z.leb_gt _ _)) by lia. assert (at_ (count c) (d + 1) = Ret n) as -> by (unfold at_; by rewrite Hn). cbn [mbind outcome_bind].
  destruct (wr_storage _ _ _ Hw) as [rest Hst]. set (pre1 := pre ++ [of_cval EVENT_TYPE_LIST]).
  assert (Hs : storage c = pre1 ++ [x] ++ body ++ rest) by (unfold pre1; rewrite Hst, <-!app_assoc; done).
  unfold store. rewrite Hs. replace (zlen pre + 1) with (zlen pre1) by (unfold pre1; by rewrite zlen_app). rewrite memcpy_at by done.
  cbn [mbind outcome_bind]. eexists. split; [done|]. split_and!; try done.
  destruct Hw. constructor; cbn -[zlen app]; try done.
  - exists rest. unfold pre1. by rewrite <-!app_assoc.
  - rewrite Hs in wr_size0. rewrite <-wr_size0. by rewrite !zlen_app.
  - rewrite wr_pos0. by rewrite !zlen_app.
  - lia.
  - lia.
Qed.

Lemma encode_length_pos i : 0 < zlen (encode i).
Proof. destruct i; cbn [encode]; rewrite zlen_cons; match goal with |- 0 < 1 + zlen ?l => pose proof (zlen_nonneg l); lia end. Qed.

(** Writing one item. *)
Definition writes_item (i : item) : Prop := ∀ pre d c,
  item_ok i → writing pre d c → d + nesting i ≤ ANDROID_MAX_LIST_NEST_DEPTH → zlen pre + zlen (encode i) ≤ MAX_EVENT_PAYLOAD →
  ∃ c', write_item i c = Ret (true, c') ∧ added (pre ++ encode i) d 1 c c'.

Lemma nesting_cons i l : foldr Z.max 0 (nesting <$> (i :: l)) = Z.max (nesting i) (foldr Z.max 0 (nesting <$> l)).
Proof. done. Qed.

(** The list can hold [n] more. *)
Lemma added_trans pre pre' d n n' c c' c'' :
  0 ≤ n → 0 ≤ n' → added pre d n c c' → added pre' d n' c' c'' → added pre' d (n + n') c c''.
Proof.
  intros H0 H1 [Hw1 Hc1 Hcs1 Hl1] [Hw2 Hc2 Hcs2 Hl2]. constructor; [done|..].
  - intros m Hm Hm0 Hb. rewrite (Hc2 (m + n)); [f_equal; lia|apply Hc1; [done|lia|lia]|lia|lia].
  - intros j Hj. by rewrite Hcs2, Hcs1.
  - intros j Hj. by rewrite Hl2, Hl1.
Qed.

Lemma write_items_Ret l : Forall writes_item l → ∀ pre d c,
  foldr (λ P Q, P ∧ Q) True (item_ok <$> l) → writing pre d c → d + foldr Z.max 0 (nesting <$> l) ≤ ANDROID_MAX_LIST_NEST_DEPTH →
  zlen pre + zlen (concat (encode <$> l)) ≤ MAX_EVENT_PAYLOAD →
  ∃ c', write_items l c = Ret (true, c') ∧ added (pre ++ concat (encode <$> l)) d (zlen l) c c'.
Proof.
  induction 1 as [|i l Hi _ IH]; intros pre d c Hok Hw Hd Hfit.
  { exists c. split; [done|]. cbn. rewrite app_nil_r. constructor; try done. intros m Hm _ _. by rewrite zlen_nil, Z.add_0_r. }
  rewrite nesting_cons in Hd. cbn [fmap list_fmap foldr] in Hok. destruct Hok as [Hoki Hokl]. cbn [fmap list_fmap concat] in Hfit |- *. rewrite zlen_app in Hfit.
  pose proof (zlen_nonneg (concat (encode <$> l))). destruct (Hi pre d c Hoki Hw) as (c1 & Hr & Ha); [lia|lia|].
  destruct (IH (pre ++ encode i) d c1 Hokl (ad_writing _ _ _ _ _ Ha)) as (c2 & Hr2 & Ha2); [lia|rewrite zlen_app; lia|].
  exists c2. cbn [write_items]. rewrite Hr. cbn [mbind outcome_bind]. rewrite Hr2. split; [done|]. rewrite zlen_cons, app_assoc.
  eapply added_trans; [lia|apply zlen_nonneg|done|done].
Qed.

(** The count that a new list starts with, and the list around it. *)
Lemma write_list_Ret l : Forall writes_item l → writes_item (IList l).
Proof.
  intros Hl pre d c [Hlen Hok] Hw Hd Hfit. cbn [nesting] in Hd. pose proof (zlen_nonneg (concat (encode <$> l))) as Hb.
  pose proof (list_max_nonneg (nesting <$> l)) as Hmax.
  assert (Henc : zlen (encode (IList l)) = 2 + zlen (concat (encode <$> l))) by (cbn [encode]; rewrite !zlen_cons; lia).
  pose proof (wr_range _ _ _ Hw) as Hr. destruct (list_begin_Ret pre d c Hw) as (m & c1 & Hb1 & Hw1 & Hm & Hc1 & Hl1); [lia|lia|].
  destruct (write_items_Ret l Hl _ (d + 1) c1 Hok Hw1) as (c2 & Hr2 & [Hw2 Hn2 Hcs2 Hls2]); [lia|rewrite zlen_app; change (zlen [_; _]) with 2; lia|].
  assert (Hcount : count c2 !! Z.to_nat (d + 1) = Some (zlen l)).
  { rewrite (Hn2 0); [done|..|done|unfold zlen; lia]. rewrite Hc1, list_lookup_insert_eq; [done|]. rewrite length_insert, (wr_count _ _ _ Hw). unfold ANDROID_MAX_LIST_NEST_DEPTH in *. lia. }
  assert (Hlist : list_ c2 !! Z.to_nat (d + 1) = Some (zlen pre + 1)).
  { rewrite Hls2 by done. rewrite Hl1, list_lookup_insert_eq; [done|]. rewrite (wr_list _ _ _ Hw). unfold ANDROID_MAX_LIST_NEST_DEPTH in *. lia. }
  rewrite <-app_assoc in Hw2. destruct (list_end_Ret pre (of_cval 0) _ d (zlen l) c2 Hw2 (proj1 Hr) Hlist Hcount) as (c3 & Hr3 & Hw3 & Hc3 & Hl3).
  exists c3. cbn [write_item]. change ((fix go l c := match l with [] => Ret (true, c) | i :: l => '(b, c) ← write_item i c; '(bs, c) ← go l c; Ret (b && bs, c) end) l) with (write_items l).
  rewrite Hb1. cbn [mbind outcome_bind]. rewrite Hr2. cbn [mbind outcome_bind]. rewrite Hr3. split; [done|]. constructor; [done|..].
  - intros m' Hm' H0 H1. rewrite Hm in Hm'. injection Hm' as <-. rewrite Hc3, Hcs2 by lia. rewrite Hc1, list_lookup_insert_ne by lia.
    rewrite list_lookup_insert_eq by (by eapply lookup_lt_Some). by rewrite u32_small by lia.
  - intros j Hj. rewrite Hc3, Hcs2 by lia. by rewrite Hc1, !list_lookup_insert_ne by lia.
  - intros j Hj. rewrite Hl3, Hls2 by lia. by rewrite Hl1, list_lookup_insert_ne by lia.
Qed.

Lemma write_item_Ret i : writes_item i.
Proof.
  induction i as [v|v|b|s|l Hl] using item_induction; [..|by apply write_list_Ret]; intros pre d c Hok Hw Hd Hfit; cbn [encode item_ok] in *.
  - destruct (write_value_Ret EVENT_TYPE_INT (le32 v) pre d c Hw) as (c' & Hr & Ha); [rewrite zlen_cons in Hfit; lia|].
    exists c'. cbn [write_item]. unfold android_log_write_int32. by rewrite Hr.
  - destruct (write_value_Ret EVENT_TYPE_LONG (le64 v) pre d c Hw) as (c' & Hr & Ha); [rewrite zlen_cons in Hfit; lia|].
    exists c'. cbn [write_item]. unfold android_log_write_int64. by rewrite Hr.
  - destruct (write_value_Ret EVENT_TYPE_FLOAT (le32 b) pre d c Hw) as (c' & Hr & Ha); [rewrite zlen_cons in Hfit; lia|].
    exists c'. cbn [write_item]. unfold android_log_write_float32. by rewrite Hr.
  - destruct (write_string_Ret s pre d c Hw Hok) as (c' & Hr & Ha); [rewrite zlen_cons, zlen_app, le32_length in Hfit; lia|].
    exists c'. cbn [write_item]. rewrite Hr. cbn [mbind outcome_bind]. rewrite (proj2 (Z.leb_le _ _)) by apply zlen_nonneg. done.
Qed.

Lemma create_logger_Ret tag : ∃ c, create_android_logger tag = Ret c ∧ writing [of_cval EVENT_TYPE_LIST; of_cval 0] 0 c ∧ count c !! 0%nat = Some 0.
Proof.
  unfold create_android_logger, store, set_list_at. cbn [pos storage]. change (MAX_EVENT_PAYLOAD <? 0 + 2) with false. cbv zeta. cbn [pos storage].
  assert (Hsplit : replicate (Z.to_nat LOGGER_ENTRY_MAX_PAYLOAD) NUL = [] ++ [NUL] ++ NUL :: replicate (Z.to_nat 4066) NUL) by by vm_compute.
  rewrite Hsplit. change 0 with (zlen (@nil ascii)) at 2. rewrite memcpy_at by done. cbn [mbind outcome_bind list_ set_storage].
  rewrite set_at_Ret by done. cbn [mbind outcome_bind]. eexists. split; [done|]. split; [|done]. by constructor; try by eexists.
Qed.

Lemma item_oks l : foldr (λ P Q, P ∧ Q) True (item_ok <$> l) ↔ Forall item_ok l.
Proof. induction l as [|i l IH]; cbn; [done|]. by rewrite Forall_cons, IH. Qed.

(** What a writer gives to the log. *)
Lemma written tag l :
  Forall item_ok l → (length l < 256)%nat → foldr Z.max 0 (nesting <$> l) ≤ ANDROID_MAX_LIST_NEST_DEPTH →
  2 + zlen (concat (encode <$> l)) ≤ MAX_EVENT_PAYLOAD →
  ∃ c0 c, create_android_logger tag = Ret c0 ∧ write_items l c0 = Ret (true, c) ∧ android_log_write_list LOG_ID_EVENTS c = Ret (inr (message l)).
Proof.
  intros Hok Hlen Hd Hfit. destruct (create_logger_Ret tag) as (c0 & Hc0 & Hw0 & Hn0).
  destruct (write_items_Ret l (Forall_true _ l write_item_Ret) _ 0 c0 (proj2 (item_oks l) Hok) Hw0) as (c & Hr & [Hw Hn _ _]); [lia|change (zlen [_; _]) with 2; lia|].
  exists c0, c. split; [done|]. split; [done|]. unfold android_log_write_list. cbn [Z.eqb negb andb LOG_ID_EVENTS].
  rewrite (wr_flag _ _ _ Hw), (wr_depth _ _ _ Hw). rewrite Z.eqb_refl. cbn [negb].
  assert (at_ (count c) 0 = Ret (zlen l)) as -> by (unfold at_; rewrite (Hn 0) by (done || unfold zlen; lia); done). cbn [mbind outcome_bind].
  destruct (wr_storage _ _ _ Hw) as [rest Hs]. set (body := concat (encode <$> l)) in *. set (head := [of_cval EVENT_TYPE_LIST]).
  assert (Hst : store 1 [of_cval (zlen l)] c = Ret (set_storage (head ++ [of_cval (zlen l)] ++ body ++ rest) c)).
  { unfold store. replace (storage c) with (head ++ [of_cval 0] ++ body ++ rest) by (by rewrite Hs, <-app_assoc). by rewrite (memcpy_at head). }
  rewrite Hst. cbn [mbind outcome_bind pos set_storage]. rewrite (wr_pos _ _ _ Hw), zlen_app. change (zlen [_; _]) with 2.
  pose proof (zlen_nonneg body) as Hb. pose proof (zlen_nonneg rest) as Hrest. unfold message. fold body. unfold load. cbn [storage set_storage].
  assert (Hz : zlen (head ++ [of_cval (zlen l)] ++ body ++ rest) = 2 + zlen body + zlen rest) by (rewrite !zlen_app; change (zlen head) with 1; change (zlen [_]) with 1; lia).
  rewrite !Hz. destruct (zlen l <=? 1).
  - rewrite (proj2 (Z.ltb_ge (2 + zlen body - 2) 0)), (proj2 (Z.leb_le _ _)) by lia. cbn [CHECK mbind outcome_bind].
    replace (head ++ [of_cval (zlen l)] ++ body ++ rest) with ((head ++ [of_cval (zlen l)]) ++ body ++ rest) by (by rewrite <-app_assoc).
    change 2 with (zlen (head ++ [of_cval (zlen l)])) at 1. by rewrite slice_at by lia.
  - rewrite (proj2 (Z.leb_le _ _)) by lia. cbn [CHECK mbind outcome_bind].
    change (head ++ [of_cval (zlen l)] ++ body ++ rest) with ([] ++ encode (IList l) ++ rest).
    change 0 with (zlen (@nil ascii)) at 1. rewrite slice_at; [done|]. cbn [encode]. rewrite !zlen_cons. fold body. lia.
Qed.

(** ** The reader *)

Lemma s32_le32 v : - 2 ^ 31 ≤ v < 2 ^ 31 → s32 (le_val (le32 v)) = v.
Proof. intros Hv. rewrite le_val_u32. unfold s32, u32. rewrite Zplus_mod_idemp_l. by apply (s32_small v). Qed.

Lemma s64_le64 v : - 2 ^ 63 ≤ v < 2 ^ 63 → s64 (get64 (le64 v)) = v.
Proof.
  intros Hv. unfold get64, le64, word_at. rewrite (slice_suffix (le32 v)), (slice_prefix (le32 v)) by (rewrite ?le32_length; lia).
  rewrite le32_length, !slice_all, !le_val_u32 by (rewrite ?le32_length; lia).
  rewrite lor_disjoint by (done || apply u32_range). rewrite Z.shiftr_div_pow2 by lia. unfold s64.
  assert (((v / 2 ^ 32) mod 2 ^ 32) * 2 ^ 32 + u32 v = v mod 2 ^ 64) as Hm.
  { unfold u32. change (2 ^ 64) with (2 ^ 32 * 2 ^ 32). rewrite (Z.rem_mul_r v) by lia. lia. }
  unfold u32 at 1. rewrite Hm, Zplus_mod_idemp_l, Z.mod_small by lia. lia.
Qed.

(** The elements that a parser returns for an item; [last]: nothing follows. *)
Fixpoint elements (last : bool) (i : item) : list element :=
  match i with
  | IInt v => [mkElement EVENT_TYPE_INT last 4 (Int32 v)]
  | ILong v => [mkElement EVENT_TYPE_LONG last 8 (Int64 v)]
  | IFloat b => [mkElement EVENT_TYPE_FLOAT last 4 (Int32 (s32 b))]
  | IString s => [mkElement EVENT_TYPE_STRING last (zlen s) (StringAt s)]
  | IList l => mkElement EVENT_TYPE_LIST false 0 NoData :: concat (elements false <$> l) ++ [mkElement EVENT_TYPE_LIST_STOP last 0 NoData]
  end.

Section reader.
Context (msg : bytes).

(** The parser has read [pre]; [m] elements of the list it is in are left. *)
Record reading (pre : bytes) (d m : Z) (b : bool) (c : context) : Prop := {
  rd_inv : parser_inv msg c;
  rd_pos : pos c = zlen pre;
  rd_depth : list_nest_depth c = d;
  rd_count : count c !! Z.to_nat d = Some m;
  rd_stop : list_stop c = b
}.
(** At the depth 0 there is no list, only the item itself. *)
Definition place (d m : Z) : Prop := (d = 0 ∧ m = 0) ∨ (1 ≤ d ≤ ANDROID_MAX_LIST_NEST_DEPTH ∧ 1 ≤ m < 256).
Definition one_less (m : Z) : Z := if m =? 0 then 0 else m - 1.
Definition same_below (d : Z) (c c' : context) : Prop := ∀ j, (j < Z.to_nat d)%nat → count c' !! j = count c !! j.

Lemma one_less_zero m : (if m =? 0 then true else m - 1 =? 0) = (one_less m =? 0).
Proof. unfold one_less. by destruct (m =? 0). Qed.

(** What follows is no stop byte. *)
Definition no_stop (tail : bytes) : Prop := head tail ≠ Some (of_cval EVENT_TYPE_LIST_STOP).

Lemma load_bytes pre x tail c c' off :
  msg = pre ++ x ++ tail → parser_inv msg c → storage c' = storage c → off = zlen pre → load off (zlen x) c' = Ret x.
Proof.
  intros Hm Hi Hs ->. unfold load. rewrite Hs, (storage_zlen msg c Hi), (pa_storage _ _ Hi).
  pose proof (pa_max _ _ Hi) as Hmax. pose proof item_limits as (_ & Hlim & _). pose proof (zlen_nonneg tail) as Ht.
  set (zeros := replicate _ _). rewrite Hm, <-!app_assoc, slice_at by done. rewrite Hm, !zlen_app in Hmax. by rewrite (proj2 (Z.leb_le _ _)) by lia.
Qed.

(** The byte of the type. *)
Lemma next_type pre t body tail d m c :
  msg = pre ++ (of_cval t :: body) ++ tail → reading pre d m false c → place d m → 0 ≤ t < 256 →
  android_log_read_next c =
    (let p := zlen pre + 1 in
     if (t =? EVENT_TYPE_FLOAT) || (t =? EVENT_TYPE_INT) then read_number t p 4 (λ b, Int32 (s32 (le_val b))) false c
     else if t =? EVENT_TYPE_LONG then read_number t p 8 (λ b, Int64 (s64 (get64 b))) false c
     else if t =? EVENT_TYPE_STRING then read_string p false c
     else if t =? EVENT_TYPE_LIST then read_list p false c
     else if t =? EVENT_TYPE_LIST_STOP then surprise_stop p false c
     else Ret (mkElement EVENT_TYPE_UNKNOWN false 0 NoData, c)).
Proof.
  intros Hm Hr Hp Ht. pose proof Hr as [Hi Hpos Hd Hc Hs]. unfold android_log_read_next, android_log_read_next_internal, nothing_left.
  rewrite (pa_flag _ _ Hi), Hd, Hs. assert (Hd8 : 0 ≤ d ≤ ANDROID_MAX_LIST_NEST_DEPTH ∧ m < 256) by (unfold place, ANDROID_MAX_LIST_NEST_DEPTH in *; lia).
  rewrite (proj2 (Z.ltb_ge ANDROID_MAX_LIST_NEST_DEPTH d)) by lia. assert (at_ (count c) d = Ret m) as -> by (unfold at_; by rewrite Hc). cbn [mbind outcome_bind].
  change (MAX_EVENT_PAYLOAD / 2) with 2032. rewrite (proj2 (Z.leb_gt 2032 m)) by lia.
  rewrite (pa_len _ _ Hi), Hpos, Hm, !zlen_app, zlen_cons. pose proof (zlen_nonneg body). pose proof (zlen_nonneg tail).
  rewrite (proj2 (Z.ltb_ge (_ + (1 + _ + _)) _)) by lia. change 1 with (zlen [of_cval t]) at 3.
  rewrite (load_bytes pre [of_cval t] (body ++ tail) c c) by done. cbn [mbind outcome_bind]. cbv zeta.
  assert (le_val [of_cval t] = t) as -> by (cbn [le_val]; rewrite cval_of_cval, Z.mod_small; lia). done.
Qed.

(** A value has been read. *)
Lemma value_reading pre x tail d m c :
  msg = pre ++ x ++ tail → reading pre d m false c → place d m →
  ∃ c', value_read (zlen pre + zlen x) c = Ret c' ∧ reading (pre ++ x) d (one_less m) (one_less m =? 0) c' ∧ same_below d c c'.
Proof.
  intros Hm [Hi Hpos Hd Hc Hs] Hp. unfold value_read. rewrite Hd. assert (at_ (count c) d = Ret m) as -> by (unfold at_; by rewrite Hc).
  assert (Hd8 : 0 ≤ d ≤ ANDROID_MAX_LIST_NEST_DEPTH) by (unfold place, ANDROID_MAX_LIST_NEST_DEPTH in *; lia).
  assert (Hz : 0 ≤ zlen pre + zlen x ≤ zlen msg).
  { rewrite Hm, !zlen_app. pose proof (zlen_nonneg pre). pose proof (zlen_nonneg x). pose proof (zlen_nonneg tail). lia. }
  cbn [mbind outcome_bind]. rewrite <-one_less_zero. unfold one_less. destruct (m =? 0) eqn:E.
  - cbn [mbind outcome_bind]. eexists. split; [done|]. split; [|done]. apply Z.eqb_eq in E as ->.
    constructor; [by apply inv_pos; [apply inv_stop|]|by rewrite zlen_app|done..].
  - unfold set_count_at. rewrite set_at_Ret by (done || apply Hi). cbn [mbind outcome_bind].
    eexists. split; [done|]. assert (Hl : length (count c) = 9%nat) by apply Hi. split.
    + constructor; [apply inv_pos; [|done]|..].
      * destruct (m - 1 =? 0); [apply inv_stop|]; destruct Hi; constructor; cbn; try done; by rewrite length_insert.
      * by rewrite zlen_app.
      * by destruct (m - 1 =? 0).
      * destruct (m - 1 =? 0); cbn; (rewrite list_lookup_insert_eq; [done|]; unfold ANDROID_MAX_LIST_NEST_DEPTH in *; lia).
      * by destruct (m - 1 =? 0).
    + intros j Hj. destruct (m - 1 =? 0); cbn; by rewrite list_lookup_insert_ne by lia.
Qed.

Lemma complete_here pre d m b c :
  reading pre d m b c → place d m → ∃ n0, at_ (count c) 0 = Ret n0 ∧ ((list_nest_depth c =? 0) && (n0 =? 0))%Z%bool = (d =? 0).
Proof.
  intros [Hi _ Hd Hc _] Hp. destruct (at_Ret (count c) 0) as (n0 & Ha & Hn); [apply Hi|done|]. exists n0. split; [done|]. rewrite Hd.
  destruct (Z.eqb_spec d 0) as [->|]; [|done]. rewrite Hc in Hn. injection Hn as <-. apply Z.eqb_eq. unfold place in Hp. lia.
Qed.

(** A call reads the item [i]: it returns [e] and what belongs to the lists
    around it is as before. *)
Definition read_one (pre x : bytes) (d m : Z) (e : element) (r : outcome (element * context)) (c : context) : Prop :=
  ∃ c', r = Ret (e, c') ∧ reading (pre ++ x) d (one_less m) (one_less m =? 0) c' ∧ same_below d c c'.

Lemma number_read pre t x tail d m value c :
  msg = pre ++ (of_cval t :: x) ++ tail → reading pre d m false c → place d m →
  read_one pre (of_cval t :: x) d m (mkElement t (d =? 0) (zlen x) (value x)) (read_number t (zlen pre + 1) (zlen x) value false c) c.
Proof.
  intros Hm Hr Hp. pose proof Hr as [Hi _ _ _ _]. unfold read_number. rewrite (pa_len _ _ Hi), Hm, !zlen_app, zlen_cons.
  pose proof (zlen_nonneg tail). rewrite (proj2 (Z.ltb_ge _ _)) by lia.
  assert (load (zlen pre + 1) (zlen x) c = Ret x) as ->.
  { apply (load_bytes (pre ++ [of_cval t]) x tail c c); [by rewrite Hm, <-!app_assoc|done..|by rewrite zlen_app]. }
  cbn [mbind outcome_bind]. destruct (complete_here pre d m false c Hr Hp) as (n0 & -> & He). cbn [mbind outcome_bind]. rewrite He.
  destruct (value_reading pre (of_cval t :: x) tail d m c Hm Hr Hp) as (c' & Hv & Hr' & Hs). rewrite zlen_cons in Hv.
  replace (zlen pre + 1 + zlen x) with (zlen pre + (1 + zlen x)) by lia. rewrite Hv. by exists c'.
Qed.

Lemma string_read pre s tail d m c :
  msg = pre ++ encode (IString s) ++ tail → reading pre d m false c → place d m →
  read_one pre (encode (IString s)) d m (mkElement EVENT_TYPE_STRING (d =? 0) (zlen s) (StringAt s)) (read_string (zlen pre + 1) false c) c.
Proof.
  intros Hm Hr Hp. pose proof Hr as [Hi _ _ _ _]. pose proof (zlen_nonneg tail). pose proof (zlen_nonneg s). pose proof (zlen_nonneg pre).
  assert (Hlen : zlen msg = zlen pre + 5 + zlen s + zlen tail) by (rewrite Hm; cbn [encode]; rewrite !zlen_app, zlen_cons, zlen_app, le32_length; lia).
  assert (Hfit : zlen s < 2 ^ 16) by (pose proof (pa_max _ _ Hi); pose proof item_limits; lia).
  unfold read_string. rewrite (pa_len _ _ Hi), (proj2 (Z.ltb_ge _ (zlen pre + 1 + 4))) by lia.
  assert (load (zlen pre + 1) 4 c = Ret (le32 (zlen s))) as ->.
  { apply (load_bytes (pre ++ [of_cval EVENT_TYPE_STRING]) (le32 (zlen s)) (s ++ tail) c c); [|done..|by rewrite zlen_app].
    rewrite Hm. cbn [encode]. by rewrite <-!app_assoc. }
  cbn [mbind outcome_bind]. rewrite le_val_le32 by lia. assert (u16 (zlen s) = zlen s) as -> by (unfold u16; rewrite Z.mod_small; lia). cbv zeta.
  rewrite (proj2 (Z.ltb_ge _ _)) by lia. cbn [andb].
  assert (load (zlen pre + 1 + 4) (zlen s) c = Ret s) as ->.
  { apply (load_bytes (pre ++ of_cval EVENT_TYPE_STRING :: le32 (zlen s)) s tail c c); [|done..|rewrite zlen_app, zlen_cons, le32_length; lia].
    rewrite Hm. cbn [encode]. by rewrite <-!app_assoc. }
  cbn [mbind outcome_bind]. destruct (complete_here pre d m false c Hr Hp) as (n0 & -> & He). cbn [mbind outcome_bind]. rewrite He.
  destruct (value_reading pre (encode (IString s)) tail d m c Hm Hr Hp) as (c' & Hv & Hr' & Hs). cbn [encode] in Hv. rewrite zlen_cons, zlen_app, le32_length in Hv.
  replace (zlen pre + 1 + 4 + zlen s) with (zlen pre + (1 + (4 + zlen s))) by lia. rewrite Hv. by exists c'.
Qed.

(** The head of a list: its elements are next. *)
Lemma list_read pre l tail d m c :
  msg = pre ++ [of_cval EVENT_TYPE_LIST; of_cval (zlen l)] ++ tail → reading pre d m false c → place d m → d < ANDROID_MAX_LIST_NEST_DEPTH → (length l < 256)%nat →
  ∃ c', read_list (zlen pre + 1) false c = Ret (mkElement EVENT_TYPE_LIST false 0 NoData, c') ∧
    reading (pre ++ [of_cval EVENT_TYPE_LIST; of_cval (zlen (l : list item))]) (d + 1) (zlen l) (zlen l =? 0) c' ∧
    count c' !! Z.to_nat d = Some (one_less m) ∧ same_below d c c'.
Proof.
  intros Hm Hr Hp Hd8 Hl. pose proof Hr as [Hi Hpos Hd Hc Hs]. pose proof (zlen_nonneg tail). pose proof (zlen_nonneg pre). unfold read_list.
  assert (Hlen : zlen msg = zlen pre + 2 + zlen tail) by (rewrite Hm, !zlen_app; change (zlen [_; _]) with 2; lia).
  rewrite (pa_len _ _ Hi), (proj2 (Z.ltb_ge _ _)), Hd, (proj2 (Z.leb_gt _ _)) by lia. cbv zeta.
  assert (at_ (count c) d = Ret m) as -> by (unfold at_; by rewrite Hc). cbn [mbind outcome_bind]. assert (Hl9 : length (count c) = 9%nat) by apply Hi.
  assert (Hd0 : 0 ≤ d) by (unfold place in Hp; lia). unfold ANDROID_MAX_LIST_NEST_DEPTH in *.
  assert (∃ c1, (if m =? 0 then Ret c else set_count_at d (m - 1) c) = Ret c1 ∧ c1 = set_count (<[Z.to_nat d := one_less m]> (count c)) c) as (c1 & -> & ->).
  { unfold one_less. destruct (Z.eqb_spec m 0) as [->|].
    - eexists. split; [done|]. rewrite list_insert_id by done. by destruct c.
    - unfold set_count_at. rewrite set_at_Ret by (done || unfold ANDROID_MAX_LIST_NEST_DEPTH; lia). by eexists. }
  cbn [mbind outcome_bind]. assert (Hb : load (zlen pre + 1) 1 (set_count (<[Z.to_nat d:=one_less m]> (count c)) c) = Ret [of_cval (zlen l)]).
  { apply (load_bytes (pre ++ [of_cval EVENT_TYPE_LIST]) [of_cval (zlen l)] tail c); [by rewrite Hm, <-!app_assoc|done..|by rewrite zlen_app]. }
  rewrite Hb. cbn [mbind outcome_bind list_nest_depth set_list_nest_depth set_list_stop set_count]. rewrite Hd.
  assert (le_val [of_cval (zlen l)] = zlen l) as -> by (cbn [le_val]; rewrite cval_of_cval, Z.mod_small; unfold zlen; lia).
  rewrite (proj2 (Z.leb_le _ _)) by (unfold ANDROID_MAX_LIST_NEST_DEPTH; lia). unfold set_count_at. cbn [count set_list_nest_depth set_list_stop set_count].
  rewrite set_at_Ret by (rewrite ?length_insert; done || unfold ANDROID_MAX_LIST_NEST_DEPTH; lia). cbn [mbind outcome_bind].
  eexists. split; [done|]. split_and!.
  - destruct Hi. constructor; [constructor; cbn; try done; rewrite ?length_insert; unfold ANDROID_MAX_LIST_NEST_DEPTH; lia|..]; cbn; try done.
    + rewrite zlen_app. change (zlen [_; _]) with 2. lia.
    + rewrite list_lookup_insert_eq; [done|]. rewrite length_insert. lia.
  - cbn. rewrite list_lookup_insert_ne, list_lookup_insert_eq by lia. done.
  - intros j Hj. cbn. by rewrite !list_lookup_insert_ne by lia.
Qed.

Lemma stop_read pre tail d m c :
  msg = pre ++ tail → no_stop tail → reading pre (d + 1) 0 true c → count c !! Z.to_nat d = Some (one_less m) → place d m →
  d < ANDROID_MAX_LIST_NEST_DEPTH →
  ∃ c', android_log_read_next c = Ret (mkElement EVENT_TYPE_LIST_STOP (d =? 0) 0 NoData, c') ∧
    reading pre d (one_less m) (one_less m =? 0) c' ∧ same_below d c c'.
Proof.
  intros Hm Hstop [Hi Hpos Hd Hc Hs] Hk Hp Hd8. unfold android_log_read_next, android_log_read_next_internal, nothing_left.
  assert (Hd0 : 0 ≤ d) by (unfold place in Hp; lia). rewrite (pa_flag _ _ Hi), Hd, Hs, (proj2 (Z.ltb_ge _ _)) by lia.
  assert (at_ (count c) (d + 1) = Ret 0) as -> by (unfold at_; by rewrite Hc). cbn [mbind outcome_bind].
  change (MAX_EVENT_PAYLOAD / 2 <=? 0) with false. cbv beta iota. unfold read_stop.
  destruct (at_Ret (count c) 0) as (n0 & Ha0 & Hn0); [apply Hi|done|]. destruct (at_Ret (count c) 1) as (n1 & Ha1 & Hn1); [apply Hi|done|].
  rewrite Ha0, Ha1. cbn [mbind outcome_bind]. rewrite Hd.
  assert (Hcomplete : ((n0 =? 0) && ((d + 1 =? 0) || ((d + 1 =? 1) && (n1 =? 0))))%bool = (d =? 0)).
  { rewrite (proj2 (Z.eqb_neq (d + 1) 0)) by lia. cbn [orb]. destruct (Z.eqb_spec d 0) as [->|].
    - rewrite Hn0 in Hk. injection Hk as ->. assert (m = 0) as -> by (unfold place in Hp; lia). change (Z.to_nat (0 + 1)) with (Z.to_nat 1) in Hc.
      rewrite Hn1 in Hc. by injection Hc as ->.
    - rewrite (proj2 (Z.eqb_neq (d + 1) 1)) by lia. apply andb_false_r. }
  rewrite Hcomplete. cbv zeta. pose proof item_limits as (_ & Hlim & _). pose proof (pa_max _ _ Hi) as Hmax. pose proof (pa_pos _ _ Hi) as Hpp.
  destruct (load_Ret msg (pos c) 1 c Hi) as [-> _]; [lia..|]. cbn [mbind outcome_bind].
  assert (Hne : le_val (slice (storage c) (pos c) 1) =? EVENT_TYPE_LIST_STOP = false).
  { apply Z.eqb_neq. rewrite (pa_storage _ _ Hi), Hpos, Hm, <-app_assoc, slice_suffix, Z.sub_diag by lia. destruct tail as [|x tail].
    - cbn [app]. generalize (Z.to_nat (LOGGER_ENTRY_MAX_PAYLOAD - zlen (pre ++ []))). by intros [|k].
    - intros He. change (cval x + 256 * 0 = EVENT_TYPE_LIST_STOP) in He. rewrite Z.add_0_r in He. apply Hstop. cbn. by rewrite <-He, of_cval_cval. }
  rewrite Hne, Hd, (proj2 (Z.eqb_neq (d + 1) 0)) by lia. cbn [list_nest_depth set_list_nest_depth count]. replace (d + 1 - 1) with d by lia.
  assert (at_ (count c) d = Ret (one_less m)) as -> by (unfold at_; by rewrite Hk). cbn [mbind outcome_bind].
  unfold ANDROID_MAX_LIST_NEST_DEPTH in *. eexists. split; [done|]. split; [|intros j _; by destruct (one_less m =? 0)].
  destruct (one_less m =? 0); constructor; try done; cbn; try done; [|apply inv_stop]; apply inv_depth; (done || unfold ANDROID_MAX_LIST_NEST_DEPTH; lia).
Qed.

(** Reading many elements. *)
Definition reads (es : list element) (c c' : context) : Prop := read_elements (replicate (length es) false) c = Ret (es, c').
Lemma reads_cons e es c c1 c2 : android_log_read_next c = Ret (e, c1) → reads es c1 c2 → reads (e :: es) c c2.
Proof. intros He Hes. unfold reads. cbn [length replicate read_elements]. unfold android_log_read_next in He. rewrite He. cbn [mbind outcome_bind]. by rewrite Hes. Qed.
Lemma reads_app es es' c c1 c2 : reads es c c1 → reads es' c1 c2 → reads (es ++ es') c c2.
Proof.
  revert c. induction es as [|e es IH]; intros c Hes Hes'; [by injection Hes as <-|]. unfold reads in Hes. cbn [length replicate read_elements] in Hes.
  destruct (android_log_read_next_internal false c) as [[e0 c0]|] eqn:E; [|done]. cbn [mbind outcome_bind] in Hes.
  destruct (read_elements (replicate (length es) false) c0) as [[es0 c3]|] eqn:E2; [|done]. injection Hes as -> -> ->.
  by apply (reads_cons _ _ _ c0); [|apply IH].
Qed.

Definition reads_item (i : item) : Prop := ∀ pre tail d m c,
  msg = pre ++ encode i ++ tail → item_ok i → no_stop tail → place d m → d + nesting i ≤ ANDROID_MAX_LIST_NEST_DEPTH → reading pre d m false c →
  ∃ c', reads (elements (d =? 0) i) c c' ∧ reading (pre ++ encode i) d (one_less m) (one_less m =? 0) c' ∧ same_below d c c'.

Lemma no_stop_items l tail : no_stop tail → no_stop (concat (encode <$> l) ++ tail).
Proof. by destruct l as [|[] l]. Qed.

Lemma one_less_cons {A} (i : A) l : one_less (zlen (i :: l)) = zlen l.
Proof. unfold one_less. rewrite zlen_cons. pose proof (zlen_nonneg l). rewrite (proj2 (Z.eqb_neq _ _)); lia. Qed.

Lemma items_read l : Forall reads_item l → ∀ pre tail d c,
  msg = pre ++ concat (encode <$> l) ++ tail → Forall item_ok l → no_stop tail → 1 ≤ d → d + foldr Z.max 0 (nesting <$> l) ≤ ANDROID_MAX_LIST_NEST_DEPTH →
  (length l < 256)%nat → reading pre d (zlen l) (zlen l =? 0) c →
  ∃ c', reads (concat (elements false <$> l)) c c' ∧ reading (pre ++ concat (encode <$> l)) d 0 true c' ∧ same_below d c c'.
Proof.
  induction 1 as [|i l Hi _ IH]; intros pre tail d c Hm Hok Hstop Hd Hnest Hlen Hr.
  { exists c. cbn. by rewrite app_nil_r. }
  rewrite nesting_cons in Hnest. apply Forall_cons in Hok as [Hoki Hokl]. cbn [fmap list_fmap concat] in Hm |- *. rewrite <-app_assoc in Hm.
  assert (Hp : place d (zlen (i :: l))) by (right; cbn [length] in Hlen; rewrite zlen_cons; pose proof (list_max_nonneg (nesting <$> l)); unfold zlen; lia).
  rewrite (proj2 (Z.eqb_neq (zlen (i :: l)) 0)) in Hr by (unfold place in Hp; lia).
  destruct (Hi pre (concat (encode <$> l) ++ tail) d _ c Hm Hoki (no_stop_items l tail Hstop) Hp) as (c1 & Hr1 & Hrd & Hs1); [lia|done|].
  rewrite one_less_cons in Hrd. rewrite (proj2 (Z.eqb_neq d 0)) in Hr1 by lia.
  destruct (IH (pre ++ encode i) tail d c1) as (c2 & Hr2 & Hrd2 & Hs2); [by rewrite <-app_assoc|done..|lia|cbn [length] in Hlen; lia|done|].
  exists c2. split; [by eapply reads_app|]. rewrite app_assoc. split; [done|]. intros j Hj. by rewrite Hs2, Hs1.
Qed.

Lemma read_list_item l : Forall reads_item l → reads_item (IList l).
Proof.
  intros Hl pre tail d m c Hm [Hlen Hok] Hstop Hp Hnest Hr. cbn [nesting] in Hnest. apply item_oks in Hok. pose proof (list_max_nonneg (nesting <$> l)) as Hmax.
  assert (Hm1 : msg = pre ++ [of_cval EVENT_TYPE_LIST; of_cval (zlen l)] ++ (concat (encode <$> l) ++ tail)) by done.
  destruct (list_read pre l _ d m c Hm1 Hr Hp) as (c1 & Hr1 & Hrd1 & Hk1 & Hs1); [lia|done|].
  pose proof (next_type pre EVENT_TYPE_LIST _ tail d m c Hm Hr Hp ltac:(done)) as Hn. cbn -[read_list Z.add] in Hn. rewrite Hr1 in Hn.
  assert (Hd1 : 1 ≤ d + 1) by (unfold place in Hp; lia).
  destruct (items_read l Hl (pre ++ [of_cval EVENT_TYPE_LIST; of_cval (zlen l)]) tail (d + 1) c1) as (c2 & Hr2 & Hrd2 & Hs2); [by rewrite <-app_assoc|done..|lia|done|done|]. rewrite <-app_assoc in Hrd2.
  destruct (stop_read (pre ++ encode (IList l)) tail d m c2) as (c3 & Hr3 & Hrd3 & Hs3); [by rewrite <-app_assoc|done|done|rewrite Hs2 by lia; done|done|lia|].
  exists c3. split; [|split; [done|]].
  - cbn [elements]. eapply reads_cons; [done|]. eapply reads_app; [done|]. eapply reads_cons; [done|]. done.
  - intros j Hj. by rewrite Hs3, Hs2, Hs1 by lia.
Qed.

Lemma reads_one e c c' : android_log_read_next c = Ret (e, c') → reads [e] c c'.
Proof. intros He. by eapply reads_cons. Qed.

Lemma item_read i : reads_item i.
Proof.
  induction i as [v|v|b|s|l Hl] using item_induction; [..|by apply read_list_item]; intros pre tail d m c Hm Hok Hstop Hp _ Hr; cbn [elements item_ok] in *.
  - pose proof (next_type pre EVENT_TYPE_INT _ tail d m c Hm Hr Hp ltac:(done)) as Hn.
    destruct (number_read pre EVENT_TYPE_INT (le32 v) tail d m (λ b, Int32 (s32 (le_val b))) c Hm Hr Hp) as (c' & Hv & Hr' & Hs).
    rewrite s32_le32 in Hv by done. exists c'. split; [|done]. apply reads_one. by rewrite Hn.
  - pose proof (next_type pre EVENT_TYPE_LONG _ tail d m c Hm Hr Hp ltac:(done)) as Hn.
    destruct (number_read pre EVENT_TYPE_LONG (le64 v) tail d m (λ b, Int64 (s64 (get64 b))) c Hm Hr Hp) as (c' & Hv & Hr' & Hs).
    rewrite s64_le64 in Hv by done. exists c'. split; [|done]. apply reads_one. by rewrite Hn.
  - pose proof (next_type pre EVENT_TYPE_FLOAT _ tail d m c Hm Hr Hp ltac:(done)) as Hn.
    destruct (number_read pre EVENT_TYPE_FLOAT (le32 b) tail d m (λ b, Int32 (s32 (le_val b))) c Hm Hr Hp) as (c' & Hv & Hr' & Hs).
    rewrite le_val_le32 in Hv by done. exists c'. split; [|done]. apply reads_one. by rewrite Hn.
  - pose proof (next_type pre EVENT_TYPE_STRING _ tail d m c Hm Hr Hp ltac:(done)) as Hn.
    destruct (string_read pre s tail d m c Hm Hr Hp) as (c' & Hv & Hr' & Hs). exists c'. split; [|done]. apply reads_one. by rewrite Hn.
Qed.
End reader.

(** The item that a message consists of: a single one is written without the
    list around it. *)
Definition root (l : list item) : item := match l with [i] => i | _ => IList l end.

Lemma message_root l : l ≠ [] → message l = encode (root l).
Proof. intros Hl. destruct l as [|i [|j l]]; [done|by apply app_nil_r|]. unfold message. rewrite (proj2 (Z.leb_gt _ _)); [done|]. rewrite !zlen_cons. pose proof (zlen_nonneg l). lia. Qed.

Lemma root_ok l : l ≠ [] → Forall item_ok l → (length l < 256)%nat → item_ok (root l).
Proof.
  intros Hne Hl Hlen. destruct l as [|i [|j l]]; [done|by apply Forall_singleton|]. split; [done|]. by apply item_oks.
Qed.

Lemma root_nesting l : l ≠ [] → foldr Z.max 0 (nesting <$> l) ≤ nesting (root l).
Proof.
  intros Hne. destruct l as [|i [|j l]]; [done| |cbn [root nesting]; lia].
  cbn. destruct i; cbn [nesting]; try lia. pose proof (list_max_nonneg (nesting <$> l)). lia.
Qed.

Lemma message_fits l : l ≠ [] → zlen (encode (root l)) ≤ 2 + zlen (concat (encode <$> l)).
Proof. intros Hne. destruct l as [|i [|j l]]; [done|cbn [fmap list_fmap concat root]; rewrite app_nil_r; lia|]. cbn [root encode]. rewrite !zlen_cons. lia. Qed.


Definition sample_items : list item := [IInt (-5); IString (chars "adb"); IList [ILong 7; IList []; IFloat 1]].

(** ** What does not come out again *)

(** A string that is cut off advances [pos] as if it were whole: the message
    ends behind the buffer. *)
Example truncated_string_overruns :
  (c ← create_android_logger 1; '(r, c) ← android_log_write_string8 (Some (replicate 5000 (of_cval 97))) c; (android_log_write_list LOG_ID_EVENTS c : outcome (Z + bytes)))
  = Abort "read past the end of storage".
Proof. by vm_compute. Qed.

(** What a parser returns first for the message that was written for [l]. *)
Definition parsed_first (n : nat) (m : Z + bytes) : outcome (list (Z * bool)) :=
  match m with
  | inl _ => Ret []
  | inr msg => p ← create_android_log_parser msg; r ← read_elements (replicate n false) p; Ret ((λ e, (e_type e, e_complete e)) <$> (fst r : list element))
  end.
Definition parsed_again (l : list item) (n : nat) : outcome (list (Z * bool)) :=
  c ← create_android_logger 1; r ← write_items l c; m ← android_log_write_list LOG_ID_EVENTS (snd r); parsed_first n m.

(** The number of elements is a byte: 256 of them are none. *)
Example elements_uncounted : parsed_again (replicate 256 (IInt 0)) 2 = Ret [(EVENT_TYPE_LIST, false); (EVENT_TYPE_LIST_STOP, true)].
Proof. by vm_compute. Qed.

(** A writer nests eight lists in the one it starts with, a parser goes no
    deeper than eight: what the innermost list holds is not seen. *)
Fixpoint nested (n : nat) (i : item) : item := match n with O => i | S n => IList [nested n i] end.
Example innermost_unseen :
  parsed_again [nested 8 (IInt 5); IInt 6] 11 = Ret (replicate 8 (EVENT_TYPE_LIST, false) ++ [(EVENT_TYPE_LIST, true)] ++ replicate 2 (EVENT_TYPE_UNKNOWN, true)).
Proof. by vm_compute. Qed.
