(* ===== verification/Process.v ===== *)
(** * Processes that talk over a connection

    Client and daemon of the file transfer run at the same time, each at one end
    of a stream.  A [prog] is what one of them does: exact reads and writes of
    its descriptor, polls, and accesses to its own state.  [sys_step] is every
    interleaving of two of them; the connection may be cut at any time.  [wp] is
    the logic in which each of them is verified on its own, and [together] is the
    invariant of the two; [run_pair] is one run of them, for examples. *)

From Stdlib Require Import ZArith Lia List Ascii String.
From stdpp Require Import base numbers list strings relations.
From S2P Require Import Prelude.

Section prog.
Context {St : Type}.

(** [ReadFd]: [ReadFdExactly]; [WriteFd]: [WriteFdExactly], with the [errno] of a
    failure; [PollFd]: is there something to read?; [ReadSome]: one [adb_read],
    empty at the end. *)
Inductive prog (A : Type) : Type :=
| Done (a : A)
| Exit (why : string)
| ReadFd (n : Z) (k : option bytes → prog A)
| ReadSome (n : Z) (k : bytes → prog A)
| WriteFd (d : bytes) (k : option Z → prog A)
| PollFd (k : bool → prog A)
| GetSt (k : St → prog A)
| PutSt (s : St) (k : prog A).
End prog.
Arguments prog : clear implicits.
Arguments Done {St A}.
Arguments Exit {St A}.
Arguments ReadFd {St A}.
Arguments ReadSome {St A}.
Arguments WriteFd {St A}.
Arguments PollFd {St A}.
Arguments GetSt {St A}.
Arguments PutSt {St A}.

#[export] Instance prog_ret St : MRet (prog St) := λ A a, Done a.
#[export] Instance prog_bind St : MBind (prog St) := λ A B f,
  fix go p :=
    match p with
    | Done a => f a
    | Exit why => Exit why
    | ReadFd n k => ReadFd n (λ r, go (k r))
    | ReadSome n k => ReadSome n (λ r, go (k r))
    | WriteFd d k => WriteFd d (λ r, go (k r))
    | PollFd k => PollFd (λ r, go (k r))
    | GetSt k => GetSt (λ s, go (k s))
    | PutSt s k => PutSt s (go k)
    end.

Section calls.
Context {St : Type}.
Definition read_exactly (n : Z) : prog St (option bytes) := ReadFd n Done.
Definition write_exactly (d : bytes) : prog St (option Z) := WriteFd d Done.
Definition poll_readable : prog St bool := PollFd Done.
Definition gets {A} (f : St → A) : prog St A := GetSt (λ s, Done (f s)).
Definition modify (f : St → St) : prog St unit := GetSt (λ s, PutSt (f s) (Done tt)).
(** A step of one's own: its result and what it leaves. *)
Definition act {A} (f : St → A * St) : prog St A := GetSt (λ s, let '(a, s') := f s in PutSt s' (Done a)).
End calls.

(** ** One process

    [inp] and [out] are the bytes read and written so far, [alarm] what had been
    written when a poll first found something. *)
Record config (St A : Type) := mkConfig {
  pr : prog St A;
  st : St;
  inp : bytes;
  out : bytes;
  alarm : option bytes
}.
Arguments mkConfig {St A}.
Arguments pr {St A}.
Arguments st {St A}.
Arguments inp {St A}.
Arguments out {St A}.
Arguments alarm {St A}.

(** What a step needs of the connection. *)
Inductive action :=
| Gets (d : bytes)
| GetsEnd (d : bytes)
| Puts
| PutsFail
| Sees (b : bool)
| Alone.

Inductive step {St A} : config St A → action → config St A → Prop :=
| step_read n k s i o al d : zlen d = Z.max 0 n →
    step (mkConfig (ReadFd n k) s i o al) (Gets d) (mkConfig (k (Some d)) s (i ++ d) o al)
| step_read_end n k s i o al d : zlen d < n →
    step (mkConfig (ReadFd n k) s i o al) (GetsEnd d) (mkConfig (k None) s (i ++ d) o al)
| step_some n k s i o al d : 0 < zlen d ≤ n →
    step (mkConfig (ReadSome n k) s i o al) (Gets d) (mkConfig (k d) s (i ++ d) o al)
| step_some_end n k s i o al :
    step (mkConfig (ReadSome n k) s i o al) (GetsEnd []) (mkConfig (k []) s i o al)
| step_write d k s i o al :
    step (mkConfig (WriteFd d k) s i o al) Puts (mkConfig (k None) s i (o ++ d) al)
| step_write_fail d d' k s i o al e : d' `prefix_of` d →
    step (mkConfig (WriteFd d k) s i o al) PutsFail (mkConfig (k (Some e)) s i (o ++ d') al)
| step_poll k s i o al (b : bool) :
    step (mkConfig (PollFd k) s i o al) (Sees b) (mkConfig (k b) s i o (if b then Some (default o al) else al))
| step_get k s i o al : step (mkConfig (GetSt k) s i o al) Alone (mkConfig (k s) s i o al)
| step_put s' k s i o al : step (mkConfig (PutSt s' k) s i o al) Alone (mkConfig k s' i o al).

Definition ended {St A} (c : config St A) : Prop :=
  match pr c with Done _ | Exit _ => True | _ => False end.

(** ** Two processes

    [cut1] is set once the connection to the first process has been cut: it is
    the stream that still arrives. *)
Record system (S1 A1 S2 A2 : Type) := mkSystem {
  c1 : config S1 A1;
  c2 : config S2 A2;
  cut1 : option bytes;
  cut2 : option bytes
}.
Arguments mkSystem {S1 A1 S2 A2}.
Arguments c1 {S1 A1 S2 A2}.
Arguments c2 {S1 A1 S2 A2}.
Arguments cut1 {S1 A1 S2 A2}.
Arguments cut2 {S1 A1 S2 A2}.

(** What the connection allows a process that has read [i], when the other has
    written [o] and has ended or not. *)
Definition stream (cut : option bytes) (o : bytes) : bytes := default o cut.
Definition allows (i o : bytes) (cut cut_other : option bytes) (other_ended : Prop) (a : action) : Prop :=
  match a with
  | Gets d => i ++ d `prefix_of` stream cut o
  | GetsEnd d => (is_Some cut ∨ other_ended) ∧ i ++ d = stream cut o
  | PutsFail => is_Some cut_other ∨ other_ended
  | Sees true => i ≠ stream cut o ∨ is_Some cut ∨ other_ended
  | Puts | Sees false | Alone => True
  end.

Inductive sys_step {S1 A1 S2 A2} : system S1 A1 S2 A2 → system S1 A1 S2 A2 → Prop :=
| sys_step1 a c1 c1' c2 cut1 cut2 : step c1 a c1' → allows (inp c1) (out c2) cut1 cut2 (ended c2) a →
    sys_step (mkSystem c1 c2 cut1 cut2) (mkSystem c1' c2 cut1 cut2)
| sys_step2 a c1 c2 c2' cut1 cut2 : step c2 a c2' → allows (inp c2) (out c1) cut2 cut1 (ended c1) a →
    sys_step (mkSystem c1 c2 cut1 cut2) (mkSystem c1 c2' cut1 cut2)
| sys_cut1 c1 c2 l cut2 : inp c1 `prefix_of` l → l `prefix_of` out c2 →
    sys_step (mkSystem c1 c2 None cut2) (mkSystem c1 c2 (Some l) cut2)
| sys_cut2 c1 c2 l cut1 : inp c2 `prefix_of` l → l `prefix_of` out c1 →
    sys_step (mkSystem c1 c2 cut1 None) (mkSystem c1 c2 cut1 (Some l)).

Definition start {S1 A1 S2 A2} (p1 : prog S1 A1) (s1 : S1) (p2 : prog S2 A2) (s2 : S2) : system S1 A1 S2 A2 :=
  mkSystem (mkConfig p1 s1 [] [] None) (mkConfig p2 s2 [] [] None) None None.

(** ** A logic for one process

    [rely]: what it may have read; [lossy]: whether the connection may end while
    it wants more or fail while it writes; [asks], [polls]: what holds when it
    wants to read and when it polls; [inv]: what always holds. *)
Section wp.
Context {St : Type} (rely : bytes → Prop) (lossy : Prop).
Context (asks : St → bytes → bytes → Z → Prop) (polls : bytes → bytes → Prop) (inv : St → bytes → bytes → Prop).

Fixpoint wp {A} (p : prog St A) (s : St) (i o : bytes) (al : option bytes) (Q : A → St → bytes → bytes → option bytes → Prop) {struct p} : Prop :=
  inv s i o ∧
  match p with
  | Done a => Q a s i o al
  | Exit _ => lossy
  | ReadFd n k =>
      asks s i o n ∧
      (∀ d, zlen d = Z.max 0 n → rely (i ++ d) → wp (k (Some d)) s (i ++ d) o al Q) ∧
      (lossy → ∀ d, zlen d < n → rely (i ++ d) → wp (k None) s (i ++ d) o al Q)
  | ReadSome n k =>
      asks s i o n ∧ (∀ d, 0 < zlen d ≤ n → rely (i ++ d) → wp (k d) s (i ++ d) o al Q) ∧ wp (k []) s i o al Q
  | WriteFd d k =>
      wp (k None) s i (o ++ d) al Q ∧ (lossy → ∀ d' e, d' `prefix_of` d → wp (k (Some e)) s i (o ++ d') al Q)
  | PollFd k => polls i o ∧ wp (k false) s i o al Q ∧ wp (k true) s i o (Some (default o al)) Q
  | GetSt k => wp (k s) s i o al Q
  | PutSt s' k => wp k s' i o al Q
  end.

Lemma wp_inv {A} (p : prog St A) s i o al Q : wp p s i o al Q → inv s i o.
Proof. destruct p; cbn; tauto. Qed.

Lemma pwp_mono {A} (p : prog St A) s i o al (Q Q' : A → St → bytes → bytes → option bytes → Prop) :
  wp p s i o al Q → (∀ a s i o al, inv s i o → Q a s i o al → Q' a s i o al) → wp p s i o al Q'.
Proof.
  intros Hp HQ. revert s i o al Hp. induction p; cbn; intros s' i o al [Hi Hp]; (split; [done|]); naive_solver.
Qed.

Lemma pwp_bind {A B} (p : prog St A) (f : A → prog St B) s i o al Q :
  wp p s i o al (λ a s i o al, wp (f a) s i o al Q) → wp (p ≫= f) s i o al Q.
Proof.
  revert s i o al. induction p; intros s' i o al Hp; [by destruct Hp|..]; cbn in *; destruct Hp as [Hi Hp]; (split; [done|]); naive_solver.
Qed.

Definition wp_at {A} (c : config St A) (Q : A → St → bytes → bytes → option bytes → Prop) : Prop := wp (pr c) (st c) (inp c) (out c) (alarm c) Q.

Definition may_fail {A} (c : config St A) (a : action) : Prop :=
  match a with GetsEnd _ => match pr c with ReadFd _ _ => True | _ => False end | PutsFail => True | _ => False end.

Lemma wp_step {A} (c c' : config St A) a Q :
  step c a c' → wp_at c Q → (∀ d, a = Gets d ∨ a = GetsEnd d → rely (inp c ++ d)) → (may_fail c a → lossy) → wp_at c' Q.
Proof.
  intros Hs Hc Hr Hl. unfold wp_at in *. destruct Hs; cbn in Hc, Hr, Hl |- *.
  - apply Hc; [done|]. apply Hr. by left.
  - apply Hc; [by apply Hl|done|]. apply Hr. by right.
  - apply Hc; [done|]. apply Hr. by left.
  - apply Hc.
  - apply Hc.
  - apply Hc; [by apply Hl|done].
  - by destruct b; apply Hc.
  - apply Hc.
  - apply Hc.
Qed.
End wp.

Lemma step_out {St A} (c c' : config St A) a : step c a c' → out c `prefix_of` out c'.
Proof. destruct 1; cbn; try apply prefix_app_r; reflexivity. Qed.
Lemma step_inp {St A} (c c' : config St A) a : step c a c' → inp c' = match a with Gets d | GetsEnd d => inp c ++ d | _ => inp c end.
Proof. destruct 1; cbn; rewrite ?app_nil_r; reflexivity. Qed.
Lemma step_ended {St A} (c c' : config St A) a : step c a c' → ¬ ended c.
Proof. unfold ended. destruct 1; cbn; tauto. Qed.

(** ** Two processes together *)

(** What can be left of a program after a step. *)
Definition rest_of {St A} (q p : prog St A) : Prop :=
  match p with
  | Done _ | Exit _ => False
  | ReadFd _ k => ∃ r, q = k r
  | ReadSome _ k => ∃ r, q = k r
  | WriteFd _ k => ∃ r, q = k r
  | PollFd k => ∃ r, q = k r
  | GetSt k => ∃ r, q = k r
  | PutSt _ k => q = k
  end.
Lemma rest_of_wf {St A} : well_founded (@rest_of St A).
Proof.
  intros p. induction p as [a|why|n k IH|n k IH|d k IH|k IH|k IH|s k IH]; constructor; intros q; cbn; [done|done|..];
    [intros [r ->]; apply IH..|intros ->; apply IH].
Qed.
Lemma step_rest {St A} (c c' : config St A) a : step c a c' → rest_of (pr c') (pr c).
Proof. destruct 1; cbn; eauto. Qed.

Definition uncut (l1 l2 : option bytes) : nat := (if l1 then 0 else 1) + (if l2 then 0 else 1).

(** Every run comes to an end. *)
Lemma sys_sn {S1 A1 S2 A2} (g : system S1 A1 S2 A2) : sn sys_step g.
Proof.
  remember (pr (c1 g)) as p1 eqn:H1. revert g H1. induction (rest_of_wf p1) as [p1 _ IH1]. intros g H1.
  remember (pr (c2 g)) as p2 eqn:H2. revert g H1 H2. induction (rest_of_wf p2) as [p2 _ IH2]. intros g H1 H2.
  remember (uncut (cut1 g) (cut2 g)) as n eqn:Hn. revert g H1 H2 Hn. induction n as [n IH] using lt_wf_ind. intros g -> -> ->.
  constructor. intros g' Hg. destruct Hg as [a c1 c1' c2 l1 l2 Hs _|a c1 c2 c2' l1 l2 Hs _|c1 c2 l l2 _ _|c1 c2 l l1 _ _]; cbn in *.
  - by apply (IH1 _ (step_rest _ _ _ Hs)).
  - by apply (IH2 _ (step_rest _ _ _ Hs)).
  - eapply IH; [|done..|reflexivity]. destruct l2; cbn; lia.
  - eapply IH; [|done..|reflexivity]. destruct l1; cbn; lia.
Qed.

Section together.
Context {S1 A1 S2 A2 : Type} (lossy : Prop) (rely1 rely2 : bytes → Prop).
Context (asks1 : S1 → bytes → bytes → Z → Prop) (polls1 : bytes → bytes → Prop) (inv1 : S1 → bytes → bytes → Prop).
Context (asks2 : S2 → bytes → bytes → Z → Prop) (polls2 : bytes → bytes → Prop) (inv2 : S2 → bytes → bytes → Prop).
Context (Q1 : A1 → S1 → bytes → bytes → option bytes → Prop) (Q2 : A2 → S2 → bytes → bytes → option bytes → Prop).
(** What one of them writes the other is ready for. *)
Context (guarantees1 : ∀ s i o l, inv1 s i o → l `prefix_of` o → rely2 l) (guarantees2 : ∀ s i o l, inv2 s i o → l `prefix_of` o → rely1 l).

Definition wp1 (c : config S1 A1) : Prop := wp_at rely1 lossy asks1 polls1 inv1 c Q1.
Definition wp2 (c : config S2 A2) : Prop := wp_at rely2 lossy asks2 polls2 inv2 c Q2.

Record together (g : system S1 A1 S2 A2) : Prop := {
  tg_wp1 : wp1 (c1 g);
  tg_wp2 : wp2 (c2 g);
  tg_inp1 : inp (c1 g) `prefix_of` stream (cut1 g) (out (c2 g));
  tg_inp2 : inp (c2 g) `prefix_of` stream (cut2 g) (out (c1 g));
  tg_cut1 : stream (cut1 g) (out (c2 g)) `prefix_of` out (c2 g);
  tg_cut2 : stream (cut2 g) (out (c1 g)) `prefix_of` out (c1 g)
}.

Lemma tg_inv1 g : together g → inv1 (st (c1 g)) (inp (c1 g)) (out (c1 g)).
Proof. intros Hg. eapply wp_inv, (tg_wp1 _ Hg). Qed.
Lemma tg_inv2 g : together g → inv2 (st (c2 g)) (inp (c2 g)) (out (c2 g)).
Proof. intros Hg. eapply wp_inv, (tg_wp2 _ Hg). Qed.

Lemma together_start p1 s1 p2 s2 :
  wp rely1 lossy asks1 polls1 inv1 p1 s1 [] [] None Q1 → wp rely2 lossy asks2 polls2 inv2 p2 s2 [] [] None Q2 → together (start p1 s1 p2 s2).
Proof. intros H1 H2. constructor; try done; cbn; by exists []. Qed.

(** A failure that the logic does not foresee does not happen. *)
Definition foreseen (g : system S1 A1 S2 A2) : Prop :=
  (∀ a, may_fail (c1 g) a → allows (inp (c1 g)) (out (c2 g)) (cut1 g) (cut2 g) (ended (c2 g)) a → lossy) ∧
  (∀ a, may_fail (c2 g) a → allows (inp (c2 g)) (out (c1 g)) (cut2 g) (cut1 g) (ended (c1 g)) a → lossy).

Lemma stream_grows l o o' : o `prefix_of` o' → stream l o `prefix_of` o → stream l o `prefix_of` stream l o' ∧ stream l o' `prefix_of` o'.
Proof. destruct l; cbn; intros H1 H2; [split; [done|by etrans]|done]. Qed.

Lemma allows_gets i o l l' e a d : allows i o l l' e a → a = Gets d ∨ a = GetsEnd d → i ++ d `prefix_of` stream l o.
Proof. intros Ha [-> | ->]; cbn in Ha; [done|]. destruct Ha as [_ ->]. done. Qed.

Lemma allows_inp {St A} (c c' : config St A) i o l l' e a :
  step c a c' → allows (inp c) o l l' e a → inp c `prefix_of` stream l o → i = inp c' → i `prefix_of` stream l o.
Proof. intros Hs Ha Hi ->. rewrite (step_inp _ _ _ Hs). destruct a; cbn in Ha; try done. destruct Ha as [_ ->]. done. Qed.

Lemma together_step g g' : together g → foreseen g → sys_step g g' → together g'.
Proof.
  intros Hg [Hf1 Hf2] Hs. pose proof (tg_inv1 _ Hg) as Hi1. pose proof (tg_inv2 _ Hg) as Hi2. destruct Hg as [Hw1 Hw2 Hin1 Hin2 Hc1 Hc2].
  destruct Hs as [a c1 c1' c2 l1 l2 Hs Ha|a c1 c2 c2' l1 l2 Hs Ha|c1 c2 l l2 Hl Hl'|c1 c2 l l1 Hl Hl']; cbn in *.
  - destruct (stream_grows l2 _ _ (step_out _ _ _ Hs) Hc2). constructor; cbn; try done; [|by eapply allows_inp|by etrans].
    eapply wp_step; [done..| |by intros; eapply Hf1]. intros d Hd. eapply guarantees2; [done|]. etrans; [by eapply allows_gets|done].
  - destruct (stream_grows l1 _ _ (step_out _ _ _ Hs) Hc1). constructor; cbn; try done; [|by etrans|by eapply allows_inp].
    eapply wp_step; [done..| |by intros; eapply Hf2]. intros d Hd. eapply guarantees1; [done|]. etrans; [by eapply allows_gets|done].
  - by constructor.
  - by constructor.
Qed.

(** On a connection that may be cut everything is foreseen. *)
Lemma together_reachable g g' : lossy → together g → rtc sys_step g g' → together g'.
Proof. intros Hl Hg Hr. induction Hr as [|g g1 g' Hs _ IH]; [done|]. apply IH. by eapply together_step; [done|by split|]. Qed.
End together.

(** ** One run of them

    Each goes on as long as it can; what a poll sees is what has been written. *)
Fixpoint advance {St A} (p : prog St A) (s : St) (inb : bytes) (closed : bool) : prog St A * St * bytes * bytes :=
  match p with
  | Done _ | Exit _ => (p, s, inb, [])
  | ReadFd n k =>
      if n <=? zlen inb then advance (k (Some (take (Z.to_nat n) inb))) s (drop (Z.to_nat n) inb) closed
      else if closed then advance (k None) s [] closed else (p, s, inb, [])
  | ReadSome n k =>
      match inb with
      | [] => if closed then advance (k []) s [] closed else (p, s, inb, [])
      | _ => if n <=? 0 then (p, s, inb, []) else advance (k (take (Z.to_nat n) inb)) s (drop (Z.to_nat n) inb) closed
      end
  | WriteFd d k => let '(p, s, inb, out) := advance (k None) s inb closed in (p, s, inb, d ++ out)
  | PollFd k => advance (k (closed || (0 <? zlen inb))) s inb closed
  | GetSt k => advance (k s) s inb closed
  | PutSt s k => advance k s inb closed
  end.
Definition result {St A} (p : prog St A) : option A := match p with Done a => Some a | _ => None end.
Definition over {St A} (p : prog St A) : bool := match p with Done _ | Exit _ => true | _ => false end.
Fixpoint run_pair {S1 A1 S2 A2} (rounds : nat) (p1 : prog S1 A1) (s1 : S1) (i1 : bytes) (p2 : prog S2 A2) (s2 : S2) (i2 : bytes) :
    prog S1 A1 * S1 * (prog S2 A2 * S2) :=
  match rounds with
  | O => (p1, s1, (p2, s2))
  | S rounds =>
      let '(p1, s1, i1, o1) := advance p1 s1 i1 (over p2) in
      let '(p2, s2, i2, o2) := advance p2 s2 (i2 ++ o1) (over p1) in
      run_pair rounds p1 s1 (i1 ++ o2) p2 s2 i2
  end.

(** Such a run is one of the interleavings. *)
Definition alone_step {St A} (other : bytes) (other_ended : Prop) (c c' : config St A) : Prop :=
  ∃ a, step c a c' ∧ allows (inp c) other None None other_ended a.
(** [c] after [advance]. *)
Definition reached {St A} (other : bytes) (other_ended : Prop) (c : config St A) (r : prog St A * St * bytes * bytes) : Prop :=
  let '(p', s', inb', o') := r in
  ∃ c', rtc (alone_step other other_ended) c c' ∧ pr c' = p' ∧ st c' = s' ∧ other = inp c' ++ inb' ∧ out c' = out c ++ o'.

Lemma reached_step {St A} other oe (c c1 : config St A) a r :
  step c a c1 → allows (inp c) other None None oe a → out c1 = out c → reached other oe c1 r → reached other oe c r.
Proof.
  intros Hs Ha Ho. destruct r as [[[p' s'] inb'] o']. intros (c' & Hr & H1 & H2 & H3 & H4). exists c'. rewrite H4, Ho. split_and!; try done.
  eapply rtc_l; [|done]. by exists a.
Qed.

Lemma advance_reached {St A} (p : prog St A) s inb closed i o al other (oe : Prop) :
  other = i ++ inb → (closed = true → oe) → reached other oe (mkConfig p s i o al) (advance p s inb closed).
Proof.
  intros Hi Hoe. revert s inb i o al Hi.
  induction p as [a|why|n k IH|n k IH|d k IH|k IH|k IH|s0 k IH]; intros s inb i o al Hi; cbn [advance].
  - exists (mkConfig (Done a) s i o al). by rewrite app_nil_r.
  - exists (mkConfig (Exit why) s i o al). by rewrite app_nil_r.
  - assert (Hstop : reached other oe (mkConfig (ReadFd n k) s i o al) (ReadFd n k, s, inb, [])) by (eexists; split; [reflexivity|]; by rewrite app_nil_r).
    destruct (Z.leb_spec n (zlen inb)).
    + eapply (reached_step _ _ _ (mkConfig (k (Some (take (Z.to_nat n) inb))) s (i ++ take (Z.to_nat n) inb) o al)); [constructor| |done|].
      * unfold zlen in *. rewrite length_take. lia.
      * rewrite Hi. cbn. apply prefix_app. by exists (drop (Z.to_nat n) inb); rewrite take_drop.
      * apply IH. by rewrite <-app_assoc, take_drop.
    + destruct closed; [|done]. eapply (reached_step _ _ _ (mkConfig (k None) s (i ++ inb) o al)); [by constructor| |done|].
      * split; [right; by apply Hoe|done].
      * apply IH. by rewrite app_nil_r.
  - assert (Hstop : reached other oe (mkConfig (ReadSome n k) s i o al) (ReadSome n k, s, inb, [])) by (eexists; split; [reflexivity|]; by rewrite app_nil_r).
    destruct inb as [|x inb].
    + destruct closed; [|done]. eapply (reached_step _ _ _ (mkConfig (k []) s i o al)); [by constructor| |done|by apply IH].
      split; [right; by apply Hoe|done].
    + destruct (Z.leb_spec n 0); [done|]. set (d := take (Z.to_nat n) (x :: inb)).
      eapply (reached_step _ _ _ (mkConfig (k d) s (i ++ d) o al)); [constructor| |done|].
      * unfold zlen, d. rewrite length_take. cbn [length]. lia.
      * rewrite Hi. cbn. apply prefix_app. by exists (drop (Z.to_nat n) (x :: inb)); unfold d; rewrite take_drop.
      * apply IH. unfold d. by rewrite <-app_assoc, take_drop.
  - specialize (IH None s inb i (o ++ d) al Hi). destruct (advance (k None) s inb closed) as [[[p' s'] inb'] o'].
    destruct IH as (c' & Hr & H1 & H2 & H3 & H4). exists c'. split_and!; try done; [|by rewrite H4; cbn; rewrite <-app_assoc].
    eapply rtc_l; [|done]. exists Puts. split; [constructor|done].
  - eapply reached_step; [constructor| |done|by apply IH]. destruct closed; cbn; [right; right; by apply Hoe|].
    destruct (Z.ltb_spec 0 (zlen inb)); [|done]. left. rewrite Hi. intros He. cbn in He.
    apply (f_equal length) in He. unfold zlen in *. rewrite length_app in He. lia.
  - eapply reached_step; [constructor|done..|by apply IH].
  - eapply reached_step; [constructor|done..|by apply IH].
Qed.

Lemma over_ended {St A} (c : config St A) : over (pr c) = true → ended c.
Proof. unfold ended. by destruct (pr c). Qed.

Lemma alone_step1 {S1 A1 S2 A2} (c c' : config S1 A1) (c2 : config S2 A2) :
  rtc (alone_step (out c2) (ended c2)) c c' → rtc sys_step (mkSystem c c2 None None) (mkSystem c' c2 None None).
Proof. induction 1 as [|c c1 c' [a [Hs Ha]] _ IH]; [done|]. eapply rtc_l; [|done]. by econstructor. Qed.
Lemma alone_step2 {S1 A1 S2 A2} (c c' : config S2 A2) (c1 : config S1 A1) :
  rtc (alone_step (out c1) (ended c1)) c c' → rtc sys_step (mkSystem c1 c None None) (mkSystem c1 c' None None).
Proof. induction 1 as [|c c0 c' [a [Hs Ha]] _ IH]; [done|]. eapply rtc_l; [|done]. by econstructor. Qed.

Lemma run_pair_reachable {S1 A1 S2 A2} rounds (c1 : config S1 A1) (c2 : config S2 A2) i1 i2 :
  out c2 = inp c1 ++ i1 → out c1 = inp c2 ++ i2 →
  let '(p1, s1, (p2, s2)) := run_pair rounds (pr c1) (st c1) i1 (pr c2) (st c2) i2 in
  ∃ c1' c2', rtc sys_step (mkSystem c1 c2 None None) (mkSystem c1' c2' None None) ∧ pr c1' = p1 ∧ st c1' = s1 ∧ pr c2' = p2 ∧ st c2' = s2.
Proof.
  revert c1 c2 i1 i2. induction rounds as [|rounds IH]; intros c1 c2 i1 i2 H1 H2; [by exists c1, c2|]. cbn [run_pair].
  pose proof (advance_reached (pr c1) (st c1) i1 (over (pr c2)) (inp c1) (out c1) (alarm c1) (out c2) (ended c2) H1 (over_ended c2)) as Ha1.
  destruct (advance (pr c1) (st c1) i1 (over (pr c2))) as [[[p1 s1] i1'] o1]. destruct Ha1 as (c1' & Hr1 & <- & <- & Hi1 & Ho1).
  assert (Hi2 : out c1' = inp c2 ++ (i2 ++ o1)) by (cbn in Ho1; by rewrite Ho1, H2, <-app_assoc).
  pose proof (advance_reached (pr c2) (st c2) (i2 ++ o1) (over (pr c1')) (inp c2) (out c2) (alarm c2) (out c1') (ended c1') Hi2 (over_ended c1')) as Ha2.
  destruct (advance (pr c2) (st c2) (i2 ++ o1) (over (pr c1'))) as [[[p2 s2] i2'] o2]. destruct Ha2 as (c2' & Hr2 & <- & <- & Hi2' & Ho2). cbn in Ho2.
  specialize (IH c1' c2' (i1' ++ o2) i2'). destruct (run_pair rounds (pr c1') (st c1') (i1' ++ o2) (pr c2') (st c2') i2') as [[q1 t1] [q2 t2]].
  destruct IH as (d1 & d2 & Hr & Hd); [by rewrite Ho2, Hi1, <-app_assoc|done|]. exists d1, d2. split; [|done].
  etrans; [|done]. etrans; [by destruct c1; apply alone_step1|by destruct c2; apply alone_step2].
Qed.

Lemma run_reachable {S1 A1 S2 A2} rounds (p1 : prog S1 A1) s1 (p2 : prog S2 A2) s2 :
  let '(p1', s1', (p2', s2')) := run_pair rounds p1 s1 [] p2 s2 [] in
  ∃ g, rtc sys_step (start p1 s1 p2 s2) g ∧ pr (c1 g) = p1' ∧ st (c1 g) = s1' ∧ pr (c2 g) = p2' ∧ st (c2 g) = s2'.
Proof.
  pose proof (run_pair_reachable rounds (mkConfig p1 s1 [] [] None) (mkConfig p2 s2 [] [] None) [] [] eq_refl eq_refl) as Hr. cbn [pr st] in Hr.
  destruct (run_pair rounds p1 s1 [] p2 s2 []) as [[p1' s1'] [p2' s2']]. destruct Hr as (d1 & d2 & Hr & ?). by exists (mkSystem d1 d2 None None).
Qed.
