(* ===== verification/Files.v ===== *)
(** * Files
    (src/lib/base/file.cpp, src/src/sysdeps/errno.cpp, src/src/adb_utils.cpp,
    src/src/daemon/file_sync_service.cpp)

    The operating system behind the file transfer is a parameter: [Os] gives the
    result of each call and what it leaves.  On top of it the helpers of the
    source; [errno] is part of the state of a process. *)

From Stdlib Require Import ZArith Lia List Ascii String.
From stdpp Require Import base numbers list strings.
From S2P Require Import Prelude.
From S2P Require Import Libc.
From S2P Require Import Strings.
From S2P Require Import Process.

(** ** The calls *)

(** [struct stat]. *)
Record stat_t := mkStat {
  st_dev : Z; st_ino : Z; st_mode : Z; st_nlink : Z; st_uid : Z; st_gid : Z;
  st_size : Z; st_atime : Z; st_mtime : Z; st_ctime : Z
}.
Definition no_stat : stat_t := mkStat 0 0 0 0 0 0 0 0 0 0.

Definition S_IFMT : Z := 0xf000.
Definition S_IFDIR : Z := 0x4000.
Definition S_IFREG : Z := 0x8000.
Definition S_ISREG (m : Z) : bool := Z.land m S_IFMT =? S_IFREG.
Definition S_ISDIR (m : Z) : bool := Z.land m S_IFMT =? S_IFDIR.
Definition S_ISLNK (m : Z) : bool := Z.land m S_IFMT =? 0xa000.
Definition S_ISCHR (m : Z) : bool := Z.land m S_IFMT =? 0x2000.
Definition S_ISBLK (m : Z) : bool := Z.land m S_IFMT =? 0x6000.

Definition O_RDONLY : Z := 0.
Definition O_WRONLY : Z := 1.
Definition O_CREAT : Z := 0x40.
Definition O_EXCL : Z := 0x80.
Definition O_TRUNC : Z := 0x200.
Definition O_NOFOLLOW : Z := 0x20000.
Definition O_CLOEXEC : Z := 0x80000.

Definition ENOENT : Z := 2.
Definition EIO : Z := 5.
Definition EEXIST : Z := 17.
Definition ENAMETOOLONG : Z := 36.
Definition ENOPROTOOPT : Z := 92.
Definition ENOTSUP : Z := 95.
Definition ECONNRESET : Z := 104.

(** A call and the type of its result; [inr] is an error number.  The system
    retries what a signal interrupts. *)
Inductive call : Type → Type :=
| c_stat (path : bytes) : call (stat_t + Z)
| c_lstat (path : bytes) : call (stat_t + Z)
| c_open (path : bytes) (flags mode : Z) : call (Z + Z)
| c_read (fd n : Z) : call (bytes + Z)
| c_write (fd : Z) (data : bytes) : call (Z + Z)
| c_close (fd : Z) : call (unit + Z)
| c_unlink (path : bytes) : call (unit + Z)
| c_mkdir (path : bytes) (mode : Z) : call (unit + Z)
| c_chown (path : bytes) (uid gid : Z) : call (unit + Z)
| c_chmod (path : bytes) (mode : Z) : call (unit + Z)
| c_fchown (fd uid gid : Z) : call (unit + Z)
| c_fchmod (fd mode : Z) : call (unit + Z)
| c_removexattr (path : bytes) : call (unit + Z)
| c_setxattr (path : bytes) (cap_data : bytes) : call (unit + Z)
| c_symlink (target path : bytes) : call (unit + Z)
| c_readlink (path : bytes) (n : Z) : call (bytes + Z)
| c_utime (path : bytes) (actime modtime : Z) : call (unit + Z)
| c_readdir (path : bytes) : call (list bytes + Z)
| c_exists (path : bytes) : call (bool + Z)
| c_umask : call (Z + Z).

Class Os := {
  os : Type;
  sys : ∀ {R}, call R → os → R * os;
  strerror : Z → bytes
}.

(** ** A process *)

Section process.
Context `{Os} {X : Type}.

Record proc := mkProc { os_ : os; errno_ : Z; own_ : X }.
Definition set_errno_ (e : Z) (w : proc) : proc := mkProc (os_ w) e (own_ w).
Definition set_own_ (x : X) (w : proc) : proc := mkProc (os_ w) (errno_ w) x.

(** A call: what it yields, or [None] and [errno]. *)
Definition try_ {A} (c : call (A + Z)) : prog proc (option A) :=
  act (λ w,
    let '(r, o) := sys c (os_ w) in
    match r with
    | inl a => (Some a, mkProc o (errno_ w) (own_ w))
    | inr e => (None, mkProc o e (own_ w))
    end).
(** A call whose result is not looked at. *)
Definition do_ {A} (c : call (A + Z)) : prog proc unit := try_ c ≫= λ _, Done tt.
(** A call that returns -1 or not. *)
Definition ok_ {A} (c : call (A + Z)) : prog proc bool := r ← try_ c; Done (bool_decide (is_Some r)).

Definition get_errno : prog proc Z := gets errno_.
Definition set_errno (e : Z) : prog proc unit := modify (set_errno_ e).
Definition own : prog proc X := gets own_.
Definition update (f : X → X) : prog proc unit := modify (λ w, set_own_ (f (own_ w)) w).

(** The connection: [ReadFdExactly] and [WriteFdExactly] of adb_io.cpp. *)
Definition EPIPE : Z := 32.
Definition EAGAIN : Z := 11.
Definition ReadFdExactly (n : Z) : prog proc (option bytes) := read_exactly n.
Definition WriteFdExactly (d : bytes) : prog proc bool :=
  r ← write_exactly d;
  match r with
  | None => Done true
  | Some e => _ ← set_errno (if e =? EPIPE then 0 else e); Done false
  end.

Definition out_of_fuel {A} : prog proc A := Exit "out of fuel".

(** *** lib/base/file.cpp *)

Definition BUFSIZ : Z := 8192.

Fixpoint ReadFdToString (fuel : nat) (fd : Z) (content : bytes) : prog proc (option bytes) :=
  match fuel with
  | O => out_of_fuel
  | S fuel =>
      r ← try_ (c_read fd BUFSIZ);
      match r with
      | None => Done None
      | Some [] => Done (Some content)
      | Some d => ReadFdToString fuel fd (content ++ d)
      end
  end.
(** The descriptor is closed when the function returns. *)
Definition no_follow (follow_symlinks : bool) : Z := if follow_symlinks then 0 else O_NOFOLLOW.
Definition ReadFileToString (fuel : nat) (path : bytes) (follow_symlinks : bool) : prog proc (option bytes) :=
  r ← try_ (c_open path (Z.lor (Z.lor O_RDONLY O_CLOEXEC) (no_follow follow_symlinks)) 0);
  match r with
  | None => Done None
  | Some fd => c ← ReadFdToString fuel fd []; _ ← do_ (c_close fd); Done c
  end.

(** [WriteStringToFd] and [WriteFully] are the same loop. *)
Fixpoint WriteFully (fuel : nat) (fd : Z) (p : bytes) : prog proc bool :=
  match p with
  | [] => Done true
  | _ =>
      match fuel with
      | O => out_of_fuel
      | S fuel =>
          r ← try_ (c_write fd p);
          match r with
          | None => Done false
          | Some n => WriteFully fuel fd (drop (Z.to_nat n) p)
          end
      end
  end.

(** [WriteFdExactly] on a file. *)
Fixpoint write_file (fuel : nat) (fd : Z) (p : bytes) : prog proc bool :=
  match p with
  | [] => Done true
  | _ =>
      match fuel with
      | O => out_of_fuel
      | S fuel =>
          r ← try_ (c_write fd p);
          match r with
          | None =>
              e ← get_errno;
              if e =? EAGAIN then write_file fuel fd p
              else _ ← (if e =? EPIPE then set_errno 0 else Done tt); Done false
          | Some n => write_file fuel fd (drop (Z.to_nat n) p)
          end
      end
  end.

Fixpoint ReadFully (fuel : nat) (fd remaining : Z) (got : bytes) : prog proc (option bytes) :=
  if remaining <=? 0 then Done (Some got)
  else
    match fuel with
    | O => out_of_fuel
    | S fuel =>
        r ← try_ (c_read fd remaining);
        match r with
        | None | Some [] => Done None
        | Some d => ReadFully fuel fd (remaining - zlen d) (got ++ d)
        end
    end.

Definition CleanUpAfterFailedWrite (path : bytes) : prog proc bool :=
  saved ← get_errno; _ ← do_ (c_unlink path); _ ← set_errno saved; Done false.
Definition write_flags (follow_symlinks : bool) : Z :=
  Z.lor (Z.lor (Z.lor O_WRONLY O_CREAT) (Z.lor O_TRUNC O_CLOEXEC)) (no_follow follow_symlinks).
(** What [write] makes of the descriptor, which is then closed. *)
Definition with_file (path : bytes) (flags mode : Z) (write : Z → prog proc bool) : prog proc bool :=
  r ← try_ (c_open path flags mode);
  match r with
  | None => Done false
  | Some fd => b ← write fd; _ ← do_ (c_close fd); Done b
  end.
Definition WriteStringToFile (fuel : nat) (content path : bytes) (follow_symlinks : bool) : prog proc bool :=
  with_file path (write_flags follow_symlinks) 438 (λ fd,
    b ← WriteFully fuel fd content; if b : bool then Done true else CleanUpAfterFailedWrite path).
Definition WriteStringToFileAs (fuel : nat) (content path : bytes) (mode owner group : Z) (follow_symlinks : bool) : prog proc bool :=
  with_file path (write_flags follow_symlinks) mode (λ fd,
    b ← ok_ (c_fchmod fd mode);
    if negb b then CleanUpAfterFailedWrite path
    else
      b ← ok_ (c_fchown fd owner group);
      if negb b then CleanUpAfterFailedWrite path
      else b ← WriteFully fuel fd content; if b : bool then Done true else CleanUpAfterFailedWrite path).

(** The buffer is doubled until the target is shorter. *)
Fixpoint Readlink_loop (fuel : nat) (path : bytes) (n : Z) : prog proc (option bytes) :=
  match fuel with
  | O => out_of_fuel
  | S fuel =>
      r ← try_ (c_readlink path n);
      match r with
      | None => Done None
      | Some target => if zlen target <? n then Done (Some target) else Readlink_loop fuel path (2 * n)
      end
  end.
Definition Readlink (fuel : nat) (path : bytes) : prog proc (option bytes) := Readlink_loop fuel path (4095 + 1).
End process.
Arguments proc {_} X.

(** *** Paths: [std::filesystem::path] of a POSIX system *)

(** What is behind the last [c], and what is before it and with it. *)
Fixpoint split_last (c : ascii) (s : bytes) : option (bytes * bytes) :=
  match s with
  | [] => None
  | x :: s =>
      match split_last c s with
      | Some (a, b) => Some (x :: a, b)
      | None => if char_eqb x c then Some ([x], s) else None
      end
  end.
Definition OS_PATH_SEPARATOR : ascii := "/"%char.
Definition adb_is_separator (c : ascii) : bool := char_eqb c "/".
Definition filename (path : bytes) : bytes := match split_last "/" path with Some (_, b) => b | None => path end.
(** [stem]: without the extension. *)
Definition stem (path : bytes) : bytes :=
  let name := filename path in
  if bool_decide (name = $"." ∨ name = $"..") then name
  else match split_last "." name with
       | Some (a, _) => if (length a =? 1)%nat then name else take (length a - 1) a
       | None => name
       end.
Definition Basename (path : bytes) : bytes := stem path.
(** [remove_filename] leaves the separator. *)
Definition Dirname (path : bytes) : bytes := match split_last "/" path with Some (a, _) => a | None => [] end.

Example Basename_drops_extension : Basename $"/home/me/photo.jpg" = $"photo" ∧ Basename $"a.tar.gz" = $"a.tar" ∧ Basename $"/x/.profile" = $".profile".
Proof. split_and!; by vm_compute. Qed.
Example Dirname_keeps_separator : Dirname $"/a/b" = $"/a/" ∧ Dirname $"/a/" = $"/a/" ∧ Dirname $"a" = [].
Proof. split_and!; by vm_compute. Qed.

(** *** sysdeps/errno.cpp

    The numbers of this machine for the names of the list, in its order. *)
Definition wire_values : list Z := [13; 17; 14; 27; 4; 22; 5; 21; 40; 24; 36; 23; 2; 12; 28; 20; 75; 1; 30; 26].
Definition host_to_wire (host_values : list Z) : list (Z * Z) := zip host_values wire_values.
Fixpoint map_find (l : list (Z * Z)) (k : Z) : option Z :=
  match l with [] => None | (a, b) :: l => if a =? k then Some b else map_find l k end.
Definition errno_to_wire (host_values : list Z) (error : Z) : Z := default 5 (map_find (host_to_wire host_values) error).
(** It looks the number of the wire up among those of the host. *)
Definition errno_from_wire (host_values : list Z) (error : Z) : Z := default EIO (map_find (host_to_wire host_values) error).

(** Where the numbers differ from those of Linux the reason is lost: ELOOP is 62 on macOS. *)
Definition macos_values : list Z := [13; 17; 14; 27; 4; 22; 5; 21; 62; 24; 63; 23; 2; 12; 28; 20; 84; 1; 30; 26].
Example errno_of_macos : errno_to_wire macos_values 62 = 40 ∧ errno_from_wire macos_values 40 = EIO ∧ errno_from_wire wire_values 40 = 40.
Proof. split_and!; by vm_compute. Qed.

(** ** Rules for them *)

Section rules.
Context `{Os} {X : Type} (rely : bytes → Prop) (lossy : Prop).
Context (asks : proc X → bytes → bytes → Z → Prop) (polls : bytes → bytes → Prop) (inv : proc X → bytes → bytes → Prop).

(** The state after a call with the result [r] that left [o]. *)
Definition after {A} (w : proc X) (r : A + Z) (o : os) : proc X :=
  mkProc o (match r with inl _ => errno_ w | inr e => e end) (own_ w).
Definition yield {A} (r : A + Z) : option A := match r with inl a => Some a | inr _ => None end.

Lemma wp_done {A} (a : A) w i o al Q : inv w i o → Q a w i o al → wp rely lossy asks polls inv (Done a) w i o al Q.
Proof. by split. Qed.

Lemma wp_try {A} (c : call (A + Z)) w i o al Q :
  inv w i o → (∀ r s', sys c (os_ w) = (r, s') → inv (after w r s') i o ∧ Q (yield r) (after w r s') i o al) →
  wp rely lossy asks polls inv (try_ c) w i o al Q.
Proof.
  intros Hi Hq. unfold try_, act. split; [done|]. destruct (sys c (os_ w)) as [r s']. destruct (Hq r s' eq_refl).
  by destruct r; split_and!.
Qed.

Lemma wp_errno w i o al Q : inv w i o → Q (errno_ w) w i o al → wp rely lossy asks polls inv get_errno w i o al Q.
Proof. intros. cbn. by split_and!. Qed.
Lemma wp_own w i o al Q : inv w i o → Q (own_ w) w i o al → wp rely lossy asks polls inv own w i o al Q.
Proof. intros. cbn. by split_and!. Qed.
Lemma wp_update f w i o al Q :
  inv w i o → inv (set_own_ (f (own_ w)) w) i o → Q tt (set_own_ (f (own_ w)) w) i o al → wp rely lossy asks polls inv (update f) w i o al Q.
Proof. intros. cbn. by split_and!. Qed.
Lemma wp_set_errno e w i o al Q :
  inv w i o → inv (set_errno_ e w) i o → Q tt (set_errno_ e w) i o al → wp rely lossy asks polls inv (set_errno e) w i o al Q.
Proof. intros. cbn. by split_and!. Qed.

Lemma wp_read n w i o al (Q : option bytes → _) :
  inv w i o → asks w i o n →
  (∀ d, zlen d = Z.max 0 n → rely (i ++ d) → inv w (i ++ d) o ∧ Q (Some d) w (i ++ d) o al) →
  (lossy → ∀ d, zlen d < n → rely (i ++ d) → inv w (i ++ d) o ∧ Q None w (i ++ d) o al) →
  wp rely lossy asks polls inv (ReadFdExactly n) w i o al Q.
Proof. intros Hi Ha H1 H2. split; [done|]. split; [done|]. split; [intros d Hd Hr; by destruct (H1 d Hd Hr)|intros Hl d Hd Hr; by destruct (H2 Hl d Hd Hr)]. Qed.

(** The error number of a failed write. *)
Lemma wp_write d w i o al (Q : bool → _) :
  inv w i o → inv w i (o ++ d) → Q true w i (o ++ d) al →
  (lossy → ∀ d' e, d' `prefix_of` d → inv w i (o ++ d') ∧ inv (set_errno_ e w) i (o ++ d') ∧ Q false (set_errno_ e w) i (o ++ d') al) →
  wp rely lossy asks polls inv (WriteFdExactly d) w i o al Q.
Proof.
  intros Hi Hi' Hq Hf. unfold WriteFdExactly, write_exactly. apply pwp_bind. cbn. split; [done|]. split; [by split_and!|].
  intros Hl d' e Hd. destruct (Hf Hl d' (if e =? EPIPE then 0 else e) Hd) as (H1 & H2 & H3). by split_and!.
Qed.
End rules.

(** ** What is relied on of the system

    The contents of files, what is left to read through a descriptor, and what
    was written through one to a file that had the contents [old]; nobody else
    changes the files meanwhile. *)
Definition alters {R} (c : call R) : bool :=
  match c with
  | c_open _ flags _ => negb (Z.land flags (Z.lor O_CREAT O_TRUNC) =? 0)
  | c_write _ _ | c_unlink _ | c_symlink _ _ => true
  | _ => false
  end.
Class Posix (O : Os) := {
  content : os → bytes → option bytes;
  reader : os → Z → bytes → Prop;
  writer : os → Z → bytes → bytes → bytes → Prop;
  content_kept {R} (c : call R) o path : alters c = false → content (sys c o).2 path = content o path;
  open_failed path' flags mode o path e o' : sys (c_open path' flags mode) o = (inr e, o') → content o' path = content o path;
  stat_size path o st o' d : sys (c_stat path) o = (inl st, o') → content o path = Some d → st_size st = zlen d;
  open_reader path flags mode o fd o' d :
    sys (c_open path flags mode) o = (inl fd, o') → Z.land flags 3 = O_RDONLY → Z.land flags (Z.lor O_CREAT O_TRUNC) = 0 →
    content o path = Some d → reader o' fd d;
  read_reader fd n o d o' rest :
    reader o fd rest → sys (c_read fd n) o = (inl d, o') → 0 < n →
    ∃ rest', rest = d ++ rest' ∧ reader o' fd rest' ∧ zlen d ≤ n ∧ (d = [] → rest = []);
  open_new path flags mode o fd o' :
    sys (c_open path flags mode) o = (inl fd, o') → Z.land flags (Z.lor O_CREAT O_EXCL) = Z.lor O_CREAT O_EXCL → Z.land flags 3 = O_WRONLY →
    writer o' fd path [] [];
  open_old path flags mode o fd o' :
    sys (c_open path flags mode) o = (inl fd, o') → Z.land flags (Z.lor O_CREAT O_TRUNC) = 0 → Z.land flags 3 = O_WRONLY →
    writer o' fd path [] (default [] (content o path));
  open_truncated path flags mode o fd o' :
    sys (c_open path flags mode) o = (inl fd, o') → Z.land flags (Z.lor O_CREAT O_TRUNC) = Z.lor O_CREAT O_TRUNC → Z.land flags 3 = O_WRONLY →
    writer o' fd path [] [];
  write_writer fd d o r o' path w old :
    writer o fd path w old → sys (c_write fd d) o = (r, o') →
    match r with inl n => 0 ≤ n ≤ zlen d ∧ writer o' fd path (w ++ take (Z.to_nat n) d) old | inr _ => writer o' fd path w old end;
  writer_kept {R} (c : call R) o fd path w old :
    writer o fd path w old → match c with c_fchown _ _ _ | c_fchmod _ _ => True | _ => False end → writer (sys c o).2 fd path w old;
  close_writer fd o path w old : writer o fd path w old → content (sys (c_close fd) o).2 path = Some (w ++ drop (length w) old)
}.

(** A file is written whole or the function fails. *)
Lemma wp_write_file `{O : Os} (P : Posix O) {X} (rely : bytes → Prop) lossy asks polls (inv : proc X → bytes → bytes → Prop) fuel fd d w i o al path wr old :
  lossy → (∀ w', inv w' i o) → writer (os_ w) fd path wr old →
  wp rely lossy asks polls inv (write_file fuel fd d) w i o al
    (λ b w' i' o' al', i' = i ∧ o' = o ∧ al' = al ∧ (b = true → writer (os_ w') fd path (wr ++ d) old)).
Proof.
  intros Hl Hinv. revert d w wr. induction fuel as [|fuel IH]; intros d w wr Hw; (destruct d as [|c d]; [apply wp_done; [done|by rewrite app_nil_r]|]); cbn [write_file].
  { by split. }
  apply pwp_bind, wp_try; [done|]. intros r s' Hs. split; [done|]. pose proof (write_writer _ _ _ _ _ _ _ _ Hw Hs) as Hw'.
  destruct r as [n|e]; cbn [yield].
  - destruct Hw' as [Hn Hw']. eapply pwp_mono; [by apply IH|]. cbn beta. intros b w2 i2 o2 al2 _ (-> & -> & -> & Hb). split_and!; [done..|].
    intros Hbt. specialize (Hb Hbt). by rewrite <-app_assoc, take_drop in Hb.
  - apply pwp_bind, wp_errno; [done|]. destruct (_ =? EAGAIN); [by apply IH|]. apply pwp_bind.
    destruct (_ =? EPIPE); [apply wp_set_errno; [done..|]|apply wp_done; [done|]]; by apply wp_done.
Qed.
