(* ===== verification/SyncService.v ===== *)
(** * The file transfer service of the daemon
    (src/src/file_sync_protocol.h, src/src/daemon/file_sync_service.cpp)

    As it is built here, with ADB_NON_ANDROID: owners and capabilities are not
    taken from a table.  The buffer keeps its contents from one command to the
    next; what a failed read leaves in it is not modelled, as every command that
    goes on reading then ends the session. *)

From Stdlib Require Import ZArith Lia List Ascii String.
From stdpp Require Import base numbers list strings.
From S2P Require Import Prelude.
From S2P Require Import Libc.
From S2P Require Import Strings.
From S2P Require Import Wire.
From S2P Require Import Process.
From S2P Require Import Files.

(** ** Messages *)

Definition MKID (a b c d : ascii) : Z := Z.lor (Z.lor (Z.lor (cval a) (Z.shiftl (cval b) 8)) (Z.shiftl (cval c) 16)) (Z.shiftl (cval d) 24).
Definition ID_LSTAT_V1 : Z := MKID "S" "T" "A" "T".
Definition ID_STAT_V2 : Z := MKID "S" "T" "A" "2".
Definition ID_LSTAT_V2 : Z := MKID "L" "S" "T" "2".
Definition ID_LIST : Z := MKID "L" "I" "S" "T".
Definition ID_SEND : Z := MKID "S" "E" "N" "D".
Definition ID_RECV : Z := MKID "R" "E" "C" "V".
Definition ID_DENT : Z := MKID "D" "E" "N" "T".
Definition ID_DONE : Z := MKID "D" "O" "N" "E".
Definition ID_DATA : Z := MKID "D" "A" "T" "A".
Definition ID_OKAY : Z := MKID "O" "K" "A" "Y".
Definition ID_FAIL : Z := MKID "F" "A" "I" "L".
Definition ID_QUIT : Z := MKID "Q" "U" "I" "T".

(** A [SyncRequest], a [data] and a [status] message: two words. *)
Definition message (id n : Z) : bytes := le32s [id; n].
#[global] Arguments message : simpl never.
Definition message_size : Z := 8.
Definition msg_id (m : bytes) : Z := word_at m 0.
Definition msg_arg (m : bytes) : Z := word_at m 4.

Definition SYNC_DATA_MAX : Z := 64 * 1024.

Definition le64 (z : Z) : bytes := le32 z ++ le32 (Z.shiftr z 32).
Definition stat_v1 (mode size time : Z) : bytes := le32s [ID_LSTAT_V1; mode; size; time].
Definition stat_v1_size : Z := 16.
Definition stat_v2 (id error : Z) (st : stat_t) : bytes :=
  le32s [id; error] ++ le64 (st_dev st) ++ le64 (st_ino st) ++ le32s [st_mode st; st_nlink st; st_uid st; st_gid st] ++
  le64 (st_size st) ++ le64 (st_atime st) ++ le64 (st_mtime st) ++ le64 (st_ctime st).
Definition stat_v2_size : Z := 72.
Definition dent (id mode size time namelen : Z) : bytes := le32s [id; mode; size; time; namelen].
Definition dent_size : Z := 20.

(** ** The daemon *)

Section daemon.
Context `{Os} (host_values : list Z).

(** The buffer of the session. *)
Definition Daemon : Type := proc bytes.
Definition initial_buffer : bytes := replicate (Z.to_nat SYNC_DATA_MAX) NUL.

(** [ReadFdExactly(s, &buffer[0], n)]. *)
Definition read_buffer (n : Z) : prog Daemon (option bytes) :=
  r ← ReadFdExactly n;
  match r with
  | None => Done None
  | Some d => _ ← update (λ b, d ++ drop (length d) b); Done (Some d)
  end.

Definition update_capabilities (path : bytes) (capabilities : Z) : prog Daemon bool :=
  if capabilities =? 0 then _ ← do_ (c_removexattr path); Done true
  else ok_ (c_setxattr path (le32s [0x02000001; capabilities; 0; Z.shiftr capabilities 32; 0])).

(** -1 as a [uid_t] and a [gid_t]. *)
Definition no_id : Z := 2 ^ 32 - 1.

Fixpoint make_dirs (components : list bytes) (partial_path : bytes) : prog Daemon bool :=
  match components with
  | [] => Done true
  | [] :: components => make_dirs components partial_path
  | path_component :: components =>
      let partial_path := partial_path ++ (if bool_decide (last partial_path = Some OS_PATH_SEPARATOR) then [] else [OS_PATH_SEPARATOR]) ++ path_component in
      r ← ok_ (c_mkdir partial_path 0x1fd);
      if r : bool then
        owned ← ok_ (c_chown partial_path no_id no_id);
        if negb owned then Done false
        else
          set ← update_capabilities partial_path 0;
          if negb set then Done false else make_dirs components partial_path
      else
        e ← get_errno;
        if negb (e =? EEXIST) then Done false else make_dirs components partial_path
  end.
Definition secure_mkdirs (path : bytes) : prog Daemon bool :=
  match path with
  | c :: _ =>
      if char_eqb c "/" then match Split path $"/" with Ret l => make_dirs l [] | Abort why => Exit why end
      else Done false
  | [] => Done false
  end.

Definition do_lstat_v1 (path : bytes) : prog Daemon bool :=
  r ← try_ (c_lstat path);
  let st := default no_stat r in
  WriteFdExactly (stat_v1 (st_mode st) (st_size st) (st_mtime st)).

Definition do_stat_v2 (id : Z) (path : bytes) : prog Daemon bool :=
  r ← try_ (if id =? ID_STAT_V2 then c_stat path else c_lstat path);
  match r with
  | None => e ← get_errno; WriteFdExactly (stat_v2 id (errno_to_wire host_values e) no_stat)
  | Some st => WriteFdExactly (stat_v2 id 0 st)
  end.

(** The entries, as [readdir] gives them. *)
Fixpoint send_entries (path : bytes) (names : list bytes) : prog Daemon bool :=
  match names with
  | [] => WriteFdExactly (dent ID_DONE 0 0 0 0)
  | name :: names =>
      r ← try_ (c_lstat (path ++ $"/" ++ name));
      match r with
      | None => send_entries path names
      | Some st =>
          b ← WriteFdExactly (dent ID_DENT (st_mode st) (st_size st) (st_mtime st) (zlen name));
          if negb b then Done false
          else b ← WriteFdExactly name; if negb b then Done false else send_entries path names
      end
  end.
Definition do_list (path : bytes) : prog Daemon bool :=
  r ← try_ (c_readdir path);
  send_entries path (default [] r).

Definition SendSyncFail (reason : bytes) : prog Daemon bool :=
  b ← WriteFdExactly (message ID_FAIL (zlen reason));
  if b : bool then WriteFdExactly reason else Done false.
Definition SendSyncFailErrno (reason : bytes) : prog Daemon bool :=
  e ← get_errno; SendSyncFail (reason ++ $": " ++ strerror e).

(** *** Receiving a file *)

(** [fail]: what the client still sends is thrown away. *)
Fixpoint discard (fuel : nat) : prog Daemon unit :=
  match fuel with
  | O => out_of_fuel
  | S fuel =>
      r ← ReadFdExactly message_size;
      match r with
      | None => Done tt
      | Some m =>
          if negb (msg_id m =? ID_DATA) then Done tt
          else if SYNC_DATA_MAX <? msg_arg m then Done tt
          else r ← read_buffer (msg_arg m); match r with None => Done tt | Some _ => discard fuel end
      end
  end.
Definition abort (path : bytes) (fd : option Z) (do_unlink : bool) : prog Daemon bool :=
  _ ← (match fd with Some fd => do_ (c_close fd) | None => Done tt end);
  _ ← (if do_unlink then do_ (c_unlink path) else Done tt);
  Done false.
Definition fail (fuel : nat) (path : bytes) (fd : option Z) (do_unlink : bool) : prog Daemon bool :=
  _ ← discard fuel; abort path fd do_unlink.

Inductive received := Timestamp (t : Z) | GotoFail | GotoAbort.
Fixpoint receive (fuel : nat) (fd : Z) : prog Daemon received :=
  match fuel with
  | O => out_of_fuel
  | S fuel =>
      r ← ReadFdExactly message_size;
      match r with
      | None => Done GotoFail
      | Some m =>
          if negb (msg_id m =? ID_DATA) then
            if msg_id m =? ID_DONE then Done (Timestamp (msg_arg m))
            else _ ← SendSyncFail $"invalid data message"; Done GotoAbort
          else if SYNC_DATA_MAX <? msg_arg m then _ ← SendSyncFail $"oversize data message"; Done GotoAbort
          else
            r ← read_buffer (msg_arg m);
            match r with
            | None => Done GotoAbort
            | Some d =>
                b ← write_file (S fuel) fd d;
                if negb b then _ ← SendSyncFailErrno $"write failed"; Done GotoFail else receive fuel fd
            end
      end
  end.

Definition CREATE_NEW : Z := Z.lor (Z.lor O_WRONLY O_CREAT) (Z.lor O_EXCL O_CLOEXEC).
(** The descriptor, or [None] when the client has been told why there is none. *)
Definition open_existing (path : bytes) (mode : Z) : prog Daemon (option Z) :=
  e ← get_errno;
  r ← (if e =? EEXIST then try_ (c_open path (Z.lor O_WRONLY O_CLOEXEC) mode) else Done None);
  match r with
  | Some fd => Done (Some fd)
  | None => _ ← SendSyncFailErrno $"couldn't create file"; Done None
  end.
Definition open_target (path : bytes) (mode : Z) : prog Daemon (option Z) :=
  r ← try_ (c_open path CREATE_NEW mode);
  match r with
  | Some fd => Done (Some fd)
  | None =>
      e ← get_errno;
      if e =? ENOENT then
        b ← secure_mkdirs (Dirname path);
        if negb b then _ ← SendSyncFailErrno $"secure_mkdirs failed"; Done None
        else
          r ← try_ (c_open path CREATE_NEW mode);
          match r with Some fd => Done (Some fd) | None => open_existing path mode end
      else open_existing path mode
  end.

Definition handle_send_file (fuel : nat) (path : bytes) (uid gid capabilities mode : Z) (do_unlink : bool) : prog Daemon bool :=
  r ← open_target path mode;
  match r with
  | None => fail fuel path None do_unlink
  | Some fd =>
      b ← ok_ (c_fchown fd uid gid);
      if negb b then _ ← SendSyncFailErrno $"fchown failed"; fail fuel path (Some fd) do_unlink
      else
        _ ← do_ (c_fchmod fd mode);
        r ← receive fuel fd;
        match r with
        | GotoFail => fail fuel path (Some fd) do_unlink
        | GotoAbort => abort path (Some fd) do_unlink
        | Timestamp timestamp =>
            _ ← do_ (c_close fd);
            b ← update_capabilities path capabilities;
            if negb b then _ ← SendSyncFailErrno $"update_capabilities failed"; fail fuel path (Some fd) do_unlink
            else _ ← do_ (c_utime path timestamp timestamp); WriteFdExactly (message ID_OKAY 0)
        end
  end.

(** *** Receiving a link *)

(** The target ends with the first NUL of the buffer. *)
Definition buffer_string : prog Daemon bytes :=
  b ← own; if bool_decide (NUL ∈ b) then Done (c_str b) else Exit "read past the end of the buffer".

Definition handle_send_link (path : bytes) : prog Daemon bool :=
  r ← ReadFdExactly message_size;
  match r with
  | None => Done false
  | Some m =>
      if negb (msg_id m =? ID_DATA) then _ ← SendSyncFail $"invalid data message: expected ID_DATA"; Done false
      else if SYNC_DATA_MAX <? msg_arg m then _ ← SendSyncFail $"oversize data message"; Done false
      else
        r ← read_buffer (msg_arg m);
        match r with
        | None => Done false
        | Some _ =>
            target ← buffer_string;
            made ← ok_ (c_symlink target path);
            e ← get_errno;
            r ← (if negb made && (e =? ENOENT) then
                   b ← secure_mkdirs (Dirname path);
                   if negb b then _ ← SendSyncFailErrno $"secure_mkdirs failed"; Done None
                   else b ← ok_ (c_symlink target path); Done (Some b)
                 else Done (Some made));
            match r with
            | None => Done false
            | Some false => _ ← SendSyncFailErrno $"symlink failed"; Done false
            | Some true =>
                r ← ReadFdExactly message_size;
                match r with
                | None => Done false
                | Some m =>
                    if msg_id m =? ID_DONE then WriteFdExactly (message ID_OKAY 0)
                    else _ ← SendSyncFail $"invalid data message: expected ID_DONE"; Done false
                end
            end
        end
  end.
(** *** Commands *)

Definition find_last_of (c : ascii) (s : bytes) : option nat :=
  match split_last c s with Some (a, _) => Some (length a - 1)%nat | None => None end.
(** The mode of a file, from the user's permissions. *)
Definition copy_user_bits (mode : Z) : Z :=
  let mode := Z.land mode 0x1ff in
  let mode := Z.lor mode (Z.land (Z.shiftr mode 3) 0x38) in
  Z.lor mode (Z.land (Z.shiftr mode 3) 0x7).

Definition do_send (fuel : nat) (spec : bytes) : prog Daemon bool :=
  match find_last_of "," spec with
  | None => _ ← SendSyncFail $"missing , in ID_SEND"; Done false
  | Some comma =>
      let path := take comma spec in
      let number := drop (comma + 1) spec in
      let '(v, _, range) := strtoull (base_of number) number in
      if range : bool then _ ← SendSyncFail $"bad mode"; Done false
      else
        let mode := u32 v in
        r ← try_ (c_lstat path);
        let do_unlink := match r with None => true | Some st => S_ISREG (st_mode st) || S_ISLNK (st_mode st) end in
        _ ← (if do_unlink then do_ (c_unlink path) else Done tt);
        if S_ISLNK mode then handle_send_link path
        else handle_send_file fuel path no_id no_id 0 (copy_user_bits mode) do_unlink
  end.

(** What is read of the file goes through the buffer. *)
Fixpoint send_data (fuel : nat) (fd : Z) : prog Daemon bool :=
  match fuel with
  | O => out_of_fuel
  | S fuel =>
      r ← try_ (c_read fd (SYNC_DATA_MAX - message_size));
      match r with
      | None => _ ← SendSyncFailErrno $"read failed"; _ ← do_ (c_close fd); Done false
      | Some [] => _ ← do_ (c_close fd); WriteFdExactly (message ID_DONE 0)
      | Some d =>
          _ ← update (λ b, d ++ drop (length d) b);
          b ← WriteFdExactly (message ID_DATA (zlen d));
          b ← (if b : bool then WriteFdExactly d else Done false);
          if negb b then _ ← do_ (c_close fd); Done false else send_data fuel fd
      end
  end.
Definition do_recv (fuel : nat) (path : bytes) : prog Daemon bool :=
  r ← try_ (c_open path (Z.lor O_RDONLY O_CLOEXEC) 0);
  match r with
  | None => _ ← SendSyncFailErrno $"open failed"; Done false
  | Some fd => send_data fuel fd
  end.

Definition handle_sync_command (fuel : nat) : prog Daemon bool :=
  r ← ReadFdExactly message_size;
  match r with
  | None => _ ← SendSyncFail $"command read failure"; Done false
  | Some m =>
      if 1024 <? msg_arg m then _ ← SendSyncFail $"path too long"; Done false
      else
        r ← ReadFdExactly (msg_arg m);
        match r with
        | None => _ ← SendSyncFail $"filename read failure"; Done false
        | Some name =>
            let name := c_str name in
            let id := msg_id m in
            if id =? ID_LSTAT_V1 then do_lstat_v1 name
            else if (id =? ID_LSTAT_V2) || (id =? ID_STAT_V2) then do_stat_v2 id name
            else if id =? ID_LIST then do_list name
            else if id =? ID_SEND then do_send fuel name
            else if id =? ID_RECV then do_recv fuel name
            else if id =? ID_QUIT then Done false
            else _ ← SendSyncFail ($"unknown command " ++ print_hex_pad 8 id); Done false
        end
  end.

(** [fuel]: the commands of a session, [data]: the messages of a file. *)
Fixpoint file_sync_service (fuel data : nat) : prog Daemon unit :=
  match fuel with
  | O => out_of_fuel
  | S fuel => b ← handle_sync_command data; if b : bool then file_sync_service fuel data else Done tt
  end.
End daemon.
