(* ===== verification/SyncClient.v ===== *)
(** * The file transfer of the client
    (src/src/client/file_sync_client.cpp)

    A [SyncConnection] and the transfers on it: listing, stat, push, pull and
    sync.  What is shown of the progress is left out; the messages of [Error],
    [Warning] and [Println] are kept in order.  Commands for the shell of the
    device go over other connections and are only recorded. *)

From Stdlib Require Import ZArith Lia List Ascii String.
From stdpp Require Import base numbers list strings gmap.
From S2P Require Import Prelude.
From S2P Require Import Libc.
From S2P Require Import Strings.
From S2P Require Import Wire.
From S2P Require Import Transport.
From S2P Require Import Process.
From S2P Require Import Files.
From S2P Require Import SyncService.

Record TransferLedger := mkLedger {
  files_transferred : Z;
  files_skipped : Z;
  bytes_transferred : Z;
  bytes_expected : Z;
  expect_multiple_files : bool
}.
(** [Reset] leaves [expect_multiple_files] alone. *)
Definition Reset (l : TransferLedger) : TransferLedger := mkLedger 0 0 0 0 (expect_multiple_files l).
Definition add_bytes (n : Z) (l : TransferLedger) : TransferLedger :=
  mkLedger (files_transferred l) (files_skipped l) (u64 (bytes_transferred l + n)) (bytes_expected l) (expect_multiple_files l).
Definition add_files (n : Z) (l : TransferLedger) : TransferLedger :=
  mkLedger (u64 (files_transferred l + n)) (files_skipped l) (bytes_transferred l) (bytes_expected l) (expect_multiple_files l).
Definition add_skipped (n : Z) (l : TransferLedger) : TransferLedger :=
  mkLedger (files_transferred l) (u64 (files_skipped l + n)) (bytes_transferred l) (bytes_expected l) (expect_multiple_files l).
Definition expect_bytes (n : Z) (many : bool) (l : TransferLedger) : TransferLedger :=
  mkLedger (files_transferred l) (files_skipped l) (bytes_transferred l) n many.

Record SyncConnection := mkConnection {
  expect_done_ : bool;
  features_ : FeatureSet;
  have_stat_v2_ : bool;
  global_ledger_ : TransferLedger;
  current_ledger_ : TransferLedger;
  printed : list bytes;
  shell_commands : list bytes
}.
Definition set_expect_done_ (b : bool) (c : SyncConnection) : SyncConnection :=
  mkConnection b (features_ c) (have_stat_v2_ c) (global_ledger_ c) (current_ledger_ c) (printed c) (shell_commands c).
Definition set_ledgers (f g : TransferLedger → TransferLedger) (c : SyncConnection) : SyncConnection :=
  mkConnection (expect_done_ c) (features_ c) (have_stat_v2_ c) (f (global_ledger_ c)) (g (current_ledger_ c)) (printed c) (shell_commands c).
Definition add_printed (s : bytes) (c : SyncConnection) : SyncConnection :=
  mkConnection (expect_done_ c) (features_ c) (have_stat_v2_ c) (global_ledger_ c) (current_ledger_ c) (printed c ++ [s]) (shell_commands c).
Definition add_shell_command (s : bytes) (c : SyncConnection) : SyncConnection :=
  mkConnection (expect_done_ c) (features_ c) (have_stat_v2_ c) (global_ledger_ c) (current_ledger_ c) (printed c) (shell_commands c ++ [s]).

(** A connection whose device has the features. *)
Definition SyncConnection_new (features : FeatureSet) : SyncConnection :=
  let l := mkLedger 0 0 0 0 false in
  mkConnection false features (CanUseFeature features kFeatureStat2) l l [] [].

Definition should_pull_file (mode : Z) : bool := S_ISREG mode || S_ISBLK mode || S_ISCHR mode.
Definition should_push_file (mode : Z) : bool := S_ISREG mode || S_ISLNK mode.

Definition s64 (z : Z) : Z := (z + 2 ^ 63) mod 2 ^ 64 - 2 ^ 63.
Definition u64_at (m : bytes) (off : Z) : Z := word_at m off + 2 ^ 32 * word_at m (off + 4).

Section client.
Context `{Os} (host_values : list Z).
Definition Client : Type := proc SyncConnection.

(** ** The connection *)

Definition Error (s : bytes) : prog Client unit := update (add_printed ($"adb: error: " ++ s)).
Definition Warning (s : bytes) : prog Client unit := update (add_printed ($"adb: warning: " ++ s)).
Definition Println (s : bytes) : prog Client unit := update (add_printed s).
Definition errno_text : prog Client bytes := e ← get_errno; Done (strerror e).

Definition NewTransfer : prog Client unit := update (set_ledgers (λ l, l) Reset).
Definition RecordBytesTransferred (n : Z) : prog Client unit := update (set_ledgers (add_bytes n) (add_bytes n)).
Definition RecordFilesTransferred (n : Z) : prog Client unit := update (set_ledgers (add_files n) (add_files n)).
Definition RecordFilesSkipped (n : Z) : prog Client unit := update (set_ledgers (add_skipped n) (add_skipped n)).

(** The poll itself does not fail. *)
Definition ReceivedError : prog Client bool := poll_readable.

Definition SendRequest (id : Z) (path_and_mode : bytes) : prog Client bool :=
  if 1024 <? zlen path_and_mode then
    _ ← Error ($"SendRequest failed: path too long: " ++ print_dec (zlen path_and_mode)); _ ← set_errno ENAMETOOLONG; Done false
  else WriteFdExactly (message id (zlen path_and_mode) ++ path_and_mode).

Definition SendStat (path : bytes) : prog Client bool :=
  c ← own; if have_stat_v2_ c then SendRequest ID_STAT_V2 path else _ ← set_errno ENOTSUP; Done false.
Definition SendLstat (path : bytes) : prog Client bool :=
  c ← own; SendRequest (if have_stat_v2_ c then ID_LSTAT_V2 else ID_LSTAT_V1) path.

Definition decode_stat_v2 (m : bytes) : stat_t :=
  mkStat (u64_at m 8) (u64_at m 16) (word_at m 24) (word_at m 28) (word_at m 32) (word_at m 36)
    (s64 (u64_at m 40)) (s64 (u64_at m 48)) (s64 (u64_at m 56)) (s64 (u64_at m 64)).
Definition decode_stat_v1 (m : bytes) : stat_t :=
  mkStat 0 0 (word_at m 4) 0 0 0 (word_at m 8) 0 (word_at m 12) (word_at m 12).

(** [FinishStat]: the stat, or [None] and [errno]. *)
Definition FinishStat : prog Client (option stat_t) :=
  c ← own;
  if have_stat_v2_ c then
    r ← ReadFdExactly stat_v2_size;
    match r with
    | None => Exit "protocol fault: failed to read stat response"
    | Some m =>
        if negb (msg_id m =? ID_LSTAT_V2) && negb (msg_id m =? ID_STAT_V2) then Exit "protocol fault: stat response has wrong message id"
        else if negb (msg_arg m =? 0) then _ ← set_errno (errno_from_wire host_values (msg_arg m)); Done None
        else Done (Some (decode_stat_v2 m))
    end
  else
    r ← ReadFdExactly stat_v1_size;
    match r with
    | None => Exit "protocol fault: failed to read stat response"
    | Some m =>
        if negb (msg_id m =? ID_LSTAT_V1) then Exit "protocol fault: stat response has wrong message id"
        else
          let st := decode_stat_v1 m in
          if (st_mode st =? 0) && (st_size st =? 0) && (st_mtime st =? 0) then _ ← set_errno ENOPROTOOPT; Done None
          else Done (Some st)
    end.

Definition copy_failure (from to : bytes) : bytes := $"failed to copy '" ++ from ++ $"' to '" ++ to ++ $"'".

(** [msglen + 1] is a [uint32_t], the size of the buffer that [msglen] bytes are read into. *)
Definition ReportCopyFailure (from to : bytes) (msglen : Z) : prog Client bool :=
  if u32 (msglen + 1) =? 0 then Exit "write past the end of the buffer"
  else
    r ← ReadFdExactly msglen;
    match r with
    | None => t ← errno_text; _ ← Error (copy_failure from to ++ $"; failed to read reason (!): " ++ t); Done false
    | Some reason => _ ← Error (copy_failure from to ++ $": remote " ++ c_str reason); Done false
    end.

Definition WriteOrDie (from to : bytes) (data : bytes) : prog Client bool :=
  b ← WriteFdExactly data;
  if b : bool then Done true
  else
    e ← get_errno;
    _ ← (if e =? ECONNRESET then
           r ← ReadFdExactly message_size;
           match r with
           | None => t ← errno_text; Error (copy_failure from to ++ $": no response: " ++ t)
           | Some m =>
               if negb (msg_id m =? ID_FAIL) then Error (copy_failure from to ++ $": not ID_FAIL: " ++ print_dec (s32 (msg_id m)))
               else _ ← ReportCopyFailure from to (msg_arg m); Done tt
           end
         else t ← errno_text; Error (print_dec (zlen data) ++ $"-byte write failed: " ++ t));
    Exit "exit(1)".

Definition SendSmallFile (path_and_mode lpath rpath : bytes) (mtime : Z) (data : bytes) : prog Client bool :=
  if 1024 <? zlen path_and_mode then
    _ ← Error ($"SendSmallFile failed: path too long: " ++ print_dec (zlen path_and_mode)); _ ← set_errno ENAMETOOLONG; Done false
  else
    _ ← WriteOrDie lpath rpath (message ID_SEND (zlen path_and_mode) ++ path_and_mode ++ message ID_DATA (zlen data) ++ data ++ message ID_DONE mtime);
    _ ← update (set_expect_done_ true);
    _ ← RecordBytesTransferred (zlen data);
    Done true.

(** The messages with the contents; [true]: read to the end, or as far as the
    other side let it. *)
Fixpoint send_chunks (fuel : nat) (lpath rpath : bytes) (lfd : Z) : prog Client bool :=
  match fuel with
  | O => out_of_fuel
  | S fuel =>
      r ← try_ (c_read lfd (SYNC_DATA_MAX - message_size));
      match r with
      | None => t ← errno_text; _ ← Error ($"reading '" ++ lpath ++ $"' locally failed: " ++ t); _ ← do_ (c_close lfd); Done false
      | Some [] => Done true
      | Some d =>
          _ ← WriteOrDie lpath rpath (message ID_DATA (zlen d) ++ d);
          _ ← RecordBytesTransferred (zlen d);
          b ← ReceivedError;
          if b : bool then Done true else send_chunks fuel lpath rpath lfd
      end
  end.
Definition SendLargeFile (fuel : nat) (path_and_mode lpath rpath : bytes) (mtime : Z) : prog Client bool :=
  b ← SendRequest ID_SEND path_and_mode;
  if negb b then t ← errno_text; _ ← Error ($"failed to send ID_SEND message '" ++ path_and_mode ++ $"': " ++ t); Done false
  else
    r ← try_ (c_stat lpath);
    match r with
    | None => t ← errno_text; _ ← Error ($"cannot stat '" ++ lpath ++ $"': " ++ t); Done false
    | Some _ =>
        r ← try_ (c_open lpath O_RDONLY 0);
        match r with
        | None => t ← errno_text; _ ← Error ($"opening '" ++ lpath ++ $"' locally failed: " ++ t); Done false
        | Some lfd =>
            b ← send_chunks fuel lpath rpath lfd;
            if negb b then Done false
            else
              _ ← do_ (c_close lfd);
              _ ← update (set_expect_done_ true);
              WriteOrDie lpath rpath (message ID_DONE mtime)
        end
    end.

Definition CopyDone (from to : bytes) : prog Client bool :=
  r ← ReadFdExactly message_size;
  match r with
  | None => _ ← Error (copy_failure from to ++ $": couldn't read from device"); Done false
  | Some m =>
      if msg_id m =? ID_OKAY then
        c ← own;
        if expect_done_ c then
          _ ← update (set_expect_done_ false); _ ← RecordFilesTransferred 1; Done true
        else _ ← Error (copy_failure from to ++ $": received premature success"); Done true
      else if negb (msg_id m =? ID_FAIL) then _ ← Error (copy_failure from to ++ $": unknown reason " ++ print_dec (s32 (msg_id m))); Done false
      else ReportCopyFailure from to (msg_arg m)
  end.

(** The destructor: whatever the daemon still says is not waited for twice. *)
Definition finish : prog Client unit :=
  b ← SendRequest ID_QUIT [];
  if b : bool then ReadSome 16 (λ _, Done tt) else Done tt.

(** ** Transfers *)

(** [func] is given each entry; its calls are collected. *)
Fixpoint sync_ls_loop (fuel : nat) (entries : list (Z * Z * Z * bytes)) : prog Client (option (list (Z * Z * Z * bytes))) :=
  match fuel with
  | O => out_of_fuel
  | S fuel =>
      r ← ReadFdExactly dent_size;
      match r with
      | None => Done None
      | Some m =>
          if msg_id m =? ID_DONE then Done (Some entries)
          else if negb (msg_id m =? ID_DENT) then Done None
          else
            let len := word_at m 16 in
            if 256 <? len then Done None
            else
              r ← ReadFdExactly len;
              match r with
              | None => Done None
              | Some name => sync_ls_loop fuel (entries ++ [(word_at m 4, word_at m 8, word_at m 12, c_str name)])
              end
      end
  end.
Definition sync_ls (fuel : nat) (path : bytes) : prog Client (option (list (Z * Z * Z * bytes))) :=
  b ← SendRequest ID_LIST path; if b : bool then sync_ls_loop fuel [] else Done None.

Definition sync_stat (path : bytes) : prog Client (option stat_t) := b ← SendStat path; if b : bool then FinishStat else Done None.
Definition sync_lstat (path : bytes) : prog Client (option stat_t) := b ← SendLstat path; if b : bool then FinishStat else Done None.

Definition set_type (mode type : Z) : Z := Z.lor (Z.land mode (Z.lnot S_IFMT)) type.
Definition sync_stat_fallback (path : bytes) : prog Client (option stat_t) :=
  r ← sync_stat path;
  match r with
  | Some st => Done (Some st)
  | None =>
      e ← get_errno;
      if negb (e =? ENOTSUP) then Done None
      else
        r ← sync_lstat path;
        match r with
        | None => Done None
        | Some st =>
            if S_ISLNK (st_mode st) then
              r ← sync_lstat (path ++ $"/");
              let type := match r with Some _ => S_IFDIR | None => S_IFREG end in
              Done (Some (mkStat (st_dev st) (st_ino st) (u32 (set_type (st_mode st) type)) (st_nlink st) (st_uid st) (st_gid st)
                            0 (st_atime st) (st_mtime st) (st_ctime st)))
            else Done (Some st)
        end
  end.

(** The copy at the other side is as good. *)
Definition up_to_date (mode time : Z) (st : stat_t) : bool :=
  (S_ISREG (Z.land mode (st_mode st)) && (st_mtime st =? time)) || (S_ISLNK (Z.land mode (st_mode st)) && (time <=? st_mtime st)).

Definition PATH_MAX : Z := 4096.
Definition sync_send (fuel : nat) (lpath rpath : bytes) (mtime mode : Z) (sync : bool) : prog Client bool :=
  let path_and_mode := rpath ++ $"," ++ print_dec (s32 mode) in
  skip ← (if sync then r ← sync_lstat rpath; Done (match r with Some st => up_to_date mode mtime st | None => false end) else Done false);
  if skip : bool then _ ← RecordFilesSkipped 1; Done true
  else if S_ISLNK mode then
    r ← try_ (c_readlink lpath (PATH_MAX - 1));
    match r with
    | None => t ← errno_text; _ ← Error ($"readlink '" ++ lpath ++ $"' failed: " ++ t); Done false
    | Some target =>
        b ← SendSmallFile path_and_mode lpath rpath mtime (target ++ [NUL]);
        if negb b then Done false else CopyDone lpath rpath
    end
  else
    r ← try_ (c_stat lpath);
    match r with
    | None => t ← errno_text; _ ← Error ($"failed to stat local file '" ++ lpath ++ $"': " ++ t); Done false
    | Some st =>
        sent ← (if st_size st <? SYNC_DATA_MAX then
                  r ← ReadFileToString fuel lpath true;
                  match r with
                  | None => t ← errno_text; _ ← Error ($"failed to read all of '" ++ lpath ++ $"': " ++ t); Done false
                  | Some data => SendSmallFile path_and_mode lpath rpath mtime data
                  end
                else SendLargeFile fuel path_and_mode lpath rpath mtime);
        if negb sent then Done false else CopyDone lpath rpath
    end.

(** The contents arrive; [Broken]: the copy is of no use and still to be removed. *)
Inductive chunks := Complete | Broken | Refused.
Fixpoint receive_chunks (fuel : nat) (rpath lpath : bytes) (lfd : Z) : prog Client chunks :=
  match fuel with
  | O => out_of_fuel
  | S fuel =>
      r ← ReadFdExactly message_size;
      match r with
      | None => Done Broken
      | Some m =>
          if msg_id m =? ID_DONE then Done Complete
          else if negb (msg_id m =? ID_DATA) then _ ← do_ (c_close lfd); _ ← do_ (c_unlink lpath); _ ← ReportCopyFailure rpath lpath (msg_arg m); Done Refused
          else if SYNC_DATA_MAX <? msg_arg m then
            _ ← Error ($"msg.data.size too large: " ++ print_dec (msg_arg m) ++ $" (max " ++ print_dec SYNC_DATA_MAX ++ $")"); Done Broken
          else
            r ← ReadFdExactly (msg_arg m);
            match r with
            | None => Done Broken
            | Some d =>
                b ← write_file (S fuel) lfd d;
                if negb b then t ← errno_text; _ ← Error ($"cannot write '" ++ lpath ++ $"': " ++ t); Done Broken
                else _ ← RecordBytesTransferred (msg_arg m); receive_chunks fuel rpath lpath lfd
            end
      end
  end.
Definition CREAT : Z := Z.lor (Z.lor O_WRONLY O_CREAT) O_TRUNC.
Definition sync_recv (fuel : nat) (rpath lpath : bytes) : prog Client bool :=
  b ← SendRequest ID_RECV rpath;
  if negb b then Done false
  else
    _ ← do_ (c_unlink lpath);
    r ← try_ (c_open lpath CREAT 420);
    match r with
    | None => t ← errno_text; _ ← Error ($"cannot create '" ++ lpath ++ $"': " ++ t); Done false
    | Some lfd =>
        r ← receive_chunks fuel rpath lpath lfd;
        match r with
        | Complete => _ ← RecordFilesTransferred 1; _ ← do_ (c_close lfd); Done true
        | Broken => _ ← do_ (c_close lfd); _ ← do_ (c_unlink lpath); Done false
        | Refused => Done false
        end
    end.

(** ** Directories *)

Record copyinfo := mkCopy { lpath : bytes; rpath : bytes; time : Z; mode : Z; size : Z; skip : bool }.
Definition set_time_size (t n : Z) (ci : copyinfo) : copyinfo := mkCopy (lpath ci) (rpath ci) t (mode ci) n (skip ci).
Definition set_skip (ci : copyinfo) : copyinfo := mkCopy (lpath ci) (rpath ci) (time ci) (mode ci) (size ci) true.

(** [push_back] of a separator that is not there; the paths are not empty. *)
Definition with_separator (path : bytes) : bytes :=
  if bool_decide (last path = Some OS_PATH_SEPARATOR) then path else path ++ [OS_PATH_SEPARATOR].
Definition copyinfo_new (local_path remote_path name : bytes) (mode : Z) : copyinfo :=
  let l := with_separator local_path ++ name in
  let r := with_separator remote_path ++ name in
  if S_ISDIR mode then mkCopy (with_separator l) (with_separator r) 0 mode 0 false else mkCopy l r 0 mode 0 false.

Definition IsDotOrDotDot (name : bytes) : bool := bool_decide (name = $"." ∨ name = $"..").

(** The entries of one directory: the files, and the directories. *)
Fixpoint local_entries (lpath rpath : bytes) (names : list bytes) (files dirlist : list copyinfo) : prog Client (list copyinfo * list copyinfo) :=
  match names with
  | [] => Done (files, dirlist)
  | name :: names =>
      if IsDotOrDotDot name then local_entries lpath rpath names files dirlist
      else
        r ← try_ (c_lstat (lpath ++ name));
        match r with
        | None =>
            t ← errno_text; _ ← Error ($"cannot lstat '" ++ lpath ++ name ++ $"': " ++ t);
            local_entries lpath rpath names files dirlist
        | Some st =>
            let ci := copyinfo_new lpath rpath name (st_mode st) in
            if S_ISDIR (st_mode st) then local_entries lpath rpath names files (dirlist ++ [ci])
            else
              ci ← (if should_push_file (st_mode st) then Done ci
                    else _ ← Warning ($"skipping special file '" ++ lpath ++ $"' (mode = 0o" ++ numeral 8 (st_mode st) ++ $")"); Done (set_skip ci));
              local_entries lpath rpath names (files ++ [set_time_size (st_mtime st) (u64 (st_size st)) ci]) dirlist
        end
  end.

(** The result of the recursion is not looked at. *)
Fixpoint local_build_list (fuel : nat) (lpath_ rpath_ : bytes) (files : list copyinfo) (dirs : list bytes) : prog Client (bool * list copyinfo * list bytes) :=
  match fuel with
  | O => out_of_fuel
  | S fuel =>
      r ← try_ (c_readdir lpath_);
      match r with
      | None => t ← errno_text; _ ← Error ($"cannot open '" ++ lpath_ ++ $"': " ++ t); Done (false, files, dirs)
      | Some names =>
          '(files, dirlist) ← local_entries lpath_ rpath_ names files [];
          '(files, dirs) ← (fix go l files dirs :=
             match l with
             | [] => Done (files, dirs)
             | ci :: l => '(_, files, dirs) ← local_build_list fuel (lpath ci) (rpath ci) files (dirs ++ [rpath ci]); go l files dirs
             end) dirlist files dirs;
          Done (true, files, dirs)
      end
  end.

(** The directory and those above it, down to the root. *)
Fixpoint directory_chain (fuel : nat) (dirpath : bytes) (l : list bytes) : option (list bytes) :=
  if bool_decide (dirpath = $"/") then Some l
  else match fuel with O => None | S fuel => directory_chain fuel (Dirname dirpath) (dirpath :: l) end.

Definition escape_arg (s : bytes) : bytes := $"'" ++ concat ((λ c, if char_eqb c "'" then $"'\''" else [c]) <$> s) ++ $"'".
Definition send_shell_command (cmd : bytes) : prog Client unit := update (add_shell_command cmd).
Fixpoint make_remote_dirs (dirs : list bytes) (cmd : bytes) : prog Client bool :=
  match dirs with
  | [] => _ ← (if bool_decide (cmd = $"mkdir") then Done tt else send_shell_command cmd); Done true
  | dir :: dirs =>
      let escaped_path := escape_arg dir in
      if 16384 <? zlen escaped_path then _ ← Error ($"path too long: " ++ escaped_path); Done false
      else
        cmd ← (if 32768 <? zlen cmd + zlen escaped_path then _ ← send_shell_command cmd; Done $"mkdir" else Done cmd);
        make_remote_dirs dirs (cmd ++ $" " ++ escaped_path)
  end.

Fixpoint send_lstats (files : list copyinfo) : prog Client bool :=
  match files with
  | [] => Done true
  | ci :: files => b ← SendLstat (rpath ci); if b : bool then send_lstats files else _ ← Error $"failed to send lstat"; Done false
  end.
Fixpoint finish_lstats (files : list copyinfo) : prog Client (list copyinfo) :=
  match files with
  | [] => Done []
  | ci :: files =>
      r ← FinishStat;
      let ci := match r with
                | Some st => if (st_size st =? s64 (size ci)) && up_to_date (mode ci) (time ci) st then set_skip ci else ci
                | None => ci
                end in
      l ← finish_lstats files; Done (ci :: l)
  end.

Definition bytes_of_files (files : list copyinfo) : Z := u64 (foldr (λ ci n, (if skip ci then 0 else size ci) + n) 0 files).

(** The number of files left out, or failure. *)
Fixpoint push_files (fuel : nat) (list_only : bool) (files : list copyinfo) (skipped : Z) : prog Client (option Z) :=
  match files with
  | [] => Done (Some skipped)
  | ci :: files =>
      if skip ci then push_files fuel list_only files (skipped + 1)
      else if list_only then _ ← Println ($"would push: " ++ lpath ci ++ $" -> " ++ rpath ci); push_files fuel list_only files skipped
      else
        b ← sync_send fuel (lpath ci) (rpath ci) (u32 (time ci)) (mode ci) false;
        if b : bool then push_files fuel list_only files skipped else Done None
  end.

Definition copy_local_dir_remote (fuel : nat) (lpath rpath : bytes) (check_timestamps list_only : bool) : prog Client bool :=
  _ ← NewTransfer;
  let lpath := with_separator lpath in
  let rpath := with_separator rpath in
  match directory_chain fuel rpath [] with
  | None => out_of_fuel
  | Some dirs =>
      '(ok, files, dirs) ← local_build_list fuel lpath rpath [] dirs;
      if negb ok then Done false
      else
        c ← own;
        made ← (if CanUseFeature (features_ c) kFeatureShell2 then make_remote_dirs dirs $"mkdir" else Done true);
        if negb made then Done false
        else
          r ← (if check_timestamps : bool then
                 sent ← send_lstats files;
                 if sent : bool then l ← finish_lstats files; Done (Some l) else Done None
               else Done (Some files));
          match r with
          | None => Done false
          | Some files =>
              _ ← update (set_ledgers (λ l, l) (expect_bytes (bytes_of_files files) true));
              r ← push_files fuel list_only files 0;
              match r with None => Done false | Some skipped => _ ← RecordFilesSkipped skipped; Done true end
          end
  end.

(** [dst[dst_len - 1]]. *)
Definition last_char (s : bytes) : prog Client ascii :=
  match last s with Some c => Done c | None => Exit "read in front of the string" end.

(** What the destination is: does it exist, is it a directory? *)
Definition push_one (fuel : nat) (src_path dst : bytes) (dst_exists dst_isdir sync : bool) : prog Client (option bool) :=
  r ← try_ (c_stat src_path);
  match r with
  | None => t ← errno_text; _ ← Error ($"cannot stat '" ++ src_path ++ $"': " ++ t); Done (Some false)
  | Some st =>
      if S_ISDIR (st_mode st) then
        if dst_exists && negb dst_isdir then _ ← Error ($"target '" ++ dst ++ $"' is not a directory"); Done None
        else
          let dst_dir := if dst_exists then with_separator dst ++ Basename src_path else dst in
          b ← copy_local_dir_remote fuel src_path dst_dir sync false; Done (Some b)
      else if negb (should_push_file (st_mode st)) then
        _ ← Warning ($"skipping special file '" ++ src_path ++ $"' (mode = 0o" ++ numeral 8 (st_mode st) ++ $")"); Done (Some true)
      else
        let dst_path := if dst_isdir then with_separator dst ++ Basename src_path else dst in
        _ ← NewTransfer;
        _ ← update (set_ledgers (λ l, l) (expect_bytes (u64 (st_size st)) false));
        b ← sync_send fuel src_path dst_path (u32 (st_mtime st)) (st_mode st) sync; Done (Some b)
  end.
Fixpoint push_all (fuel : nat) (srcs : list bytes) (dst : bytes) (dst_exists dst_isdir sync success : bool) : prog Client bool :=
  match srcs with
  | [] => Done success
  | src_path :: srcs =>
      r ← push_one fuel src_path dst dst_exists dst_isdir sync;
      match r with None => Done false | Some b => push_all fuel srcs dst dst_exists dst_isdir sync (success && b) end
  end.
Definition do_sync_push (fuel : nat) (srcs : list bytes) (dst : bytes) (sync : bool) : prog Client bool :=
  r ← sync_stat_fallback dst;
  e ← get_errno;
  match r with
  | None => if negb (e =? ENOENT) && negb (e =? ENOPROTOOPT) then
              t ← errno_text; _ ← Error ($"stat failed when trying to push to " ++ dst ++ $": " ++ t); Done false
            else if 1 <? zlen srcs then _ ← Error ($"target '" ++ dst ++ $"' is not a directory"); Done false
            else _ ← last_char dst; push_all fuel srcs dst false false sync true
  | Some st =>
      if S_ISDIR (st_mode st) then push_all fuel srcs dst true true sync true
      else if 1 <? zlen srcs then _ ← Error ($"target '" ++ dst ++ $"' is not a directory"); Done false
      else
        c ← last_char dst;
        if char_eqb c "/" then _ ← Error ($"failed to access '" ++ dst ++ $"': Not a directory"); Done false
        else push_all fuel srcs dst true false sync true
  end.

(** The entries of one remote directory, in three lists. *)
Fixpoint remote_entries (lpath_ rpath_ : bytes) (entries : list (Z * Z * Z * bytes)) (files dirlist linklist : list copyinfo)
    : prog Client (list copyinfo * list copyinfo * list copyinfo) :=
  match entries with
  | [] => Done (files, dirlist, linklist)
  | (mode, size, time, name) :: entries =>
      if IsDotOrDotDot name then remote_entries lpath_ rpath_ entries files dirlist linklist
      else
        let ci := copyinfo_new lpath_ rpath_ name mode in
        if S_ISDIR mode then remote_entries lpath_ rpath_ entries files (dirlist ++ [ci]) linklist
        else if S_ISLNK mode then remote_entries lpath_ rpath_ entries files dirlist (linklist ++ [ci])
        else
          ci' ← (if should_pull_file mode then Done ci
                 else _ ← Warning ($"skipping special file '" ++ rpath ci ++ $"' (mode = 0o" ++ numeral 8 mode ++ $")"); Done (set_skip ci));
          remote_entries lpath_ rpath_ entries (files ++ [set_time_size time size ci']) dirlist linklist
  end.
Fixpoint resolve_links (links files dirlist : list copyinfo) : prog Client (list copyinfo * list copyinfo) :=
  match links with
  | [] => Done (files, dirlist)
  | ci :: links =>
      r ← sync_stat_fallback (rpath ci);
      match r with
      | None => t ← errno_text; _ ← Warning ($"stat failed for path " ++ rpath ci ++ $": " ++ t); resolve_links links files dirlist
      | Some st => if S_ISDIR (st_mode st) then resolve_links links files (dirlist ++ [ci]) else resolve_links links (files ++ [ci]) dirlist
      end
  end.
Fixpoint remote_build_list (fuel : nat) (rpath_ lpath_ : bytes) (files : list copyinfo) : prog Client (bool * list copyinfo) :=
  match fuel with
  | O => out_of_fuel
  | S fuel =>
      let ci := copyinfo_new (Dirname lpath_) (Dirname rpath_) (Basename lpath_) S_IFDIR in
      let files := files ++ [ci] in
      r ← sync_ls fuel rpath_;
      match r with
      | None => Done (false, files)
      | Some entries =>
          '(files, dirlist, links) ← remote_entries lpath_ rpath_ entries files [] [];
          '(files, dirlist) ← resolve_links links files dirlist;
          (fix go l files :=
             match l with
             | [] => Done (true, files)
             | ci :: l =>
                 '(b, files) ← remote_build_list fuel (rpath ci) (lpath ci) files;
                 if negb b then Done (false, files) else go l files
             end) (rev dirlist) files
      end
  end.

(** [mkdirs] of adb_utils.cpp. *)
Fixpoint mkdirs (fuel : nat) (path : bytes) : prog Client bool :=
  match fuel with
  | O => out_of_fuel
  | S fuel =>
      e ← try_ (c_exists path);
      if default false e then Done true
      else if bool_decide (Dirname path = path) then _ ← set_errno ENOENT; Done false
      else
        b ← mkdirs fuel (Dirname path);
        if negb b then Done false
        else
          b ← ok_ (c_mkdir path 0x1fd);
          if b : bool then Done true
          else saved_errno ← get_errno; e ← try_ (c_exists path); if default false e then Done true else _ ← set_errno saved_errno; Done false
  end.

Definition set_time_and_mode (path : bytes) (time mode : Z) : prog Client bool :=
  r1 ← ok_ (c_utime path time time);
  mask ← try_ c_umask;
  r2 ← ok_ (c_chmod path (Z.land mode (Z.lnot (default 0 mask))));
  Done (r1 && r2).

Fixpoint pull_files (fuel : nat) (copy_attrs : bool) (files : list copyinfo) (skipped : Z) : prog Client (option Z) :=
  match files with
  | [] => Done (Some skipped)
  | ci :: files =>
      if skip ci then pull_files fuel copy_attrs files (skipped + 1)
      else if S_ISDIR (mode ci) then
        b ← mkdirs fuel (lpath ci);
        if b : bool then pull_files fuel copy_attrs files skipped
        else t ← errno_text; _ ← Error ($"failed to create directory '" ++ lpath ci ++ $"': " ++ t); Done None
      else
        b ← sync_recv fuel (rpath ci) (lpath ci);
        if negb b then Done None
        else
          b ← (if copy_attrs then set_time_and_mode (lpath ci) (time ci) (mode ci) else Done true);
          if b : bool then pull_files fuel copy_attrs files skipped else Done None
  end.
Definition copy_remote_dir_local (fuel : nat) (rpath lpath : bytes) (copy_attrs : bool) : prog Client bool :=
  _ ← NewTransfer;
  '(ok, files) ← remote_build_list fuel (with_separator rpath) (with_separator lpath) [];
  if negb ok then Done false
  else
    _ ← update (set_ledgers (λ l, l) (expect_bytes (bytes_of_files files) true));
    r ← pull_files fuel copy_attrs files 0;
    match r with None => Done false | Some skipped => _ ← RecordFilesSkipped skipped; Done true end.

Definition pull_one (fuel : nat) (src_path dst : bytes) (dst_exists dst_isdir copy_attrs : bool) : prog Client (option bool) :=
  r ← sync_stat_fallback src_path;
  match r with
  | None =>
      e ← get_errno; t ← errno_text;
      _ ← Error (if e =? ENOPROTOOPT then $"remote object '" ++ src_path ++ $"' does not exist"
                 else $"failed to stat remote object '" ++ src_path ++ $"': " ++ t);
      Done (Some false)
  | Some st =>
      if S_ISDIR (st_mode st) then
        if dst_exists && negb dst_isdir then _ ← Error ($"target '" ++ dst ++ $"' is not a directory"); Done None
        else
          let dst_dir := if dst_exists then with_separator dst ++ Basename src_path else dst in
          b ← copy_remote_dir_local fuel src_path dst_dir copy_attrs; Done (Some b)
      else if negb (should_pull_file (st_mode st)) then
        _ ← Warning ($"skipping special file '" ++ src_path ++ $"' (mode = 0o" ++ numeral 8 (st_mode st) ++ $")"); Done (Some true)
      else
        let dst_path := if dst_isdir then dst ++ [OS_PATH_SEPARATOR] ++ Basename src_path else dst in
        _ ← NewTransfer;
        _ ← update (set_ledgers (λ l, l) (expect_bytes (u64 (st_size st)) false));
        b ← sync_recv fuel src_path dst_path;
        if negb b then Done (Some false)
        else if copy_attrs then b ← set_time_and_mode dst_path (st_mtime st) (st_mode st); Done (Some b) else Done (Some true)
  end.
Fixpoint pull_all (fuel : nat) (srcs : list bytes) (dst : bytes) (dst_exists dst_isdir copy_attrs success : bool) : prog Client bool :=
  match srcs with
  | [] => Done success
  | src_path :: srcs =>
      r ← pull_one fuel src_path dst dst_exists dst_isdir copy_attrs;
      match r with None => Done false | Some b => pull_all fuel srcs dst dst_exists dst_isdir copy_attrs (success && b) end
  end.
Definition do_sync_pull (fuel : nat) (srcs : list bytes) (dst : bytes) (copy_attrs : bool) : prog Client bool :=
  r ← try_ (c_stat dst);
  e ← get_errno;
  access ← (match r with
            | Some _ => Done true
            | None =>
                if (zlen srcs =? 1) && (e =? ENOENT) then
                  p ← try_ (c_stat (Dirname dst));
                  match p with
                  | Some _ => Done true
                  | None => t ← errno_text; _ ← Error ($"cannot create file/directory '" ++ dst ++ $"': " ++ t); Done false
                  end
                else t ← errno_text; _ ← Error ($"failed to access '" ++ dst ++ $"': " ++ t); Done false
            end);
  if negb access then Done false
  else
    let dst_exists := bool_decide (is_Some r) in
    let dst_isdir := match r with Some st => S_ISDIR (st_mode st) | None => false end in
    if dst_isdir then pull_all fuel srcs dst dst_exists true copy_attrs true
    else if 1 <? zlen srcs then _ ← Error ($"target '" ++ dst ++ $"' is not a directory"); Done false
    else
      c ← last_char dst;
      if adb_is_separator c && dst_exists then _ ← Error ($"failed to access '" ++ dst ++ $"': Not a directory"); Done false
      else pull_all fuel srcs dst dst_exists false copy_attrs true.

Definition do_sync_sync (fuel : nat) (lpath rpath : bytes) (list_only : bool) : prog Client bool :=
  copy_local_dir_remote fuel lpath rpath true list_only.
Definition do_sync_ls (fuel : nat) (path : bytes) : prog Client bool :=
  r ← sync_ls fuel path;
  match r with
  | None => Done false
  | Some entries =>
      (fix go l :=
         match l with
         | [] => Done true
         | (mode, size, time, name) :: l =>
             _ ← Println (print_hex_pad 8 mode ++ $" " ++ print_hex_pad 8 size ++ $" " ++ print_hex_pad 8 time ++ $" " ++ name); go l
         end) entries
  end.
End client.
