(* ===== verification/MemOs.v ===== *)
(** * An operating system in memory

    Files, directories and links by their path, for examples and witnesses: an
    instance of the interface of Files.v. *)

From Stdlib Require Import ZArith Lia List Ascii String.
From stdpp Require Import base numbers list strings gmap.
From S2P Require Import Prelude.
From S2P Require Import Libc.
From S2P Require Import Process.
From S2P Require Import Files.

Inductive node := File (mode mtime : Z) (data : bytes) | Dir | Link (target : bytes).
Record mem := mkMem { nodes : gmap bytes node; fds : gmap Z (bytes * Z); next_fd : Z; read_only : list bytes }.

Definition set_nodes (n : gmap bytes node) (m : mem) : mem := mkMem n (fds m) (next_fd m) (read_only m).
Definition node_mode (n : node) : Z := match n with File mode _ _ => Z.lor 0x8000 mode | Dir => 0x41ed | Link _ => 0xa1ff end.
Definition node_stat (n : node) : stat_t :=
  match n with
  | File _ mtime data => mkStat 1 1 (node_mode n) 1 0 0 (zlen data) mtime mtime mtime
  | Link target => mkStat 1 1 (node_mode n) 1 0 0 (zlen target) 0 0 0
  | Dir => mkStat 1 1 (node_mode n) 1 0 0 0 0 0 0
  end.
(** The path without a separator at its end. *)
Definition plain (path : bytes) : bytes :=
  match path with
  | [] | [_] => path
  | _ => if bool_decide (last path = Some OS_PATH_SEPARATOR) then removelast path else path
  end.
Definition parent (path : bytes) : bytes := plain (Dirname path).
Definition lookup_node (path : bytes) (m : mem) : option node := nodes m !! plain path.
Definition has_parent (path : bytes) (m : mem) : bool := match lookup_node (parent (plain path)) m with Some Dir => true | _ => false end.

(** [read_only]: directories whose entries stay. *)
Definition may_change (path : bytes) (m : mem) : bool := negb (bool_decide (parent (plain path) ∈ read_only m)).
Definition open_fd (path : bytes) (m : mem) : (Z + Z) * mem :=
  (inl (next_fd m), mkMem (nodes m) (<[next_fd m := (plain path, 0)]> (fds m)) (next_fd m + 1) (read_only m)).
Definition write_at (data : bytes) (off : Z) (d : bytes) : bytes := take (Z.to_nat off) data ++ d ++ drop (Z.to_nat off + length d) data.

Definition mem_open (path : bytes) (flags : Z) (mode : Z) (m : mem) : (Z + Z) * mem :=
  match lookup_node path m with
  | None =>
      if Z.land flags O_CREAT =? 0 then (inr ENOENT, m)
      else if negb (has_parent path m) then (inr ENOENT, m)
      else if negb (may_change path m) then (inr 13, m)
      else open_fd path (set_nodes (<[plain path := File mode 0 []]> (nodes m)) m)
  | Some (File fmode mtime data) =>
      if negb (Z.land flags O_EXCL =? 0) then (inr EEXIST, m)
      else open_fd path (if Z.land flags O_TRUNC =? 0 then m else set_nodes (<[plain path := File fmode mtime []]> (nodes m)) m)
  | Some _ => (inr (if negb (Z.land flags O_EXCL =? 0) then EEXIST else 21), m)
  end.

Definition mem_readdir (path : bytes) (m : mem) : list bytes :=
  $"." :: $".." :: omap (λ '(p, _), if bool_decide (parent p = plain path ∧ p ≠ plain path) then Some (filename p) else None) (map_to_list (nodes m)).

Definition change (path : bytes) (f : node → node) (m : mem) : (unit + Z) * mem :=
  match lookup_node path m with
  | None => (inr ENOENT, m)
  | Some n => (inl tt, set_nodes (<[plain path := f n]> (nodes m)) m)
  end.

Definition mem_sys {R} (c : call R) : mem → R * mem :=
  match c in call R return mem → R * mem with
  | c_stat path => λ m,
      match lookup_node path m with
      | Some (Link t) => match lookup_node t m with Some n => (inl (node_stat n), m) | None => (inr ENOENT, m) end
      | Some n => (inl (node_stat n), m)
      | None => (inr ENOENT, m)
      end
  | c_lstat path => λ m, match lookup_node path m with Some n => (inl (node_stat n), m) | None => (inr ENOENT, m) end
  | c_open path flags mode => mem_open path flags mode
  | c_read fd n => λ m,
      match fds m !! fd with
      | Some (path, off) =>
          match nodes m !! path with
          | Some (File _ _ data) =>
              let d := take (Z.to_nat n) (drop (Z.to_nat off) data) in
              (inl d, mkMem (nodes m) (<[fd := (path, off + zlen d)]> (fds m)) (next_fd m) (read_only m))
          | _ => (inr 21, m)
          end
      | None => (inr 9, m)
      end
  | c_write fd d => λ m,
      match fds m !! fd with
      | Some (path, off) =>
          match nodes m !! path with
          | Some (File mode mtime data) =>
              (inl (zlen d), mkMem (<[path := File mode mtime (write_at data off d)]> (nodes m)) (<[fd := (path, off + zlen d)]> (fds m)) (next_fd m) (read_only m))
          | _ => (inr 21, m)
          end
      | None => (inr 9, m)
      end
  | c_close fd => λ m, (inl tt, mkMem (nodes m) (delete fd (fds m)) (next_fd m) (read_only m))
  | c_unlink path => λ m,
      match lookup_node path m with
      | None => (inr ENOENT, m)
      | Some Dir => (inr 21, m)
      | Some _ => if may_change path m then (inl tt, set_nodes (delete (plain path) (nodes m)) m) else (inr 13, m)
      end
  | c_mkdir path mode => λ m,
      match lookup_node path m with
      | Some _ => (inr EEXIST, m)
      | None =>
          if negb (has_parent path m) then (inr ENOENT, m)
          else if may_change path m then (inl tt, set_nodes (<[plain path := Dir]> (nodes m)) m) else (inr 13, m)
      end
  | c_chown path _ _ => change path (λ n, n)
  | c_chmod path mode => change path (λ n, match n with File _ t d => File (Z.land mode 0x1ff) t d | _ => n end)
  | c_fchown fd _ _ => λ m, (inl tt, m)
  | c_fchmod fd mode => λ m,
      match fds m !! fd with
      | Some (path, _) => (inl tt, set_nodes (alter (λ n, match n with File _ t d => File (Z.land mode 0x1ff) t d | _ => n end) path (nodes m)) m)
      | None => (inr 9, m)
      end
  | c_removexattr path => λ m, (inr 61, m)
  | c_setxattr path _ => λ m, (inr ENOTSUP, m)
  | c_symlink target path => λ m,
      match lookup_node path m with
      | Some _ => (inr EEXIST, m)
      | None => if has_parent path m then (inl tt, set_nodes (<[plain path := Link target]> (nodes m)) m) else (inr ENOENT, m)
      end
  | c_readlink path n => λ m, match lookup_node path m with Some (Link t) => (inl (take (Z.to_nat n) t), m) | _ => (inr 22, m) end
  | c_utime path _ modtime => change path (λ n, match n with File mode _ d => File mode modtime d | _ => n end)
  | c_readdir path => λ m, match lookup_node path m with Some Dir => (inl (mem_readdir path m), m) | _ => (inr ENOENT, m) end
  | c_exists path => λ m, (inl (bool_decide (is_Some (lookup_node path m))), m)
  | c_umask => λ m, (inl 18, m)
  end.

#[export] Instance mem_os : Os := { os := mem; sys := @mem_sys; strerror := λ e, $"error " ++ print_dec e }.

Definition mem_new (l : list (bytes * node)) : mem := mkMem (list_to_map (($"/", Dir) :: l)) ∅ 3 [].

(** ** What Files.v relies on *)

Definition node_content (n : node) : option bytes := match n with File _ _ data => Some data | _ => None end.
Definition mem_content (m : mem) (path : bytes) : option bytes := lookup_node path m ≫= node_content.
Definition mem_reader (m : mem) (fd : Z) (rest : bytes) : Prop :=
  ∃ path off data, fds m !! fd = Some (path, off) ∧ 0 ≤ off ∧ nodes m !! path ≫= node_content = Some data ∧ rest = drop (Z.to_nat off) data.
Definition mem_writer (m : mem) (fd : Z) (path w old : bytes) : Prop :=
  fds m !! fd = Some (plain path, zlen w) ∧ nodes m !! plain path ≫= node_content = Some (w ++ drop (length w) old).

Lemma content_insert m path path' n :
  node_content n = nodes m !! plain path' ≫= node_content → mem_content (set_nodes (<[plain path' := n]> (nodes m)) m) path = mem_content m path.
Proof.
  intros Hn. unfold mem_content, lookup_node. cbn. destruct (decide (plain path = plain path')) as [->|Hne].
  - by rewrite lookup_insert_eq.
  - by rewrite lookup_insert_ne by congruence.
Qed.
Lemma content_change m path path' (f : node → node) : (∀ n, node_content (f n) = node_content n) → mem_content (change path' f m).2 path = mem_content m path.
Proof.
  intros Hf. unfold change. destruct (lookup_node path' m) as [n|] eqn:Hl; [|done]. apply content_insert. unfold lookup_node in Hl. by rewrite Hl, Hf.
Qed.
Lemma alter_content (f : node → node) (ns : gmap bytes node) q p : (∀ n, node_content (f n) = node_content n) → alter f q ns !! p ≫= node_content = ns !! p ≫= node_content.
Proof.
  intros Hf. destruct (decide (p = q)) as [->|Hne]; [rewrite lookup_alter_eq|by rewrite lookup_alter_ne]. destruct (ns !! q); cbn; [apply Hf|done].
Qed.

Lemma mem_content_kept {R} (c : call R) m path : alters c = false → mem_content (mem_sys c m).2 path = mem_content m path.
Proof.
  destruct c as [p|p|p flags mode|fd n|fd d|fd|p|p mode|p u g|p mode|fd u g|fd mode|p|p d|t p|p n|p a b|p|p|]; intros Ha; cbn; try done.
  - by repeat case_match.
  - by repeat case_match.
  - cbn in Ha. apply negb_false_iff, Z.eqb_eq in Ha. unfold mem_open.
    assert (Hc : Z.land flags O_CREAT = 0 ∧ Z.land flags O_TRUNC = 0).
    { rewrite Z.land_lor_distr_r in Ha. apply Z.lor_eq_0_iff in Ha. done. }
    destruct Hc as [-> ->]. cbn. by repeat case_match.
  - by repeat case_match.
  - case_match; [done|]. repeat case_match; try done. apply content_insert. cbn. unfold lookup_node in *. by simplify_option_eq.
  - by apply content_change.
  - apply content_change. by intros [].
  - destruct (fds m !! fd) as [[q ?]|]; [|done]. unfold mem_content, lookup_node. cbn. apply alter_content. by intros [].
  - by repeat case_match.
  - apply content_change. by intros [].
  - by repeat case_match.
Qed.

Lemma mem_open_failed path' flags mode m path e m' : mem_open path' flags mode m = (inr e, m') → mem_content m' path = mem_content m path.
Proof. unfold mem_open, open_fd. intros Hs. repeat case_match; simplify_eq; done. Qed.

Lemma mem_stat_size path m st m' d : mem_sys (c_stat path) m = (inl st, m') → mem_content m path = Some d → st_size st = zlen d.
Proof. unfold mem_content. cbn. intros Hs Hc. destruct (lookup_node path m) as [[]|]; cbn in Hc; simplify_eq. done. Qed.

(** An open without O_CREAT and O_TRUNC. *)
Lemma mem_open_old path flags mode m fd m' :
  mem_open path flags mode m = (inl fd, m') → Z.land flags (Z.lor O_CREAT O_TRUNC) = 0 →
  ∃ d, mem_content m path = Some d ∧ fds m' !! fd = Some (plain path, 0) ∧ nodes m' = nodes m.
Proof.
  intros Hs Hf. rewrite Z.land_lor_distr_r in Hf. apply Z.lor_eq_0_iff in Hf as [H1 H2]. unfold mem_open, open_fd in Hs. rewrite H1, H2 in Hs. cbn in Hs.
  unfold mem_content. destruct (lookup_node path m) as [[mode' t d| |]|] eqn:Hl; try (by repeat case_match; simplify_eq).
  exists d. split; [done|]. case_match; simplify_eq. cbn. split; [|done]. by rewrite lookup_insert_eq.
Qed.

Lemma mem_open_reader path flags mode m fd m' d :
  mem_open path flags mode m = (inl fd, m') → Z.land flags (Z.lor O_CREAT O_TRUNC) = 0 → mem_content m path = Some d → mem_reader m' fd d.
Proof.
  intros Hs Hf Hc. destruct (mem_open_old _ _ _ _ _ _ Hs Hf) as (d' & Hd & Hfd & Hn). exists (plain path), 0, d.
  split_and!; [done..| |done]. rewrite Hn. exact Hc.
Qed.

Lemma mem_read_reader fd n m d m' rest :
  mem_reader m fd rest → mem_sys (c_read fd n) m = (inl d, m') → 0 < n → ∃ rest', rest = d ++ rest' ∧ mem_reader m' fd rest' ∧ zlen d ≤ n ∧ (d = [] → rest = []).
Proof.
  intros (path & off & data & Hfd & Hoff & Hn & ->) Hs Hpos. cbn in Hs. rewrite Hfd in Hs.
  destruct (nodes m !! path) as [[mode t x| |]|] eqn:Hp; cbn in Hn; simplify_eq. set (r := drop (Z.to_nat off) data) in *.
  exists (drop (Z.to_nat n) r). split; [by rewrite take_drop|]. split_and!.
  - exists path, (off + zlen (take (Z.to_nat n) r)), data. cbn. rewrite lookup_insert_eq. split_and!; [done|pose proof (zlen_nonneg (take (Z.to_nat n) r)); lia|by rewrite Hp|].
    rewrite Z2Nat.inj_add by (done || apply zlen_nonneg). rewrite <-drop_drop. fold r. unfold zlen. rewrite Nat2Z.id, length_take.
    destruct (Nat.le_ge_cases (Z.to_nat n) (length r)); [by rewrite Nat.min_l|]. rewrite Nat.min_r by done. by rewrite drop_all, drop_ge.
  - unfold zlen. rewrite length_take. lia.
  - intros Ht. destruct r as [|c r]; [done|]. destruct (Z.to_nat n) eqn:Hz; [lia|done].
Qed.

(** Flags that are set. *)
Lemma two_bits flags i j : Z.land flags (Z.lor (2 ^ i) (2 ^ j)) = Z.lor (2 ^ i) (2 ^ j) → 0 <=? i = true → 0 <=? j = true → Z.land flags (2 ^ i) ≠ 0 ∧ Z.land flags (2 ^ j) ≠ 0.
Proof.
  intros Hf Hi%Z.leb_le Hj%Z.leb_le. assert (Hbit : ∀ k, 0 ≤ k → Z.testbit (Z.lor (2 ^ i) (2 ^ j)) k = true → Z.land flags (2 ^ k) ≠ 0).
  { intros k Hk Hb H0. rewrite <-Hf, Z.land_spec in Hb. apply andb_prop in Hb as [Hb _].
    apply (f_equal (λ z, Z.testbit z k)) in H0. by rewrite Z.land_spec, Hb, Z.pow2_bits_true, Z.testbit_0_l in H0. }
  split; apply Hbit; try done; rewrite Z.lor_spec, Z.pow2_bits_true, ?orb_true_r by done; done.
Qed.

Lemma mem_open_truncated path flags mode m fd m' :
  mem_open path flags mode m = (inl fd, m') → Z.land flags (Z.lor O_CREAT O_TRUNC) = Z.lor O_CREAT O_TRUNC → mem_writer m' fd path [] [].
Proof.
  intros Hs Hf. destruct (two_bits flags 6 9 Hf eq_refl eq_refl) as [Hc He].
  change (2 ^ 6) with O_CREAT in Hc. change (2 ^ 9) with O_TRUNC in He.
  unfold mem_open, open_fd in Hs. rewrite (proj2 (Z.eqb_neq _ _) Hc), (proj2 (Z.eqb_neq _ _) He) in Hs. cbn in Hs.
  repeat case_match; simplify_eq; split; cbn; by rewrite lookup_insert_eq.
Qed.

Lemma mem_open_new path flags mode m fd m' :
  mem_open path flags mode m = (inl fd, m') → Z.land flags (Z.lor O_CREAT O_EXCL) = Z.lor O_CREAT O_EXCL → mem_writer m' fd path [] [].
Proof.
  intros Hs Hf. destruct (two_bits flags 6 7 Hf eq_refl eq_refl) as [Hc He].
  change (2 ^ 6) with O_CREAT in Hc. change (2 ^ 7) with O_EXCL in He. unfold mem_open, open_fd in Hs. rewrite (proj2 (Z.eqb_neq _ _) Hc), (proj2 (Z.eqb_neq _ _) He) in Hs. cbn in Hs.
  repeat case_match; simplify_eq. split; cbn; by rewrite lookup_insert_eq.
Qed.

Lemma mem_write_writer fd d m r m' path w old :
  mem_writer m fd path w old → mem_sys (c_write fd d) m = (r, m') →
  match r with inl n => 0 ≤ n ≤ zlen d ∧ mem_writer m' fd path (w ++ take (Z.to_nat n) d) old | inr _ => mem_writer m' fd path w old end.
Proof.
  intros [Hfd Hn] Hs. cbn in Hs. rewrite Hfd in Hs. destruct (nodes m !! plain path) as [[mode t x| |]|]; cbn in Hn; simplify_eq.
  split; [pose proof (zlen_nonneg d); lia|]. unfold zlen. rewrite Nat2Z.id, take_ge by done. split; cbn; rewrite lookup_insert_eq; [by rewrite zlen_app|].
  cbn. f_equal. unfold write_at. rewrite Nat2Z.id, take_app_length, length_app, <-app_assoc, <-!drop_drop, drop_app_length. done.
Qed.

Lemma mem_writer_kept {R} (c : call R) m fd path w old :
  mem_writer m fd path w old → match c with c_fchown _ _ _ | c_fchmod _ _ => True | _ => False end → mem_writer (mem_sys c m).2 fd path w old.
Proof.
  intros [Hfd Hn] Hc. destruct c as [p|p|p flags mode|fd' n|fd' d|fd'|p|p mode|p u g|p mode|fd' u g|fd' mode|p|p d|t p|p n|p a b|p|p|]; try done. cbn.
  destruct (fds m !! fd') as [[q ?]|]; [|done]. split; [done|]. cbn. rewrite alter_content; [done|]. by intros [].
Qed.

#[export] Instance mem_posix : Posix mem_os.
Proof.
  refine {| content := (mem_content : os → _); reader := (mem_reader : os → _); writer := (mem_writer : os → _) |}.
  - intros R c o path. apply mem_content_kept.
  - apply mem_open_failed.
  - apply mem_stat_size.
  - intros path flags mode o fd o' d Hs _. by apply (mem_open_reader path flags mode o).
  - apply mem_read_reader.
  - intros path flags mode o fd o' Hs He _. by apply (mem_open_new path flags mode o).
  - intros path flags mode o fd o' Hs He _. destruct (mem_open_old _ _ _ _ _ _ Hs He) as (d & Hd & Hfd & Hn). split; [done|].
    rewrite Hn. change (mem_content o path = Some (drop 0 (default [] (mem_content o path)))). by rewrite Hd.
  - intros path flags mode o fd o' Hs He _. by apply (mem_open_truncated path flags mode o).
  - apply mem_write_writer.
  - intros R c o fd path w old. apply mem_writer_kept.
  - intros fd o path w old [Hfd Hn]. exact Hn.
Defined.
