(* ===== verification/SyncSafe.v ===== *)
(** * A push that reports success has copied the file

    The client's [sync_send] and the daemon's service together, on a connection
    that may be cut and systems whose calls may fail, in every interleaving. *)

From Stdlib Require Import ZArith Lia List Ascii String.
From stdpp Require Import base numbers list strings relations.
From S2P Require Import Prelude.
From S2P Require Import Libc.
From S2P Require Import Strings.
From S2P Require Import Wire.
From S2P Require Import Process.
From S2P Require Import Files.
From S2P Require Import SyncService.
From S2P Require Import SyncClient.

(** ** The stream of a push *)

Definition chunk (d : bytes) : bytes := message ID_DATA (zlen d) ++ d.
Definition chunks (ds : list bytes) : bytes := concat (chunk <$> ds).
Definition quit : bytes := message ID_QUIT 0.

Lemma message_zlen id n : zlen (message id n) = message_size.
Proof. done. Qed.
Lemma message_id id n rest : 0 ≤ id < 2 ^ 32 → msg_id (message id n ++ rest) = id.
Proof. intros Hid. unfold msg_id, message. by apply (word_at_le32s [id; n] rest 0). Qed.
Lemma message_arg id n rest : 0 ≤ n < 2 ^ 32 → msg_arg (message id n ++ rest) = n.
Proof. intros Hn. unfold msg_arg, message. by apply (word_at_le32s [id; n] rest 1). Qed.
Lemma message_id' id n : 0 ≤ id < 2 ^ 32 → msg_id (message id n) = id.
Proof. intros Hid. rewrite <-(app_nil_r (message id n)). by apply message_id. Qed.
Lemma message_arg' id n : 0 ≤ n < 2 ^ 32 → msg_arg (message id n) = n.
Proof. intros Hid. rewrite <-(app_nil_r (message id n)). by apply message_arg. Qed.

Lemma message_u32 id n : message id (u32 n) = message id n.
Proof. unfold message. cbn [le32s]. by rewrite (le32_u32 n). Qed.
Lemma message_arg_u32 id n : msg_arg (message id n) = u32 n.
Proof. rewrite <-message_u32. apply message_arg', u32_range. Qed.

Lemma chunks_app ds ds' : chunks (ds ++ ds') = chunks ds ++ chunks ds'.
Proof. unfold chunks. by rewrite fmap_app, concat_app. Qed.
Lemma chunks_snoc ds d : chunks (ds ++ [d]) = chunks ds ++ message ID_DATA (zlen d) ++ d.
Proof. rewrite chunks_app. unfold chunks. cbn [fmap list_fmap concat]. by rewrite app_nil_r. Qed.

(** Prefixes of the same length. *)
Lemma prefix_split (a b c d : bytes) : a ++ b `prefix_of` c ++ d → length a = length c → a = c ∧ b `prefix_of` d.
Proof. intros [k Hk] Hl. rewrite <-app_assoc in Hk. symmetry in Hk. apply app_inj_1 in Hk as [-> <-]; [|done]. split; [done|]. by exists k. Qed.

Lemma prefix_same (a c d : bytes) : a `prefix_of` c ++ d → zlen a = zlen c → a = c.
Proof. intros Hp Hl. rewrite <-(app_nil_r a) in Hp. apply prefix_split in Hp as [-> _]; [done|]. unfold zlen in Hl. lia. Qed.

Definition small (d : bytes) : Prop := zlen d ≤ SYNC_DATA_MAX.

Lemma small_range d : small d → 0 ≤ zlen d < 2 ^ 32.
Proof. unfold small, SYNC_DATA_MAX. pose proof (zlen_nonneg d). lia. Qed.

(** The stream says where each message ends; [e] comes behind the contents. *)
Lemma next_message_end ds ds' e q x :
  Forall small ds → Forall small ds' → length x = 8%nat → length e = 8%nat → msg_id e ≠ ID_DATA → chunks ds ++ x `prefix_of` chunks ds' ++ e ++ q →
  (∃ d rest, ds' = ds ++ d :: rest ∧ x = message ID_DATA (zlen d)) ∨ (ds' = ds ∧ x = e).
Proof.
  intros Hds. revert ds'. induction Hds as [|d ds Hd _ IH]; intros ds' Hds' Hx He Hid Hp.
  - destruct ds' as [|d' ds']; cbn in Hp.
    + right. split; [done|]. rewrite <-(app_nil_r x) in Hp. apply prefix_split in Hp as [-> _]; [done|by rewrite He].
    + left. exists d', ds'. split; [done|]. rewrite <-(app_nil_r x) in Hp. unfold chunk in Hp. rewrite <-!app_assoc in Hp. by apply prefix_split in Hp as [-> _].
  - unfold chunks in Hp. cbn [fmap list_fmap concat] in Hp. change (chunk d) with (message ID_DATA (zlen d) ++ d) in Hp. rewrite <-!app_assoc in Hp.
    destruct ds' as [|d' ds']; cbn [fmap list_fmap concat app] in Hp.
    + exfalso. apply prefix_split in Hp as [Hm _]; [|by rewrite He]. apply Hid. rewrite <-Hm. by apply message_id'.
    + apply Forall_cons in Hds' as [Hd' Hds']. change (chunk d') with (message ID_DATA (zlen d') ++ d') in Hp. rewrite <-!app_assoc in Hp. apply prefix_split in Hp as [Hm Hp]; [|done].
      apply (f_equal msg_arg) in Hm. rewrite !message_arg' in Hm by by apply small_range. apply prefix_split in Hp as [-> Hp]; [|unfold zlen in Hm; lia].
      destruct (IH ds' Hds' Hx He Hid Hp) as [(y & rest & -> & ->)|[-> ->]]; [left; by exists y, rest|by right].
Qed.

Lemma next_message ds ds' t q x :
  Forall small ds → Forall small ds' → length x = 8%nat → chunks ds ++ x `prefix_of` chunks ds' ++ message ID_DONE t ++ q →
  (∃ d rest, ds' = ds ++ d :: rest ∧ x = message ID_DATA (zlen d)) ∨ (ds' = ds ∧ x = message ID_DONE t).
Proof. intros Hds Hds' Hx. by apply next_message_end. Qed.

(** ** The daemon *)

Section daemon.
Context `{O : Os} (P : Posix O) (host_values : list Z).
Context (rpath : bytes) (number : bytes) (mode : Z).
(** What the client asks for, and that it is about a file. *)
Context (Hspec : nul_free (rpath ++ $"," ++ number)) (Hnumber : ("," : ascii)%char ∉ number) (Hlen : zlen (rpath ++ $"," ++ number) ≤ 1024).
Context (Hmode : strtoull (base_of number) number = (mode, [], false)) (Hfile : S_ISLNK (u32 mode) = false).
(** What is there to begin with is not a directory and can be removed. *)
Context (o0 : os).
Definition removable : Prop :=
  let '(r, o1) := sys (c_lstat rpath) o0 in
  match r with inl st => S_ISREG (st_mode st) || S_ISLNK (st_mode st) = true | inr _ => True end ∧
  content (sys (c_unlink rpath) o1).2 rpath = None.
Context (Hremovable : removable).

Definition spec : bytes := rpath ++ $"," ++ number.
Definition req : bytes := message ID_SEND (zlen spec) ++ spec.
Definition push_stream (ds : list bytes) (t : Z) : bytes := req ++ chunks ds ++ message ID_DONE t.
(** What the client may have sent. *)
Definition sent (i : bytes) : Prop := ∃ ds t, Forall small ds ∧ i `prefix_of` push_stream ds t ++ quit.

Definition O_ : ascii := "O".
Definition F_ : ascii := "F".
Definition bad (o : bytes) : Prop := head o ≠ Some O_.
(** The file is there. *)
Definition copied (w : Daemon) (i : bytes) : Prop :=
  ∃ ds t rest, Forall small ds ∧ i = push_stream ds t ++ rest ∧ content (os_ w) rpath = Some (concat ds).
Definition dinv (w : Daemon) (i o : bytes) : Prop := (o = [] ∨ head o = Some F_) ∨ (head o = Some O_ ∧ copied w i).

Definition no_ask {S} : S → bytes → bytes → Z → Prop := λ _ _ _ _, True.
Definition no_poll : bytes → bytes → Prop := λ _ _, True.
Definition dwp {A} (p : prog Daemon A) w i o al Q : Prop := wp sent True no_ask no_poll dinv p w i o al Q.

(** Nothing has been said yet, or that it failed. *)
Definition unsaid (o : bytes) : Prop := o = [] ∨ head o = Some F_.
Lemma unsaid_inv w i o : unsaid o → dinv w i o.
Proof. by left. Qed.
Lemma unsaid_app o d : unsaid o → (d = [] ∨ head d = Some F_) → unsaid (o ++ d).
Proof. intros [->|Ho] Hd; [done|]. right. by destruct o. Qed.

(** Programs that can only say that something failed; [K]: they read nothing, say
    nothing and leave the file alone. *)
Definition kept (K : Prop) (w w' : Daemon) (i i' o o' : bytes) : Prop := K → i' = i ∧ o' = o ∧ content (os_ w') rpath = content (os_ w) rpath.
Definition quietly (K : Prop) {A} (p : prog Daemon A) : Prop :=
  ∀ w i o al, unsaid o → dwp p w i o al (λ _ w' i' o' _, unsaid o' ∧ kept K w w' i i' o o').

Lemma kept_same K w w' i o : os_ w' = os_ w → kept K w w' i i o o.
Proof. intros Hs HK. by rewrite Hs. Qed.
Lemma quietly_bind K {A B} (p : prog Daemon A) (f : A → prog Daemon B) : quietly K p → (∀ a, quietly K (f a)) → quietly K (p ≫= f).
Proof.
  intros Hp Hf w i o al Ho. apply pwp_bind. eapply pwp_mono; [by apply Hp|]. cbn. intros a w1 i1 o1 al1 _ [Ho1 Hk1].
  eapply pwp_mono; [by apply Hf|]. cbn. intros b w2 i2 o2 al2 _ [Ho2 Hk2]. split; [done|]. intros HK.
  destruct (Hk1 HK) as (-> & -> & <-). destruct (Hk2 HK) as (-> & -> & <-). done.
Qed.
Lemma quietly_done K {A} (a : A) : quietly K (Done a).
Proof. intros w i o al Ho. apply wp_done; [by apply unsaid_inv|]. split; [done|by apply kept_same]. Qed.
Lemma quietly_exit K {A} why : quietly K (A := A) (Exit why).
Proof. intros w i o al Ho. split; [by apply unsaid_inv|done]. Qed.
Lemma quietly_try K {A} (c : call (A + Z)) : (K → alters c = false) → quietly K (try_ c).
Proof.
  intros Hc w i o al Ho. apply wp_try; [by apply unsaid_inv|]. intros r s' Hs. split; [by apply unsaid_inv|]. split; [done|].
  intros HK. split_and!; [done..|]. cbn. pose proof (content_kept c (os_ w) rpath (Hc HK)) as Hk. by rewrite Hs in Hk.
Qed.
Lemma quietly_errno K : quietly K get_errno.
Proof. intros w i o al Ho. apply wp_errno; [by apply unsaid_inv|]. split; [done|by apply kept_same]. Qed.
Lemma quietly_own K : quietly K own.
Proof. intros w i o al Ho. apply wp_own; [by apply unsaid_inv|]. split; [done|by apply kept_same]. Qed.
Lemma quietly_update K f : quietly K (update f).
Proof. intros w i o al Ho. apply wp_update; try by apply unsaid_inv. split; [done|by apply kept_same]. Qed.
Lemma quietly_read n : quietly False (ReadFdExactly n).
Proof. intros w i o al Ho. apply wp_read; [by apply unsaid_inv|done|..]; intros; (split; [by apply unsaid_inv|done]). Qed.
Lemma prefix_head {A} (d d' : list A) : d' `prefix_of` d → d' = [] ∨ head d' = head d.
Proof. intros [k ->]. destruct d'; [by left|by right]. Qed.

(** A failure is said before its reason. *)
Lemma quietly_fail reason : quietly False (SendSyncFail reason).
Proof.
  intros w i o al Ho. apply pwp_bind.
  set (m := message ID_FAIL (zlen reason)). assert (Hm : head m = Some F_) by by vm_compute.
  assert (Hu : ∀ d', d' `prefix_of` m → unsaid (o ++ d')).
  { intros d' Hp. apply unsaid_app; [done|]. destruct (prefix_head _ _ Hp) as [->| ->]; auto. }
  apply wp_write; try apply unsaid_inv; try apply Hu; try done.
  - assert (Hh : head (o ++ m) = Some F_) by (destruct Ho as [->|Ho]; [done|by destruct o]).
    assert (Hf : ∀ d, unsaid ((o ++ m) ++ d)) by (intros d; right; by destruct (o ++ m)).
    apply wp_write; try apply unsaid_inv; try apply Hf; [by right|done|]. intros _ d' e _.
    split_and!; try apply unsaid_inv; try apply Hf. done.
  - intros _ d' e Hp. split_and!; try apply unsaid_inv; try by apply Hu. apply wp_done; [apply unsaid_inv; by apply Hu|].
    split; [by apply Hu|done].
Qed.
Lemma quietly_fail_errno reason : quietly False (SendSyncFailErrno reason).
Proof. apply quietly_bind; [apply quietly_errno|]. intros e. apply quietly_fail. Qed.
Lemma quietly_do K {A} (c : call (A + Z)) : (K → alters c = false) → quietly K (do_ c).
Proof. intros Hc. apply quietly_bind; [by apply quietly_try|]. intros r. apply quietly_done. Qed.
Lemma quietly_ok K {A} (c : call (A + Z)) : (K → alters c = false) → quietly K (ok_ c).
Proof. intros Hc. apply quietly_bind; [by apply quietly_try|]. intros r. apply quietly_done. Qed.
Lemma quietly_if K {A} (b : bool) (p q : prog Daemon A) : quietly K p → quietly K q → quietly K (if b then p else q).
Proof. by destruct b. Qed.
Lemma quietly_option K {A B} (r : option B) (p : prog Daemon A) (f : B → prog Daemon A) :
  quietly K p → (∀ b, quietly K (f b)) → quietly K (match r with None => p | Some b => f b end).
Proof. destruct r; auto. Qed.

Ltac quiet :=
  repeat match goal with
  | |- quietly _ (Done _) => apply quietly_done
  | |- quietly _ (Exit _) => apply quietly_exit
  | |- quietly _ out_of_fuel => apply quietly_exit
  | |- quietly _ (SendSyncFail _) => apply quietly_fail
  | |- quietly _ (SendSyncFailErrno _) => apply quietly_fail_errno
  | |- quietly _ get_errno => apply quietly_errno
  | |- quietly _ own => apply quietly_own
  | |- quietly _ (update _) => apply quietly_update
  | |- quietly _ (do_ _) => apply quietly_do; done
  | |- quietly _ (ok_ _) => apply quietly_ok; done
  | |- quietly _ (try_ _) => apply quietly_try; done
  | |- quietly _ (ReadFdExactly _) => apply quietly_read
  | |- quietly _ (if _ then _ else _) => apply quietly_if
  | |- quietly _ (match _ with None => _ | Some _ => _ end) => apply quietly_option; [|intros ?]
  | |- quietly _ (_ ≫= _) => apply quietly_bind; [|intros ?]
  end.

Lemma quietly_buffer n : quietly False (read_buffer n).
Proof. unfold read_buffer. quiet. Qed.
Lemma quietly_discard fuel : quietly False (discard fuel).
Proof. induction fuel as [|fuel IH]; cbn [discard]; quiet; by try apply quietly_buffer. Qed.
Lemma quietly_abort path fd b : quietly False (abort path fd b).
Proof. unfold abort. quiet. Qed.
Lemma quietly_goto_fail fuel path fd b : quietly False (fail fuel path fd b).
Proof. unfold fail. quiet; [apply quietly_discard|apply quietly_abort]. Qed.
Lemma quietly_make_dirs components partial : quietly True (make_dirs components partial).
Proof.
  revert partial. induction components as [|[|c component] components IH]; intros partial; cbn [make_dirs]; [quiet|apply IH|].
  unfold update_capabilities. quiet; apply IH.
Qed.
Lemma quietly_mkdirs path : quietly True (secure_mkdirs path).
Proof. unfold secure_mkdirs. destruct path as [|c path]; [quiet|]. quiet. destruct (Split _ _); [apply quietly_make_dirs|quiet]. Qed.

(** *** The file *)

Lemma wp_quiet {A} K (p : prog Daemon A) w i o al Q :
  quietly K p → unsaid o → (∀ a w' i' o' al', unsaid o' → kept K w w' i i' o o' → Q a w' i' o' al') → dwp p w i o al Q.
Proof. intros Hp Ho HQ. eapply pwp_mono; [by apply Hp|]. cbn. intros a w' i' o' al' _ [Ho' Hk]. by apply HQ. Qed.

Lemma unsaid_nil : unsaid [].
Proof. by left. Qed.
Hint Resolve unsaid_nil unsaid_inv : core.

Definition opened (i : bytes) (r : option Z) (w' : Daemon) (i' o' : bytes) : Prop :=
  match r with Some fd => i' = i ∧ o' = [] ∧ writer (os_ w') fd rpath [] [] | None => unsaid o' end.

Lemma wp_open_existing m w i al :
  content (os_ w) rpath = None → dwp (open_existing rpath m) w i [] al (λ r w' i' o' _, opened i r w' i' o').
Proof.
  intros Hc. apply pwp_bind, wp_errno; [auto|]. apply pwp_bind.
  assert (Hno : ∀ w2 al2, dwp (_ ← SendSyncFailErrno $"couldn't create file"; Done (None : option Z)) w2 i [] al2 (λ r w' i' o' _, opened i r w' i' o')).
  { intros w2 al2. apply pwp_bind. eapply wp_quiet; [apply quietly_fail_errno|auto|]. intros _ w3 i3 o3 al3 Ho3 _. by apply wp_done; auto. }
  destruct (_ =? EEXIST); [|by apply wp_done; [auto|apply Hno]]. apply wp_try; [auto|]. intros [fd|e] s' Hs; (split; [auto|]); cbn [yield]; [|apply Hno].
  apply wp_done; [auto|]. split_and!; [done..|]. pose proof (open_old _ _ _ _ _ _ Hs eq_refl eq_refl) as Hw. by rewrite Hc in Hw.
Qed.

Lemma wp_open_target m w i al :
  content (os_ w) rpath = None → dwp (open_target rpath m) w i [] al (λ r w' i' o' _, opened i r w' i' o').
Proof.
  intros Hc. unfold open_target.
  assert (Hnew : ∀ (w0 : Daemon) fd s', sys (c_open rpath CREATE_NEW m) (os_ w0) = (inl fd, s') → writer s' fd rpath [] []).
  { intros w0 fd s' Hs. by apply (open_new _ _ _ _ _ _ Hs). }
  apply pwp_bind, wp_try; [auto|]. intros [fd|e] s' Hs; (split; [auto|]); cbn [yield].
  { apply wp_done; [auto|]. split_and!; [done..|]. by apply (Hnew w). }
  assert (Hc1 : content s' rpath = None) by by rewrite (open_failed _ _ _ _ _ _ _ Hs).
  apply pwp_bind, wp_errno; [auto|]. destruct (_ =? ENOENT); [|by apply wp_open_existing]. apply pwp_bind.
  eapply wp_quiet; [apply quietly_mkdirs|auto|]. intros b w2 i2 o2 al2 _ Hk. destruct (Hk I) as (-> & -> & Hc2). cbn in Hc2; rewrite Hc1 in Hc2.
  destruct b; cbn [negb].
  - apply pwp_bind, wp_try; [auto|]. intros [fd|e2] s2 Hs2; (split; [auto|]); cbn [yield].
    + apply wp_done; [auto|]. split_and!; [done..|]. by apply (Hnew w2).
    + apply wp_open_existing. cbn. by rewrite (open_failed _ _ _ _ _ _ _ Hs2).
  - apply pwp_bind. eapply wp_quiet; [apply quietly_fail_errno|auto|]. intros _ w3 i3 o3 al3 Ho3 _. by apply wp_done; auto.
Qed.

(** What can follow what has been read. *)
Lemma sent_next ds m :
  Forall small ds → length m = 8%nat → sent (req ++ chunks ds ++ m) → (∃ d, small d ∧ m = message ID_DATA (zlen d)) ∨ (∃ t, m = message ID_DONE t).
Proof.
  intros Hds Hm (ds' & t & Hds' & Hp). unfold push_stream in Hp. rewrite <-!app_assoc in Hp. apply prefix_app_inv in Hp.
  destruct (next_message ds ds' t quit m Hds Hds' Hm Hp) as [(d & rest & -> & ->)|[-> ->]]; [|by right; exists t].
  left. exists d. split; [|done]. rewrite Forall_app, Forall_cons in Hds'. tauto.
Qed.

(** *** Receiving *)

Definition received_ok (r : received) (w : Daemon) (i o : bytes) (fd : Z) : Prop :=
  unsaid o ∧ match r with Timestamp t => o = [] ∧ ∃ ds, Forall small ds ∧ i = push_stream ds t ∧ writer (os_ w) fd rpath (concat ds) [] | _ => True end.

Lemma wp_receive fuel fd ds w al :
  Forall small ds → writer (os_ w) fd rpath (concat ds) [] →
  dwp (receive fuel fd) w (req ++ chunks ds) [] al (λ r w' i' o' _, received_ok r w' i' o' fd).
Proof.
  revert ds w al. induction fuel as [|fuel IH]; intros ds w al Hds Hw; cbn [receive]; [by split; [auto|]|].
  apply pwp_bind, wp_read; [auto|done| |].
  2: { intros _ d _ _. split; [auto|]. apply wp_done; [auto|]. by split. }
  intros m Hm Hsent. split; [auto|]. rewrite <-app_assoc in Hsent |- *. assert (Hm8 : length m = 8%nat) by (unfold zlen, message_size in Hm; lia).
  destruct (sent_next ds m Hds Hm8 Hsent) as [(d & Hd & ->)|(t & ->)].
  - rewrite message_id', message_arg' by (done || by apply small_range). rewrite Z.eqb_refl. cbn [negb].
    rewrite (proj2 (Z.ltb_ge _ _)) by done. apply pwp_bind. unfold read_buffer. apply pwp_bind, wp_read; [auto|done| |].
    2: { intros _ x _ _. split; [auto|]. apply wp_done; [auto|]. apply wp_done; [auto|]. by split. }
    intros x Hx Hsent'. split; [auto|]. rewrite <-!app_assoc in Hsent' |- *. apply pwp_bind, wp_update; [auto..|]. apply wp_done; [auto|].
    assert (Hxd : zlen x = zlen d) by (rewrite Hx; pose proof (zlen_nonneg d); lia).
    rewrite <-Hxd. rewrite <-chunks_snoc. assert (Hdx : Forall small (ds ++ [x])) by (apply Forall_app_2; [done|apply Forall_singleton; unfold small in *; lia]).
    apply pwp_bind. eapply pwp_mono; [by apply (wp_write_file P); auto|]. cbn beta. intros b w2 i2 o2 al2 _ (-> & -> & _ & Hb). destruct b; cbn [negb].
    + apply IH; [done|]. rewrite concat_app. cbn [concat]. rewrite app_nil_r. by apply Hb.
    + apply pwp_bind. eapply wp_quiet; [apply quietly_fail_errno|auto|]. intros _ w3 i3 o3 al3 Ho3 _. apply wp_done; [auto|]. by split.
  - rewrite message_id' by done. change (ID_DONE =? ID_DATA) with false. cbn [negb]. rewrite Z.eqb_refl. apply wp_done; [auto|].
    split; [auto|]. split; [done|]. exists ds. split_and!; try done. unfold push_stream. by rewrite message_arg_u32, message_u32.
Qed.

(** The file has been written and the client is told so. *)
Definition said (w : Daemon) (i o : bytes) : Prop :=
  head o = Some O_ ∧ ∃ ds t, Forall small ds ∧ i = push_stream ds t ∧ content (os_ w) rpath = Some (concat ds).

Definition refused (r : bool) (o : bytes) : Prop := unsaid o ∧ r = false.

Lemma wp_abort fd b w i o al : unsaid o → dwp (abort rpath fd b) w i o al (λ r _ _ o' _, refused r o').
Proof.
  intros Ho. unfold abort. apply pwp_bind. eapply (wp_quiet False); [destruct fd; quiet|done|]. intros _ w2 i2 o2 al2 Ho2 _.
  apply pwp_bind. eapply (wp_quiet False); [quiet|done|]. intros _ w3 i3 o3 al3 Ho3 _. by apply wp_done; auto.
Qed.
Lemma wp_goto_fail fuel fd b w i o al : unsaid o → dwp (fail fuel rpath fd b) w i o al (λ r _ _ o' _, refused r o').
Proof.
  intros Ho. unfold fail. apply pwp_bind. eapply wp_quiet; [apply quietly_discard|done|]. intros _ w2 i2 o2 al2 Ho2 _. by apply wp_abort.
Qed.
Lemma wp_refused (p : prog Daemon bool) w i o al :
  dwp p w i o al (λ r _ _ o' _, refused r o') → dwp p w i o al (λ r w' i' o' _, r = true → said w' i' o').
Proof. intros Hp. eapply pwp_mono; [done|]. cbn. by intros r w2 i2 o2 al2 _ [_ ->]. Qed.

(** A call whose result does not matter. *)
Lemma wp_do {A} (c : call (A + Z)) w i al Q :
  (∀ r s', sys c (os_ w) = (r, s') → Q tt (after w r s') i [] al) → dwp (do_ c) w i [] al Q.
Proof. intros HQ. apply pwp_bind, wp_try; [auto|]. intros r s' Hs. split; [auto|]. apply wp_done; [auto|]. by apply HQ. Qed.

Lemma wp_handle_send_file fuel m b w al :
  content (os_ w) rpath = None →
  dwp (handle_send_file fuel rpath no_id no_id 0 m b) w req [] al (λ r w' i' o' _, r = true → said w' i' o').
Proof.
  intros Hc. unfold handle_send_file.
  apply pwp_bind. eapply pwp_mono; [by apply wp_open_target|]. cbn beta. intros r w1 i1 o1 al1 _ Hop. destruct r as [fd|]; [|by apply wp_refused, wp_goto_fail].
  destruct Hop as (-> & -> & Hw). apply pwp_bind. unfold ok_. apply pwp_bind, wp_try; [auto|]. intros r s' Hs. split; [auto|]. apply wp_done; [auto|].
  assert (Hw1 : writer s' fd rpath [] []) by (pose proof (writer_kept (c_fchown fd no_id no_id) _ _ _ _ _ Hw I) as H1; by rewrite Hs in H1).
  destruct (negb _).
  { apply pwp_bind. eapply wp_quiet; [apply quietly_fail_errno|auto|]. intros _ w2 i2 o2 al2 Ho2 _. by apply wp_refused, wp_goto_fail. }
  apply pwp_bind. apply wp_do. intros r2 s2 Hs2. cbn [os_ after] in Hs2.
  assert (Hw2 : writer s2 fd rpath [] []) by (pose proof (writer_kept (c_fchmod fd m) _ _ _ _ _ Hw1 I) as H1; by rewrite Hs2 in H1).
  apply pwp_bind. assert (Hreq : req = req ++ chunks []) by by rewrite app_nil_r. rewrite Hreq at 1.
  eapply pwp_mono; [by apply wp_receive|]. cbn beta. intros r3 w3 i3 o3 al3 _ [Ho3 Hr3]. destruct r3 as [t| |]; [|by apply wp_refused, wp_goto_fail|by apply wp_refused, wp_abort].
  destruct Hr3 as (-> & ds & Hds & -> & Hw3).
  apply pwp_bind. apply wp_do. intros r4 s4 Hs4. cbn [os_ after] in Hs4.
  pose proof (close_writer _ _ _ _ _ Hw3) as Hc4. rewrite Hs4, drop_nil, app_nil_r in Hc4. cbn in Hc4.
  unfold update_capabilities. rewrite Z.eqb_refl. apply pwp_bind, pwp_bind. apply wp_do. intros r5 s5 Hs5. cbn [os_ after] in Hs5. apply wp_done; [auto|]. pose proof (content_kept (c_removexattr rpath) s4 rpath eq_refl) as Hc5. rewrite Hs5 in Hc5. cbn in Hc5. rewrite Hc4 in Hc5.
  cbn [negb]. apply pwp_bind. apply wp_do. intros r6 s6 Hs6. cbn [os_ after] in Hs6.
  pose proof (content_kept (c_utime rpath t t) s5 rpath eq_refl) as Hc6. rewrite Hs6 in Hc6. cbn in Hc6. rewrite Hc5 in Hc6.
  assert (Hcopied : ∀ w', os_ w' = s6 → copied w' (push_stream ds t)) by (intros w' <-; exists ds, t, []; by rewrite app_nil_r).
  assert (Hinv : ∀ w' d, os_ w' = s6 → d `prefix_of` message ID_OKAY 0 → dinv w' (push_stream ds t) d).
  { intros w' d Hw' Hd. destruct (prefix_head _ _ Hd) as [->|Hh]; [auto|]. right. split; [by rewrite Hh|by apply Hcopied]. }
  apply wp_write; [auto|by apply Hinv| |].
  - intros _. split; [done|]. by exists ds, t.
  - intros _ d' e Hd. split_and!; [by apply Hinv..|done].
Qed.

(** *** The request *)

Lemma split_last_app (c : ascii) a b : c ∉ b → split_last c (a ++ c :: b) = Some (a ++ [c], b).
Proof.
  intros Hb. assert (Hn : ∀ b, c ∉ b → split_last c b = None).
  { clear. induction b as [|x b IH]; [done|]. intros Hb. rewrite not_elem_of_cons in Hb. destruct Hb as [Hx Hb]. cbn. rewrite IH by done.
    destruct (char_eqb_spec x c); [by subst|done]. }
  induction a as [|x a IH]; cbn; [by rewrite Hn, char_eqb_refl|by rewrite IH].
Qed.

Lemma find_comma : find_last_of "," spec = Some (length rpath).
Proof. unfold find_last_of, spec. cbn [chars String.list_ascii_of_string app]. rewrite split_last_app by done. f_equal. rewrite length_app. cbn. lia. Qed.

Lemma wp_do_send fuel w al : os_ w = o0 → dwp (do_send fuel spec) w req [] al (λ r w' i' o' _, r = true → said w' i' o').
Proof.
  intros Hw. pose proof Hremovable as Hrem. unfold removable in Hrem. unfold do_send. rewrite find_comma.
  assert (take (length rpath) spec = rpath) as -> by (unfold spec; apply take_app_length).
  assert (drop (length rpath + 1) spec = number) as -> by (unfold spec; by rewrite <-drop_drop, drop_app_length).
  rewrite Hmode. cbv beta iota. rewrite Hfile. apply pwp_bind, wp_try; [auto|]. intros r s' Hs. split; [auto|]. rewrite <-Hw, Hs in Hrem. destruct Hrem as [Hplain Hremoved].
  assert ((match yield r with None => true | Some st => S_ISREG (st_mode st) || S_ISLNK (st_mode st) end) = true) as ->.
  { by destruct r. }
  apply pwp_bind, wp_do. intros r2 s2 Hs2. cbn [os_ after] in Hs2. apply wp_handle_send_file. cbn.
  by rewrite Hs2 in Hremoved.
Qed.

Lemma spec_length : 0 ≤ zlen spec < 2 ^ 32.
Proof. pose proof (zlen_nonneg spec). unfold spec in *. lia. Qed.

Lemma req_next m : sent m → zlen m = message_size → m = message ID_SEND (zlen spec).
Proof.
  intros (ds & t & _ & Hp) Hm. unfold push_stream, req in Hp. rewrite <-!app_assoc in Hp. by apply prefix_same in Hp.
Qed.
Lemma req_spec d : sent (message ID_SEND (zlen spec) ++ d) → zlen d = zlen spec → d = spec.
Proof.
  intros (ds & t & _ & Hp) Hd. unfold push_stream, req in Hp. rewrite <-!app_assoc in Hp. apply prefix_app_inv in Hp.
  by apply prefix_same in Hp.
Qed.

Lemma wp_first_command fuel w al : os_ w = o0 → dwp (handle_sync_command host_values fuel) w [] [] al (λ r w' i' o' _, r = true → said w' i' o').
Proof.
  intros Hw. unfold handle_sync_command. apply pwp_bind, wp_read; [auto|done| |].
  2: { intros _ d _ _. split; [auto|]. apply pwp_bind. eapply wp_quiet; [apply quietly_fail|auto|]. intros _ w2 i2 o2 al2 Ho2 _. by apply wp_done; auto. }
  cbn [app]. intros m Hm Hsent. split; [auto|]. rewrite (req_next m Hsent Hm). rewrite message_id', message_arg' by (done || apply spec_length).
  rewrite (proj2 (Z.ltb_ge _ _)) by done. apply pwp_bind, wp_read; [auto|done| |].
  2: { intros _ d _ _. split; [auto|]. apply pwp_bind. eapply wp_quiet; [apply quietly_fail|auto|]. intros _ w2 i2 o2 al2 Ho2 _. by apply wp_done; auto. }
  intros d Hd Hsent2. split; [auto|]. pose proof spec_length. rewrite (req_spec d Hsent2) by lia. rewrite c_str_id by done. cbv zeta. by apply wp_do_send.
Qed.

(** *** Behind the file *)

Lemma sent_quit ds t m : Forall small ds → zlen m = message_size → sent (push_stream ds t ++ m) → m = quit.
Proof.
  intros Hds Hm (ds' & t' & Hds' & Hp). unfold push_stream in Hp. rewrite <-!app_assoc in Hp. apply prefix_app_inv in Hp.
  assert (Hq : length m = length quit) by (unfold zlen, message_size in Hm; change (length quit) with 8%nat; lia).
  destruct (next_message ds ds' t' quit (message ID_DONE t) Hds Hds' eq_refl) as [(d & rest & _ & He)|[-> He]].
  - etrans; [|done]. rewrite app_assoc. by apply prefix_app_r.
  - apply (f_equal msg_id) in He. rewrite !message_id' in He by done. discriminate He.
  - apply prefix_app_inv in Hp. apply prefix_split in Hp as [_ Hp]; [|done]. rewrite <-(app_nil_r quit) in Hp. by apply prefix_same in Hp.
Qed.

Lemma said_inv w w' i o o' rest : said w i o → os_ w' = os_ w → dinv w' (i ++ rest) (o ++ o').
Proof.
  intros (Ho & ds & t & Hds & -> & Hc) Hw. right. split; [by destruct o|]. exists ds, t, rest. by rewrite Hw.
Qed.

Lemma wp_said_fail reason w i rest o al : said w i o → dwp (SendSyncFail reason) w (i ++ rest) o al (λ _ _ _ _ _, True).
Proof.
  intros Hs. assert (Hi : ∀ w' o', os_ w' = os_ w → dinv w' (i ++ rest) (o ++ o')) by (intros; by eapply said_inv).
  assert (Hi0 : ∀ w', os_ w' = os_ w → dinv w' (i ++ rest) o) by (intros w' Hw; rewrite <-(app_nil_r o); by apply Hi).
  apply pwp_bind, wp_write; [by apply Hi0|by apply Hi|..].
  - apply wp_write; rewrite ?app_assoc_reverse; [by apply Hi..|done|]. intros _ d' e _. rewrite ?app_assoc_reverse. by split_and!; try apply Hi.
  - intros _ d' e _. split_and!; [by apply Hi..|]. by apply wp_done; [apply Hi|].
Qed.

Lemma wp_service_after fuel data w i o al : said w i o → dwp (file_sync_service host_values fuel data) w i o al (λ _ _ _ _ _, True).
Proof.
  intros Hs. pose proof Hs as (_ & ds & t & Hds & Hi & _).
  assert (Hinv : ∀ rest, dinv w (i ++ rest) o) by (intros rest; rewrite <-(app_nil_r o); by eapply said_inv).
  assert (Hinv0 : dinv w i o) by (rewrite <-(app_nil_r i); apply Hinv).
  destruct fuel as [|fuel]; [by split|]. cbn [file_sync_service]. apply pwp_bind. unfold handle_sync_command.
  apply pwp_bind, wp_read; [done|done| |].
  2: { intros _ d _ _. split; [apply Hinv|]. apply pwp_bind. eapply pwp_mono; [by apply wp_said_fail|]. cbn beta. intros _ w2 i2 o2 al2 Hi2 _. apply wp_done; [done|]. by apply wp_done. }
  intros m Hm Hsent. split; [apply Hinv|]. rewrite Hi in Hsent. rewrite (sent_quit ds t m Hds Hm Hsent). unfold quit. rewrite message_id', message_arg' by done.
  change (1024 <? 0) with false. cbv beta iota. apply pwp_bind, wp_read; [apply Hinv|done| |].
  2: { intros _ d Hd _. pose proof (zlen_nonneg d). lia. }
  intros d Hd _. rewrite <-app_assoc. split; [apply Hinv|]. assert (d = []) as -> by (apply zlen_0; lia). cbn [c_str]. by apply wp_done; [apply Hinv|apply wp_done; [apply Hinv|]].
Qed.

Lemma wp_service fuel data w : os_ w = o0 → dwp (file_sync_service host_values fuel data) w [] [] None (λ _ _ _ _ _, True).
Proof.
  intros Hw. destruct fuel as [|fuel]; [by split; [auto|]|]. cbn [file_sync_service]. apply pwp_bind. eapply pwp_mono; [by apply wp_first_command|]. cbn beta.
  intros b w1 i1 o1 al1 Hi1 Hb. destruct b; [by apply wp_service_after, Hb|by apply wp_done].
Qed.
End daemon.

(** ** The client *)

Section client.
Context `{O : Os} (P : Posix O).
Context (rpath number lpath : bytes) (mode : Z) (data : bytes).
Context (Hlen : zlen (spec rpath number) ≤ 1024) (Hnumber : number = print_dec (s32 mode)) (Hfile : S_ISLNK mode = false).

Notation req := (req rpath number).
Notation push_stream := (push_stream rpath number).
Notation sent := (sent rpath number).

Definition cinv (w : Client) (i o : bytes) : Prop := sent o.
(** A poll comes between the messages with the contents. *)
Definition polled (i o : bytes) : Prop := i = [] ∧ ∃ ds, Forall small ds ∧ o = req ++ chunks ds.
Definition anything : bytes → Prop := λ _, True.
Definition cwp {A} (p : prog Client A) w i o al Q : Prop := wp anything True no_ask polled cinv p w i o al Q.

Lemma sent_prefix o o' : o `prefix_of` o' → sent o' → sent o.
Proof. intros Hp (ds & t & Hds & Hp'). exists ds, t. split; [done|]. by etrans. Qed.
Lemma sent_stream ds t : Forall small ds → sent (push_stream ds t).
Proof. intros Hds. exists ds, t. split; [done|]. by apply prefix_app_r. Qed.
Lemma sent_chunks ds : Forall small ds → sent (req ++ chunks ds).
Proof. intros Hds. eapply sent_prefix; [|by apply (sent_stream ds 0)]. unfold SyncSafe.push_stream. rewrite app_assoc. by apply prefix_app_r. Qed.
Lemma sent_req : sent req.
Proof. rewrite <-(app_nil_r req). by apply (sent_chunks []). Qed.
Lemma sent_nil : sent [].
Proof. eapply sent_prefix; [|apply sent_req]. by eexists. Qed.

(** Programs that write nothing. *)
Definition mute {A} (p : prog Client A) : Prop := ∀ w i o al, sent o → cwp p w i o al (λ _ _ _ o' al', o' = o ∧ al' = al).
Lemma mute_bind {A B} (p : prog Client A) (f : A → prog Client B) : mute p → (∀ a, mute (f a)) → mute (p ≫= f).
Proof.
  intros Hp Hf w i o al Ho. apply pwp_bind. eapply pwp_mono; [by apply Hp|]. cbn beta. intros a w1 i1 o1 al1 _ [-> ->]. by apply Hf.
Qed.
Lemma mute_done {A} (a : A) : mute (Done a).
Proof. intros w i o al Ho. by apply wp_done. Qed.
Lemma mute_exit {A} why : mute (A := A) (Exit why).
Proof. intros w i o al Ho. by split. Qed.
Lemma mute_errno : mute get_errno.
Proof. intros w i o al Ho. by apply wp_errno. Qed.
Lemma mute_update f : mute (update f).
Proof. intros w i o al Ho. by apply wp_update. Qed.
Lemma mute_read n : mute (ReadFdExactly n).
Proof. intros w i o al Ho. by apply wp_read. Qed.
Ltac mute_tac :=
  repeat match goal with
  | |- mute (Done _) => apply mute_done
  | |- mute (Exit _) => apply mute_exit
  | |- mute get_errno => apply mute_errno
  | |- mute errno_text => unfold errno_text
  | |- mute (Error _) => apply mute_update
  | |- mute (update _) => apply mute_update
  | |- mute (ReadFdExactly _) => apply mute_read
  | |- mute (_ ≫= _) => apply mute_bind; [|intros ?]
  | |- mute (if ?b then _ else _) => destruct b
  | |- mute (match ?r with None => _ | Some _ => _ end) => destruct r
  end.
Lemma mute_report from to n : mute (ReportCopyFailure from to n).
Proof. unfold ReportCopyFailure. mute_tac. Qed.

Lemma cwp_error s w i o al Q : sent o → Q tt (set_own_ (add_printed ($"adb: error: " ++ s) (own_ w)) w) i o al → cwp (Error s) w i o al Q.
Proof. intros Ho HQ. by apply wp_update. Qed.

(** Either everything is written or the process ends. *)
Lemma cwp_write_or_die from to d w i o al Q :
  sent (o ++ d) → Q true w i (o ++ d) al → cwp (WriteOrDie from to d) w i o al Q.
Proof.
  intros Ho HQ. assert (Hp : ∀ d', d' `prefix_of` d → sent (o ++ d')) by (intros d' Hd; eapply sent_prefix; [by apply prefix_app|done]).
  apply pwp_bind, wp_write; [rewrite <-(app_nil_r o); apply Hp, prefix_nil|by apply Hp|by apply wp_done|].
  intros _ d' e Hd. split_and!; [by apply Hp..|]. apply pwp_bind, wp_errno; [by apply Hp|]. apply pwp_bind.
  assert (Hm : ∀ p : prog Client unit, mute p → ∀ w, cwp p w i (o ++ d') al (λ _ w' i' o' al', cwp (Exit "exit(1)") w' i' o' al' Q)).
  { intros p Hm w'. eapply pwp_mono; [by apply Hm, Hp|]. cbn beta. intros _ w2 i2 o2 al2 Hi2 _. by split. }
  apply Hm. mute_tac. apply mute_report.
Qed.

Lemma cwp_false {A} (p : prog Client A) w i o al (Q : bool → _) :
  mute p → sent o → (∀ w' i' o' al', sent o' → Q false w' i' o' al') → cwp (_ ← p; Done false) w i o al Q.
Proof.
  intros Hm Ho HQ. apply pwp_bind. eapply pwp_mono; [by apply Hm|]. cbn beta. intros a w1 i1 o1 al1 Hi _. apply wp_done; [done|]. by apply HQ.
Qed.

Lemma mute_do {A} (c : call (A + Z)) : mute (do_ c).
Proof. intros w i o al Ho. apply pwp_bind, wp_try; [done|]. intros r s' _. split; [done|]. by apply wp_done. Qed.

Lemma cwp_send_chunks fuel lfd ds rest w :
  Forall small ds → concat ds ++ rest = data → reader (os_ w) lfd rest →
  cwp (send_chunks fuel lpath rpath lfd) w [] (req ++ chunks ds) None
    (λ b w' i' o' al', b = true → i' = [] ∧ ∃ ds', Forall small ds' ∧ o' = req ++ chunks ds' ∧ (al' = None ∧ concat ds' = data ∨ al' = Some o')).
Proof.
  revert ds rest w. induction fuel as [|fuel IH]; intros ds rest w Hds Hd Hr; cbn [send_chunks]; [split; [by apply sent_chunks|done]|].
  assert (Hfailed : ∀ w' Q, (∀ w i o al, Q false w i o al) → cwp (t ← errno_text; _ ← Error ($"reading '" ++ lpath ++ $"' locally failed: " ++ t); _ ← do_ (c_close lfd); Done false) w' [] (req ++ chunks ds) None Q).
  { intros w' Q HQ. apply pwp_bind, pwp_bind, wp_errno; [by apply sent_chunks|]. apply wp_done; [by apply sent_chunks|]. apply pwp_bind.
    eapply pwp_mono; [by apply mute_update, sent_chunks|]. cbn beta. intros _ w1 i1 o1 al1 Hi _. apply cwp_false; [apply mute_do|done|by auto]. }
  apply pwp_bind, wp_try; [by apply sent_chunks|]. intros r s' Hs. split; [by apply sent_chunks|]. destruct r as [d|e]; cbn [yield].
  2: { by apply Hfailed. }
  destruct (read_reader _ _ _ _ _ _ Hr Hs eq_refl) as (rest' & -> & Hr' & Hdl & Hend). destruct d as [|c d].
  { apply wp_done; [by apply sent_chunks|]. intros _. split; [done|]. exists ds. split_and!; [done..|]. left. rewrite (Hend eq_refl), app_nil_r in Hd. done. }
  set (x := c :: d) in *. assert (Hx : Forall small (ds ++ [x])) by (apply Forall_app_2; [done|]; apply Forall_singleton; unfold small, SYNC_DATA_MAX, message_size in *; lia).
  assert (Ho : (req ++ chunks ds) ++ message ID_DATA (zlen x) ++ x = req ++ chunks (ds ++ [x])) by by rewrite chunks_snoc, <-!app_assoc.
  apply pwp_bind, cwp_write_or_die; rewrite Ho; [by apply sent_chunks|]. apply pwp_bind, wp_update; [by apply sent_chunks..|].
  apply pwp_bind. unfold ReceivedError, poll_readable. split; [by apply sent_chunks|]. split; [split; [done|by exists (ds ++ [x])]|]. split.
  - split; [by apply sent_chunks|]. apply (IH _ rest'); [done| |done]. rewrite concat_app. cbn [concat]. by rewrite app_nil_r, <-app_assoc.
  - split; [by apply sent_chunks|]. apply wp_done; [by apply sent_chunks|]. intros _. split; [done|]. exists (ds ++ [x]). split_and!; [done..|by right].
Qed.

Definition streamed (b : bool) (i o : bytes) (al : option bytes) : Prop :=
  b = true → i = [] ∧ ∃ ds t, Forall small ds ∧ o = push_stream ds t ∧ (al = None ∧ concat ds = data ∨ al = Some (req ++ chunks ds)).

Lemma streamed_false i o al : streamed false i o al.
Proof. done. Qed.

Lemma cwp_send_request id path w i o al (Q : bool → _) :
  zlen path ≤ 1024 → sent (o ++ message id (zlen path) ++ path) → Q true w i (o ++ message id (zlen path) ++ path) al →
  (∀ w' o', sent o' → Q false w' i o' al) → cwp (SendRequest id path) w i o al Q.
Proof.
  intros Hl Ho HQ Hf. unfold SendRequest. rewrite (proj2 (Z.ltb_ge _ _)) by done.
  assert (Hp : ∀ d', d' `prefix_of` message id (zlen path) ++ path → sent (o ++ d')) by (intros d' Hd; eapply sent_prefix; [by apply prefix_app|done]).
  apply wp_write; [rewrite <-(app_nil_r o); apply Hp, prefix_nil|by apply Hp|done|]. intros _ d' e Hd. split_and!; [by apply Hp..|]. by apply Hf, Hp.
Qed.

Lemma cwp_large fuel t w :
  content (os_ w) lpath = Some data →
  cwp (SendLargeFile fuel (spec rpath number) lpath rpath t) w [] [] None (λ b _ i' o' al', streamed b i' o' al').
Proof.
  intros Hc. unfold SendLargeFile.
  assert (Herr : ∀ (s : bytes → bytes) w' i' o' al', sent o' → cwp (t ← errno_text; _ ← Error (s t); Done false) w' i' o' al' (λ b _ i' o' al', streamed b i' o' al')).
  { intros s w' i' o' al' Ho. apply pwp_bind, pwp_bind, wp_errno; [done|]. apply wp_done; [done|]. apply cwp_false; [apply mute_update|done|]. by intros; apply streamed_false. }
  apply pwp_bind, cwp_send_request; [done|apply sent_req| |intros; by apply Herr]. cbn [app negb].
  apply pwp_bind, wp_try; [apply sent_req|]. intros r s' Hs. split; [apply sent_req|]. destruct r as [st|e]; [|by apply Herr, sent_req]. cbn [yield].
  pose proof (content_kept (c_stat lpath) (os_ w) lpath eq_refl) as Hc'. rewrite Hs, Hc in Hc'. cbn in Hc'.
  apply pwp_bind, wp_try; [apply sent_req|]. intros r s2 Hs2. cbn [os_ after] in Hs2. split; [apply sent_req|]. destruct r as [lfd|e]; [|by apply Herr, sent_req]. cbn [yield].
  pose proof (open_reader _ _ _ _ _ _ _ Hs2 eq_refl eq_refl Hc') as Hr.
  apply pwp_bind. assert (Hreq : req = req ++ chunks []) by by rewrite app_nil_r. unfold SyncSafe.req in Hreq at 1. rewrite Hreq.
  eapply pwp_mono; [by apply (cwp_send_chunks fuel lfd [] data)|]. cbn beta. intros b w3 i3 o3 al3 Hi3 Hb. destruct b; cbn [negb]; [|by apply wp_done].
  destruct (Hb eq_refl) as (-> & ds & Hds & -> & Hall). apply pwp_bind, pwp_bind, wp_try; [done|]. intros r s4 _. split; [done|]. apply wp_done; [done|].
  apply pwp_bind, wp_update; [done..|]. assert (Ho : (req ++ chunks ds) ++ message ID_DONE t = push_stream ds t) by (unfold SyncSafe.push_stream; by rewrite <-app_assoc).
  apply cwp_write_or_die; rewrite Ho; [by apply sent_stream|]. intros _. split; [done|]. by exists ds, t.
Qed.

(** A small file is read whole. *)
Lemma cwp_read_file fuel w :
  content (os_ w) lpath = Some data →
  cwp (ReadFileToString fuel lpath true) w [] [] None (λ r _ i' o' al', i' = [] ∧ o' = [] ∧ al' = None ∧ (∀ d, r = Some d → d = data)).
Proof.
  intros Hc. apply pwp_bind, wp_try; [apply sent_nil|]. intros r s' Hs. split; [apply sent_nil|]. destruct r as [fd|e]; cbn [yield]; [|by apply wp_done; [apply sent_nil|]].
  pose proof (open_reader _ _ _ _ _ _ _ Hs eq_refl eq_refl Hc) as Hr. apply pwp_bind.
  assert (Hread : ∀ fuel got rest w, got ++ rest = data → reader (os_ w) fd rest →
    cwp (ReadFdToString fuel fd got) w [] [] None (λ r _ i' o' al', i' = [] ∧ o' = [] ∧ al' = None ∧ (∀ d, r = Some d → d = data))).
  { clear. induction fuel as [|fuel IH]; intros got rest w Hg Hr; cbn [ReadFdToString]; [split; [apply sent_nil|done]|].
    apply pwp_bind, wp_try; [apply sent_nil|]. intros r s' Hs. split; [apply sent_nil|]. destruct r as [d|e]; cbn [yield]; [|by apply wp_done; [apply sent_nil|]].
    destruct (read_reader _ _ _ _ _ _ Hr Hs eq_refl) as (rest' & -> & Hr' & _ & Hend). destruct d as [|c d].
    - apply wp_done; [apply sent_nil|]. split_and!; [done..|]. intros d [= <-]. by rewrite (Hend eq_refl), app_nil_r in Hg.
    - apply (IH _ rest'); [by rewrite <-app_assoc|done]. }
  eapply pwp_mono; [by apply (Hread fuel [] data)|]. cbn beta. intros r w2 i2 o2 al2 Hi (-> & -> & -> & Hd).
  apply pwp_bind, pwp_bind, wp_try; [done|]. intros r2 s2 _. split; [done|]. apply wp_done; [done|]. by apply wp_done.
Qed.

Lemma cwp_small t w :
  small data → cwp (SendSmallFile (spec rpath number) lpath rpath t data) w [] [] None (λ b _ i' o' al', streamed b i' o' al').
Proof.
  intros Hs. unfold SendSmallFile. rewrite (proj2 (Z.ltb_ge _ _)) by done.
  assert (Hds : Forall small [data]) by by apply Forall_singleton.
  assert (Ho : [] ++ message ID_SEND (zlen (spec rpath number)) ++ spec rpath number ++ message ID_DATA (zlen data) ++ data ++ message ID_DONE t = push_stream [data] t).
  { unfold SyncSafe.push_stream, SyncSafe.req, chunks, chunk. cbn [fmap list_fmap concat app]. by rewrite app_nil_r, <-!app_assoc. }
  apply pwp_bind, cwp_write_or_die; rewrite Ho; [by apply sent_stream|]. apply pwp_bind, wp_update; [by apply sent_stream..|].
  apply pwp_bind, wp_update; [by apply sent_stream..|]. apply wp_done; [by apply sent_stream|]. intros _. split; [done|]. exists [data], t.
  split_and!; [done..|]. left. cbn. by rewrite app_nil_r.
Qed.

(** The answer. *)
Definition confirmed (b : bool) (i o : bytes) (al : option bytes) : Prop :=
  b = true → (zlen i = message_size ∧ msg_id i = ID_OKAY) ∧ streamed true [] o al.

Lemma cwp_report_false from to n w i o al (Q : bool → _) :
  sent o → (∀ w' i' o' al', Q false w' i' o' al') → cwp (ReportCopyFailure from to n) w i o al Q.
Proof.
  intros Ho HQ. unfold ReportCopyFailure. destruct (_ =? 0); [by split|]. apply pwp_bind, wp_read; [done|done|..].
  - intros d _ _. split; [done|]. by apply cwp_false; [apply mute_update|..].
  - intros _ d _ _. split; [done|]. apply pwp_bind. apply pwp_bind, wp_errno; [done|]. apply wp_done; [done|]. by apply cwp_false; [apply mute_update|..].
Qed.

Lemma cwp_copy_done from to w o al :
  sent o → streamed true [] o al → cwp (CopyDone from to) w [] o al (λ b _ i' o' al', confirmed b i' o' al').
Proof.
  intros Ho Hst. apply pwp_bind, wp_read; [done|done|..].
  2: { intros _ d _ _. split; [done|]. by apply cwp_false; [apply mute_update|..]. }
  intros m Hm _. split; [done|]. cbn [app]. destruct (msg_id m =? ID_OKAY) eqn:Hok.
  - apply Z.eqb_eq in Hok. assert (Hc : confirmed true m o al) by done. apply pwp_bind, wp_own; [done|]. destruct (expect_done_ _).
    + apply pwp_bind, wp_update; [done..|]. apply pwp_bind, wp_update; [done..|]. by apply wp_done.
    + apply pwp_bind, wp_update; [done..|]. by apply wp_done.
  - destruct (negb _); [|by apply cwp_report_false]. by apply cwp_false; [apply mute_update|..].
Qed.

Lemma cwp_sync_send host_values fuel t w :
  content (os_ w) lpath = Some data →
  cwp (sync_send host_values fuel lpath rpath t mode false) w [] [] None (λ b _ i' o' al', confirmed b i' o' al').
Proof.
  intros Hc. unfold sync_send. rewrite Hfile, <-Hnumber. change (rpath ++ $"," ++ number) with (spec rpath number). cbv zeta.
  apply pwp_bind, wp_done; [apply sent_nil|]. cbv beta iota.
  assert (Herr : ∀ (s : bytes → bytes) w' i' o' al' Q, sent o' → (∀ w i o al, sent o → Q false w i o al) → cwp (t ← errno_text; _ ← Error (s t); Done false) w' i' o' al' Q).
  { intros s w' i' o' al' Q Ho HQ. apply pwp_bind, pwp_bind, wp_errno; [done|]. apply wp_done; [done|]. by apply cwp_false; [apply mute_update|..]. }
  apply pwp_bind, wp_try; [apply sent_nil|]. intros r s' Hs. split; [apply sent_nil|]. destruct r as [st|e]; cbn [yield]; [|by apply Herr; [apply sent_nil|]].
  pose proof (stat_size _ _ _ _ _ Hs Hc) as Hsize. pose proof (content_kept (c_stat lpath) (os_ w) lpath eq_refl) as Hc'. rewrite Hs, Hc in Hc'. cbn in Hc'.
  apply pwp_bind. assert (Hend : ∀ b w' i' o' al', sent o' → streamed b i' o' al' → cwp (if negb b then Done false else CopyDone lpath rpath) w' i' o' al' (λ b _ i' o' al', confirmed b i' o' al')).
  { intros b w' i' o' al' Ho Hst. destruct b; [|by apply wp_done]. destruct (Hst eq_refl) as [-> _]. by apply cwp_copy_done. }
  destruct (st_size st <? SYNC_DATA_MAX) eqn:Hsm.
  - apply pwp_bind. eapply pwp_mono; [by apply cwp_read_file|]. cbn beta. intros r w2 i2 o2 al2 Hi2 (-> & -> & -> & Hr).
    destruct r as [d|]; [|by apply Herr; [done|intros; apply Hend]]. rewrite (Hr d eq_refl). apply Z.ltb_lt in Hsm.
    eapply pwp_mono; [apply cwp_small; unfold small; lia|]. cbn beta. intros. by apply Hend.
  - eapply pwp_mono; [by apply cwp_large|]. cbn beta. intros. by apply Hend.
Qed.
End client.
