(* ===== verification/SyncPush.v ===== *)
(** * A push that reports success has copied the file

    The two halves of SyncSafe.v put together, and a run in memory. *)

From Stdlib Require Import ZArith Lia List Ascii String.
From stdpp Require Import base numbers list strings relations gmap.
From S2P Require Import Prelude.
From S2P Require Import Libc.
From S2P Require Import Strings.
From S2P Require Import Wire.
From S2P Require Import Process.
From S2P Require Import Files.
From S2P Require Import SyncService.
From S2P Require Import SyncClient.
From S2P Require Import MemOs.
From S2P Require Import SyncSafe.

(** ** The mode in the request *)

Lemma first_digit fuel z acc : 0 < z < 2 ^ Z.of_nat fuel → ∃ d s, digits_fuel fuel 10 z acc = digit_char d :: s ∧ 0 < d < 10.
Proof.
  revert z acc. induction fuel as [|fuel IH]; intros z acc Hz; [change (2 ^ Z.of_nat 0) with 1 in Hz; lia|]. cbn [digits_fuel].
  pose proof (Z.div_mod z 10 ltac:(lia)). pose proof (Z.mod_pos_bound z 10 ltac:(lia)). destruct (Z.eqb_spec (z / 10) 0).
  - exists (z mod 10), acc. split; [done|lia].
  - apply IH. pose proof (div_base_lt 10 ltac:(lia) z fuel ltac:(lia)). lia.
Qed.

Lemma digit_cases d : 0 < d < 10 → d ∈ [1; 2; 3; 4; 5; 6; 7; 8; 9].
Proof. intros Hd. rewrite !elem_of_cons. lia. Qed.

Lemma base_of_dec z : 0 < z → base_of (print_dec z) = 10.
Proof.
  intros Hz. rewrite print_dec_nonneg by lia. unfold numeral. destruct (first_digit (S (Z.to_nat (Z.log2 z))) z []) as (d & s & -> & Hd).
  { split; [done|]. apply numeral_fuel. lia. }
  assert (Hc : Forall (λ d, isspace (digit_char d) = false ∧ char_eqb (digit_char d) "-" = false ∧ char_eqb (digit_char d) "+" = false ∧ char_eqb (digit_char d) "0" = false) [1; 2; 3; 4; 5; 6; 7; 8; 9]).
  { repeat constructor. }
  rewrite Forall_forall in Hc. destruct (Hc d (digit_cases d Hd)) as (H1 & H2 & H3 & H4).
  unfold base_of. cbn [skip_spaces]. rewrite H1. unfold scan_sign. rewrite H2, H3. cbn [snd].
  assert (skip_0x 16 (digit_char d :: s) = digit_char d :: s) as -> by (unfold skip_0x; destruct s; [done|]; by rewrite H4, andb_false_r).
  rewrite (proj2 (Nat.ltb_ge _ _)) by done. unfold starts_with. cbn. destruct (char_eqb_spec "0" (digit_char d)) as [He|]; [|done]. rewrite <-He in H4. discriminate H4.
Qed.

Lemma strtoull_dec z : 0 < z < 2 ^ 64 → strtoull (base_of (print_dec z)) (print_dec z) = (z, [], false).
Proof.
  intros Hz. rewrite base_of_dec by lia. rewrite print_dec_nonneg by lia. pose proof (scan_int_numeral z [] ltac:(lia) eq_refl) as Hs. rewrite app_nil_r in Hs.
  unfold strtoull. by rewrite Hs, (proj2 (Z.leb_gt _ _)), u64_small by lia.
Qed.

Lemma comma_free z : 0 ≤ z → (","%char) ∉ print_dec z.
Proof.
  intros Hz. rewrite print_dec_nonneg by done. pose proof (numeral_all 10 z ltac:(lia)) as Ha. intros Hin.
  unfold all_digits in Ha. rewrite Forall_forall in Ha. by destruct (Ha _ Hin).
Qed.

(** ** Together *)

Lemma okay_head m : msg_id m = ID_OKAY → zlen m = message_size → head m = Some O_.
Proof.
  unfold msg_id, word_at. intros Hm Hl. assert (H4 : zlen (slice m 0 4) = 4).
  { unfold slice, zlen, message_size in *. rewrite length_take, length_drop. cbn. lia. }
  pose proof (le32_word_at _ H4) as Hw. rewrite Hm in Hw. destruct m as [|c m]; [done|]. cbn in Hw. cbn. injection Hw as <- _. done.
Qed.

Lemma step_alarm {St A} (c c' : config St A) a :
  step c a c' → alarm c' = alarm c ∨ (a = Sees true ∧ (∃ k, pr c = PollFd k) ∧ alarm c' = Some (default (out c) (alarm c))).
Proof. destruct 1; cbn; try by left. destruct b; [right|by left]. split_and!; [done|by eexists|done]. Qed.

Lemma head_prefix {A} (d d' : list A) x : d `prefix_of` d' → head d = Some x → head d' = Some x.
Proof. intros [k ->]. by destruct d. Qed.

Section push.
Context `{O : Os} (P : Posix O) (host_values : list Z).
Context (rpath lpath : bytes) (mode t : Z) (data : bytes) (w1 : Client) (w2 : Daemon).
Context (fuel1 fuel2 messages : nat).

(** What is asked: an ordinary file, whose path the service takes, copied to where
    nothing is in the way. *)
Record push_ok : Prop := {
  po_path : nul_free rpath;
  po_length : zlen (spec rpath (print_dec (s32 mode))) ≤ 1024;
  po_mode : 0 < mode < 2 ^ 31;
  po_file : S_ISLNK mode = false;
  po_data : content (os_ w1) lpath = Some data;
  po_target : removable P rpath (os_ w2)
}.
Context (Hok : push_ok).

Definition push_start : system Client bool Daemon unit :=
  start (sync_send host_values fuel1 lpath rpath t mode false) w1 (file_sync_service host_values fuel2 messages) w2.

Notation number := (print_dec (s32 mode)).
Definition pushing : system Client bool Daemon unit → Prop :=
  together True anything (sent rpath number) no_ask (polled rpath number) (cinv rpath number) no_ask no_poll (dinv P rpath number)
    (λ b _ i o al, confirmed rpath number data b i o al) (λ _ _ _ _ _, True).

Lemma mode_s32 : s32 mode = mode.
Proof. destruct Hok. apply s32_small. lia. Qed.

Lemma pushing_start : pushing push_start.
Proof.
  pose proof mode_s32 as Hm. destruct Hok as [Hp Hl Hmode Hfile Hd Ht]. apply together_start.
  - by apply (cwp_sync_send P).
  - assert (Hu : u32 mode = mode) by (apply u32_small; lia).
    apply (wp_service P host_values rpath number mode) with (o0 := os_ w2); [|rewrite Hm; apply comma_free; lia|done|rewrite Hm; apply strtoull_dec; lia|by rewrite Hu|done|done].
    apply nul_free_app. split; [done|]. apply nul_free_app. split; [by apply (bool_decide_unpack _)|]. rewrite Hm. apply print_dec_nul_free. lia.
Qed.

(** No answer that it has been copied can come. *)
Definition never_said (g : system Client bool Daemon unit) : Prop :=
  let heard := stream (cut1 g) (out (c2 g)) in
  head heard ≠ Some O_ ∧ (heard ≠ [] ∨ is_Some (cut1 g) ∨ ended (c2 g)).

Lemma never_said_step g g' : pushing g → never_said g → sys_step g g' → never_said g'.
Proof.
  intros Hg [Hh Hn] Hs. destruct Hs as [a c1 c1' c2 l1 l2 Hs Ha|a c1 c2 c2' l1 l2 Hs Ha|c1 c2 l l2 Hl Hl'|c1 c2 l l1 Hl Hl'].
  - by split.
  - unfold never_said in *. cbn in *. pose proof (step_ended _ _ _ Hs) as He. destruct l1 as [l1|]; cbn in *; [split; [done|right; left; by eexists]|].
    destruct Hn as [Hn|[[? [=]]|Hn]]; [|done]. destruct (step_out _ _ _ Hs) as [k ->]. destruct (out c2) as [|x o2]; [done|]. by split; [|left].
  - unfold never_said in *. cbn in *. split; [|right; left; by eexists]. intros Hl2. apply Hh. by eapply head_prefix.
  - by split.
Qed.

(** The daemon has not said that it is done before the end of the file was sent. *)
Lemma no_early_okay ds i w o :
  Forall small ds → i `prefix_of` req rpath number ++ chunks ds → dinv P rpath number w i o → head o ≠ Some O_.
Proof.
  intros Hds Hi Hd Ho. destruct Hd as [[->|Hf]|[_ (ds' & t' & rest & Hds' & -> & _)]]; [done|by rewrite Hf in Ho|].
  unfold push_stream in Hi. rewrite <-!app_assoc in Hi. apply prefix_app_inv in Hi.
  assert (Hn : chunks ds' ++ message ID_DONE t' `prefix_of` chunks ds ++ message ID_DONE t' ++ []).
  { etrans; [|apply prefix_app_r; reflexivity]. etrans; [|done]. rewrite app_assoc. by apply prefix_app_r. }
  destruct (next_message ds' ds t' [] (message ID_DONE t') Hds' Hds eq_refl Hn) as [(d & r & _ & He)|[-> _]].
  - apply (f_equal msg_id) in He. rewrite !message_id' in He by done. discriminate He.
  - rewrite <-(app_nil_r (chunks ds')) in Hi at 2. apply prefix_app_inv in Hi. by apply prefix_nil_inv in Hi.
Qed.

Definition pushing_safe (g : system Client bool Daemon unit) : Prop :=
  pushing g ∧ (alarm (c1 g) ≠ None → never_said g).

Lemma polled_never g k : pushing g → pr (c1 g) = PollFd k → (inp (c1 g) ≠ stream (cut1 g) (out (c2 g)) ∨ is_Some (cut1 g) ∨ ended (c2 g)) → never_said g.
Proof.
  intros Hg Hpr Hsee. pose proof (tg_wp1 _ _ _ _ _ _ _ _ _ _ _ _ Hg) as Hw. unfold wp1, wp_at in Hw. rewrite Hpr in Hw. destruct Hw as (_ & [Hi (ds & Hds & Ho)] & _).
  split; [|rewrite Hi in Hsee; naive_solver]. intros Hh. assert (Hh2 : head (out (c2 g)) = Some O_) by (eapply head_prefix; [apply (tg_cut1 _ _ _ _ _ _ _ _ _ _ _ _ Hg)|done]).
  revert Hh2. eapply no_early_okay; [done| |eapply (tg_inv2 _ _ _ _ _ _ _ _ _ _ _ _ Hg)].
  rewrite <-Ho. etrans; [apply (tg_inp2 _ _ _ _ _ _ _ _ _ _ _ _ Hg)|apply (tg_cut2 _ _ _ _ _ _ _ _ _ _ _ _ Hg)].
Qed.
Lemma pushing_safe_step g g' : pushing_safe g → sys_step g g' → pushing_safe g'.
Proof.
  intros [Hg Hal] Hs. split; [eapply together_step; [..|done|by split|done]; [|done]|].
  { intros w i o l Hi Hl. by eapply sent_prefix. }
  intros Ha. destruct (alarm (c1 g)) as [h|] eqn:Hal1.
  - apply (never_said_step g); [done| |done]. by apply Hal.
  - assert (Hn : never_said g → never_said g') by (intros; by eapply never_said_step).
    destruct Hs as [a c1 c1' c2 l1 l2 Hs Hall|a c1 c2 c2' l1 l2 Hs Hall|c1 c2 l l2 Hl Hl'|c1 c2 l l1 Hl Hl']; cbn in Ha, Hal1; try congruence.
    destruct (step_alarm _ _ _ Hs) as [He|(-> & [k Hk] & _)]; [congruence|]. apply Hn. by eapply polled_never.
Qed.

Lemma pushing_reachable g : rtc sys_step push_start g → pushing_safe g.
Proof.
  assert (H0 : pushing_safe push_start) by (split; [apply pushing_start|done]). intros Hr. revert H0.
  induction Hr as [|g1 g2 g3 Hs _ IH]; [done|]. intros H1. by apply IH, (pushing_safe_step g1).
Qed.

(** What the daemon has read of the whole stream. *)
Lemma read_whole ds t1 ds' t2 rest :
  Forall small ds → Forall small ds' → push_stream rpath number ds' t2 ++ rest `prefix_of` push_stream rpath number ds t1 → ds' = ds.
Proof.
  intros Hds Hds' Hp. unfold push_stream in Hp. rewrite <-!app_assoc in Hp. apply prefix_app_inv in Hp.
  assert (Hn : chunks ds' ++ message ID_DONE t2 `prefix_of` chunks ds ++ message ID_DONE t1 ++ []).
  { rewrite app_nil_r. etrans; [|done]. rewrite (app_assoc (chunks ds')). by apply prefix_app_r. }
  destruct (next_message ds' ds t1 [] (message ID_DONE t2) Hds' Hds eq_refl Hn) as [(d & r & _ & He)|[-> _]]; [|done].
  apply (f_equal msg_id) in He. rewrite !message_id' in He by done. discriminate He.
Qed.

End push.

(** ** A run *)

Definition host : mem := mem_new [($"/home", Dir); ($"/home/a.txt", File 420 77 $"contents of the file")].
Definition device : mem := mem_new [($"/data", Dir); ($"/data/a.txt", File 420 5 $"a file that was there before and is much longer")].
Definition host_client : Client := mkProc host 0 (SyncConnection_new ∅).
Definition device_daemon : Daemon := mkProc device 0 initial_buffer.

Lemma push_ok_example : push_ok mem_posix $"/data/a.txt" $"/home/a.txt" 0x81a4 $"contents of the file" host_client device_daemon.
Proof.
  constructor; [by apply (bool_decide_unpack _)|by vm_compute|done|by vm_compute|by vm_compute|]. by vm_compute.
Qed.

Definition push_run : bool * option bytes :=
  let '(p1, _, (_, s2)) :=
    run_pair 8 (sync_send wire_values 20 $"/home/a.txt" $"/data/a.txt" 77 0x81a4 false) host_client [] (file_sync_service wire_values 20 20) device_daemon [] in
  (bool_decide (result p1 = Some true), mem_content (os_ s2) $"/data/a.txt").
Example push_run_ok : push_run = (true, Some $"contents of the file").
Proof. by vm_compute. Qed.

