(* ===== verification/SyncPull.v ===== *)
(** * A pull that reports success has copied the file

    The client's [sync_recv] and the daemon's service together, on a connection
    that may be cut and systems whose calls may fail, in every interleaving. *)

From Stdlib Require Import ZArith Lia List Ascii String.
From stdpp Require Import base numbers list strings relations gmap.
From S2P Require Import Prelude.
From S2P Require Import Libc.
From S2P Require Import Strings.
From S2P Require Import Wire.
From S2P Require Import Process.
From S2P Require Import Files.
From S2P Require Import SyncService.
From S2P Require Import SyncClient.
From S2P Require Import MemOs.
From S2P Require Import SyncSafe.
From S2P Require Import SyncPush.

(** ** The streams *)

Section streams.
Context (rpath : bytes) (data : bytes).

(** The request, and what the client may have sent of it. *)
Definition pull_request : bytes := message ID_RECV (zlen rpath) ++ rpath.
Definition requested (i : bytes) : Prop := i `prefix_of` pull_request.

(** What the daemon may have sent: all of the contents and that it is done, or
    some contents and that it failed. *)
Definition served (o : bytes) : Prop :=
  ∃ ds e rest, Forall small ds ∧ length e = 8%nat ∧ o `prefix_of` chunks ds ++ e ++ rest ∧
    (msg_id e = ID_FAIL ∨ msg_id e = ID_DONE ∧ concat ds = data).

Lemma served_prefix o o' : o `prefix_of` o' → served o' → served o.
Proof. intros Hp (ds & e & rest & Hds & He & Hp' & Hc). exists ds, e, rest. split_and!; try done. by etrans. Qed.
Lemma served_fail ds n rest : Forall small ds → 0 ≤ n → served (chunks ds ++ message ID_FAIL n ++ rest).
Proof. intros Hds Hn. exists ds, (message ID_FAIL n), rest. split_and!; try done. left. by apply message_id'. Qed.
Lemma served_done ds rest : Forall small ds → concat ds = data → served (chunks ds ++ message ID_DONE 0 ++ rest).
Proof. intros Hds Hd. exists ds, (message ID_DONE 0), rest. split_and!; try done. right. by rewrite message_id'. Qed.
Lemma served_chunks ds : Forall small ds → served (chunks ds).
Proof. intros Hds. eapply served_prefix; [|by apply (served_fail ds 0 [])]. by apply prefix_app_r. Qed.
Lemma served_nil : served [].
Proof. by apply (served_chunks []). Qed.

(** What comes behind contents that have been received. *)
Lemma served_next ds m :
  Forall small ds → length m = 8%nat → served (chunks ds ++ m) →
  (∃ d, small d ∧ m = message ID_DATA (zlen d)) ∨ msg_id m = ID_FAIL ∨ (msg_id m = ID_DONE ∧ concat ds = data).
Proof.
  intros Hds Hm (ds' & e & rest & Hds' & He & Hp & Hc). assert (Hid : msg_id e ≠ ID_DATA) by (destruct Hc as [-> |[-> _]]; done).
  destruct (next_message_end ds ds' e rest m Hds Hds' Hm He Hid Hp) as [(d & r & -> & ->)|[-> ->]]; [left|by right].
  exists d. split; [|done]. apply Forall_app in Hds' as [_ Hds']. by apply Forall_cons in Hds' as [? _].
Qed.
End streams.

(** ** The daemon *)

Section daemon.
Context `{O : Os} (P : Posix O) (host_values : list Z).
Context (rpath data : bytes) (Hpath : nul_free rpath) (Hlen : zlen rpath ≤ 1024).

Definition pull_dinv (w : Daemon) (i o : bytes) : Prop := served data o.
Definition pdwp {A} (p : prog Daemon A) w i o al Q : Prop := wp (requested rpath) True no_ask no_poll pull_dinv p w i o al Q.

(** A failure is said behind contents, or when all has been sent. *)
Definition may_say (o x : bytes) : Prop := ∀ y, y `prefix_of` x → served data (o ++ y).
Lemma may_say_fail ds n rest : Forall small ds → 0 ≤ n → may_say (chunks ds) (message ID_FAIL n ++ rest).
Proof. intros Hds Hn y Hy. eapply served_prefix; [by apply prefix_app|]. by apply served_fail. Qed.
Lemma may_say_chunk ds d : Forall small ds → small d → may_say (chunks ds) (message ID_DATA (zlen d) ++ d).
Proof.
  intros Hds Hd y Hy. eapply served_prefix; [by apply prefix_app|]. rewrite <-chunks_snoc. apply served_chunks.
  apply Forall_app_2; [done|by apply Forall_singleton].
Qed.
Lemma may_say_end ds rest : Forall small ds → concat ds = data → may_say (chunks ds) (message ID_DONE 0 ++ rest).
Proof. intros Hds Hd y Hy. eapply served_prefix; [by apply prefix_app|]. by apply served_done. Qed.
Lemma may_say_nil o x : may_say o x → served data o.
Proof. intros Hm. rewrite <-(app_nil_r o). apply Hm, prefix_nil. Qed.
Lemma may_say_all o x : may_say o x → served data (o ++ x).
Proof. intros Hm. by apply Hm. Qed.

(** One message in two writes. *)
Lemma wp_say x y w i o al (Q : bool → _) :
  may_say o (x ++ y) → (∀ b w' o', served data o' → (b = true → w' = w ∧ o' = o ++ x ++ y) → Q b w' i o' al) →
  pdwp (WriteFdExactly x) w i o al (λ b w' i' o' al', pdwp (if b : bool then WriteFdExactly y else Done false) w' i' o' al' Q).
Proof.
  intros Hm HQ. assert (Hx : ∀ x', x' `prefix_of` x → served data (o ++ x')) by (intros x' Hx; apply Hm; etrans; [done|by apply prefix_app_r]).
  assert (Hy : ∀ y', y' `prefix_of` y → served data ((o ++ x) ++ y')) by (intros y' Hy; rewrite <-app_assoc; apply Hm; by apply prefix_app).
  assert (Ho : served data o) by by eapply may_say_nil.
  apply wp_write; [done|by apply Hx|..].
  - apply wp_write; [by apply Hx|by apply Hy|apply HQ; [by apply Hy|by rewrite <-app_assoc]|]. intros _ d' e Hd. split_and!; [by apply Hy..|].
    apply HQ; [by apply Hy|done].
  - intros _ d' e Hd. split_and!; [by apply Hx..|]. apply wp_done; [by apply Hx|]. apply HQ; [by apply Hx|done].
Qed.
Lemma wp_say_fail reason w i o al (Q : bool → _) :
  (∀ n, 0 ≤ n → may_say o (message ID_FAIL n ++ reason)) → (∀ b w' o', served data o' → Q b w' i o' al) → pdwp (SendSyncFail reason) w i o al Q.
Proof. intros Hm HQ. apply pwp_bind, wp_say; [apply Hm; apply zlen_nonneg|]. intros b w' o' Ho _. by apply HQ. Qed.
Lemma wp_do_any {A} (c : call (A + Z)) w i o al (Q : unit → _) :
  served data o → (∀ w', Q tt w' i o al) → pdwp (do_ c) w i o al Q.
Proof. intros Ho HQ. apply pwp_bind, wp_try; [done|]. intros r s' _. split; [done|]. by apply wp_done. Qed.

(** Everything of the file, and that it is done. *)
Definition all_served (o : bytes) : Prop := ∃ ds, Forall small ds ∧ concat ds = data ∧ o = chunks ds ++ message ID_DONE 0.

Lemma wp_close_false {A} (c : call (A + Z)) w i o al (Q : bool → _) :
  served data o → (∀ w', Q false w' i o al) → pdwp (_ ← do_ c; Done false) w i o al Q.
Proof. intros Ho HQ. apply pwp_bind, wp_do_any; [done|]. intros w'. by apply wp_done. Qed.

Lemma wp_send_data fuel fd ds rest w i al :
  Forall small ds → concat ds ++ rest = data → reader (os_ w) fd rest →
  pdwp (send_data fuel fd) w i (chunks ds) al (λ b _ i' o' _, i' = i ∧ served data o' ∧ (b = true → all_served o')).
Proof.
  revert ds rest w. induction fuel as [|fuel IH]; intros ds rest w Hds Hd Hr; cbn [send_data]; [split; [by apply served_chunks|done]|].
  assert (Hok : served data (chunks ds)) by by apply served_chunks.
  apply pwp_bind, wp_try; [done|]. intros r s' Hs. split; [done|]. destruct r as [d|e]; cbn [yield].
  2: { apply pwp_bind, pwp_bind, wp_errno; [done|]. apply wp_say_fail; [intros; by apply may_say_fail|]. intros b w2 o2 Ho2. by apply wp_close_false. }
  destruct (read_reader _ _ _ _ _ _ Hr Hs eq_refl) as (rest' & -> & Hr' & Hdl & Hend). destruct d as [|c d].
  { apply pwp_bind, wp_do_any; [done|]. intros w2. rewrite (Hend eq_refl), app_nil_r in Hd.
    assert (Hm : may_say (chunks ds) (message ID_DONE 0)) by (rewrite <-(app_nil_r (message _ _)); by apply may_say_end).
    apply wp_write; [done|by apply may_say_all|..].
    - split_and!; [done|by apply may_say_all|]. intros _. by exists ds.
    - intros _ d' e Hp. split_and!; [by apply Hm..|done|by apply Hm|done]. }
  set (x := c :: d) in *. assert (Hx : small x) by (unfold small, SYNC_DATA_MAX, message_size in *; lia).
  apply pwp_bind, wp_update; [done..|].
  apply pwp_bind. eapply pwp_mono; [apply (wp_say _ x); [by apply may_say_chunk|]|].
  2: { cbn beta. intros b w2 i2 o2 al2 _ Hw. apply pwp_bind. exact Hw. }
  intros b w2 o2 Ho2 Hb. destruct b; cbn [negb]; [|by apply wp_close_false]. destruct (Hb eq_refl) as [-> ->]. rewrite <-chunks_snoc. apply (IH _ rest'); [| |done].
  - apply Forall_app_2; [done|by apply Forall_singleton].
  - rewrite concat_app. cbn [concat]. by rewrite app_nil_r, <-app_assoc.
Qed.

(** *** Commands *)

Definition recv_done (b : bool) (i o : bytes) : Prop := b = true → i = pull_request rpath ∧ all_served o.

Lemma wp_recv_command fuel w al :
  content (os_ w) rpath = Some data → pdwp (handle_sync_command host_values fuel) w [] [] al (λ b _ i' o' _, served data o' ∧ recv_done b i' o').
Proof.
  intros Hc. assert (H0 : served data []) by apply served_nil. unfold handle_sync_command.
  assert (Hfail : ∀ reason w i al, pdwp (_ ← SendSyncFail reason; Done false) w i [] al (λ b _ i' o' _, served data o' ∧ recv_done b i' o')).
  { intros reason w' i' al'. apply pwp_bind, wp_say_fail; [intros n Hn; by apply (may_say_fail [] n)|]. intros b w2 o2 Ho2. apply wp_done; [done|]. by split. }
  apply pwp_bind, wp_read; [done|done|..].
  2: { intros _ d _ _. split; [done|]. apply Hfail. }
  cbn [app]. intros m Hm Hreq. split; [done|]. unfold requested, pull_request in Hreq. apply prefix_same in Hreq; [|done]. subst m.
  pose proof (zlen_nonneg rpath) as Hnn. rewrite message_id', message_arg' by (done || lia). rewrite (proj2 (Z.ltb_ge _ _)) by done.
  apply pwp_bind, wp_read; [done|done|..].
  2: { intros _ d _ _. split; [done|]. apply Hfail. }
  intros d Hd Hreq. split; [done|]. unfold requested, pull_request in Hreq. apply prefix_app_inv in Hreq.
  assert (d = rpath) as -> by (apply (prefix_same d rpath []); [by rewrite app_nil_r|lia]). rewrite c_str_id by done. cbv zeta.
  change (pdwp (do_recv fuel rpath) w (pull_request rpath) [] al (λ b _ i' o' _, served data o' ∧ recv_done b i' o')).
  unfold do_recv. apply pwp_bind, wp_try; [done|]. intros r s' Hs. split; [done|]. destruct r as [fd|e]; cbn [yield].
  - pose proof (open_reader _ _ _ _ _ _ _ Hs eq_refl eq_refl Hc) as Hr. eapply pwp_mono; [by apply (wp_send_data fuel fd [] data)|]. cbn beta.
    intros b w2 i2 o2 al2 _ (-> & Ho2 & Hb). split; [done|]. intros Ht. split; [done|by apply Hb].
  - apply pwp_bind, pwp_bind, wp_errno; [done|]. apply wp_say_fail; [intros n Hn; by apply (may_say_fail [] n)|]. intros b w2 o2 Ho2. apply wp_done; [done|]. by split.
Qed.

Lemma wp_pull_service fuel messages w :
  content (os_ w) rpath = Some data → pdwp (file_sync_service host_values fuel messages) w [] [] None (λ _ _ _ _ _, True).
Proof.
  intros Hc. destruct fuel as [|fuel]; [split; [apply served_nil|done]|]. cbn [file_sync_service]. apply pwp_bind.
  eapply pwp_mono; [by apply wp_recv_command|]. cbn beta. intros b w2 i2 o2 al2 Hi2 [Ho2 Hb]. destruct b; [|by apply wp_done].
  destruct (Hb eq_refl) as (-> & ds & Hds & Hd & ->). destruct fuel as [|fuel]; [by split|]. cbn [file_sync_service]. apply pwp_bind. unfold handle_sync_command.
  apply pwp_bind, wp_read; [done|done|..].
  - intros m Hm [k Hk]. rewrite <-app_assoc in Hk. rewrite <-(app_nil_r (pull_request rpath)) in Hk at 1. apply app_inv_head in Hk. destruct m; [|done]. done.
  - intros _ m _ _. split; [done|]. apply pwp_bind, wp_say_fail.
    + intros n Hn y Hy. rewrite <-app_assoc. apply (may_say_end ds (message ID_FAIL n ++ $"command read failure")); [done..|]. apply prefix_app, Hy.
    + intros b w3 o3 Ho3. apply wp_done; [done|]. by apply wp_done.
Qed.
End daemon.

(** ** The client *)

Section client.
Context `{O : Os} (P : Posix O).
Context (rpath lpath data : bytes) (Hlen : zlen rpath ≤ 1024).

Definition pull_cinv (w : Client) (i o : bytes) : Prop := requested rpath o.
Definition pcwp {A} (p : prog Client A) w i o al Q : Prop := wp (served data) True no_ask no_poll pull_cinv p w i o al Q.

(** Programs whose result is [false] and that send nothing. *)
Definition gives_up (p : prog Client bool) : Prop := ∀ w i o al, requested rpath o → pcwp p w i o al (λ b _ _ o' _, o' = o ∧ b = false).
Definition silent {A} (p : prog Client A) : Prop := ∀ w i o al, requested rpath o → pcwp p w i o al (λ _ _ _ o' _, o' = o).
Lemma silent_bind {A B} (p : prog Client A) (f : A → prog Client B) : silent p → (∀ a, silent (f a)) → silent (p ≫= f).
Proof. intros Hp Hf w i o al Ho. apply pwp_bind. eapply pwp_mono; [by apply Hp|]. cbn beta. intros a w1 i1 o1 al1 _ ->. by apply Hf. Qed.
Lemma silent_done {A} (a : A) : silent (Done a).
Proof. intros w i o al Ho. by apply wp_done. Qed.
Lemma silent_try {A} (c : call (A + Z)) : silent (try_ c).
Proof. intros w i o al Ho. apply wp_try; [done|]. by intros. Qed.
Lemma silent_do {A} (c : call (A + Z)) : silent (do_ c).
Proof. apply silent_bind; [apply silent_try|]. intros. apply silent_done. Qed.
Lemma silent_update f : silent (update f).
Proof. intros w i o al Ho. by apply wp_update. Qed.
Lemma silent_text : silent errno_text.
Proof. apply silent_bind; [|intros; apply silent_done]. intros w i o al Ho. by apply wp_errno. Qed.
Lemma silent_report from to n : silent (ReportCopyFailure from to n).
Proof.
  intros w i o al Ho. unfold ReportCopyFailure. destruct (_ =? 0); [by split|]. apply pwp_bind, wp_read; [done|done|..].
  - intros d _ _. split; [done|]. apply silent_bind; [apply silent_update|intros; apply silent_done|done].
  - intros _ d _ _. split; [done|]. apply silent_bind; [apply silent_text| |done]. intros. apply silent_bind; [apply silent_update|intros; apply silent_done].
Qed.
Lemma gives_up_after {A} (p : prog Client A) q : silent p → gives_up q → gives_up (_ ← p; q).
Proof. intros Hp Hq w i o al Ho. apply pwp_bind. eapply pwp_mono; [by apply Hp|]. cbn beta. intros a w1 i1 o1 al1 _ ->. by apply Hq. Qed.
Lemma gives_up_false : gives_up (Done false).
Proof. intros w i o al Ho. by apply wp_done. Qed.

(** *** The contents *)

Definition written (r : SyncClient.chunks) (w : Client) (o : bytes) (lfd : Z) : Prop :=
  o = pull_request rpath ∧ match r with Complete => writer (os_ w) lfd lpath data [] | _ => True end.

Lemma requested_all : requested rpath (pull_request rpath).
Proof. unfold requested. reflexivity. Qed.
Lemma pull_cinv_all w i : pull_cinv w i (pull_request rpath).
Proof. apply requested_all. Qed.
Hint Resolve requested_all pull_cinv_all : core.

Lemma pcwp_silent {A} (p : prog Client A) w i al (Q : A → _) :
  silent p → (∀ a w' i' al', Q a w' i' (pull_request rpath) al') → pcwp p w i (pull_request rpath) al Q.
Proof. intros Hp HQ. eapply pwp_mono; [by apply Hp|]. cbn beta. by intros a w1 i1 o1 al1 _ ->. Qed.

Lemma pcwp_receive fuel lfd ds w al :
  Forall small ds → writer (os_ w) lfd lpath (concat ds) [] →
  pcwp (receive_chunks fuel rpath lpath lfd) w (SyncSafe.chunks ds) (pull_request rpath) al (λ r w' _ o' _, written r w' o' lfd).
Proof.
  revert ds w al. induction fuel as [|fuel IH]; intros ds w al Hds Hw; cbn [receive_chunks]; [by split|].
  assert (Hbroken : ∀ (p : prog Client unit) w i al, silent p → pcwp (_ ← p; Done Broken) w i (pull_request rpath) al (λ r w' _ o' _, written r w' o' lfd)).
  { intros p w' i' al' Hp. apply pwp_bind, pcwp_silent; [done|]. intros. apply wp_done; [done|]. by split. }
  apply pwp_bind, wp_read; [done|done|..].
  2: { intros _ d _ _. split; [done|]. apply wp_done; [done|]. by split. }
  intros m Hm Hserved. split; [done|]. assert (Hm8 : length m = 8%nat) by (unfold zlen, message_size in Hm; lia).
  destruct (served_next data ds m Hds Hm8 Hserved) as [(d & Hd & ->)|[Hid|[Hid Hall]]].
  - rewrite message_id', message_arg' by (done || by apply small_range). change (ID_DATA =? ID_DONE) with false. rewrite Z.eqb_refl. cbn [negb].
    rewrite (proj2 (Z.ltb_ge _ _)) by done. apply pwp_bind, wp_read; [done|done|..].
    2: { intros _ x _ _. split; [done|]. apply wp_done; [done|]. by split. }
    intros x Hx _. split; [done|]. rewrite <-app_assoc. assert (Hxd : zlen x = zlen d) by (rewrite Hx; pose proof (zlen_nonneg d); lia).
    rewrite <-Hxd, <-chunks_snoc. assert (Hdx : Forall small (ds ++ [x])) by (apply Forall_app_2; [done|apply Forall_singleton; unfold small in *; lia]).
    apply pwp_bind. eapply pwp_mono; [by apply (wp_write_file P)|]. cbn beta. intros b w2 i2 o2 al2 _ (-> & -> & -> & Hb). destruct b; cbn [negb].
    + apply pwp_bind, wp_update; [done..|]. apply IH; [done|]. rewrite concat_app. cbn [concat]. rewrite app_nil_r. by apply Hb.
    + apply pwp_bind, pcwp_silent; [apply silent_text|]. intros. apply Hbroken, silent_update.
  - rewrite Hid. change (ID_FAIL =? ID_DONE) with false. change (negb (ID_FAIL =? ID_DATA)) with true. cbv iota.
    apply pwp_bind, pcwp_silent; [apply silent_do|]. intros. apply pwp_bind, pcwp_silent; [apply silent_do|]. intros.
    apply pwp_bind, pcwp_silent; [apply silent_report|]. intros. apply wp_done; [done|]. by split.
  - rewrite Hid, Z.eqb_refl. apply wp_done; [done|]. split; [done|]. by rewrite <-Hall.
Qed.

Lemma pcwp_sync_recv fuel w :
  pcwp (sync_recv fuel rpath lpath) w [] [] None (λ b w' _ _ _, b = true → content (os_ w') lpath = Some data).
Proof.
  unfold sync_recv. assert (H0 : requested rpath []) by apply prefix_nil.
  assert (Hfalse : ∀ w i o al, requested rpath o → pcwp (Done false) w i o al (λ b w' _ _ _, b = true → content (os_ w') lpath = Some data)) by (intros; by apply wp_done).
  apply pwp_bind. unfold SendRequest. rewrite (proj2 (Z.ltb_ge _ _)) by done. apply wp_write; [done|done|..].
  2: { intros _ d' e Hd. by split_and!; [..|apply Hfalse]. }
  cbn [negb app]. change (message ID_RECV (zlen rpath) ++ rpath) with (pull_request rpath).
  unfold do_ at 1. apply pwp_bind, pwp_bind, wp_try; [done|]. intros r0 s0 _. split; [done|]. apply wp_done; [done|].
  apply pwp_bind, wp_try; [done|]. intros r s' Hs. split; [done|]. destruct r as [lfd|e]; cbn [yield].
  2: { apply pwp_bind, pcwp_silent; [apply silent_text|]. intros. apply pwp_bind, pcwp_silent; [apply silent_update|]. intros. by apply Hfalse. }
  pose proof (open_truncated _ _ _ _ _ _ Hs eq_refl eq_refl) as Hw. apply pwp_bind. eapply pwp_mono; [by apply (pcwp_receive fuel lfd [] (after _ (inl lfd) s'))|]. cbn beta.
  intros q w2 i2 o2 al2 _ [-> Hq]. destruct q.
  - apply pwp_bind, wp_update; [done..|]. apply pwp_bind. unfold do_. apply pwp_bind, wp_try; [done|]. intros r2 s2 Hs2. split; [done|]. apply wp_done; [done|].
    apply wp_done; [done|]. intros _. pose proof (close_writer _ _ _ _ _ Hq) as Hc. cbn in Hs2 |- *. rewrite Hs2, drop_nil, app_nil_r in Hc. done.
  - apply pwp_bind, pcwp_silent; [apply silent_do|]. intros. apply pwp_bind, pcwp_silent; [apply silent_do|]. intros. by apply Hfalse.
  - by apply Hfalse.
Qed.
End client.

(** ** Together *)

Section pull.
Context `{O : Os} (P : Posix O) (host_values : list Z).
Context (rpath lpath data : bytes) (w1 : Client) (w2 : Daemon) (fuel1 fuel2 messages : nat).

Definition pull_start : system Client bool Daemon unit :=
  start (sync_recv fuel1 rpath lpath) w1 (file_sync_service host_values fuel2 messages) w2.

Record pull_ok : Prop := {
  pl_path : nul_free rpath;
  pl_length : zlen rpath ≤ 1024;
  pl_data : content (os_ w2) rpath = Some data
}.

(** C6: A pull that reports success has copied the file: on every interleaving of
    the client's [sync_recv] with the daemon's [file_sync_service], whatever is
    cut, whichever calls of either system fail and however short its reads and
    writes are, when [sync_recv] has returned [true] the local file has the
    contents of the one on the device. *)
Theorem pull_safe g :
  pull_ok → rtc sys_step pull_start g → result (pr (c1 g)) = Some true → content (os_ (st (c1 g))) lpath = Some data.
Proof.
  intros [Hp Hl Hd] Hr Hres.
  assert (Hg : together True (served data) (requested rpath) no_ask no_poll (pull_cinv rpath) no_ask no_poll (pull_dinv data)
    (λ b w _ _ _, b = true → content (os_ w) lpath = Some data) (λ _ _ _ _ _, True) g).
  { eapply together_reachable; [| |done|by apply together_start; [apply (pcwp_sync_recv P)|by apply (wp_pull_service P)]|done].
    - intros s0 i0 o l Ho Hlo. unfold requested. etrans; [exact Hlo|exact Ho].
    - intros s0 i0 o l Ho Hlo. by eapply served_prefix. }
  pose proof (tg_wp1 _ _ _ _ _ _ _ _ _ _ _ _ Hg) as Hw. unfold wp1, wp_at in Hw. destruct (pr (c1 g)) as [b| | | | | | |]; simplify_eq/=.
  by apply Hw.
Qed.
End pull.

Definition pull_device : mem := mem_new [($"/data", Dir); ($"/data/a.txt", File 420 5 $"contents of the file")].
Definition pull_host : Client := mkProc (mem_new [($"/home", Dir); ($"/home/a.txt", File 420 5 $"another file, which is longer")]) 0 (SyncConnection_new ∅).
Definition pull_daemon : Daemon := mkProc pull_device 0 initial_buffer.

Lemma pull_ok_example : pull_ok mem_posix $"/data/a.txt" $"contents of the file" pull_daemon.
Proof. constructor; [by apply (bool_decide_unpack _)|by vm_compute|by vm_compute]. Qed.

Definition pull_run : bool * option bytes :=
  let '(p1, s1, _) := run_pair 8 (sync_recv 20 $"/data/a.txt" $"/home/a.txt") pull_host [] (file_sync_service wire_values 20 20) pull_daemon [] in
  (bool_decide (result p1 = Some true), mem_content (os_ s1) $"/home/a.txt").
Example pull_run_ok : pull_run = (true, Some $"contents of the file").
Proof. by vm_compute. Qed.

Lemma pull_safe_witness :
  ∃ g, rtc sys_step (pull_start wire_values $"/data/a.txt" $"/home/a.txt" pull_host pull_daemon 20 20 20) g ∧
    result (pr (c1 g)) = Some true ∧ mem_content (os_ (st (c1 g))) $"/home/a.txt" = Some $"contents of the file".
Proof.
  pose proof (run_reachable 8 (sync_recv 20 $"/data/a.txt" $"/home/a.txt") pull_host (file_sync_service wire_values 20 20) pull_daemon) as Hr.
  pose proof pull_run_ok as Ho. unfold pull_run in Ho. destruct (run_pair _ _ _ _ _ _ _) as [[p1 s1] [p2 s2]].
  destruct Hr as (g & Hr & Hp1 & _ & _ & _). injection Ho as Ho _. apply bool_decide_eq_true in Ho. exists g. rewrite Hp1. split; [done|]. split; [done|].
  apply (pull_safe mem_posix wire_values $"/data/a.txt" $"/home/a.txt" $"contents of the file" pull_host pull_daemon 20 20 20 g pull_ok_example Hr).
  by rewrite Hp1.
Defined.
