(* ===== verification/SyncScenarios.v ===== *)
(** * Transfers in memory

    Whole commands of the client against the daemon, on the systems of MemOs.v:
    what works, and what a directory, an extension or a file in the way lead to. *)

From Stdlib Require Import ZArith Lia List Ascii String.
From stdpp Require Import base numbers list strings relations gmap.
From S2P Require Import Prelude.
From S2P Require Import Libc.
From S2P Require Import Strings.
From S2P Require Import Wire.
From S2P Require Import Transport.
From S2P Require Import Process.
From S2P Require Import Files.
From S2P Require Import SyncService.
From S2P Require Import SyncClient.
From S2P Require Import MemOs.

(** ** Paths that end with a separator *)

Lemma split_last_end c s : split_last c (s ++ [c]) = Some (s ++ [c], []).
Proof. induction s as [|x s IH]; cbn; [by rewrite char_eqb_refl|by rewrite IH]. Qed.

(** The directory of a path with a separator at its end is the path itself. *)
Lemma Dirname_separator path : last path = Some OS_PATH_SEPARATOR → Dirname path = path.
Proof. intros (s & ->)%last_Some. unfold Dirname, OS_PATH_SEPARATOR. by rewrite split_last_end. Qed.

Lemma with_separator_last path : last (with_separator path) = Some OS_PATH_SEPARATOR.
Proof. unfold with_separator. case_bool_decide; [done|by rewrite last_snoc]. Qed.

(** A list of the directories above another than the root is never finished. *)
Lemma directory_chain_stuck fuel path l : with_separator path ≠ $"/" → directory_chain fuel (with_separator path) l = None.
Proof.
  intros Hp. revert l. induction fuel as [|fuel IH]; intros l; cbn [directory_chain]; rewrite bool_decide_eq_false_2 by done; [done|].
  by rewrite Dirname_separator by apply with_separator_last.
Qed.

(** A directory that is not there cannot be made: its path is given with the separator. *)
Lemma mkdirs_separator `{Os} fuel path :
  last path = Some OS_PATH_SEPARATOR →
  mkdirs (S fuel) path = (e ← try_ (c_exists path); if default false e then Done true else _ ← set_errno ENOENT; Done false).
Proof. intros Hp. cbn [mkdirs]. rewrite bool_decide_eq_true_2 by by apply Dirname_separator. done. Qed.

(** ** Runs *)

Definition a_client : SyncConnection := SyncConnection_new {[kFeatureStat2]}.
(** The result of a command, the file on each side and what was printed; [None]:
    it is not over. *)
Definition run {A} (command : prog (proc SyncConnection) A) (host device : mem) : option A * mem * mem * list bytes :=
  let '(p1, s1, (_, s2)) :=
    run_pair 40 command (mkProc host 0 a_client) [] (file_sync_service wire_values 20 20) (mkProc device 0 initial_buffer) [] in
  (result p1, os_ s1, os_ s2, printed (own_ s1)).
Definition names (m : mem) : list bytes := (map_to_list (nodes m)).*1.

Definition some_host : mem := mem_new [($"/home", Dir); ($"/home/a.txt", File 420 77 $"text"); ($"/home/d", Dir); ($"/home/d/b", File 420 77 $"inner")].
Definition some_device : mem := mem_new [($"/data", Dir); ($"/data/x.txt", File 420 5 $"remote"); ($"/data/d", Dir); ($"/data/d/y", File 420 5 $"inner")].

(** A file to a name. *)
Example push_to_name :
  let '(r, _, device, _) := run (do_sync_push wire_values 20 [$"/home/a.txt"] $"/data/new.txt" false) some_host some_device in
  r = Some true ∧ mem_content device $"/data/new.txt" = Some $"text".
Proof. by vm_compute. Qed.

(** A file into a directory loses its extension. *)
Example push_into_directory :
  let '(r, _, device, _) := run (do_sync_push wire_values 20 [$"/home/a.txt"] $"/data" false) some_host some_device in
  r = Some true ∧ mem_content device $"/data/a" = Some $"text" ∧ mem_content device $"/data/a.txt" = None.
Proof. by vm_compute. Qed.

(** A directory: the list of those above it is never finished. *)
Example push_directory :
  let '(r, _, _, _) := run (do_sync_push wire_values 20 [$"/home/d"] $"/data/e" false) some_host some_device in r = None.
Proof. by vm_compute. Qed.

Example pull_into_directory :
  let '(r, host, _, _) := run (do_sync_pull wire_values 20 [$"/data/x.txt"] $"/home" false) some_host some_device in
  r = Some true ∧ mem_content host $"/home/x" = Some $"remote".
Proof. by vm_compute. Qed.

(** The directory of a relative name is empty, which is not a path. *)
Example pull_to_relative_name :
  let '(r, host, _, printed) := run (do_sync_pull wire_values 20 [$"/data/x.txt"] $"x.txt" false) some_host some_device in
  r = Some false ∧ printed = [$"adb: error: cannot create file/directory 'x.txt': error 2"].
Proof. by vm_compute. Qed.

(** A directory to one that is not there. *)
Example pull_directory :
  let '(r, host, _, printed) := run (do_sync_pull wire_values 20 [$"/data/d"] $"/home/new" false) some_host some_device in
  r = Some false ∧ printed = [$"adb: error: failed to create directory '/home/new/': error 2"].
Proof. by vm_compute. Qed.

(** A file that cannot be removed but written: without O_TRUNC its end stays, and
    the push reports success. *)
Definition sealed_device : mem :=
  let m := mem_new [($"/data", Dir); ($"/data/x.txt", File 438 5 $"remote, longer")] in mkMem (nodes m) (fds m) (next_fd m) [$"/data"].
Example push_keeps_tail :
  let '(r, _, device, _) := run (do_sync_push wire_values 20 [$"/home/a.txt"] $"/data/x.txt" false) some_host sealed_device in
  r = Some true ∧ mem_content device $"/data/x.txt" = Some $"textte, longer".
Proof. by vm_compute. Qed.

(** A link whose target comes without its NUL ends where the last contents did. *)
Definition send_raw (id : Z) (spec d : bytes) : prog (proc SyncConnection) (option bytes) :=
  _ ← WriteFdExactly (message id (zlen spec) ++ spec ++ message ID_DATA (zlen d) ++ d ++ message ID_DONE 0);
  ReadFdExactly message_size.
Example link_to_old_contents :
  let '(r, _, device, _) :=
    run (_ ← send_raw ID_SEND $"/data/f,33188" $"old contents"; send_raw ID_SEND $"/data/l,41471" $"new") some_host some_device in
  r = Some (Some (message ID_OKAY 0)) ∧ lookup_node $"/data/l" device = Some (Link $"new contents").
Proof. by vm_compute. Qed.

(** The length of a reason is not checked: with the largest one nothing is allocated. *)
Lemma reason_overflow `{Os} from to : ReportCopyFailure from to (2 ^ 32 - 1) = Exit "write past the end of the buffer".
Proof. done. Qed.
