(* ===== verification/LogFilter.v ===== *)
(** * Formats and filters of the log
    (src/lib/liblog/logprint.c, src/include/log/logprint.h, src/include/android/log.h)

    Which lines are printed, and how: the priorities, the format with its
    modifiers, and the rules of a filter string such as "ActivityManager:I *:S". *)

From Stdlib Require Import ZArith Lia List Ascii String.
From stdpp Require Import base numbers list strings gmap.
From S2P Require Import Prelude.
From S2P Require Import Libc.
From S2P Require Import Strings.

(** ** Priorities *)

Definition ANDROID_LOG_UNKNOWN : Z := 0.
Definition ANDROID_LOG_DEFAULT : Z := 1.
Definition ANDROID_LOG_VERBOSE : Z := 2.
Definition ANDROID_LOG_DEBUG : Z := 3.
Definition ANDROID_LOG_INFO : Z := 4.
Definition ANDROID_LOG_WARN : Z := 5.
Definition ANDROID_LOG_ERROR : Z := 6.
Definition ANDROID_LOG_FATAL : Z := 7.
Definition ANDROID_LOG_SILENT : Z := 8.

Definition filterCharToPri (c : ascii) : Z :=
  let c := tolower c in
  if (48 <=? schar c) && (schar c <=? 57) then
    if 48 + ANDROID_LOG_SILENT <=? schar c then ANDROID_LOG_VERBOSE else schar c - 48
  else if char_eqb c "v" then ANDROID_LOG_VERBOSE
  else if char_eqb c "d" then ANDROID_LOG_DEBUG
  else if char_eqb c "i" then ANDROID_LOG_INFO
  else if char_eqb c "w" then ANDROID_LOG_WARN
  else if char_eqb c "e" then ANDROID_LOG_ERROR
  else if char_eqb c "f" then ANDROID_LOG_FATAL
  else if char_eqb c "s" then ANDROID_LOG_SILENT
  else if char_eqb c "*" then ANDROID_LOG_DEFAULT
  else ANDROID_LOG_UNKNOWN.

Definition filterPriToChar (pri : Z) : ascii :=
  if pri =? ANDROID_LOG_VERBOSE then "V"
  else if pri =? ANDROID_LOG_DEBUG then "D"
  else if pri =? ANDROID_LOG_INFO then "I"
  else if pri =? ANDROID_LOG_WARN then "W"
  else if pri =? ANDROID_LOG_ERROR then "E"
  else if pri =? ANDROID_LOG_FATAL then "F"
  else if pri =? ANDROID_LOG_SILENT then "S"
  else "?".

Definition colorFromPri (pri : Z) : Z :=
  if pri =? ANDROID_LOG_VERBOSE then 231
  else if pri =? ANDROID_LOG_DEBUG then 75
  else if pri =? ANDROID_LOG_INFO then 40
  else if pri =? ANDROID_LOG_WARN then 166
  else if pri =? ANDROID_LOG_ERROR then 196
  else if pri =? ANDROID_LOG_FATAL then 196
  else 231.

(** ** The format *)

Inductive AndroidLogPrintFormat :=
| FORMAT_OFF | FORMAT_BRIEF | FORMAT_PROCESS | FORMAT_TAG | FORMAT_THREAD | FORMAT_RAW | FORMAT_TIME | FORMAT_THREADTIME | FORMAT_LONG
| FORMAT_MODIFIER_COLOR | FORMAT_MODIFIER_TIME_USEC | FORMAT_MODIFIER_PRINTABLE | FORMAT_MODIFIER_YEAR | FORMAT_MODIFIER_ZONE
| FORMAT_MODIFIER_EPOCH | FORMAT_MODIFIER_MONOTONIC | FORMAT_MODIFIER_UID.

Record AndroidLogFormat := mkFormat {
  global_pri : Z;
  filters : list (bytes * Z);
  format : AndroidLogPrintFormat;
  colored_output : bool;
  usec_time_output : bool;
  printable_output : bool;
  year_output : bool;
  zone_output : bool;
  epoch_output : bool;
  monotonic_output : bool;
  uid_output : bool
}.

(** [monotonic]: the clock of the log is CLOCK_MONOTONIC. *)
Definition android_log_format_new (monotonic : bool) : AndroidLogFormat :=
  mkFormat ANDROID_LOG_VERBOSE [] FORMAT_BRIEF false false false false false false monotonic false.

Definition set_global_pri (v : Z) (f : AndroidLogFormat) : AndroidLogFormat :=
  mkFormat v (filters f) (format f) (colored_output f) (usec_time_output f) (printable_output f) (year_output f) (zone_output f) (epoch_output f) (monotonic_output f) (uid_output f).
Definition add_filter (v : bytes * Z) (f : AndroidLogFormat) : AndroidLogFormat :=
  mkFormat (global_pri f) (v :: filters f) (format f) (colored_output f) (usec_time_output f) (printable_output f) (year_output f) (zone_output f) (epoch_output f) (monotonic_output f) (uid_output f).

(** The result says whether it is a format of its own. *)
Definition android_log_setPrintFormat (f : AndroidLogFormat) (v : AndroidLogPrintFormat) : AndroidLogFormat * bool :=
  let '(mkFormat g l fmt color usec printable year zone epoch monotonic uid) := f in
  match v with
  | FORMAT_MODIFIER_COLOR => (mkFormat g l fmt true usec printable year zone epoch monotonic uid, false)
  | FORMAT_MODIFIER_TIME_USEC => (mkFormat g l fmt color true printable year zone epoch monotonic uid, false)
  | FORMAT_MODIFIER_PRINTABLE => (mkFormat g l fmt color usec true year zone epoch monotonic uid, false)
  | FORMAT_MODIFIER_YEAR => (mkFormat g l fmt color usec printable true zone epoch monotonic uid, false)
  | FORMAT_MODIFIER_ZONE => (mkFormat g l fmt color usec printable year (negb zone) epoch monotonic uid, false)
  | FORMAT_MODIFIER_EPOCH => (mkFormat g l fmt color usec printable year zone true monotonic uid, false)
  | FORMAT_MODIFIER_MONOTONIC => (mkFormat g l fmt color usec printable year zone epoch true uid, false)
  | FORMAT_MODIFIER_UID => (mkFormat g l fmt color usec printable year zone epoch monotonic true, false)
  | _ => (mkFormat g l v color usec printable year zone epoch monotonic uid, true)
  end.

(** [strcasecmp(s, t) == 0]. *)
Definition strcaseeq (s t : bytes) : bool := bool_decide (tolower <$> s = tolower <$> t).

(** Any other name is tried as a time zone: [tzname] is what [tzset] makes of the
    variable TZ, which keeps the value when it is a zone. *)
Definition try_zone (tzname : bytes → option bytes) (name : bytes) (TZ : option bytes) : AndroidLogPrintFormat * option bytes :=
  match tzname name with
  | None => (FORMAT_OFF, TZ)
  | Some zone =>
      if (bool_decide (zone = $"UTC") || bool_decide (zone = $"GMT")) && negb (strcaseeq name $"UTC") && negb (strcaseeq name $"GMT")
      then (FORMAT_OFF, TZ) else (FORMAT_MODIFIER_ZONE, Some name)
  end.
Definition format_names : list (bytes * AndroidLogPrintFormat) :=
  [($"brief", FORMAT_BRIEF); ($"process", FORMAT_PROCESS); ($"tag", FORMAT_TAG); ($"thread", FORMAT_THREAD); ($"raw", FORMAT_RAW);
   ($"time", FORMAT_TIME); ($"threadtime", FORMAT_THREADTIME); ($"long", FORMAT_LONG); ($"color", FORMAT_MODIFIER_COLOR);
   ($"usec", FORMAT_MODIFIER_TIME_USEC); ($"printable", FORMAT_MODIFIER_PRINTABLE); ($"year", FORMAT_MODIFIER_YEAR);
   ($"zone", FORMAT_MODIFIER_ZONE); ($"epoch", FORMAT_MODIFIER_EPOCH); ($"monotonic", FORMAT_MODIFIER_MONOTONIC); ($"uid", FORMAT_MODIFIER_UID)].
Fixpoint format_named (names : list (bytes * AndroidLogPrintFormat)) (s : bytes) : option AndroidLogPrintFormat :=
  match names with
  | [] => None
  | (name, v) :: names => if bool_decide (s = name) then Some v else format_named names s
  end.
Definition android_log_formatFromString (tzname : bytes → option bytes) (s : bytes) (TZ : option bytes) : AndroidLogPrintFormat * option bytes :=
  match format_named format_names s with Some v => (v, TZ) | None => try_zone tzname s TZ end.

(** ** Filters *)

Fixpoint priForTag (l : list (bytes * Z)) (global : Z) (tag : bytes) : Z :=
  match l with
  | [] => global
  | (mTag, mPri) :: l => if bool_decide (tag = mTag) then if mPri =? ANDROID_LOG_DEFAULT then global else mPri else priForTag l global tag
  end.
Definition filterPriForTag (f : AndroidLogFormat) (tag : bytes) : Z := priForTag (filters f) (global_pri f) tag.
Definition android_log_shouldPrintLine (f : AndroidLogFormat) (tag : bytes) (pri : Z) : bool := filterPriForTag f tag <=? pri.

(** [strcspn(s, ":")]. *)
Fixpoint strcspn (c : ascii) (s : bytes) : nat :=
  match s with [] => 0 | x :: s => if char_eqb x c then 0 else S (strcspn c s) end.

(** The expression is a C string: behind its end is a NUL.  [None]: -1. *)
Definition android_log_addFilterRule (f : AndroidLogFormat) (filterExpression : bytes) : option AndroidLogFormat :=
  let tagNameLength := strcspn ":" filterExpression in
  if (tagNameLength =? 0)%nat then None
  else
    let pri := if bool_decide (filterExpression !! tagNameLength = Some ":"%char) then filterCharToPri (default NUL (filterExpression !! S tagNameLength)) else ANDROID_LOG_DEFAULT in
    if bool_decide (filterExpression !! tagNameLength = Some ":"%char) && (pri =? ANDROID_LOG_UNKNOWN) then None
    else if bool_decide (take tagNameLength $"*" = take tagNameLength filterExpression) then
      Some (set_global_pri (if pri =? ANDROID_LOG_DEFAULT then ANDROID_LOG_DEBUG else pri) f)
    else Some (add_filter (take tagNameLength filterExpression, if pri =? ANDROID_LOG_DEFAULT then ANDROID_LOG_VERBOSE else pri) f).

(** [strsep]: the token, and the string behind the delimiter. *)
Definition is_delim (c : ascii) : bool := char_eqb c " " || char_eqb c (of_cval 9) || char_eqb c ",".
Fixpoint strsep (s : bytes) : bytes * option bytes :=
  match s with
  | [] => ([], None)
  | c :: s => if is_delim c then ([], Some s) else let '(token, rest) := strsep s in (c :: token, rest)
  end.

(** The rules in front of an invalid one stay. *)
Fixpoint addFilterString_loop (fuel : nat) (f : AndroidLogFormat) (p_cur : option bytes) : AndroidLogFormat * bool :=
  match fuel, p_cur with
  | _, None => (f, true)
  | O, Some _ => (f, false)
  | S fuel, Some s =>
      let '(p_ret, p_cur) := strsep s in
      match p_ret with
      | [] => addFilterString_loop fuel f p_cur
      | _ => match android_log_addFilterRule f p_ret with None => (f, false) | Some f => addFilterString_loop fuel f p_cur end
      end
  end.
Definition android_log_addFilterString (f : AndroidLogFormat) (filterString : bytes) : AndroidLogFormat * bool :=
  addFilterString_loop (S (length filterString)) f (Some filterString).

Example filter_ex :
  let '(f, ok) := android_log_addFilterString (android_log_format_new false) $"AT:d *:i, Net:* x:7,Net:S" in
  ok = true ∧ global_pri f = ANDROID_LOG_INFO ∧ filterPriForTag f $"AT" = ANDROID_LOG_DEBUG ∧ filterPriForTag f $"Net" = ANDROID_LOG_SILENT ∧
  filterPriForTag f $"x" = ANDROID_LOG_FATAL ∧ filterPriForTag f $"other" = ANDROID_LOG_INFO.
Proof. by vm_compute. Qed.

(** ** What a filter string says *)

(** A rule: a tag, or "*" for all others, and the letter of its level. *)
Record rule := mkRule { r_tag : bytes; r_level : option ascii }.
Definition print_rule (r : rule) : bytes := r_tag r ++ match r_level r with Some c => [":"%char; c] | None => [] end.
Definition delim_free (s : bytes) : Prop := Forall (λ c, is_delim c = false) s.
(** The letters that are levels. *)
Definition level_ok (l : option ascii) : Prop :=
  match l with Some c => filterCharToPri c ≠ ANDROID_LOG_UNKNOWN ∧ is_delim c = false | None => True end.
Definition rule_ok (r : rule) : Prop := r_tag r ≠ [] ∧ (":"%char ∉ r_tag r) ∧ delim_free (r_tag r) ∧ level_ok (r_level r).
(** Without a level a tag is wanted verbose, everything else from debug on. *)
Definition level (r : rule) : Z :=
  let pri := match r_level r with Some c => filterCharToPri c | None => ANDROID_LOG_DEFAULT end in
  if pri =? ANDROID_LOG_DEFAULT then if bool_decide (r_tag r = $"*") then ANDROID_LOG_DEBUG else ANDROID_LOG_VERBOSE else pri.

(** [s] spells the rules, with delimiters between them and around. *)
Inductive spelled : list rule → bytes → Prop :=
| spelled_nil : spelled [] []
| spelled_last r : spelled [r] (print_rule r)
| spelled_cons r c rs s : is_delim c = true → spelled rs s → spelled (r :: rs) (print_rule r ++ c :: s)
| spelled_delim c rs s : is_delim c = true → spelled rs s → spelled rs (c :: s).

(** The last rule for a tag counts. *)
Definition last_level (tag : bytes) (rs : list rule) : option Z :=
  foldl (λ o r, if bool_decide (r_tag r = tag) then Some (level r) else o) None rs.

Lemma last_level_cons tag r rs :
  last_level tag (r :: rs) = match last_level tag rs with Some p => Some p | None => if bool_decide (r_tag r = tag) then Some (level r) else None end.
Proof.
  unfold last_level. cbn [foldl]. set (o := if bool_decide (r_tag r = tag) then Some (level r) else None). clearbody o. revert o.
  induction rs as [|r' rs IH]; intros o; [done|]. cbn [foldl]. rewrite IH, (IH (if bool_decide (r_tag r' = tag) then _ else None)).
  by destruct (foldl _ None rs), (bool_decide (r_tag r' = tag)).
Qed.

Lemma strsep_token w c s : delim_free w → is_delim c = true → strsep (w ++ c :: s) = (w, Some s).
Proof. induction 1 as [|x w Hx _ IH]; intros Hc; cbn; [by rewrite Hc|]. by rewrite Hx, IH. Qed.
Lemma strsep_end w : delim_free w → strsep w = (w, None).
Proof. induction 1 as [|x w Hx _ IH]; [done|]. cbn. by rewrite Hx, IH. Qed.
Lemma strsep_shorter s token rest : strsep s = (token, Some rest) → (length rest < length s)%nat.
Proof.
  revert token. induction s as [|c s IH]; intros token; cbn; [done|]. destruct (is_delim c); [intros [= _ <-]; lia|].
  destruct (strsep s) as [t r] eqn:Hs. intros [= _ ->]. specialize (IH t eq_refl). lia.
Qed.

Lemma loop_enough n f s : (length s < n)%nat → addFilterString_loop n f (Some s) = android_log_addFilterString f s.
Proof.
  unfold android_log_addFilterString. revert f s. induction n as [n IH] using lt_wf_ind. intros f s Hn.
  destruct n as [|n]; [lia|]. cbn [addFilterString_loop]. destruct (strsep s) as [w [rest|]] eqn:Hs.
  - pose proof (strsep_shorter _ _ _ Hs) as Hl. assert (Hr : ∀ f, addFilterString_loop n f (Some rest) = addFilterString_loop (length s) f (Some rest)).
    { intros f'. rewrite (IH n) by lia. symmetry. destruct (decide (length s = n)) as [->|]; [rewrite (IH n) by lia; done|]. apply (IH (length s)); lia. }
    destruct w; [apply Hr|]. destruct (android_log_addFilterRule f _); [apply Hr|done].
  - destruct n, (length s); done.
Qed.

(** One token after the other. *)
Definition add_word (f : AndroidLogFormat) (w : bytes) : option AndroidLogFormat := match w with [] => Some f | _ => android_log_addFilterRule f w end.
Lemma add_string_cons f w c s :
  delim_free w → is_delim c = true →
  android_log_addFilterString f (w ++ c :: s) = match add_word f w with Some f => android_log_addFilterString f s | None => (f, false) end.
Proof.
  intros Hw Hc. unfold android_log_addFilterString at 1. cbn [addFilterString_loop]. rewrite strsep_token by done.
  assert (Hl : (length s < length (w ++ c :: s))%nat) by (rewrite length_app; cbn; lia).
  destruct w; [by apply loop_enough|]. unfold add_word. destruct (android_log_addFilterRule f _); [by apply loop_enough|done].
Qed.
Lemma add_string_last f w :
  delim_free w → android_log_addFilterString f w = match add_word f w with Some f => (f, true) | None => (f, false) end.
Proof.
  intros Hw. unfold android_log_addFilterString. cbn [addFilterString_loop]. rewrite strsep_end by done. destruct w; [done|].
  unfold add_word. by destruct (android_log_addFilterRule f _).
Qed.

Lemma strcspn_stop c s rest : c ∉ s → (rest = [] ∨ head rest = Some c) → strcspn c (s ++ rest) = length s.
Proof.
  induction s as [|x s IH]; intros Hs Hr; cbn.
  - destruct Hr as [->|Hr]; [done|]. destruct rest as [|y rest]; [done|]. injection Hr as ->. cbn. by rewrite char_eqb_refl.
  - rewrite not_elem_of_cons in Hs. destruct (char_eqb_spec x c) as [->|]; [naive_solver|]. f_equal. naive_solver.
Qed.

Definition apply_rule (f : AndroidLogFormat) (r : rule) : AndroidLogFormat :=
  if bool_decide (r_tag r = $"*") then set_global_pri (level r) f else add_filter (r_tag r, level r) f.

Lemma add_rule f r : rule_ok r → android_log_addFilterRule f (print_rule r) = Some (apply_rule f r).
Proof.
  intros (Hne & Hcolon & _ & Hlevel). unfold android_log_addFilterRule, print_rule.
  rewrite strcspn_stop by (done || (destruct (r_level r); auto)). rewrite take_app_length. cbv zeta.
  destruct (r_tag r) as [|x tag] eqn:Ht; [done|]. rewrite <-Ht in *. rewrite (proj2 (Nat.eqb_neq _ _)) by (rewrite Ht; done).
  assert (Hstar : bool_decide (take (length (r_tag r)) $"*" = r_tag r) = bool_decide (r_tag r = $"*")).
  { apply bool_decide_ext. rewrite Ht. destruct tag; cbn; naive_solver. }
  rewrite Hstar. unfold apply_rule, level. destruct (r_level r) as [c|].
  - rewrite lookup_app_r, Nat.sub_diag by done. cbn [lookup list_lookup]. rewrite bool_decide_eq_true_2 by done.
    rewrite lookup_app_r by lia. replace (S (length (r_tag r)) - length (r_tag r))%nat with 1%nat by lia. cbn [lookup list_lookup default].
    rewrite (proj2 (Z.eqb_neq _ _)) by apply Hlevel. cbn [andb]. by destruct (bool_decide (r_tag r = $"*")).
  - rewrite app_nil_r, lookup_ge_None_2 by done. rewrite bool_decide_eq_false_2 by done. cbn [andb]. by destruct (bool_decide (r_tag r = $"*")).
Qed.

Lemma print_delim_free r : rule_ok r → delim_free (print_rule r).
Proof.
  intros (_ & _ & Hd & Hl). apply Forall_app_2; [done|]. destruct (r_level r) as [c|]; [|constructor]. repeat constructor. apply Hl.
Qed.
Lemma add_word_rule f r : rule_ok r → add_word f (print_rule r) = Some (apply_rule f r).
Proof.
  intros Hr. rewrite <-add_rule by done. unfold add_word. destruct (print_rule r) eqn:Hp; [|done]. exfalso.
  destruct Hr as [Hne _]. unfold print_rule in Hp. by apply app_eq_nil in Hp as [? _].
Qed.

Lemma add_spelled f rs s : Forall rule_ok rs → spelled rs s → android_log_addFilterString f s = (foldl apply_rule f rs, true).
Proof.
  intros Hok Hs. revert f Hok. induction Hs as [|r|r c rs s Hc _ IH|c rs s Hc _ IH]; intros f Hok.
  - done.
  - apply Forall_cons in Hok as [Hr _]. rewrite add_string_last by by apply print_delim_free. by rewrite add_word_rule.
  - apply Forall_cons in Hok as [Hr Hrs]. rewrite add_string_cons by (done || by apply print_delim_free). rewrite add_word_rule by done. by apply IH.
  - change (c :: s) with ([] ++ c :: s). rewrite add_string_cons by (done || constructor). by apply IH.
Qed.

Lemma level_not_default r : level r ≠ ANDROID_LOG_DEFAULT.
Proof. unfold level. destruct (Z.eqb_spec (match r_level r with Some c => filterCharToPri c | None => ANDROID_LOG_DEFAULT end) ANDROID_LOG_DEFAULT); [|done]. by destruct (bool_decide _). Qed.

Lemma apply_rules f rs :
  global_pri (foldl apply_rule f rs) = default (global_pri f) (last_level $"*" rs) ∧
  ∀ g tag, tag ≠ $"*" → priForTag (filters (foldl apply_rule f rs)) g tag = match last_level tag rs with Some p => p | None => priForTag (filters f) g tag end.
Proof.
  revert f. induction rs as [|r rs IH]; intros f; [done|]. cbn [foldl]. destruct (IH (apply_rule f r)) as [Hg Ht]. split.
  - rewrite Hg, last_level_cons. unfold apply_rule. destruct (last_level _ rs); [done|]. by case_bool_decide.
  - intros g tag Htag. rewrite Ht, last_level_cons by done. destruct (last_level tag rs); [done|]. unfold apply_rule.
    destruct (bool_decide_reflect (r_tag r = $"*")) as [He|Hne].
    + rewrite bool_decide_eq_false_2 by congruence. done.
    + cbn [filters add_filter priForTag]. destruct (bool_decide_reflect (tag = r_tag r)) as [->|Hd].
      * rewrite bool_decide_eq_true_2 by done. by rewrite (proj2 (Z.eqb_neq _ _)) by apply level_not_default.
      * by rewrite bool_decide_eq_false_2 by congruence.
Qed.

(** C38: A filter string means what its rules say: when it spells rules, in any
    mixture of blanks, tabs and commas, it is accepted, and a line is printed
    exactly when its priority is at least the level of the last rule for its tag,
    else that of a rule from before, else that of the last rule for "*". *)
Theorem filter_string_correct f rs s tag pri :
  Forall rule_ok rs → spelled rs s → tag ≠ $"*" →
  let '(f', ok) := android_log_addFilterString f s in
  ok = true ∧
  (android_log_shouldPrintLine f' tag pri = true ↔
     match last_level tag rs with
     | Some p => p
     | None => priForTag (filters f) (default (global_pri f) (last_level $"*" rs)) tag
     end ≤ pri).
Proof.
  intros Hok Hs Htag. rewrite (add_spelled f rs s Hok Hs). split; [done|]. destruct (apply_rules f rs) as [Hg Ht].
  unfold android_log_shouldPrintLine, filterPriForTag. by rewrite Z.leb_le, Hg, Ht.
Qed.

Definition some_rules : list rule := [mkRule $"AT" (Some "d"%char); mkRule $"*" (Some "s"%char); mkRule $"Net" None; mkRule $"AT" (Some "W"%char)].
Lemma filter_string_correct_witness :
  Forall rule_ok some_rules ∧ spelled some_rules $"AT:d *:s,, Net AT:W" ∧
  let '(f', ok) := android_log_addFilterString (android_log_format_new false) $"AT:d *:s,, Net AT:W" in
  ok = true ∧ (android_log_shouldPrintLine f' $"AT" ANDROID_LOG_INFO = true ↔ ANDROID_LOG_WARN ≤ ANDROID_LOG_INFO).
Proof.
  assert (Hok : Forall rule_ok some_rules).
  { repeat constructor; try done; try (apply (bool_decide_unpack _); by vm_compute). }
  assert (Hs : spelled some_rules $"AT:d *:s,, Net AT:W").
  { apply (spelled_cons (mkRule $"AT" (Some "d"%char)) " " _ $"*:s,, Net AT:W"); [done|].
    apply (spelled_cons (mkRule $"*" (Some "s"%char)) "," _ $", Net AT:W"); [done|]. apply (spelled_delim "," _ $" Net AT:W"); [done|].
    apply (spelled_delim " " _ $"Net AT:W"); [done|]. apply (spelled_cons (mkRule $"Net" None) " " _ $"AT:W"); [done|].
    apply (spelled_last (mkRule $"AT" (Some "W"%char))). }
  split; [exact Hok|]. split; [exact Hs|].
  exact (filter_string_correct (android_log_format_new false) some_rules $"AT:d *:s,, Net AT:W" $"AT" ANDROID_LOG_INFO Hok Hs ltac:(done)).
Defined.

(** The letter of a priority is read back as the priority. *)
Lemma pri_char_roundtrip pri : ANDROID_LOG_VERBOSE ≤ pri ≤ ANDROID_LOG_SILENT → filterCharToPri (filterPriToChar pri) = pri.
Proof.
  unfold ANDROID_LOG_VERBOSE, ANDROID_LOG_SILENT. intros Hp. assert (Hc : pri ∈ [2; 3; 4; 5; 6; 7; 8]) by (rewrite !elem_of_cons; lia).
  rewrite !elem_of_cons in Hc. destruct Hc as [->|[->|[->|[->|[->|[->|[->|Hc]]]]]]]; try done. by apply not_elem_of_nil in Hc.
Qed.

(** Rules in front of a wrong one stay, and "0" is no level although "1" is. *)
Example wrong_rule :
  let '(f, ok) := android_log_addFilterString (android_log_format_new false) $"AT:s x:0 *:e" in
  ok = false ∧ filterPriForTag f $"AT" = ANDROID_LOG_SILENT ∧ global_pri f = ANDROID_LOG_VERBOSE.
Proof. by vm_compute. Qed.
