(* ===== verification/LogTags.v ===== *)
(** * The map of event tags
    (src/lib/liblog/event_tag_map.c)

    The names of binary events: a text file is scanned twice, its tags are sorted
    by number, and a number is looked up by bisection.  A pointer into the mapped
    file is what follows it; reading past its end is [Abort]. *)

From Stdlib Require Import ZArith Lia List Ascii String Sorting.
From stdpp Require Import base numbers list strings sorting.
From S2P Require Import Prelude.
From S2P Require Import Libc.
From S2P Require Import Strings.

Record EventTag := mkTag { tagIndex : Z; tagStr : bytes }.

Definition NL : ascii := of_cval 10.
Definition isCharWhitespace (c : ascii) : bool := char_eqb c " " || char_eqb c NL || char_eqb c (of_cval 13) || char_eqb c (of_cval 9).
Definition isCharValidTag (c : ascii) : bool := isupper c || islower c || isdigit c || char_eqb c "_".
Definition isCharDigit (c : ascii) : bool := isdigit c.

(** ** The file *)

Fixpoint countMapLines_loop (cp : bytes) (numTags : Z) (unknown : bool) : Z :=
  match cp with
  | [] => numTags
  | c :: cp =>
      if char_eqb c NL then countMapLines_loop cp numTags true
      else if unknown then
        if isCharDigit c then countMapLines_loop cp (numTags + 1) false
        else if isCharWhitespace c then countMapLines_loop cp numTags true
        else countMapLines_loop cp numTags false
      else countMapLines_loop cp numTags unknown
  end.
Definition countMapLines (file : bytes) : Z := countMapLines_loop file 0 true.

(** [while (p( *++cp))]: what is skipped, and where it stops. *)
Fixpoint span (p : ascii → bool) (s : bytes) : outcome (bytes * bytes) :=
  match s with
  | [] => Abort "read past the end of the map"
  | c :: t => if p c then '(a, b) ← span p t; Ret (c :: a, b) else Ret ([], s)
  end.
Definition next_char (s : bytes) : outcome ascii := match s with [] => Abort "read past the end of the map" | c :: _ => Ret c end.

(** The line from its first digit on; what is left starts with its last
    character.  The character behind the number is overwritten, whatever it is. *)
Definition scanTagLine (pData : bytes) : outcome (option (EventTag * bytes)) :=
  first ← next_char pData;
  '(digits, cp) ← span isCharDigit (drop 1 pData);
  let val := ((strtoull 10 (first :: digits)).1).1 in
  '(_, cp) ← span (λ c, negb (char_eqb c NL) && isCharWhitespace c) (drop 1 cp);
  c ← next_char cp;
  if char_eqb c NL then Ret None
  else
    '(name, cp) ← span isCharValidTag (drop 1 cp);
    let tag := mkTag (u32 val) (c_str (c :: name)) in
    e ← next_char cp;
    if char_eqb e NL then Ret (Some (tag, cp))
    else if isCharWhitespace e then '(_, cp) ← span (λ c, negb (char_eqb c NL)) (drop 1 cp); Ret (Some (tag, cp))
    else Ret None.

(** Every round goes on by a character at least. *)
Fixpoint parseMapLines_loop (fuel : nat) (cp : bytes) (numTags : Z) (tags : list EventTag) (lineStart : bool) : outcome (option (list EventTag)) :=
  match cp with
  | [] => Ret (if zlen tags =? numTags then Some tags else None)
  | c :: t =>
      match fuel with
      | O => Abort "out of fuel"
      | S fuel =>
          if char_eqb c NL then parseMapLines_loop fuel t numTags tags true
          else if lineStart then
            if char_eqb c "#" then parseMapLines_loop fuel t numTags tags false
            else if isCharDigit c then
              if numTags <=? zlen tags then Ret None
              else
                r ← scanTagLine cp;
                match r with
                | None => Ret None
                | Some (tag, cp) => parseMapLines_loop fuel (drop 1 cp) numTags (tags ++ [tag]) true
                end
            else if isCharWhitespace c then parseMapLines_loop fuel t numTags tags true
            else Ret None
          else parseMapLines_loop fuel t numTags tags lineStart
      end
  end.
Definition parseMapLines (file : bytes) (numTags : Z) : outcome (option (list EventTag)) :=
  match last file with
  | None => Abort "read in front of the map"
  | Some c => if negb (char_eqb c NL) then Ret None else parseMapLines_loop (length file) file numTags [] true
  end.

(** The difference of two [unsigned int], returned as an [int]. *)
Definition compareEventTags (tag1 tag2 : EventTag) : Z := s32 (u32 (tagIndex tag1 - tagIndex tag2)).

(** [qsort]. *)
Fixpoint qsort_insert {A} (cmp : A → A → Z) (x : A) (l : list A) : list A :=
  match l with [] => [x] | y :: l => if cmp x y <=? 0 then x :: y :: l else y :: qsort_insert cmp x l end.
Definition qsort {A} (cmp : A → A → Z) (l : list A) : list A := foldr (qsort_insert cmp) [] l.

Fixpoint has_duplicate (l : list EventTag) : bool :=
  match l with
  | a :: (b :: _) as l => (tagIndex b =? tagIndex a) || has_duplicate l
  | _ => false
  end.
Definition sortTags (tags : list EventTag) : option (list EventTag) :=
  let sorted := qsort compareEventTags tags in if has_duplicate sorted then None else Some sorted.

Definition processFile (file : bytes) : outcome (option (list EventTag)) :=
  r ← parseMapLines file (countMapLines file);
  Ret (match r with None => None | Some tags => sortTags tags end).

(** The file, or [None] when it cannot be opened; nothing is not mapped. *)
Definition android_openEventTagMap (file : option bytes) : outcome (option (list EventTag)) :=
  match file with None | Some [] => Ret None | Some file => processFile file end.

(** ** Looking up *)

Fixpoint lookup_loop (fuel : nat) (map : list EventTag) (tag lo hi : Z) : option bytes :=
  if hi <? lo then None
  else
    match fuel with
    | O => None
    | S fuel =>
        let mid := (lo + hi) / 2 in
        match map !! Z.to_nat mid with
        | None => None
        | Some t =>
            let cmp := s32 (u32 (tagIndex t - tag)) in
            if cmp <? 0 then lookup_loop fuel map tag (mid + 1) hi
            else if 0 <? cmp then lookup_loop fuel map tag lo (mid - 1)
            else Some (tagStr t)
        end
    end.
Definition android_lookupEventTag (map : list EventTag) (tag : Z) : option bytes :=
  lookup_loop (S (length map)) map tag 0 (zlen map - 1).

(** A number without a name takes the next line for it; at the end of the file
    the scan runs out of the map. *)
Example number_alone :
  android_openEventTagMap (Some ($"42" ++ [NL] ++ $"7 seven" ++ [NL])) = Ret None ∧
  android_openEventTagMap (Some ($"42" ++ [NL] ++ $"seven" ++ [NL])) = Ret (Some [mkTag 42 $"seven"]) ∧
  android_openEventTagMap (Some ($"42" ++ [NL])) = Abort "read past the end of the map".
Proof. by vm_compute. Qed.
(** Numbers further apart than an [int] are not in an order, and bisection misses some. *)
Example far_apart :
  match android_openEventTagMap (Some ($"1 a" ++ [NL] ++ $"1000000000 b" ++ [NL] ++ $"2000000000 c" ++ [NL] ++ $"4000000000 d" ++ [NL])) with
  | Ret (Some m) => tagIndex <$> m = [1; 1000000000; 2000000000; 4000000000] ∧ android_lookupEventTag m (s32 4000000000) = None
  | _ => False
  end.
Proof. vm_compute. done. Qed.

(** ** Sorting and bisection *)

(** Numbers that are an [int]. *)
Definition tag_small (t : EventTag) : Prop := 0 ≤ tagIndex t < 2 ^ 31.
Definition tag_le (a b : EventTag) : Prop := tagIndex a ≤ tagIndex b.

Lemma difference a b : 0 ≤ a < 2 ^ 31 → 0 ≤ b < 2 ^ 31 → s32 (u32 (a - b)) = a - b.
Proof.
  intros Ha Hb. unfold s32, u32. rewrite Z.add_mod_idemp_l by done. rewrite Z.mod_small by lia. lia.
Qed.

Lemma insert_sorted x l : tag_small x → Forall tag_small l → StronglySorted tag_le l → StronglySorted tag_le (qsort_insert compareEventTags x l) ∧ qsort_insert compareEventTags x l ≡ₚ x :: l.
Proof.
  intros Hx Hl Hs. induction Hs as [|y l Hs IH Hy]; cbn [qsort_insert]; [by repeat constructor|].
  apply Forall_cons in Hl as [Hy' Hl]. unfold compareEventTags at 1 3. rewrite difference by done. destruct (Z.leb_spec (tagIndex x - tagIndex y) 0).
  - split; [|done]. constructor; [by constructor|]. constructor; [unfold tag_le; lia|]. eapply Forall_impl; [done|]. unfold tag_le. lia.
  - destruct (IH Hl) as [Hs' Hp]. split; [|rewrite Hp; by constructor]. constructor; [done|]. rewrite Hp. constructor; [unfold tag_le; lia|done].
Qed.

Lemma qsort_sorted l : Forall tag_small l → StronglySorted tag_le (qsort compareEventTags l) ∧ qsort compareEventTags l ≡ₚ l.
Proof.
  induction 1 as [|x l Hx Hl [Hs Hp]]; [by repeat constructor|]. cbn [qsort foldr]. fold (qsort compareEventTags l).
  assert (Hl' : Forall tag_small (qsort compareEventTags l)) by by rewrite Hp.
  destruct (insert_sorted x _ Hx Hl' Hs) as [Hs' Hp']. split; [done|]. by rewrite Hp', Hp.
Qed.

Lemma no_duplicate l : StronglySorted tag_le l → has_duplicate l = false ↔ NoDup (tagIndex <$> l).
Proof.
  induction 1 as [|a l Hs IH Ha]; [by repeat constructor|]. destruct l as [|b l]; [split; [intros _; apply NoDup_singleton|done]|].
  cbn [has_duplicate]. rewrite fmap_cons, NoDup_cons, orb_false_iff, IH, Z.eqb_neq.
  apply Forall_cons in Ha as [Hab Ha]. inversion Hs as [|? ? Hs' Hb]; subst. split; [intros [Hne Hn]; split; [|done]|intros [Hn Hd]; split; [|done]].
  - cbn. rewrite not_elem_of_cons. split; [done|]. intros (t & Ht & Hin)%list_elem_of_fmap. rewrite Forall_forall in Hb. specialize (Hb t Hin).
    unfold tag_le in *. lia.
  - cbn in Hn. rewrite not_elem_of_cons in Hn. naive_solver.
Qed.

(** The numbers rise strictly. *)
Lemma rising l : StronglySorted tag_le l → NoDup (tagIndex <$> l) → ∀ i j a b, l !! i = Some a → l !! j = Some b → (i < j)%nat → tagIndex a < tagIndex b.
Proof.
  intros Hs Hd. induction Hs as [|x l Hs IH Hx]; intros i j a b Hi Hj Hij; [done|]. rewrite fmap_cons, NoDup_cons in Hd. destruct Hd as [Hn Hd].
  destruct j as [|j]; [lia|]. cbn in Hj. destruct i as [|i].
  - injection Hi as <-. rewrite Forall_forall in Hx. specialize (Hx b (list_elem_of_lookup_2 _ _ _ Hj)). unfold tag_le in Hx.
    assert (tagIndex x ≠ tagIndex b); [|lia]. intros He. apply Hn. rewrite He. apply list_elem_of_fmap_2, (list_elem_of_lookup_2 _ _ _ Hj).
  - eapply (IH Hd i j); [done..|lia].
Qed.

Section bisection.
Context (l : list EventTag) (tag : Z) (Hsmall : Forall tag_small l) (Htag : 0 ≤ tag < 2 ^ 31).
Context (Hrising : ∀ i j a b, l !! i = Some a → l !! j = Some b → (i < j)%nat → tagIndex a < tagIndex b).

Lemma lookup_loop_correct fuel lo hi :
  0 ≤ lo → hi < zlen l → hi - lo < Z.of_nat fuel →
  (∀ i t, l !! i = Some t → tagIndex t = tag → lo ≤ Z.of_nat i ≤ hi) →
  match lookup_loop fuel l tag lo hi with
  | Some s => ∃ t, t ∈ l ∧ tagIndex t = tag ∧ tagStr t = s
  | None => ∀ t, t ∈ l → tagIndex t ≠ tag
  end.
Proof.
  revert lo hi. induction fuel as [|fuel IH]; intros lo hi Hlo Hhi Hf Hin; cbn [lookup_loop]; (destruct (Z.ltb_spec hi lo) as [Hlt|Hle]; [intros t (i & Hi)%list_elem_of_lookup Ht; specialize (Hin i t Hi Ht); lia|]); [lia|].
  pose proof (Z.div_mod (lo + hi) 2 ltac:(lia)) as Hdm. pose proof (Z.mod_pos_bound (lo + hi) 2 ltac:(lia)) as Hmb. set (mid := (lo + hi) / 2) in *.
  assert (Hmid : (Z.to_nat mid < length l)%nat) by (unfold zlen in *; lia). destruct (l !! Z.to_nat mid) as [t|] eqn:Ht; [|by apply lookup_ge_None in Ht; lia].
  assert (Hts : tag_small t) by (rewrite Forall_forall in Hsmall; by apply Hsmall, (list_elem_of_lookup_2 _ _ _ Ht)). rewrite difference by done.
  destruct (Z.ltb_spec (tagIndex t - tag) 0); [|destruct (Z.ltb_spec 0 (tagIndex t - tag))].
  - apply IH; [lia..|]. intros i t' Hi Ht'. specialize (Hin i t' Hi Ht'). destruct (decide (Z.to_nat mid < i)%nat); [lia|]. exfalso.
    destruct (decide (i = Z.to_nat mid)) as [->|]; [rewrite Ht in Hi; injection Hi as <-; lia|]. specialize (Hrising i (Z.to_nat mid) t' t Hi Ht ltac:(lia)). lia.
  - apply IH; [lia..|]. intros i t' Hi Ht'. specialize (Hin i t' Hi Ht'). destruct (decide (i < Z.to_nat mid)%nat); [lia|]. exfalso.
    destruct (decide (i = Z.to_nat mid)) as [->|]; [rewrite Ht in Hi; injection Hi as <-; lia|]. specialize (Hrising (Z.to_nat mid) i t t' Ht Hi ltac:(lia)). lia.
  - exists t. split; [by apply (list_elem_of_lookup_2 _ _ _ Ht)|]. split; [lia|done].
Qed.

Lemma bisection_correct :
  match android_lookupEventTag l tag with
  | Some s => ∃ t, t ∈ l ∧ tagIndex t = tag ∧ tagStr t = s
  | None => ∀ t, t ∈ l → tagIndex t ≠ tag
  end.
Proof.
  apply lookup_loop_correct; [done|lia|unfold zlen; lia|]. intros i t Hi _. apply lookup_lt_Some in Hi. unfold zlen. lia.
Qed.
End bisection.

(** ** A file of tags *)

Definition blank (c : ascii) : bool := isCharWhitespace c && negb (char_eqb c NL).
Definition blanks (s : bytes) : Prop := Forall (λ c, blank c = true) s.
Definition one_line (s : bytes) : Prop := NL ∉ s.
#[export] Instance one_line_dec s : Decision (one_line s) := _.

(** A line without its end, and the tag it names: nothing, a comment, or a number,
    a name and whatever follows it. *)
Inductive map_line : option EventTag → bytes → Prop :=
| line_blank s : blanks s → map_line None s
| line_comment s rest : blanks s → one_line rest → map_line None (s ++ "#"%char :: rest)
| line_tag s digits sep name tail :
    blanks s → digits ≠ [] → Forall (λ c, isCharDigit c = true) digits → (scan_digits 10 0 digits).1 < 2 ^ 31 →
    blanks sep → sep ≠ [] → name ≠ [] → Forall (λ c, isCharValidTag c = true) name →
    tail = [] ∨ (∃ c rest, tail = c :: rest ∧ blank c = true ∧ one_line rest) →
    map_line (Some (mkTag (scan_digits 10 0 digits).1 name)) (s ++ digits ++ sep ++ name ++ tail).

Inductive map_file : list EventTag → bytes → Prop :=
| file_nil : map_file [] []
| file_line o line tags file : map_line o line → map_file tags file → map_file (option_list o ++ tags) (line ++ NL :: file).

Lemma blank_spec c : blank c = true → isCharWhitespace c = true ∧ char_eqb c NL = false ∧ isCharDigit c = false ∧ char_eqb c "#" = false ∧ isCharValidTag c = false.
Proof.
  unfold blank, isCharWhitespace. intros [Hw Hn%negb_true_iff]%andb_prop. rewrite Hn, orb_false_r in *. split; [done|]. split; [done|].
  rewrite !orb_true_iff in Hw. destruct Hw as [[Hc|Hc]|Hc]; apply Ascii.eqb_eq in Hc as ->; done.
Qed.
Lemma digit_spec c : isCharDigit c = true → char_eqb c NL = false ∧ char_eqb c "#" = false ∧ isCharWhitespace c = false.
Proof.
  unfold isCharDigit, isdigit, in_range, isCharWhitespace. intros [H1%Z.leb_le H2%Z.leb_le]%andb_prop.
  assert (Hne : ∀ d, cval d < 48 → char_eqb c d = false) by (intros d Hd; destruct (char_eqb_spec c d); [subst; lia|done]).
  rewrite !Hne by (by vm_compute). done.
Qed.
Lemma valid_spec c : isCharValidTag c = true → char_eqb c NL = false ∧ isCharWhitespace c = false ∧ c ≠ NUL.
Proof.
  intros Hv. assert (Hne : ∀ d, isCharValidTag d = false → char_eqb c d = false) by (intros d Hd; destruct (char_eqb_spec c d); [congruence|done]).
  unfold isCharWhitespace. rewrite !Hne by (by vm_compute). split_and!; [done..|]. intros ->. by vm_compute in Hv.
Qed.
Lemma one_line_head c s : one_line (c :: s) → char_eqb c NL = false ∧ one_line s.
Proof. unfold one_line. rewrite not_elem_of_cons. intros [Hc Hs]. destruct (char_eqb_spec c NL); [congruence|done]. Qed.

(** Scanning to where a run of characters ends. *)
Lemma span_stop p s c rest : Forall (λ c, p c = true) s → p c = false → span p (s ++ c :: rest) = Ret (s, c :: rest).
Proof. induction 1 as [|x s Hx _ IH]; intros Hc; cbn; [by rewrite Hc|]. rewrite Hx, IH by done. done. Qed.

(** *** Counting *)

Lemma count_rest s n rest : one_line s → countMapLines_loop (s ++ NL :: rest) n false = countMapLines_loop rest n true.
Proof. revert n. induction s as [|c s IH]; intros n Hs; cbn; [done|]. destruct (one_line_head _ _ Hs) as [-> Hs']. by apply IH. Qed.
Lemma count_blanks s n rest : blanks s → countMapLines_loop (s ++ rest) n true = countMapLines_loop rest n true.
Proof. induction 1 as [|c s Hc _ IH]; [done|]. cbn. destruct (blank_spec c Hc) as (Hw & -> & -> & _). by rewrite Hw. Qed.

Lemma blanks_one_line s : blanks s → one_line s.
Proof. unfold one_line. induction 1 as [|c s Hc _ IH]; [apply not_elem_of_nil|]. rewrite not_elem_of_cons. split; [|done]. intros <-. by vm_compute in Hc. Qed.
Lemma forall_one_line (p : ascii → bool) s : p NL = false → Forall (λ c, p c = true) s → one_line s.
Proof. intros Hp. unfold one_line. induction 1 as [|c s Hc _ IH]; [apply not_elem_of_nil|]. rewrite not_elem_of_cons. split; [congruence|done]. Qed.
Lemma one_line_app a b : one_line a → one_line b → one_line (a ++ b).
Proof. unfold one_line. rewrite not_elem_of_app. tauto. Qed.
Lemma tail_one_line tail : tail = [] ∨ (∃ c rest, tail = c :: rest ∧ blank c = true ∧ one_line rest) → one_line tail.
Proof.
  intros [->|(c & rest & -> & Hc & Hr)]; [apply not_elem_of_nil|]. apply (one_line_app [c]); [|done]. apply blanks_one_line. by repeat constructor.
Qed.

Lemma count_line o line n rest :
  map_line o line → countMapLines_loop (line ++ NL :: rest) n true = countMapLines_loop rest (n + zlen (option_list o)) true.
Proof.
  destruct 1 as [s Hs|s rest' Hs Hr|s digits sep name tail Hs Hne Hd _ Hsep _ _ Hname Htail].
  - change (zlen (option_list (@None EventTag))) with 0. rewrite Z.add_0_r, count_blanks by done. done.
  - change (zlen (option_list (@None EventTag))) with 0. rewrite Z.add_0_r, <-app_assoc, count_blanks by done. cbn [app]. change (countMapLines_loop ("#"%char :: rest' ++ NL :: rest) n true) with (countMapLines_loop (rest' ++ NL :: rest) n false). by rewrite count_rest.
  - rewrite <-app_assoc, count_blanks by done. destruct Hd as [|c digits Hc Hd]; [done|]. cbn -[Z.add]. destruct (digit_spec c Hc) as (-> & _).
    rewrite Hc, app_assoc, count_rest; [done|]. rewrite <-!app_assoc. repeat apply one_line_app.
    + by apply (forall_one_line isCharDigit).
    + by apply blanks_one_line.
    + by apply (forall_one_line isCharValidTag).
    + by apply tail_one_line.
Qed.
Lemma count_file tags file n : map_file tags file → countMapLines_loop file n true = n + zlen tags.
Proof.
  intros Hf. revert n. induction Hf as [|o line tags file Hl _ IH]; intros n; [by rewrite zlen_nil, Z.add_0_r|]. rewrite (count_line o), IH, zlen_app by done. lia.
Qed.

(** *** Parsing *)

Lemma number_value digits : digits ≠ [] → Forall (λ c, isCharDigit c = true) digits → (scan_digits 10 0 digits).1 < 2 ^ 31 → ((strtoull 10 digits).1).1 = (scan_digits 10 0 digits).1 ∧ 0 ≤ (scan_digits 10 0 digits).1.
Proof.
  intros Hne Hd Hv. assert (Ha : all_digits 10 digits).
  { eapply Forall_impl; [exact Hd|]. cbn. unfold isCharDigit, digit_val. intros c Hc. rewrite Hc. unfold isdigit, in_range in Hc.
    apply andb_prop in Hc as [_ Hc%Z.leb_le]. rewrite (proj2 (Z.ltb_lt _ _)) by lia. by eexists. }
  destruct (scan_digits_bound 10 0 digits ltac:(lia) Ha) as (v & Hs & Hb & _). rewrite Hs in *. cbn [fst] in *.
  pose proof (scan_int_digits 10 digits [] ltac:(lia) Ha Hne ltac:(lia)) as Hi. rewrite app_nil_r, Hs in Hi.
  unfold strtoull. rewrite Hi, (proj2 (Z.leb_gt _ _)) by lia. cbn. rewrite u64_small by lia. lia.
Qed.

Lemma c_str_name name : Forall (λ c, isCharValidTag c = true) name → c_str name = name.
Proof. intros Hn. apply c_str_id. unfold nul_free. intros Hin. rewrite Forall_forall in Hn. by destruct (valid_spec _ (Hn _ Hin)) as (_ & _ & ?). Qed.

Lemma scan_tag digits sep name tail rest :
  digits ≠ [] → Forall (λ c, isCharDigit c = true) digits → (scan_digits 10 0 digits).1 < 2 ^ 31 →
  blanks sep → sep ≠ [] → name ≠ [] → Forall (λ c, isCharValidTag c = true) name →
  tail = [] ∨ (∃ c rest, tail = c :: rest ∧ blank c = true ∧ one_line rest) →
  scanTagLine (digits ++ sep ++ name ++ tail ++ NL :: rest) = Ret (Some (mkTag (scan_digits 10 0 digits).1 name, NL :: rest)).
Proof.
  intros Hne Hd Hv Hsep Hsne Hnne Hname Htail. destruct (number_value digits Hne Hd Hv) as [Hval Hpos].
  destruct Hd as [|d digits Hd1 Hd]; [done|]. destruct Hsep as [|b sep Hb Hsep]; [done|]. pose proof (c_str_name _ Hname) as Hc. destruct Hname as [|x name Hx Hname]; [done|].
  unfold scanTagLine. cbn [app next_char outcome_bind mbind]. rewrite skipn_cons, drop_0.
  rewrite (span_stop isCharDigit digits b) by (done || apply (blank_spec b Hb)). cbn [mbind outcome_bind]. rewrite skipn_cons, drop_0.
  rewrite (span_stop _ sep x); [|eapply Forall_impl; [exact Hsep|]; intros y Hy; destruct (blank_spec y Hy) as (-> & -> & _); done|destruct (valid_spec x Hx) as (_ & -> & _); by rewrite andb_false_r].
  cbn [mbind outcome_bind next_char]. destruct (valid_spec x Hx) as (-> & _). rewrite skipn_cons, drop_0. destruct Htail as [->|(e & tail' & -> & He & Ht)].
  - cbn [app]. rewrite (span_stop isCharValidTag name NL) by done. cbn [mbind outcome_bind next_char]. rewrite Hval, u32_small by lia. by rewrite Hc.
  - cbn [app]. destruct (blank_spec e He) as (Hw & Hn & _ & _ & Hvt). rewrite (span_stop isCharValidTag name e) by done. cbn [mbind outcome_bind next_char].
    rewrite Hn, Hw. rewrite skipn_cons, drop_0. rewrite (span_stop _ tail' NL).
    + cbn [mbind outcome_bind]. rewrite Hval, u32_small by lia. by rewrite Hc.
    + clear -Ht. induction tail' as [|y s IH]; [done|]. destruct (one_line_head _ _ Ht) as [Hy Hs]. constructor; [by rewrite Hy|by apply IH].
    + done.
Qed.

Lemma parse_comment s rest fuel n tags :
  one_line s → parseMapLines_loop (S (length s) + fuel) (s ++ NL :: rest) n tags false = parseMapLines_loop fuel rest n tags true.
Proof. induction s as [|c s IH]; intros Hs; cbn; [done|]. destruct (one_line_head _ _ Hs) as [-> Hs']. by apply IH. Qed.

Lemma parse_blanks s rest fuel n tags :
  blanks s → parseMapLines_loop (length s + fuel) (s ++ rest) n tags true = parseMapLines_loop fuel rest n tags true.
Proof. induction 1 as [|c s Hc _ IH]; [done|]. cbn [length plus app parseMapLines_loop]. by destruct (blank_spec c Hc) as (-> & -> & -> & -> & _). Qed.

Lemma parse_line o line n tags fuel rest :
  map_line o line → zlen tags + zlen (option_list o) ≤ n → (length (line ++ NL :: rest) ≤ fuel)%nat →
  ∃ fuel', (length rest ≤ fuel')%nat ∧ parseMapLines_loop fuel (line ++ NL :: rest) n tags true = parseMapLines_loop fuel' rest n (tags ++ option_list o) true.
Proof.
  intros Hl Hn Hf. rewrite length_app in Hf. cbn [length] in Hf. destruct Hl as [s Hs|s rest' Hs Hr|s digits sep name tail Hs Hne Hd Hv Hsep Hsne Hnne Hname Htail].
  - exists (fuel - S (length s))%nat. split; [lia|]. cbn [option_list]. rewrite app_nil_r. replace fuel with (length s + S (fuel - S (length s)))%nat at 1 by lia. by rewrite parse_blanks.
  - rewrite length_app in Hf. cbn [length] in Hf. exists (fuel - S (length s + S (length rest')))%nat. split; [lia|]. cbn [option_list]. rewrite app_nil_r, <-app_assoc.
    replace fuel with (length s + S (S (length rest') + (fuel - S (length s + S (length rest')))))%nat at 1 by lia. rewrite parse_blanks by done. cbn [app].
    etrans; [|by apply (parse_comment rest')]. done.
  - rewrite !length_app in Hf. destruct digits as [|d digits]; [done|]. cbn [length] in Hf.
    exists (fuel - S (length s))%nat. split; [lia|]. rewrite <-app_assoc. replace fuel with (length s + S (fuel - S (length s)))%nat at 1 by lia. rewrite parse_blanks by done.
    rewrite <-!app_assoc. pose proof (scan_tag _ sep name tail rest Hne Hd Hv Hsep Hsne Hnne Hname Htail) as Ht. apply Forall_cons in Hd as [Hd _].
    cbn [app] in *. cbn [parseMapLines_loop]. destruct (digit_spec d Hd) as (-> & -> & _). rewrite Hd. change (zlen (option_list (Some ?x))) with 1 in Hn.
    rewrite (proj2 (Z.leb_gt _ _)) by (change (zlen (option_list _)) with 1 in Hn; lia). rewrite Ht. cbn [mbind outcome_bind]. by rewrite skipn_cons, drop_0.
Qed.

Lemma parse_file tags file n before fuel :
  map_file tags file → n = zlen before + zlen tags → (length file ≤ fuel)%nat → parseMapLines_loop fuel file n before true = Ret (Some (before ++ tags)).
Proof.
  intros Hm. revert before fuel. induction Hm as [|o line tags file Hl _ IH]; intros before fuel Hn Hf.
  - rewrite app_nil_r. destruct fuel; cbn; by rewrite Hn, zlen_nil, Z.add_0_r, Z.eqb_refl.
  - rewrite zlen_app in Hn. pose proof (zlen_nonneg tags). destruct (parse_line o line n before fuel file Hl ltac:(lia) Hf) as (fuel' & Hf' & ->). rewrite IH by (rewrite ?zlen_app; done || lia).
    by rewrite <-app_assoc.
Qed.

Lemma map_file_end tags file : map_file tags file → file ≠ [] → last file = Some NL.
Proof.
  induction 1 as [|o line tags file Hl Hm IH]; intros Hne; [done|]. rewrite last_app_cons. destruct file as [|c file]; [done|]. rewrite last_cons_cons. by apply IH.
Qed.

Lemma map_file_small tags file : map_file tags file → Forall tag_small tags.
Proof.
  induction 1 as [|o line tags file Hl Hm IH]; [done|]. apply Forall_app. split; [|done]. destruct Hl as [| |s digits sep name tail Hs Hne Hd Hv]; cbn [option_list]; [done..|].
  repeat constructor; cbn; [|done]. by apply number_value.
Qed.

(** C39: The map of event tags.  For a file of lines that are blank, comments, or
    a number below 2^31, a name and whatever follows it, opening the map succeeds
    exactly when no number occurs twice, and never reads past the file; then
    looking a number up gives its name, and none for a number that is not in the
    file. *)
Theorem event_tags_correct tags file :
  map_file tags file → file ≠ [] →
  if decide (NoDup (tagIndex <$> tags)) then
    ∃ m, android_openEventTagMap (Some file) = Ret (Some m) ∧
      (∀ t, t ∈ tags → android_lookupEventTag m (tagIndex t) = Some (tagStr t)) ∧
      (∀ n, 0 ≤ n < 2 ^ 31 → n ∉ tagIndex <$> tags → android_lookupEventTag m n = None)
  else android_openEventTagMap (Some file) = Ret None.
Proof.
  intros Hm Hne. destruct (qsort_sorted tags (map_file_small _ _ Hm)) as [Hs Hp]. set (m := qsort compareEventTags tags) in *.
  assert (Hopen : android_openEventTagMap (Some file) = Ret (if has_duplicate m then None else Some m)).
  { destruct file as [|c file]; [done|]. unfold android_openEventTagMap, processFile, parseMapLines, countMapLines. rewrite (map_file_end tags) by done.
    change (negb (char_eqb NL NL)) with false. cbn iota. rewrite (count_file tags), (parse_file tags) by (done || lia). done. }
  assert (Hsmall : Forall tag_small m) by (rewrite Hp; by apply (map_file_small _ file)).
  clearbody m. pose proof (no_duplicate m Hs) as Hd. assert (Hpn : NoDup (tagIndex <$> m) ↔ NoDup (tagIndex <$> tags)) by by rewrite Hp. rewrite Hpn in Hd. case_decide as Hnd; rewrite Hopen; [|destruct (has_duplicate m); [done|tauto]].
  rewrite (proj2 Hd Hnd). exists m. split; [done|]. assert (Hr := rising m Hs (proj1 (no_duplicate m Hs) (proj2 Hd Hnd))). split.
  - intros t Ht. rewrite <-Hp in Ht. assert (Hts : tag_small t) by by rewrite Forall_forall in Hsmall; apply Hsmall.
    pose proof (bisection_correct m (tagIndex t) Hsmall Hts Hr) as Hb. destruct (android_lookupEventTag m (tagIndex t)) as [s|]; [|by destruct (Hb t Ht)].
    destruct Hb as (t' & Ht' & He & <-). f_equal. apply list_elem_of_lookup in Ht as [i Hi], Ht' as [j Hj]. destruct (lt_eq_lt_dec i j) as [[Hij| ->]|Hij]; [|congruence|].
    + specialize (Hr i j t t' Hi Hj Hij). lia.
    + specialize (Hr j i t' t Hj Hi Hij). lia.
  - intros n Hn Hnin. pose proof (bisection_correct m n Hsmall Hn Hr) as Hb. destruct (android_lookupEventTag m n) as [s|]; [|done].
    destruct Hb as (t & Ht & <- & _). destruct Hnin. apply list_elem_of_fmap_2. by rewrite <-Hp.
Qed.

Lemma event_tags_correct_witness :
  let file := $"# event tags" ++ [NL] ++ $"30001 am_start (User|1|5)" ++ [NL] ++ [NL] ++ $" 42	answer" ++ [NL] in
  let tags := [mkTag 30001 $"am_start"; mkTag 42 $"answer"] in
  map_file tags file ∧
  if decide (NoDup (tagIndex <$> tags)) then
    ∃ m, android_openEventTagMap (Some file) = Ret (Some m) ∧
      (∀ t, t ∈ tags → android_lookupEventTag m (tagIndex t) = Some (tagStr t)) ∧
      (∀ n, 0 ≤ n < 2 ^ 31 → n ∉ tagIndex <$> tags → android_lookupEventTag m n = None)
  else android_openEventTagMap (Some file) = Ret None.
Proof.
  intros file tags. assert (Hm : map_file tags file).
  { apply (file_line None $"# event tags"); [apply (line_comment [] $" event tags"); [by apply Forall_nil_2|by apply (bool_decide_unpack _)]|].
    apply (file_line (Some (mkTag 30001 $"am_start")) $"30001 am_start (User|1|5)").
    { apply (line_tag [] $"30001" $" " $"am_start" $" (User|1|5)"); try done; try (by repeat constructor). right. exists " "%char, $"(User|1|5)". split; [done|]. split; [done|]. by apply (bool_decide_unpack _). }
    apply (file_line None []); [apply line_blank; by apply Forall_nil_2|]. apply (file_line (Some (mkTag 42 $"answer")) $" 42	answer"); [|constructor].
    apply (line_tag $" " $"42" $"	" $"answer" []); try done; try (by repeat constructor); by left. }
  split; [exact Hm|]. apply (event_tags_correct tags file Hm). done.
Defined.
