(* ===== verification/LogTime.v ===== *)
(** * Monotonic times of the log
    (src/lib/liblog/logprint.c)

    The time of an entry as time since the device was started: breakpoints that say
    how far the two clocks are apart are gathered from the kernel's messages, and
    between two of them the difference is interpolated.  The list of breakpoints is
    built once and kept. *)

From Stdlib Require Import ZArith Lia List Ascii String SpecFloat.
From stdpp Require Import base numbers list strings.
From S2P Require Import Prelude.
From S2P Require Import Libc.
From S2P Require Import Strings.
From S2P Require Import LogEvents.

Definition NS_PER_SEC : Z := 1000000000.
Record timespec := mkTime { t_sec : Z; t_nsec : Z }.

(** The digits behind the point; nine of them count. *)
Fixpoint read_fraction (p : bytes) (multiplier nsec : Z) : Z * bytes :=
  match p with
  | c :: t =>
      if isdigit c then
        let multiplier := multiplier / 10 in
        if multiplier =? 0 then (nsec, p) else read_fraction t multiplier (nsec + (cval c - 48) * multiplier)
      else (nsec, p)
  | [] => (nsec, [])
  end.
Definition readSeconds (e : bytes) : option (timespec * bytes) :=
  let '(sec, p, _) := strtoull 10 e in
  match p with
  | c :: p => if char_eqb c "." then let '(nsec, p) := read_fraction p NS_PER_SEC 0 in Some (mkTime (s64 sec) nsec, p) else None
  | [] => None
  end.

Definition sumTimespec (left right : timespec) : timespec :=
  let nsec := t_nsec left + t_nsec right in
  let sec := t_sec left + t_sec right in
  if NS_PER_SEC <=? nsec then mkTime (sec + 1) (nsec - NS_PER_SEC) else mkTime sec nsec.
Definition subTimespec (left right : timespec) : timespec :=
  let nsec := t_nsec left - t_nsec right in
  let sec := t_sec left - t_sec right in
  if nsec <? 0 then mkTime (sec - 1) (nsec + NS_PER_SEC) else mkTime sec nsec.
Definition nsecTimespec (now : timespec) : Z := s64 (t_sec now * NS_PER_SEC + t_nsec now).

(** ** Breakpoints *)

Record conversionList := mkConversion { time : timespec; convert : timespec }.

(** [strstr]: the string from the first occurrence on. *)
Fixpoint strstr (s p : bytes) : option bytes :=
  if starts_with s p then Some s else match s with [] => None | _ :: s => strstr s p end.
(** Behind the first occurrence. *)
Definition behind (s p : bytes) : option bytes := match strstr s p with Some t => Some (drop (length p) t) | None => None end.

(** The line behind the time in brackets that it starts with, from the bracket on. *)
Definition line_time (line : bytes) : option (timespec * bytes) :=
  let e := match line with c :: _ => if char_eqb c "<" then strchr line ">" else Some line | [] => Some [] end in
  match e with
  | None => None
  | Some e =>
      match e with
      | c :: e =>
          if char_eqb c "[" then
            match readSeconds ((fix blanks s := match s with c :: t => if char_eqb c " " then blanks t else s | [] => [] end) e) with
            | Some (monotonic, e) => if bool_decide (head e = Some "]"%char) then Some (monotonic, e) else None
            | None => None
            end
          else None
      | [] => None
      end
  end.

(** What a line says: a date follows, or how long the device slept. *)
Inductive marker := Date (e : bytes) | Suspended (diff : timespec).
Definition line_marker (line e : bytes) : option marker :=
  match behind e $"PM: suspend entry " with
  | Some e => Some (Date e)
  | None =>
      match behind line $"PM: suspend exit " with
      | Some e => Some (Date e)
      | None =>
          match (match behind line $"healthd" with Some e => behind e $": battery " | None => None end) with
          | Some e => Some (Date e)
          | None =>
              match behind line $"Suspended for " with
              | Some e => match readSeconds e with Some (diff, _) => Some (Suspended diff) | None => None end
              | None => None
              end
          end
      end
  end.

Section clock.
(** [strptime] with "%Y-%m-%d %H:%M:%S." and [mktime] in UTC. *)
Context (parse_date : bytes → option Z).

(** [e] ends with the date in front of the first " UTC", 29 characters long. *)
Definition date_of (e : bytes) : option timespec :=
  match strstr e $" UTC" with
  | None => None
  | Some cp =>
      let n := (length e - length cp)%nat in
      if (n <? 29)%nat then None
      else if negb (bool_decide (e !! (n - 10)%nat = Some "."%char)) then None
      else
        match readSeconds (drop (n - 10) e) with
        | None => None
        | Some (time, _) => match parse_date (drop (n - 29) e) with None => None | Some sec => Some (mkTime sec (t_nsec time)) end
        end
  end.

(** The breakpoints so far, and the sleep that has not been placed yet: when it
    ended and how long it was. *)
Record scan := mkScan { convertHead : list conversionList; pending : option (timespec * timespec) }.

Definition place_suspended (s : scan) : scan :=
  match pending s, last (convertHead s) with
  | Some (suspended_monotonic, suspended_diff), Some list =>
      let resume := 0 <? t_sec (subTimespec (subTimespec (time list) (convert list)) suspended_monotonic) in
      let convert := if resume then subTimespec (convert list) suspended_diff else convert list in
      let time := sumTimespec suspended_monotonic convert in
      mkScan (convertHead s ++ [mkConversion time convert; mkConversion (sumTimespec time suspended_diff) (sumTimespec convert suspended_diff)]) None
  | _, _ => s
  end.
Definition read_line (s : scan) (line : bytes) : scan :=
  match line_time line with
  | None => s
  | Some (monotonic, e) =>
      match line_marker line e with
      | None => s
      | Some (Date e) =>
          match date_of e with
          | None => s
          | Some time => place_suspended (mkScan (convertHead s ++ [mkConversion time (subTimespec time monotonic)]) (pending s))
          end
      | Some (Suspended diff) => place_suspended (mkScan (convertHead s) (Some (monotonic, diff)))
      end
  end.

(** [realtime], and the monotonic clock read twice. *)
Definition build_list (dmesg : option (list bytes)) (realtime first second : timespec) : list conversionList :=
  let s := match dmesg with None => mkScan [] None | Some lines => foldl read_line (mkScan [] None) lines end in
  let corrected := subTimespec first (subTimespec second first) in
  let now := mkConversion realtime (subTimespec realtime corrected) in
  let l := convertHead s ++ [now] in
  match pending s with
  | None => l
  | Some (suspended_monotonic, suspended_diff) =>
      let c := subTimespec (convert now) suspended_diff in
      let time := sumTimespec suspended_monotonic c in
      mkConversion time c :: mkConversion (sumTimespec time suspended_diff) (sumTimespec c suspended_diff) :: l
  end.
End clock.

(** ** Interpolation *)

(** [list] and [next] when the search stops. *)
Fixpoint find_breakpoint (sec nsec : Z) (l : list conversionList) (list next : conversionList) : conversionList * conversionList :=
  match l with
  | [] => (list, next)
  | n :: l =>
      if (sec <? t_sec (time n)) || ((sec =? t_sec (time n)) && (nsec <? t_nsec (time n))) then (list, n)
      else find_breakpoint sec nsec l n n
  end.

(** [float] arithmetic, and the conversion of a [float] to [long long]. *)
Definition float_of (z : Z) : spec_float := binary_normalize 24 128 z 0 false.
Definition float_mul : spec_float → spec_float → spec_float := SFmul 24 128.
Definition float_div : spec_float → spec_float → spec_float := SFdiv 24 128.
Definition float_trunc (f : spec_float) : outcome Z :=
  match f with
  | S754_zero _ => Ret 0
  | S754_finite s m e =>
      let v := if 0 <=? e then Z.pos m * 2 ^ e else Z.pos m / 2 ^ (- e) in
      let v := if s then - v else v in
      if (- 2 ^ 63 <=? v) && (v <? 2 ^ 63) then Ret v else Abort "float out of range"
  | _ => Abort "float out of range"
  end.

Definition blend (list next : conversionList) (entry : timespec) : outcome timespec :=
  let total := u64 (nsecTimespec (subTimespec (time next) (time list))) in
  let run := u64 (nsecTimespec (subTimespec entry (time list))) in
  let c := convert list in
  if run <? total then
    let f := float_of (nsecTimespec (subTimespec (convert next) c)) in
    crun ← float_trunc (float_div (float_mul f (float_of run)) (float_of total));
    let sec := t_sec c + Z.quot crun NS_PER_SEC in
    if crun <? 0 then
      let nsec := t_nsec c - (- crun) mod NS_PER_SEC in
      Ret (if nsec <? 0 then mkTime (sec - 1) (nsec + NS_PER_SEC) else mkTime sec nsec)
    else
      let nsec := t_nsec c + crun mod NS_PER_SEC in
      Ret (if NS_PER_SEC <=? nsec then mkTime (sec + 1) (nsec - NS_PER_SEC) else mkTime sec nsec)
  else Ret c.

(** [list] is the list of breakpoints kept from before; an empty one is built. *)
Definition convertMonotonic (build : list conversionList) (kept : list conversionList) (entry : timespec) : outcome (timespec * list conversionList) :=
  let l := match kept with [] => build | _ => kept end in
  match l with
  | [] => Abort "an empty list has no head"
  | h :: _ =>
      let '(list, next) := find_breakpoint (t_sec entry) (t_nsec entry) l h h in
      c ← blend list next entry;
      Ret (subTimespec entry c, l)
  end.

(** ** Properties *)

Definition normal (t : timespec) : Prop := 0 ≤ t_nsec t < NS_PER_SEC.
Definition nanos (t : timespec) : Z := t_sec t * NS_PER_SEC + t_nsec t.

Lemma sum_normal a b : normal a → normal b → normal (sumTimespec a b) ∧ nanos (sumTimespec a b) = nanos a + nanos b.
Proof. unfold normal, nanos, sumTimespec, NS_PER_SEC. intros Ha Hb. destruct (Z.leb_spec 1000000000 (t_nsec a + t_nsec b)); cbn; lia. Qed.
Lemma sub_normal a b : normal a → normal b → normal (subTimespec a b) ∧ nanos (subTimespec a b) = nanos a - nanos b.
Proof. unfold normal, nanos, subTimespec, NS_PER_SEC. intros Ha Hb. destruct (Z.ltb_spec (t_nsec a - t_nsec b) 0); cbn; lia. Qed.
Lemma normal_eq a b : normal a → normal b → nanos a = nanos b → a = b.
Proof.
  destruct a as [s n], b as [s' n']. unfold normal, nanos, NS_PER_SEC. cbn. intros Ha Hb He. assert (s = s') as <- by nia. f_equal. lia.
Qed.

(** Without messages of the kernel the time is that of the entry less the
    difference of the clocks now, the second reading making up for the time the
    first one took. *)
Lemma convertMonotonic_alone parse_date realtime first second entry :
  normal realtime → normal first → normal second → normal entry →
  ∃ t, convertMonotonic (build_list parse_date None realtime first second) [] entry =
      Ret (t, [mkConversion realtime (subTimespec realtime (subTimespec first (subTimespec second first)))]) ∧
    normal t ∧ nanos t = nanos entry - (nanos realtime - (2 * nanos first - nanos second)).
Proof.
  intros Hr H1 H2 He. destruct (sub_normal second first H2 H1) as [Hd Ed]. destruct (sub_normal first _ H1 Hd) as [Hc Ec]. destruct (sub_normal realtime _ Hr Hc) as [Hv Ev].
  set (c := subTimespec realtime _) in *. destruct (sub_normal entry c He Hv) as [Ht Et]. exists (subTimespec entry c). split; [|split; [done|lia]].
  unfold convertMonotonic, build_list. cbn [convertHead pending app find_breakpoint]. fold c.
  assert (Hb : blend (mkConversion realtime c) (mkConversion realtime c) entry = Ret c).
  { unfold blend. cbn [time convert]. destruct (sub_normal realtime realtime Hr Hr) as [Hz Ez]. assert (subTimespec realtime realtime = mkTime 0 0) as -> by (apply normal_eq; [done|by vm_compute|rewrite Ez; unfold nanos; cbn; lia]).
    rewrite (proj2 (Z.ltb_ge _ _)); [done|]. apply u64_range. }
  cbn [time]. destruct (_ || _)%bool; rewrite Hb; done.
Qed.

(** The clocks were an hour apart before the device slept for ten seconds. *)
Example monotonic_ex :
  let date (s : bytes) := Some (if starts_with s $"1970-01-01 01:01:40" then 3700 else 3800) in
  let lines := [$"[  100.000000] PM: suspend entry 1970-01-01 01:01:40.000000000 UTC"; $"[  200.000000] Suspended for 10.500 seconds";
    $"<6>[  300.0] PM: suspend entry 1970-01-01 01:01:40.000000000 UTC"] in
  let build := build_list date (Some lines) (mkTime 4010 500000000) (mkTime 400 0) (mkTime 400 100) in
  (c ← convertMonotonic build [] (mkTime 3650 0); Ret c.1) = Ret (mkTime 50 0) ∧
  (c ← convertMonotonic build [] (mkTime 4000 0); Ret c.1) = Ret (mkTime 389 499999906).
Proof. vm_compute. done. Qed.
(** A line that starts with its priority is never read: the scan stops at the ">". *)
Example priority_skipped : line_time $"<6>[  300.0] PM: suspend entry" = None.
Proof. by vm_compute. Qed.
