(* ===== verification/LogPrint.v ===== *)
(** * Printing the log
    (src/lib/liblog/logprint.c)

    From an entry as the log daemon sends it to the lines that are shown: the entry
    is taken apart, a binary event is written out as text, and a line is laid out in
    a buffer.  Memory is the list of the bytes from a pointer to the end of its
    object; reading or writing past it, and reading what was never written, is
    [Abort]. *)

From Stdlib Require Import ZArith Lia List Ascii String.
From stdpp Require Import base numbers list strings.
From S2P Require Import Prelude.
From S2P Require Import Libc.
From S2P Require Import Strings.
From S2P Require Import Wire.
From S2P Require Import IOVector.
From S2P Require Import LogEvents.
From S2P Require Import LogFilter.
From S2P Require Import LogTags.

(** ** Entries *)

(** A pointer into an object is what follows it there. *)
Record AndroidLogEntry := mkEntry {
  tv_sec : Z;
  tv_nsec : Z;
  priority : Z;
  uid : Z;
  pid : Z;
  tid : Z;
  tag : bytes;
  messageLen : Z;
  message : bytes
}.

(** Members of [struct logger_entry] and its versions 2 to 4. *)
Definition load_at (buf : bytes) (off n : Z) : outcome bytes :=
  CHECK (off + n <=? zlen buf) "read past the entry" ;; Ret (slice buf off n).
Definition member16 (buf : bytes) (off : Z) : outcome Z := b ← load_at buf off 2; Ret (le_val b).
Definition member32 (buf : bytes) (off : Z) : outcome Z := b ← load_at buf off 4; Ret (le_val b).
Definition sizeof_v3 : Z := 24.
Definition sizeof_v4 : Z := 28.
Definition msg_v1 : Z := 20.

(** The ends of the tag and of the message: [msgStart] and [msgEnd], -1 when
    there is none. *)
Fixpoint find_ends (n : nat) (i : Z) (s : bytes) (msgStart : Z) : outcome (Z * Z) :=
  match n with
  | O => Ret (msgStart, -1)
  | S n =>
      match s with
      | [] => Abort "read past the entry"
      | c :: s =>
          if char_eqb c NUL then if msgStart =? -1 then find_ends n (i + 1) s (i + 1) else Ret (msgStart, i)
          else find_ends n (i + 1) s msgStart
      end
  end.

Definition android_log_processLogBuffer (buf : bytes) : outcome (option AndroidLogEntry) :=
  sec ← member32 buf 12;
  nsec ← member32 buf 16;
  pid ← member32 buf 4;
  tid ← member32 buf 8;
  len ← member16 buf 0;
  if len <? 3 then Ret None
  else
    hdr_size ← member16 buf 2;
    let msg := if hdr_size =? 0 then msg_v1 else hdr_size in
    uid ← (if sizeof_v4 <=? hdr_size then u ← member32 buf 24; Ret (s32 u) else Ret (-1));
    '(msgStart, msgEnd) ← find_ends (Z.to_nat (len - 1)) 1 (drop (Z.to_nat (msg + 1)) buf) (-1);
    if msgStart =? -1 then Ret None
    else
      '(msgEnd, buf) ← (if msgEnd =? -1 then b ← memcpy buf (msg + (len - 1)) [NUL]; Ret (len - 1, b) else Ret (msgEnd, buf));
      pri ← load_at buf msg 1;
      Ret (Some (mkEntry (s32 sec) (s32 nsec) (schar (default NUL (head pri))) uid (s32 pid) (s32 tid)
        (drop (Z.to_nat (msg + 1)) buf) (if msgEnd <? msgStart then 0 else msgEnd - msgStart) (drop (Z.to_nat (msg + msgStart)) buf))).

(** ** Binary events *)

(** Where the event is read and the text is written; [room] is [outBufLen], and
    [out] is what has been written from the start of the message on. *)
Record pstate := mkP { eventData : bytes; eventDataLen : Z; out : bytes; room : Z }.
Definition eat (n : Z) (p : pstate) : pstate := mkP (drop (Z.to_nat n) (eventData p)) (eventDataLen p - n) (out p) (room p).
Definition get4LE (src : bytes) : outcome Z := CHECK (4 <=? zlen src) "read past the entry" ;; Ret (word_at src 0).
Definition get8LE (src : bytes) : outcome Z :=
  CHECK (8 <=? zlen src) "read past the entry" ;; Ret (Z.lor (Z.shiftl (word_at src 4) 32) (word_at src 0)).

(** Half to even. *)
Definition round_div (a b : Z) : Z :=
  let q := a / b in let r := a mod b in
  if (2 * r <? b) || ((2 * r =? b) && Z.even q) then q else q + 1.
Definition pad_left (c : ascii) (w : Z) (s : bytes) : bytes := replicate (Z.to_nat (w - zlen s)) c ++ s.
Definition pad_to (w : Z) (s : bytes) : bytes := s ++ replicate (Z.to_nat (w - zlen s)) " "%char.
(** [%f] of a [float] with these bits. *)
Definition print_float (bits : Z) : bytes :=
  let e := Z.land (Z.shiftr bits 23) 255 in
  let m := Z.land bits (2 ^ 23 - 1) in
  let sign := if Z.testbit bits 31 then ["-"%char] else [] in
  if e =? 255 then sign ++ (if m =? 0 then $"inf" else $"nan")
  else
    let m := if e =? 0 then m else m + 2 ^ 23 in
    let x := if e =? 0 then -149 else e - 150 in
    let micros := if 0 <=? x then m * 2 ^ x * 10 ^ 6 else round_div (m * 10 ^ 6) (2 ^ (- x)) in
    sign ++ print_dec (micros / 10 ^ 6) ++ "."%char :: pad_left "0" 6 (print_dec (micros mod 10 ^ 6)).

Section print.
(** The bytes of the buffer from the start of the message on. *)
Context (cap : Z).

Definition has_room (p : pstate) (n : Z) : outcome unit := CHECK (zlen (out p) + n <=? cap) "written past the buffer".
(** [memcpy] to [outBuf], which then moves on. *)
Definition emit (s : bytes) (p : pstate) : outcome pstate :=
  has_room p (zlen s) ;; Ret (mkP (eventData p) (eventDataLen p) (out p ++ s) (room p - zlen s)).
(** [snprintf] of [s]; what it has written stays out of sight when it was cut off. *)
Definition print (s : bytes) (p : pstate) : outcome (Z * pstate) :=
  has_room p (Z.min (room p) (zlen s + 1)) ;;
  if zlen s <? room p then Ret (0, mkP (eventData p) (eventDataLen p) (out p ++ s) (room p - zlen s)) else Ret (1, p).
Definition put (c : ascii) (p : pstate) : outcome (Z * pstate) :=
  if 0 <? room p then p ← emit [c] p; Ret (0, p) else Ret (1, p).

(** The elements of a list that are left. *)
Fixpoint print_elements (event : pstate → outcome (Z * pstate)) (count : nat) (p : pstate) : outcome (Z * pstate) :=
  match count with
  | O => Ret (0, p)
  | S count =>
      '(result, p) ← event p;
      if negb (result =? 0) then Ret (result, p)
      else if (count =? 0)%nat then Ret (0, p)
      else
        '(result, p) ← put "," p;
        if negb (result =? 0) then Ret (result, p) else print_elements event count p
  end.

(** Every nested list takes two bytes of the event. *)
Fixpoint android_log_printBinaryEvent (fuel : nat) (p : pstate) : outcome (Z * pstate) :=
  match fuel with
  | O => Abort "out of fuel"
  | S fuel =>
      if eventDataLen p <? 1 then Ret (-1, p)
      else
        type ← (match eventData p with [] => Abort "read past the entry" | c :: _ => Ret (cval c) end);
        let p := eat 1 p in
        if type =? EVENT_TYPE_INT then
          if eventDataLen p <? 4 then Ret (-1, p) else ival ← get4LE (eventData p); print (print_dec (s32 ival)) (eat 4 p)
        else if type =? EVENT_TYPE_LONG then
          if eventDataLen p <? 8 then Ret (-1, p) else lval ← get8LE (eventData p); print (print_dec (s64 lval)) (eat 8 p)
        else if type =? EVENT_TYPE_FLOAT then
          if eventDataLen p <? 4 then Ret (-1, p) else ival ← get4LE (eventData p); print (print_float ival) (eat 4 p)
        else if type =? EVENT_TYPE_STRING then
          if eventDataLen p <? 4 then Ret (-1, p)
          else
            strLen ← get4LE (eventData p);
            let p := eat 4 p in
            if eventDataLen p <? strLen then Ret (-1, p)
            else
              CHECK (Z.min strLen (room p) <=? zlen (eventData p)) "read past the entry" ;;
              if strLen <? room p then p' ← emit (take (Z.to_nat strLen) (eventData p)) p; Ret (0, eat strLen p')
              else if 0 <? room p then p' ← emit (take (Z.to_nat (room p)) (eventData p)) p; Ret (1, p')
              else Ret (0, eat strLen p)
        else if type =? EVENT_TYPE_LIST then
          if eventDataLen p <? 1 then Ret (-1, p)
          else
            count ← (match eventData p with [] => Abort "read past the entry" | c :: _ => Ret (cval c) end);
            '(result, p) ← put "[" (eat 1 p);
            if negb (result =? 0) then Ret (result, p)
            else
              '(result, p) ← print_elements (android_log_printBinaryEvent fuel) (Z.to_nat count) p;
              if negb (result =? 0) then Ret (result, p) else put "]" p
        else Ret (-1, p)
  end.
End print.

Definition replace_last (s : bytes) (c : ascii) : bytes := take (length s - 1) s ++ [c].

(** The end of the text: the mark that something is missing, and the NUL. *)
Definition finish_text (cap : Z) (result : Z) (p : pstate) : outcome pstate :=
  p ← (if result =? 1 then
         match out p with
         | [] => has_room cap p 1 ;; Ret (mkP (eventData p) 0 ["!"%char] (u64 (room p - 1)))
         | _ => Ret (mkP (eventData p) 0 (replace_last (out p) "!") (room p))
         end
       else Ret p);
  has_room cap p 1 ;;
  CHECK (zlen (out p) =? u64 (cap - 1 - room p)) "entry->messageLen == (messageBufLen-1) - outRemaining" ;;
  Ret p.

(** [messageBuf] has [messageBufLen] bytes, an [int]. *)
Definition android_log_processBinaryLogBuffer (map : option (list EventTag)) (messageBufLen : Z) (buf : bytes) : outcome (option AndroidLogEntry) :=
  sec ← member32 buf 12;
  nsec ← member32 buf 16;
  pid ← member32 buf 4;
  tid ← member32 buf 8;
  hdr_size ← member16 buf 2;
  let msg := if hdr_size =? 0 then msg_v1 else hdr_size in
  pri ← (if sizeof_v3 <=? hdr_size then lid ← member32 buf 20; Ret (if lid =? LOG_ID_SECURITY then ANDROID_LOG_WARN else ANDROID_LOG_INFO) else Ret ANDROID_LOG_INFO);
  uid ← (if sizeof_v4 <=? hdr_size then u ← member32 buf 24; Ret (s32 u) else Ret (-1));
  len ← member16 buf 0;
  if len <? 4 then Ret None
  else
    tagIndex ← get4LE (drop (Z.to_nat msg) buf);
    let inCount := len - 4 in
    let known := match map with Some m => android_lookupEventTag m (s32 tagIndex) | None => None end in
    let generated := "["%char :: print_dec (s32 tagIndex) ++ ["]"%char] in
    let '(tag, messageBufLen) :=
      match known with
      | Some tag => (tag, messageBufLen)
      | None => (take (Z.to_nat (messageBufLen - 1)) generated, messageBufLen - (zlen generated + 1))
      end in
    let outRemaining := u64 (messageBufLen - 1) in
    '(result, p) ← android_log_printBinaryEvent messageBufLen (S (Z.to_nat inCount)) (mkP (drop (Z.to_nat (msg + 4)) buf) inCount [] outRemaining);
    if result <? 0 then Ret None
    else
      p ← finish_text messageBufLen result p;
      Ret (Some (mkEntry (s32 sec) (s32 nsec) pri uid (s32 pid) (s32 tid) (tag ++ [NUL]) (zlen (out p)) (out p ++ [NUL]))).

(** ** Characters that can be printed *)

Definition kUnicodeMaxCodepoint : Z := 0x0010FFFF.
Definition byte_at (src : bytes) : outcome Z := match src with [] => Abort "read past the message" | c :: _ => Ret (cval c) end.

(** The loop over the bytes that follow: -1, or [utf32], [num_to_read], [mask]
    and [to_ignore_mask] at its end.  [char] is signed. *)
Fixpoint utf8_loop (fuel : nat) (first_char len utf32 num_to_read mask to_ignore_mask : Z) (cur : bytes) : outcome (option (Z * Z * Z * Z)) :=
  match fuel with
  | O => Abort "out of fuel"
  | S fuel =>
      if (num_to_read <? 5) && negb (Z.land first_char mask =? 0) then
        if len <? num_to_read then Ret None
        else
          c ← byte_at cur;
          if negb (Z.land c 0xC0 =? 0x80) then Ret None
          else utf8_loop fuel first_char len (u32 (u32 (Z.shiftl utf32 6) + Z.land c 0x3f)) (num_to_read + 1) (Z.shiftr mask 1) (Z.lor to_ignore_mask mask) (drop 1 cur)
      else Ret (Some (utf32, num_to_read, mask, to_ignore_mask))
  end.
Definition utf8_character_length (src : bytes) (len : Z) : outcome Z :=
  c ← byte_at src;
  let first_char := schar (of_cval c) in
  if Z.land first_char 0x80 =? 0 then Ret (if first_char =? 0 then -1 else 1)
  else if Z.land first_char 0x40 =? 0 then Ret (-1)
  else
    r ← utf8_loop 6 first_char len 1 1 0x40 0x80 (drop 1 src);
    match r with
    | None => Ret (-1)
    | Some (utf32, num_to_read, mask, to_ignore_mask) =>
        if 5 <=? num_to_read then Ret (-1)
        else
          let to_ignore_mask := Z.lor to_ignore_mask mask in
          let utf32 := Z.lor utf32 (u32 (Z.shiftl (Z.land (Z.lnot to_ignore_mask) first_char) (6 * (num_to_read - 1)))) in
          Ret (if kUnicodeMaxCodepoint <? utf32 then -1 else num_to_read)
    end.

(** [%o], or [%03o]. *)
Definition print_oct (z : Z) : bytes := numeral 8 z.
Definition BSL : ascii := of_cval 92.
(** What stands for a character of length 1; [None]: the character itself. *)
Definition escape1 (c : ascii) : option bytes :=
  if cval c =? 7 then Some [BSL; "a"%char]
  else if cval c =? 8 then Some [BSL; "b"%char]
  else if cval c =? 9 then Some [c]
  else if cval c =? 11 then Some [BSL; "v"%char]
  else if cval c =? 12 then Some [BSL; "f"%char]
  else if cval c =? 13 then Some [BSL; "r"%char]
  else if cval c =? 92 then Some [BSL; BSL]
  else if (schar c <? 32) || negb (Z.land (cval c) 0x80 =? 0) then Some (BSL :: print_oct (cval c))
  else None.
(** One round: what is printed, and how many bytes it stands for. *)
Definition convert_one (message : bytes) (messageLen : Z) : outcome (bytes * Z) :=
  c ← byte_at message;
  let c := of_cval c in
  len ← utf8_character_length message (Z.min 5 messageLen);
  if len <? 0 then
    digit ← (if 1 <? messageLen then d ← byte_at (drop 1 message); Ret (isdigit (of_cval d)) else Ret false);
    Ret (BSL :: (if (digit : bool) then pad_left "0" 3 (print_oct (cval c)) else print_oct (cval c)), 1)
  else
    match (if len =? 1 then escape1 c else None) with
    | Some s => Ret (s, len)
    | None => CHECK (len <=? zlen message) "read past the message" ;; Ret (c_str (take (Z.to_nat len) message), len)
    end.
(** The text; a round takes a byte at least. *)
Fixpoint convert_loop (fuel : nat) (message : bytes) (messageLen : Z) : outcome bytes :=
  if messageLen =? 0 then Ret []
  else
    match fuel with
    | O => Abort "out of fuel"
    | S fuel =>
        '(s, len) ← convert_one message messageLen;
        t ← convert_loop fuel (drop (Z.to_nat len) message) (u64 (messageLen - len));
        Ret (s ++ t)
    end.
Definition convertPrintable (message : bytes) (messageLen : Z) : outcome bytes := convert_loop (Z.to_nat messageLen) message messageLen.

(** Another control character than a newline may look like one. *)
Example ambiguous_escape : convertPrintable [of_cval 1; "2"%char; NUL] 2 = convertPrintable [NL; NUL] 1.
Proof. by vm_compute. Qed.
(** A letter with an accent is shown as two escapes: [char] being signed, its
    first byte has ones above its eight bits, which the mask leaves. *)
Example accent_escaped : convertPrintable [of_cval 195; of_cval 169; NUL] 2 = Ret (BSL :: $"303" ++ BSL :: $"251").
Proof. by vm_compute. Qed.
