(* ===== verification/LogLine.v ===== *)
(** * A line of the log
    (src/lib/liblog/logprint.c, src/include/private/android_filesystem_config.h)

    How an entry is laid out: the prefix and the suffix of its lines are put
    together in two buffers of 128 bytes, the size of the result is computed, and
    the lines are written one by one into a buffer of the caller or a larger one. *)

From Stdlib Require Import ZArith Lia List Ascii String.
From stdpp Require Import base numbers list strings.
From S2P Require Import Prelude.
From S2P Require Import Libc.
From S2P Require Import Strings.
From S2P Require Import LogEvents.
From S2P Require Import LogFilter.
From S2P Require Import LogTags.
From S2P Require Import LogTime.
From S2P Require Import LogPrint.

(** ** Memory that is written *)

(** A byte nobody has written is [None]. *)
Abbreviation memory := (list (option ascii)).
Definition load_byte (b : memory) (i : Z) : outcome ascii :=
  match b !! Z.to_nat i with
  | None => Abort "access past the buffer"
  | Some None => Abort "read of a byte that was not written"
  | Some (Some c) => Ret c
  end.
Fixpoint write_bytes (b : memory) (i : Z) (s : bytes) : outcome memory :=
  match s with
  | [] => Ret b
  | c :: s => CHECK (i <? zlen b) "access past the buffer" ;; write_bytes (<[Z.to_nat i := Some c]> b) (i + 1) s
  end.
(** [strlen] of what is at [i]. *)
Fixpoint mem_strlen (fuel : nat) (b : memory) (i : Z) : outcome Z :=
  match fuel with
  | O => Abort "access past the buffer"
  | S fuel => c ← load_byte b i; if char_eqb c NUL then Ret 0 else n ← mem_strlen fuel b (i + 1); Ret (1 + n)
  end.
Definition strcat (b : memory) (p : Z) (s : bytes) : outcome memory :=
  n ← mem_strlen (S (length b)) b p; write_bytes b (p + n) (s ++ [NUL]).
Definition strncat (b : memory) (p : Z) (s : bytes) (n : Z) : outcome memory := strcat b p (c_str (take (Z.to_nat n) s)).
(** The bytes of a C string in memory. *)
Fixpoint string_of (s : bytes) : outcome bytes :=
  match s with [] => Abort "read past the string" | c :: s => if char_eqb c NUL then Ret [] else t ← string_of s; Ret (c :: t) end.

(** ** The prefix and the suffix *)

(** [snprintf] of [text] into [size] bytes: what is in the buffer then; the result is
    the length of [text]. *)
Definition snprintf (size : Z) (text : bytes) : bytes := take (Z.to_nat (size - 1)) text.
Definition sizeof_buf : Z := 128.

Definition android_ids : list (bytes * Z) :=
  [($"root", 0); ($"system", 1000); ($"radio", 1001); ($"bluetooth", 1002); ($"graphics", 1003); ($"input", 1004); ($"audio", 1005);
   ($"camera", 1006); ($"log", 1007); ($"compass", 1008); ($"mount", 1009); ($"wifi", 1010); ($"adb", 1011); ($"install", 1012);
   ($"media", 1013); ($"dhcp", 1014); ($"sdcard_rw", 1015); ($"vpn", 1016); ($"keystore", 1017); ($"usb", 1018); ($"drm", 1019);
   ($"mdnsr", 1020); ($"gps", 1021); ($"media_rw", 1023); ($"mtp", 1024); ($"drmrpc", 1026); ($"nfc", 1027); ($"sdcard_r", 1028);
   ($"clat", 1029); ($"loop_radio", 1030); ($"mediadrm", 1031); ($"package_info", 1032); ($"sdcard_pics", 1033); ($"sdcard_av", 1034);
   ($"sdcard_all", 1035); ($"logd", 1036); ($"shared_relro", 1037); ($"dbus", 1038); ($"tlsdate", 1039); ($"mediaex", 1040);
   ($"audioserver", 1041); ($"metrics_coll", 1042); ($"metricsd", 1043); ($"webserv", 1044); ($"debuggerd", 1045); ($"mediacodec", 1046);
   ($"cameraserver", 1047); ($"firewall", 1048); ($"trunks", 1049); ($"nvram", 1050); ($"shell", 2000); ($"cache", 2001); ($"diag", 2002);
   ($"net_bt_admin", 3001); ($"net_bt", 3002); ($"inet", 3003); ($"net_raw", 3004); ($"net_admin", 3005); ($"net_bw_stats", 3006);
   ($"net_bw_acct", 3007); ($"net_bt_stack", 3008); ($"readproc", 3009); ($"wakelock", 3010); ($"everybody", 9997); ($"misc", 9998); ($"nobody", 9999)].

Section line.
(** [strftime] of the local time, with or without the year, and of its zone. *)
Context (date : bool → Z → bytes) (zone : Z → bytes).
(** The clock of the log is CLOCK_MONOTONIC; what [convertMonotonic] would build. *)
Context (monotonic_clock : bool) (build : list conversionList).

(** [timeBuf], and the breakpoints that are kept. *)
Definition time_text (f : AndroidLogFormat) (entry : AndroidLogEntry) (kept : list conversionList) : outcome (bytes * list conversionList) :=
  '(now, nsec, kept) ←
    (if monotonic_output f && negb monotonic_clock then
       '(t, kept) ← convertMonotonic build kept (mkTime (tv_sec entry) (tv_nsec entry)); Ret (t_sec t, u64 (t_nsec t), kept)
     else Ret (tv_sec entry, u64 (tv_nsec entry), kept));
  let nsec := if now <? 0 then u64 (NS_PER_SEC - nsec) else nsec in
  let numeric := epoch_output f || monotonic_output f in
  let text := if numeric then pad_left " " (if monotonic_output f then 6 else 19) (print_dec now) else date (year_output f) now in
  let timeBuf := snprintf 64 text in
  let fraction := "."%char :: (if usec_time_output f then pad_left "0" 6 (print_dec (s64 (nsec / 1000))) else pad_left "0" 3 (print_dec (s64 (nsec / 1000000)))) in
  let len := zlen timeBuf + zlen fraction in
  let timeBuf := timeBuf ++ snprintf (64 - zlen timeBuf) fraction in
  if zone_output f && negb numeric then
    CHECK (len + zlen (zone now) <? 64) "timeBuf is too small" ;; Ret (timeBuf ++ zone now, kept)
  else Ret (timeBuf, kept).

Fixpoint id_name (ids : list (bytes * Z)) (aid : Z) : option bytes :=
  match ids with [] => None | (name, a) :: ids => if a =? aid then Some name else id_name ids aid end.
(** The array [uid]. *)
Definition uid_text (f : AndroidLogFormat) (uid : Z) : bytes :=
  if uid_output f then
    if 0 <=? uid then
      let number := pad_left " " 5 (print_dec uid) ++ [":"%char] in
      snprintf 16 (match id_name android_ids (u32 uid) with Some name => if zlen name <=? 5 then pad_left " " 5 name ++ [":"%char] else number | None => number end)
    else snprintf 16 $"      "
  else [].
Definition colon_to_blank (s : bytes) : bytes :=
  match strchr s ":" with Some t => take (length s - length t) s ++ " "%char :: drop 1 t | None => s end.

Definition ESC : ascii := of_cval 27.
Definition dec5 (z : Z) : bytes := pad_left " " 5 (print_dec z).
(** What is printed behind the colour, and whether it stands around the message
    instead of around each of its lines. *)
Definition header_text (f : AndroidLogFormat) (entry : AndroidLogEntry) (timeBuf uidBuf tag : bytes) : bytes * bool :=
  let priChar := filterPriToChar (priority entry) in
  match format f with
  | FORMAT_TAG => (priChar :: "/"%char :: pad_to 8 tag ++ $": ", false)
  | FORMAT_PROCESS => (priChar :: "("%char :: uidBuf ++ dec5 (pid entry) ++ $") ", false)
  | FORMAT_THREAD => (priChar :: "("%char :: uidBuf ++ dec5 (pid entry) ++ ":"%char :: dec5 (tid entry) ++ $") ", false)
  | FORMAT_RAW => ([], false)
  | FORMAT_TIME => (timeBuf ++ " "%char :: priChar :: "/"%char :: pad_to 8 tag ++ "("%char :: uidBuf ++ dec5 (pid entry) ++ $"): ", false)
  | FORMAT_THREADTIME =>
      (timeBuf ++ " "%char :: colon_to_blank uidBuf ++ dec5 (pid entry) ++ " "%char :: dec5 (tid entry) ++ " "%char :: priChar :: " "%char :: pad_to 8 tag ++ $": ", false)
  | FORMAT_LONG =>
      ($"[ " ++ timeBuf ++ " "%char :: uidBuf ++ dec5 (pid entry) ++ ":"%char :: dec5 (tid entry) ++ " "%char :: priChar :: "/"%char :: pad_to 8 tag ++ $" ]" ++ [NL], true)
  | _ => (priChar :: "/"%char :: pad_to 8 tag ++ "("%char :: uidBuf ++ dec5 (pid entry) ++ $"): ", false)
  end.

(** A string in a buffer and the length the code holds it to have. *)
Definition colour_prefix (f : AndroidLogFormat) (pri : Z) : bytes :=
  if colored_output f then ESC :: $"[38;5;" ++ print_dec (colorFromPri pri) ++ $"m" else [].
Definition make_prefix (f : AndroidLogFormat) (pri : Z) (text : bytes) : bytes * Z :=
  let colour := colour_prefix f pri in
  let prefixBuf := snprintf sizeof_buf colour in
  let prefixLen := Z.min (zlen colour) sizeof_buf in
  let prefixBuf := prefixBuf ++ snprintf (sizeof_buf - prefixLen) text in
  let prefixLen := prefixLen + zlen text in
  (prefixBuf, if sizeof_buf <=? prefixLen then sizeof_buf - 1 else prefixLen).
Definition make_suffix (f : AndroidLogFormat) (tag : bytes) : bytes * Z :=
  let suffixBuf := if colored_output f then ESC :: $"[0m" else [] in
  let suffixLen := zlen suffixBuf in
  let '(suffixBuf, suffixLen) :=
    match format f with
    | FORMAT_PROCESS =>
        let text := $"  (" ++ tag ++ ")"%char :: [NL] in
        (suffixBuf ++ snprintf (sizeof_buf - suffixLen) text, suffixLen + Z.min (zlen text) (sizeof_buf - suffixLen))
    | FORMAT_LONG => (suffixBuf ++ [NL; NL], suffixLen + 2)
    | _ => (suffixBuf ++ [NL], suffixLen + 1)
    end in
  if sizeof_buf <=? suffixLen then (take (Z.to_nat (sizeof_buf - 2)) suffixBuf ++ [NL], sizeof_buf - 1) else (suffixBuf, suffixLen).

(** ** The buffer *)

Fixpoint count_newlines (s : bytes) : Z := match s with [] => 0 | c :: s => (if char_eqb c NL then 1 else 0) + count_newlines s end.
Definition numLines (s : bytes) : Z := count_newlines s + (match last s with Some c => if char_eqb c NL then 0 else 1 | None => 0 end).

(** [src], [n] bytes long, is written at [p]. *)
Definition put_text (printable : bool) (b : memory) (p : Z) (src : bytes) (n : Z) : outcome (memory * Z) :=
  if printable then
    t ← convertPrintable src n;
    b ← (if n =? 0 then Ret b else write_bytes b p (t ++ [NUL]));
    Ret (b, p + zlen t)
  else b ← strncat b p src n; Ret (b, p + n).

Fixpoint line_length (s : bytes) : Z := match s with [] => 0 | c :: s => if char_eqb c NL then 0 else 1 + line_length s end.
(** Every round but the last goes on in the message. *)
Fixpoint lines_loop (fuel : nat) (printable : bool) (prefix suffix : bytes * Z) (message : bytes) (messageLen : Z) (b : memory) (p pm : Z) : outcome (memory * Z) :=
  match fuel with
  | O => Abort "out of fuel"
  | S fuel =>
      let lineStart := drop (Z.to_nat pm) message in
      let lineLen := line_length (take (Z.to_nat (messageLen - pm)) lineStart) in
      b ← strcat b p prefix.1;
      '(b, p) ← put_text printable b (p + prefix.2) lineStart lineLen;
      b ← strcat b p suffix.1;
      let p := p + suffix.2 in
      c ← byte_at (drop (Z.to_nat (pm + lineLen)) message);
      let pm := if c =? 10 then pm + lineLen + 1 else pm + lineLen in
      if pm <? messageLen then lines_loop fuel printable prefix suffix message messageLen b p pm else Ret (b, p)
  end.

(** The memory that is returned, the length of what is in it, and whether it is
    the buffer of the caller. *)
Definition android_log_formatLogLine (malloc : Z → bool) (f : AndroidLogFormat) (defaultBufferSize : Z) (entry : AndroidLogEntry) (kept : list conversionList) :
    outcome (option (memory * Z * bool) * list conversionList) :=
  '(timeBuf, kept) ← time_text f entry kept;
  tag ← string_of (tag entry);
  let '(text, prefixSuffixIsHeaderFooter) := header_text f entry timeBuf (uid_text f (uid entry)) tag in
  let prefix := make_prefix f (priority entry) text in
  let suffix := make_suffix f tag in
  CHECK (messageLen entry <=? zlen (message entry)) "read past the message" ;;
  let text := take (Z.to_nat (messageLen entry)) (message entry) in
  let lines := if (prefixSuffixIsHeaderFooter : bool) then 1 else numLines text in
  extra ← (if printable_output f then t ← convertPrintable (message entry) (messageLen entry); Ret (zlen t) else Ret (messageLen entry));
  let bufferSize := u64 (lines * (prefix.2 + suffix.2) + 1 + extra) in
  let default := bufferSize <=? defaultBufferSize in
  if negb default && negb (malloc bufferSize) then Ret (None, kept)
  else
    let b := replicate (Z.to_nat (if default then defaultBufferSize else bufferSize)) None in
    b ← write_bytes b 0 [NUL];
    '(b, p) ←
      (if prefixSuffixIsHeaderFooter then
         b ← strcat b 0 prefix.1;
         '(b, p) ← put_text (printable_output f) b prefix.2 (message entry) (messageLen entry);
         b ← strcat b p suffix.1;
         Ret (b, p + suffix.2)
       else lines_loop (S (length (message entry))) (printable_output f) prefix suffix (message entry) (messageLen entry) b 0 0);
    Ret (Some (b, p, default), kept).

(** The bytes that [write] is given. *)
Fixpoint written_bytes (b : memory) : outcome bytes :=
  match b with
  | [] => Ret []
  | Some c :: b => t ← written_bytes b; Ret (c :: t)
  | None :: _ => Abort "write of bytes that were not written"
  end.
(** The results of [write], [None] being [EINTR], until one is another; what it
    was called with every time, and the result of the function. *)
Fixpoint write_again (results : list (option Z)) : option Z :=
  match results with [] => None | None :: results => write_again results | Some r :: _ => Some (if r <? 0 then 0 else r) end.
Definition android_log_printLogLine (malloc : Z → bool) (f : AndroidLogFormat) (results : list (option Z)) (entry : AndroidLogEntry) (kept : list conversionList) :
    outcome (option bytes * option Z * list conversionList) :=
  '(line, kept) ← android_log_formatLogLine malloc f 512 entry kept;
  match line with
  | None => Ret (None, Some (-1), kept)
  | Some (b, totalLen, _) =>
      CHECK (totalLen <=? zlen b) "access past the buffer" ;;
      text ← written_bytes (take (Z.to_nat totalLen) b);
      Ret (Some text, write_again results, kept)
  end.
End line.
