(* ===== verification/LogPrintSpec.v ===== *)
(** * What the printing of the log promises
    (src/lib/liblog/logprint.c)

    The text with its escapes, entries as the log daemon sends them, and binary
    events: whatever they consist of the buffer is not left, and what a client
    wrote is shown. *)

From Stdlib Require Import ZArith Lia List Ascii String.
From stdpp Require Import base numbers list strings.
From S2P Require Import Prelude.
From S2P Require Import Libc.
From S2P Require Import Strings.
From S2P Require Import Wire.
From S2P Require Import IOVector.
From S2P Require Import LogEvents.
From S2P Require Import LogRoundtrip.
From S2P Require Import LogFilter.
From S2P Require Import LogTags.
From S2P Require Import LogPrint.

(** ** Escapes *)

(** Only ASCII is printed as it is. *)
Definition plain (c : ascii) : bool := (1 <=? cval c) && (cval c <? 128).
Definition escape_char (c : ascii) (next : option ascii) : bytes :=
  if plain c then default [c] (escape1 c)
  else BSL :: (if (match next with Some d => isdigit d | None => false end) then pad_left "0" 3 (print_oct (cval c)) else print_oct (cval c)).
Fixpoint escape (s : bytes) : bytes := match s with [] => [] | c :: s => escape_char c (head s) ++ escape s end.

(** The bytes the loop leaves to the masks. *)
Definition masks (n mask ignore : Z) : Prop := (n, mask, ignore) ∈ [(1, 0x40, 0x80); (2, 0x20, 0xC0); (3, 0x10, 0xE0); (4, 0x8, 0xF0); (5, 0x4, 0xF8)].

(** A character that is not the middle of another. *)
Definition no_middle (e : ascii) : Prop := Z.land (cval e) 0xC0 ≠ 0x80.

Lemma utf8_loop_Ret e fuel first len utf32 n mask ignore s rest :
  no_middle e → masks n mask ignore → 5 < n + Z.of_nat fuel → 0 ≤ utf32 →
  ∃ r, utf8_loop fuel first len utf32 n mask ignore (s ++ e :: rest) = Ret r ∧
    match r with None => True | Some (v, n, mask, ignore) => 0 ≤ v ∧ masks n mask ignore end.
Proof.
  intros He. revert utf32 n mask ignore s. induction fuel as [|fuel IH]; intros v n mask ignore s Hm Hf Hv.
  { exfalso. unfold masks in Hm. rewrite !elem_of_cons, elem_of_nil in Hm. naive_solver lia. }
  cbn [utf8_loop]. destruct (Z.ltb_spec n 5) as [Hn|Hn]; [|by eexists; split; [done|]]. destruct (Z.land first mask =? 0); [by eexists; split; [done|]|]. cbn [negb andb].
  destruct (len <? n); [by eexists|]. destruct s as [|c s]; [cbn [app byte_at mbind outcome_bind]; rewrite (proj2 (Z.eqb_neq _ _) He); by eexists|]. cbn [app byte_at mbind outcome_bind].
  destruct (Z.land (cval c) 192 =? 128); [|by eexists]. cbn [negb]. rewrite skipn_cons, drop_0. apply IH; [|lia|apply u32_range].
  unfold masks in *. rewrite !elem_of_cons, elem_of_nil in *. destruct Hm as [Hm|[Hm|[Hm|[Hm|[Hm|[]]]]]]; injection Hm as -> -> ->; cbn; [tauto..|lia].
Qed.

Lemma u32_negative x : - 2 ^ 26 ≤ x < 0 → 2 ^ 31 ≤ u32 x < 2 ^ 32.
Proof. intros Hx. unfold u32. replace (x mod 2 ^ 32) with (x + 2 ^ 32) by (apply (Z.mod_unique _ _ (-1)); lia). lia. Qed.
Lemma lor_large a b : 0 ≤ a → 2 ^ 31 ≤ b < 2 ^ 32 → kUnicodeMaxCodepoint < Z.lor a b.
Proof.
  intros Ha Hb. assert (31 ≤ Z.log2 b) by (apply Z.log2_le_pow2; lia). assert (H31 : 31 ≤ Z.log2 (Z.lor a b)) by (rewrite Z.log2_lor by lia; lia).
  assert (0 < Z.lor a b) by (destruct (Z.le_gt_cases (Z.lor a b) 0) as [Hle|]; [rewrite (Z.log2_nonpos _ Hle) in H31|]; lia).
  apply Z.log2_le_pow2 in H31; [unfold kUnicodeMaxCodepoint; lia|done].
Qed.

Lemma utf8_signed e c s rest len :
  no_middle e → utf8_character_length (c :: s ++ e :: rest) len = Ret (if plain c then 1 else -1).
Proof.
  intros He. unfold utf8_character_length. cbn [byte_at mbind outcome_bind]. rewrite of_cval_cval. unfold plain. pose proof (cval_range c) as Hc.
  destruct (Z.ltb_spec (cval c) 128) as [Hlt|Hge].
  - assert (schar c = cval c) as -> by (unfold schar; by rewrite (proj2 (Z.ltb_lt _ _)) by done). assert (Z.land (cval c) 128 = 0) as ->. { apply Z.bits_inj'. intros n Hn. rewrite Z.land_spec, Z.bits_0. destruct (Z.eq_dec n 7) as [->|Hne]; [rewrite (Z.bits_above_log2 (cval c)); [done|lia|]; destruct (Z.eq_dec (cval c) 0) as [->|]; [done|]; apply Z.log2_lt_pow2; lia|]. change 128 with (2 ^ 7). by rewrite Z.pow2_bits_false, andb_false_r by lia. }
    rewrite andb_true_r. cbn [Z.eqb].
    destruct (Z.eqb_spec (cval c) 0) as [H0|H0]; [by rewrite H0|]. by rewrite (proj2 (Z.leb_le _ _)) by lia.
  - rewrite andb_false_r. assert (Hs : - 128 ≤ schar c < 0) by (unfold schar; rewrite (proj2 (Z.ltb_ge _ _)) by lia; lia).
    destruct (Z.eqb_spec (Z.land (schar c) 128) 0) as [E0|_].
    { apply (f_equal (λ z, Z.testbit z 7)) in E0. rewrite Z.land_spec, Z.bits_0, Z.testbit_odd, Z.shiftr_div_pow2 in E0 by done.
      by rewrite <-(Z.div_unique (schar c) (2 ^ 7) (-1) (schar c + 128)) in E0 by lia. }
    destruct (_ =? 0); [done|]. rewrite skipn_cons, drop_0.
    destruct (utf8_loop_Ret e 6 (schar c) len 1 1 64 128 s rest He) as ([[[[v n] mask] ignore]|] & -> & Hr); [by left|lia|lia| |done].
    cbn [mbind outcome_bind]. destruct Hr as [Hv Hm]. destruct (Z.leb_spec 5 n) as [|Hn]; [done|].
    rewrite (proj2 (Z.ltb_lt _ _)); [done|]. apply lor_large; [done|]. apply u32_negative.
    assert (Hx : - 2 ^ 8 ≤ Z.land (Z.lnot (Z.lor ignore mask)) (schar c) < 0).
    { assert (Hi : 0 ≤ Z.lor ignore mask < 256) by (unfold masks in Hm; rewrite !elem_of_cons, elem_of_nil in Hm; destruct Hm as [Hm|[Hm|[Hm|[Hm|[Hm|[]]]]]]; injection Hm as -> -> ->; by vm_compute).
      set (i := Z.lnot _). assert (Hi' : - 256 ≤ i < 0) by (unfold i, Z.lnot; lia).
      assert (Hs8 : Z.shiftr (Z.land i (schar c)) 8 = -1).
      { rewrite Z.shiftr_land, !Z.shiftr_div_pow2 by done. rewrite <-(Z.div_unique i (2 ^ 8) (-1) (i + 256)) by lia. by rewrite <-(Z.div_unique (schar c) (2 ^ 8) (-1) (schar c + 256)) by lia. }
      rewrite Z.shiftr_div_pow2 in Hs8 by done. pose proof (Z.div_mod (Z.land i (schar c)) (2 ^ 8) ltac:(lia)). pose proof (Z.mod_pos_bound (Z.land i (schar c)) (2 ^ 8) ltac:(lia)). lia. }
    assert (1 ≤ n) by (unfold masks in Hm; rewrite !elem_of_cons, elem_of_nil in Hm; naive_solver lia).
    rewrite Z.shiftl_mul_pow2 by lia. assert (2 ^ 0 ≤ 2 ^ (6 * (n - 1)) ≤ 2 ^ 18) by (split; apply Z.pow_le_mono_r; lia). nia.
Qed.

Lemma plain_not_nul c : plain c = true → char_eqb c NUL = false.
Proof. intros Hp. destruct (char_eqb_spec c NUL) as [->|]; [by vm_compute in Hp|done]. Qed.

Lemma convert_one_Ret e c s rest : no_middle e → convert_one (c :: s ++ e :: rest) (zlen (c :: s)) = Ret (escape_char c (head s), 1).
Proof.
  intros He. unfold convert_one. cbn [byte_at mbind outcome_bind]. rewrite utf8_signed, of_cval_cval by done. cbn [mbind outcome_bind]. unfold escape_char. destruct (plain c) eqn:Hp.
  - cbn [Z.ltb Z.compare Z.eqb Pos.eqb]. destruct (escape1 c); [done|]. rewrite (proj2 (Z.leb_le _ _)) by (rewrite zlen_cons; pose proof (zlen_nonneg (s ++ e :: rest)); lia).
    change (take (Z.to_nat 1) (c :: s ++ e :: rest)) with [c]. cbn [mbind outcome_bind CHECK]. cbn [c_str]. by rewrite (plain_not_nul c Hp).
  - cbn [Z.ltb Z.compare]. rewrite skipn_cons, drop_0, zlen_cons. destruct s as [|d s].
    + by rewrite zlen_nil.
    + rewrite zlen_cons, (proj2 (Z.ltb_lt _ _)) by (pose proof (zlen_nonneg s); lia). cbn [byte_at app mbind outcome_bind head]. by rewrite of_cval_cval.
Qed.

Lemma convert_loop_Ret e fuel s rest : no_middle e → (length s ≤ fuel)%nat → zlen s < 2 ^ 64 → convert_loop fuel (s ++ e :: rest) (zlen s) = Ret (escape s).
Proof.
  intros He. revert fuel. induction s as [|c s IH]; intros fuel Hf Hs; [by destruct fuel|]. destruct fuel as [|fuel]; [cbn in Hf; lia|]. pose proof (zlen_nonneg s). cbn [convert_loop app].
  rewrite zlen_cons in *. rewrite (proj2 (Z.eqb_neq _ _)) by lia. pose proof (convert_one_Ret e c s rest He) as Hc. rewrite zlen_cons in Hc. rewrite Hc. cbn [mbind outcome_bind].
  change (Z.to_nat 1) with 1%nat. rewrite skipn_cons, drop_0, Z.add_simpl_l, u64_small by lia. by rewrite IH by (cbn in Hf; lia).
Qed.

(** The text in front of a NUL or the end of a line is converted without a look
    behind it. *)
Lemma convertPrintable_Ret e s rest : no_middle e → zlen s < 2 ^ 64 → convertPrintable (s ++ e :: rest) (zlen s) = Ret (escape s).
Proof. intros He Hs. apply convert_loop_Ret; [done|unfold zlen; lia|done]. Qed.

(** An escape is four characters at most. *)
Lemma escape_char_length c next : zlen (escape_char c next) ≤ 4.
Proof.
  assert (Ho : zlen (print_oct (cval c)) ≤ 3).
  { pose proof (cval_range c). assert (0 ≤ cval c < 8 ^ Z.of_nat 3) by (change (8 ^ Z.of_nat 3) with 512; lia).
    pose proof (digits_fuel_length 8 ltac:(lia) (S (Z.to_nat (Z.log2 (cval c)))) 3 (cval c) [] ltac:(done) ltac:(lia)) as Hl. unfold print_oct, numeral, zlen. cbn [length] in Hl. lia. }
  assert (Hp : zlen (pad_left "0" 3 (print_oct (cval c))) ≤ 3) by (unfold pad_left; rewrite zlen_app; unfold zlen at 1; rewrite length_replicate; pose proof (zlen_nonneg (print_oct (cval c))); lia).
  unfold escape_char, escape1. repeat case_match; cbn [default id]; rewrite ?zlen_cons, ?zlen_nil; lia.
Qed.
Lemma escape_length s : zlen (escape s) ≤ 4 * zlen s.
Proof. induction s as [|c s IH]; [done|]. cbn [escape]. rewrite zlen_app, zlen_cons. pose proof (escape_char_length c (head s)). lia. Qed.
(** A line does not look into the next one. *)
Lemma escape_line l s : escape (l ++ NL :: s) = escape l ++ escape_char NL (head s) ++ escape s.
Proof.
  induction l as [|c l IH]; [done|]. cbn [app escape]. rewrite IH, <-app_assoc. f_equal. by destruct l.
Qed.

(** ** Binary events: the buffer is not left *)

(** One of the results of a function. *)
Ltac among := rewrite ?elem_of_cons; tauto.

Section safe.
Context (cap : Z).

(** What is readable is there, and what is written leaves a byte for the NUL. *)
Record printing (p : pstate) : Prop := {
  pr_data : 0 ≤ eventDataLen p ≤ zlen (eventData p);
  pr_room : 0 ≤ room p;
  pr_cap : zlen (out p) + room p = cap - 1
}.
(** A step ends, and what was printed before stays. *)
Definition prints_safely (p : pstate) (m : outcome (Z * pstate)) : Prop :=
  ∃ r p', m = Ret (r, p') ∧ printing p' ∧ r ∈ [-1; 0; 1] ∧ out p `prefix_of` out p' ∧ eventDataLen p' ≤ eventDataLen p.

Lemma printing_eat n p : printing p → 0 ≤ n ≤ eventDataLen p → printing (eat n p).
Proof. intros [Hd Hr Hc] Hn. constructor; cbn; [rewrite zlen_drop; lia|done..]. Qed.

Lemma emit_Ret s p : printing p → zlen s ≤ room p → ∃ p', emit cap s p = Ret p' ∧ printing p' ∧ out p' = out p ++ s ∧ eventDataLen p' = eventDataLen p ∧ eventData p' = eventData p ∧ room p' = room p - zlen s.
Proof.
  intros [Hd Hr Hc] Hs. unfold emit, has_room. rewrite (proj2 (Z.leb_le _ _)) by lia. eexists. split; [done|]. split_and!; try done. constructor; cbn; [done|lia|]. rewrite zlen_app. lia.
Qed.
Lemma print_safe s p : printing p → prints_safely p (print cap s p).
Proof.
  intros Hp. pose proof Hp as [Hd Hr Hc]. pose proof (zlen_nonneg s). unfold print, has_room. rewrite (proj2 (Z.leb_le _ _)) by lia. cbn [CHECK mbind outcome_bind].
  destruct (Z.ltb_spec (zlen s) (room p)).
  - exists 0. eexists. split; [done|]. split; [constructor; cbn; [done|lia|rewrite zlen_app; lia]|]. split; [among|]. split; [by apply prefix_app_r|done].
  - exists 1, p. split_and!; try done. among.
Qed.
Lemma put_safe c p : printing p → prints_safely p (put cap c p).
Proof.
  intros Hp. unfold put. destruct (Z.ltb_spec 0 (room p)).
  - destruct (emit_Ret [c] p Hp) as (p' & -> & Hp' & Ho & Hl & _); [change (zlen [c]) with 1; lia|]. exists 0, p'. cbn. split_and!; try done; [among|rewrite Ho; by apply prefix_app_r|lia].
  - exists 1, p. split_and!; try done. among.
Qed.

(** What is done next goes on from there. *)
Lemma safely_trans p p' m : out p `prefix_of` out p' → eventDataLen p' ≤ eventDataLen p → prints_safely p' m → prints_safely p m.
Proof. intros Ho Hl (r & q & -> & Hq & Hr & Hoq & Hlq). exists r, q. split_and!; try done; [by etrans|lia]. Qed.
Lemma safely_stop p r : printing p → r ∈ [-1; 0; 1] → prints_safely p (Ret (r, p)).
Proof. intros Hp Hr. by exists r, p. Qed.
Lemma safely_bind p m f : prints_safely p m → (∀ p', printing p' → out p `prefix_of` out p' → eventDataLen p' ≤ eventDataLen p → prints_safely p' (f p')) →
  prints_safely p ('(result, p) ← m; if negb (result =? 0) then Ret (result, p) else f p).
Proof.
  intros (r & q & -> & Hq & Hr & Ho & Hl) Hf. cbn. destruct (r =? 0); cbn; [by eapply safely_trans, Hf|]. eapply safely_trans; [done..|]. by apply safely_stop.
Qed.

Lemma elements_safe event n p :
  (∀ q, printing q → eventDataLen q ≤ eventDataLen p → prints_safely q (event q)) → printing p → prints_safely p (print_elements cap event n p).
Proof.
  revert p. induction n as [|n IH]; intros p He Hp; cbn [print_elements]; [apply safely_stop; [done|among]|].
  apply (safely_bind p (event p) (λ p, if (n =? 0)%nat then Ret (0, p) else '(result, p) ← put cap "," p; if negb (result =? 0) then Ret (result, p) else print_elements cap event n p)); [by apply He|].
  intros p1 Hp1 Ho1 Hl1. destruct (n =? 0)%nat; [apply safely_stop; [done|among]|]. apply safely_bind; [by apply put_safe|].
  intros p2 Hp2 Ho2 Hl2. apply IH; [|done]. intros q Hq Hlq. apply He; [done|lia].
Qed.

Lemma safely_eat n p m : printing p → 0 ≤ n ≤ eventDataLen p → (printing (eat n p) → prints_safely (eat n p) m) → prints_safely p m.
Proof. intros Hp Hn Hm. eapply (safely_trans p (eat n p)); [done|cbn; lia|]. apply Hm. by apply printing_eat. Qed.

Lemma number_safe n (get : bytes → outcome Z) (text : Z → bytes) p :
  printing p → 0 ≤ n → (∀ s, n ≤ zlen s → ∃ v, get s = Ret v) →
  prints_safely p (if eventDataLen p <? n then Ret (-1, p) else v ← get (eventData p); print cap (text v) (eat n p)).
Proof.
  intros Hp Hn Hg. pose proof Hp as [Hd Hr Hc]. destruct (Z.ltb_spec (eventDataLen p) n); [apply safely_stop; [done|among]|].
  destruct (Hg (eventData p)) as [v ->]; [lia|]. cbn. apply (safely_eat n); [done|lia|]. apply print_safe.
Qed.
Lemma get4LE_Ret s : 4 ≤ zlen s → get4LE s = Ret (word_at s 0).
Proof. intros Hs. unfold get4LE. by rewrite (proj2 (Z.leb_le _ _)) by lia. Qed.
Lemma get8LE_Ret s : 8 ≤ zlen s → get8LE s = Ret (get64 s).
Proof. intros Hs. unfold get8LE. by rewrite (proj2 (Z.leb_le _ _)) by lia. Qed.

Lemma string_safe p :
  printing p → 4 ≤ eventDataLen p →
  prints_safely p (strLen ← get4LE (eventData p);
    let p := eat 4 p in
    if eventDataLen p <? strLen then Ret (-1, p)
    else
      CHECK (Z.min strLen (room p) <=? zlen (eventData p)) "read past the entry" ;;
      if strLen <? room p then p' ← emit cap (take (Z.to_nat strLen) (eventData p)) p; Ret (0, eat strLen p')
      else if 0 <? room p then p' ← emit cap (take (Z.to_nat (room p)) (eventData p)) p; Ret (1, p')
      else Ret (0, eat strLen p)).
Proof.
  intros Hp H4. rewrite get4LE_Ret by (destruct Hp; lia). cbn [mbind outcome_bind]. set (n := word_at _ _). assert (Hn : 0 ≤ n) by apply word_at_range. clearbody n.
  apply (safely_eat 4); [done|lia|]. intros Hq. clear Hp H4. generalize dependent (eat 4 p). clear p. intros p Hp. pose proof Hp as [Hd Hr Hc].
  destruct (Z.ltb_spec (eventDataLen p) n); [apply safely_stop; [done|among]|]. rewrite (proj2 (Z.leb_le _ _)) by lia. cbn [CHECK mbind outcome_bind].
  destruct (Z.ltb_spec n (room p)); [|destruct (Z.ltb_spec 0 (room p))].
  - destruct (emit_Ret (take (Z.to_nat n) (eventData p)) p Hp) as (q & -> & Hq & Ho & Hl & _); [rewrite zlen_take by lia; lia|]. cbn. exists 0, (eat n q).
    split; [done|]. split; [apply printing_eat; [done|lia]|]. split; [among|]. split; [cbn; rewrite Ho; by apply prefix_app_r|cbn; lia].
  - destruct (emit_Ret (take (Z.to_nat (room p)) (eventData p)) p Hp) as (q & -> & Hq & Ho & Hl & _); [rewrite zlen_take by lia; lia|]. cbn. exists 1, q.
    split_and!; try done; [among|rewrite Ho; by apply prefix_app_r|lia].
  - apply (safely_eat n); [done|lia|]. intros Hq. apply safely_stop; [done|among].
Qed.

Lemma first_byte p : printing p → 1 ≤ eventDataLen p → ∃ c s, eventData p = c :: s.
Proof. intros [Hd _ _] H1. destruct (eventData p) as [|c s] eqn:E; [change (zlen (@nil ascii)) with 0 in Hd; lia|eauto]. Qed.

(** Whatever the event consists of, nothing is written past the buffer or read
    past the event, and the recursion ends. *)
Lemma event_safe fuel p : printing p → eventDataLen p < Z.of_nat fuel → prints_safely p (android_log_printBinaryEvent cap fuel p).
Proof.
  revert p. induction fuel as [|fuel IH]; intros p Hp Hf; [destruct Hp; lia|]. cbn [android_log_printBinaryEvent].
  destruct (Z.ltb_spec (eventDataLen p) 1); [apply safely_stop; [done|among]|]. destruct (first_byte p Hp) as (c & s & Hcs); [done|]. rewrite Hcs at 1. cbn [mbind outcome_bind].
  apply (safely_eat 1); [done|lia|]. intros Hq. assert (Hl : eventDataLen (eat 1 p) < Z.of_nat fuel) by (cbn; lia). clear Hp Hcs H Hf s. generalize dependent (eat 1 p). clear p. intros p Hp Hl.
  destruct (_ =? EVENT_TYPE_INT); [apply (number_safe 4 get4LE (λ v, print_dec (s32 v))); [done|done|eauto using get4LE_Ret]|].
  destruct (_ =? EVENT_TYPE_LONG); [apply (number_safe 8 get8LE (λ v, print_dec (s64 v))); [done|done|eauto using get8LE_Ret]|].
  destruct (_ =? EVENT_TYPE_FLOAT); [apply (number_safe 4 get4LE print_float); [done|done|eauto using get4LE_Ret]|].
  destruct (_ =? EVENT_TYPE_STRING); [destruct (Z.ltb_spec (eventDataLen p) 4); [apply safely_stop; [done|among]|by apply string_safe]|].
  destruct (_ =? EVENT_TYPE_LIST); [|apply safely_stop; [done|among]].
  destruct (Z.ltb_spec (eventDataLen p) 1); [apply safely_stop; [done|among]|]. destruct (first_byte p Hp) as (n & s & Hns); [done|]. rewrite Hns at 1. cbn [mbind outcome_bind].
  apply (safely_eat 1); [done|lia|]. intros Hq. apply safely_bind; [by apply put_safe|]. intros p1 Hp1 _ Hl1. apply safely_bind; [|intros p2 Hp2 _ _; by apply put_safe].
  apply elements_safe; [|done]. intros q Hq' Hlq. apply IH; [done|]. cbn in *. lia.
Qed.
End safe.

(** ** Entries *)

Lemma member16_Ret buf off : off + 2 ≤ zlen buf → member16 buf off = Ret (le_val (slice buf off 2)).
Proof. intros Hb. unfold member16, load_at. by rewrite (proj2 (Z.leb_le _ _)) by lia. Qed.
Lemma member32_Ret buf off : off + 4 ≤ zlen buf → member32 buf off = Ret (le_val (slice buf off 4)).
Proof. intros Hb. unfold member32, load_at. by rewrite (proj2 (Z.leb_le _ _)) by lia. Qed.

(** An entry that has been read: its header, of one version or another, says how
    many bytes follow it, and they are there. *)
Record received (buf : bytes) (msg len : Z) : Prop := {
  rc_len : member16 buf 0 = Ret len;
  rc_msg : ∃ hdr_size, member16 buf 2 = Ret hdr_size ∧ msg = (if hdr_size =? 0 then msg_v1 else hdr_size) ∧ (hdr_size = 0 ∨ 20 ≤ hdr_size);
  rc_fits : 0 ≤ len ∧ msg + len ≤ zlen buf
}.
Lemma received_msg buf msg len : received buf msg len → 20 ≤ msg.
Proof. intros [_ (h & _ & -> & Hh) _]. destruct (Z.eqb_spec h 0); unfold msg_v1; lia. Qed.

(** Members that only later versions have. *)
Lemma lid_Ret buf msg len hdr_size : received buf msg len → msg = (if hdr_size =? 0 then msg_v1 else hdr_size) →
  ∃ pri, (if sizeof_v3 <=? hdr_size then lid ← member32 buf 20; Ret (if lid =? LOG_ID_SECURITY then ANDROID_LOG_WARN else ANDROID_LOG_INFO) else Ret ANDROID_LOG_INFO) = Ret pri.
Proof.
  intros [_ _ Hf] Hm. unfold sizeof_v3, msg_v1 in *. destruct (Z.leb_spec 24 hdr_size); [|eauto]. rewrite (proj2 (Z.eqb_neq _ _)) in Hm by lia. rewrite member32_Ret by lia. cbn. eauto.
Qed.
Lemma uid_Ret buf msg len hdr_size : received buf msg len → msg = (if hdr_size =? 0 then msg_v1 else hdr_size) →
  ∃ uid, (if sizeof_v4 <=? hdr_size then u ← member32 buf 24; Ret (s32 u) else Ret (-1)) = Ret uid.
Proof.
  intros [_ _ Hf] Hm. unfold sizeof_v4, msg_v1 in *. destruct (Z.leb_spec 28 hdr_size); [|eauto]. rewrite (proj2 (Z.eqb_neq _ _)) in Hm by lia. rewrite member32_Ret by lia. cbn. eauto.
Qed.

(** The tag that is made up for a number without a name. *)
Definition generated_tag (n : Z) : bytes := "["%char :: print_dec (s32 n) ++ ["]"%char].
Lemma print_dec_length z : - 2 ^ 31 ≤ z < 2 ^ 31 → 1 ≤ zlen (print_dec z) ≤ 11.
Proof.
  intros Hz. assert (Hn : ∀ y, 0 ≤ y ≤ 2 ^ 31 → 1 ≤ zlen (numeral 10 y) ≤ 10).
  { intros y Hy. pose proof (digits_fuel_length 10 ltac:(lia) (S (Z.to_nat (Z.log2 y))) 10 y []) as Hl. change (10 ^ Z.of_nat 10) with 10000000000 in Hl. specialize (Hl ltac:(lia) ltac:(lia)).
    pose proof (numeral_starts 10 ltac:(lia) y ltac:(lia)) as Hs. unfold numeral in *. destruct (digits_fuel _ 10 y []) as [|c s]; [done|]. unfold zlen in *. cbn [length] in *. lia. }
  unfold print_dec. destruct (Z.ltb_spec z 0); [rewrite zlen_cons; pose proof (Hn (- z) ltac:(lia))|pose proof (Hn z ltac:(lia))]; lia.
Qed.
Lemma generated_tag_length n : 3 ≤ zlen (generated_tag n) ≤ 13.
Proof. unfold generated_tag. rewrite zlen_cons, zlen_app. pose proof (print_dec_length (s32 n) (s32_range n)). change (zlen ["]"%char]) with 1. lia. Qed.

Lemma replace_last_length s c : s ≠ [] → zlen (replace_last s c) = zlen s.
Proof. intros Hs. unfold replace_last. rewrite zlen_app. destruct s; [done|]. unfold zlen. rewrite length_take. cbn. lia. Qed.
Lemma finish_safe cap result p : printing cap p → 2 ≤ cap < 2 ^ 31 → ∃ q, finish_text cap result p = Ret q ∧ zlen (out q) ≤ cap - 1 ∧ (result ≠ 1 → q = p).
Proof.
  intros [Hd Hr Hc] H2. unfold finish_text. pose proof (zlen_nonneg (out p)). destruct (Z.eqb_spec result 1).
  - destruct (out p) as [|c s] eqn:Ho.
    + change (zlen (@nil ascii)) with 0 in Hc. unfold has_room. rewrite Ho. change (zlen (@nil ascii)) with 0. rewrite (proj2 (Z.leb_le _ _)) by lia. cbn [CHECK mbind outcome_bind out room]. change (zlen ["!"%char]) with 1. rewrite (proj2 (Z.leb_le _ _)) by lia. cbn [CHECK mbind outcome_bind].
      rewrite (u64_small (room p - 1)) by lia. rewrite u64_small by lia. rewrite (proj2 (Z.eqb_eq _ _)) by lia. eexists. split; [done|]. split; [cbn; change (zlen ["!"%char]) with 1; lia|done].
    + cbn [mbind outcome_bind out room]. rewrite <-Ho in *. assert (Hl : zlen (replace_last (out p) "!") = zlen (out p)) by (apply replace_last_length; by rewrite Ho). unfold has_room. cbn [out]. rewrite Hl. rewrite (proj2 (Z.leb_le _ _)) by lia. cbn [CHECK mbind outcome_bind room].
      rewrite u64_small, (proj2 (Z.eqb_eq _ _)) by lia. eexists. split; [done|]. split; [cbn; lia|done].
  - cbn [mbind outcome_bind]. unfold has_room. rewrite (proj2 (Z.leb_le _ _)) by lia. cbn [CHECK mbind outcome_bind]. rewrite u64_small, (proj2 (Z.eqb_eq _ _)) by lia. eexists. split; [done|]. split; [lia|done].
Qed.

(** The steps of [android_log_processBinaryLogBuffer] for an entry with a number. *)
Lemma process_binary_Ret map cap buf msg len :
  received buf msg len → 4 ≤ len →
  ∃ sec nsec pri uid pid tid, android_log_processBinaryLogBuffer map cap buf =
    (let n := word_at (drop (Z.to_nat msg) buf) 0 in
     let '(tag, avail) :=
       match (match map with Some m => android_lookupEventTag m (s32 n) | None => None end) with
       | Some tag => (tag, cap)
       | None => (take (Z.to_nat (cap - 1)) (generated_tag n), cap - (zlen (generated_tag n) + 1))
       end in
     '(result, p) ← android_log_printBinaryEvent avail (S (Z.to_nat (len - 4))) (mkP (drop (Z.to_nat (msg + 4)) buf) (len - 4) [] (u64 (avail - 1)));
     if result <? 0 then Ret None
     else p ← finish_text avail result p; Ret (Some (mkEntry sec nsec pri uid pid tid (tag ++ [NUL]) (zlen (out p)) (out p ++ [NUL])))).
Proof.
  intros Hr Hl. pose proof (received_msg _ _ _ Hr) as H20. pose proof Hr as [Hlen (h & Hh & Hm & Hh0) Hf]. destruct (lid_Ret _ _ _ _ Hr Hm) as [pri Hpri], (uid_Ret _ _ _ _ Hr Hm) as [uid Huid].
  exists (s32 (le_val (slice buf 12 4))), (s32 (le_val (slice buf 16 4))), pri, uid, (s32 (le_val (slice buf 4 4))), (s32 (le_val (slice buf 8 4))).
  unfold android_log_processBinaryLogBuffer. rewrite (member32_Ret buf 12), (member32_Ret buf 16), (member32_Ret buf 4), (member32_Ret buf 8) by lia. cbn [mbind outcome_bind]. rewrite Hh. cbn [mbind outcome_bind]. rewrite <-Hm, Hpri. cbn [mbind outcome_bind]. rewrite Huid. cbn [mbind outcome_bind].
  rewrite Hlen. cbn [mbind outcome_bind]. rewrite (proj2 (Z.ltb_ge _ _)) by lia. rewrite get4LE_Ret by (rewrite zlen_drop; lia). done.
Qed.

Lemma process_binary_short map cap buf msg len : received buf msg len → len < 4 → android_log_processBinaryLogBuffer map cap buf = Ret None.
Proof.
  intros Hr Hl. pose proof (received_msg _ _ _ Hr) as H20. pose proof Hr as [Hlen (h & Hh & Hm & Hh0) Hf]. destruct (lid_Ret _ _ _ _ Hr Hm) as [pri Hpri], (uid_Ret _ _ _ _ Hr Hm) as [uid Huid].
  unfold android_log_processBinaryLogBuffer. rewrite (member32_Ret buf 12), (member32_Ret buf 16), (member32_Ret buf 4), (member32_Ret buf 8) by lia. cbn [mbind outcome_bind]. rewrite Hh. cbn [mbind outcome_bind]. rewrite Hpri. cbn [mbind outcome_bind]. rewrite Huid. cbn [mbind outcome_bind].
  rewrite Hlen. cbn [mbind outcome_bind]. by rewrite (proj2 (Z.ltb_lt _ _)) by lia.
Qed.

(** C37: A binary entry cannot make the log overrun its buffers.  Whatever the
    event of an entry consists of, converting it into a buffer of at least 16 bytes
    ends, reads nothing behind the entry, writes nothing behind the buffer, and
    fails no assertion; the tag and the message are terminated strings that fit in
    the buffer together, when the tag is not one of the map. *)
Theorem binary_entry_safe map cap buf msg len :
  received buf msg len → 16 ≤ cap < 2 ^ 31 →
  ∃ r, android_log_processBinaryLogBuffer map cap buf = Ret r ∧
    ∀ e, r = Some e → ∃ t text, tag e = t ++ [NUL] ∧ message e = text ++ [NUL] ∧ messageLen e = zlen text ∧ zlen text < cap ∧
      (match map with Some m => android_lookupEventTag m (s32 (word_at (drop (Z.to_nat msg) buf) 0)) | None => None end = None → zlen (tag e) + zlen (message e) ≤ cap).
Proof.
  intros Hr Hcap. pose proof (received_msg _ _ _ Hr) as H20. pose proof (rc_fits _ _ _ Hr) as [Hl0 Hf]. destruct (Z.lt_ge_cases len 4) as [Hl|Hl].
  { exists None. split; [by eapply process_binary_short|done]. }
  destruct (process_binary_Ret map cap buf msg len Hr Hl) as (sec & nsec & pri & uid & pid & tid & ->). cbv zeta. set (n := word_at _ _). set (name := match map with Some _ => _ | None => _ end).
  pose proof (generated_tag_length n) as Hg. set (tl := match name with Some t => (t, cap) | None => _ end).
  assert (Htl : 2 ≤ tl.2 ≤ cap ∧ (name = None → zlen tl.1 + 1 + tl.2 = cap)).
  { unfold tl. destruct name; cbn; [split; [lia|done]|]. split; [lia|]. intros _. rewrite take_ge by (unfold zlen in *; lia). lia. }
  clearbody tl. destruct tl as [t avail]. cbn [fst snd] in Htl. destruct Htl as [Hleft Hfit]. set (p0 := mkP _ _ _ _).
  assert (Hp0 : printing avail p0). { constructor; cbn; rewrite ?u64_small by lia; [rewrite zlen_drop; lia|lia|rewrite zlen_nil; lia]. }
  destruct (event_safe avail (S (Z.to_nat (len - 4))) p0 Hp0) as (r & p & -> & Hp & Hrr & _); [cbn; lia|]. cbn [mbind outcome_bind]. destruct (r <? 0); [by exists None|].
  destruct (finish_safe avail r p Hp) as (q & -> & Hq & _); [lia|]. cbn [mbind outcome_bind]. eexists. split; [done|]. intros e [= <-]. exists t, (out q). cbn. split_and!; try done; [lia|].
  intros Hn. rewrite !zlen_app. change (zlen [NUL]) with 1. specialize (Hfit Hn). lia.
Qed.

(** ** What a client wrote is shown *)

Fixpoint show (i : item) : bytes :=
  match i with
  | IInt v => print_dec v
  | ILong v => print_dec v
  | IFloat b => print_float b
  | IString s => s
  | IList l => "["%char :: Join (show <$> l) $"," ++ ["]"%char]
  end.

(** [x] has been read and [s] has been printed. *)
Definition shown (p p' : pstate) (x s rest : bytes) : Prop :=
  eventData p' = rest ∧ eventDataLen p' = eventDataLen p - zlen x ∧ out p' = out p ++ s ∧ room p' = room p - zlen s.

Section shown.
Context (cap : Z).

Lemma shown_trans p p1 p2 x1 s1 r1 x2 s2 r2 : shown p p1 x1 s1 r1 → shown p1 p2 x2 s2 r2 → shown p p2 (x1 ++ x2) (s1 ++ s2) r2.
Proof. intros (_ & Hl1 & Ho1 & Hr1) (Hd & Hl & Ho & Hr). unfold shown. rewrite Hl, Ho, Hr, Hl1, Ho1, Hr1, !zlen_app. split_and!; [done|lia|by rewrite app_assoc|lia]. Qed.

Lemma print_shown s p : printing cap p → zlen s < room p → ∃ p', print cap s p = Ret (0, p') ∧ printing cap p' ∧ shown p p' [] s (eventData p).
Proof.
  intros [Hd Hr Hc] Hs. pose proof (zlen_nonneg s). unfold print, has_room. rewrite (proj2 (Z.leb_le _ _)) by lia. cbn [CHECK mbind outcome_bind]. rewrite (proj2 (Z.ltb_lt _ _)) by done.
  eexists. split; [done|]. split; [constructor; cbn; [done|lia|rewrite zlen_app; lia]|]. split_and!; try done. cbn. rewrite zlen_nil. lia.
Qed.
Lemma put_shown c p : printing cap p → 0 < room p → ∃ p', put cap c p = Ret (0, p') ∧ printing cap p' ∧ shown p p' [] [c] (eventData p).
Proof.
  intros Hp Hs. unfold put. rewrite (proj2 (Z.ltb_lt _ _)) by done. destruct (emit_Ret cap [c] p Hp) as (p' & -> & Hp' & Ho & Hl & Hd & Hr); [change (zlen [c]) with 1; lia|].
  exists p'. split; [done|]. split; [done|]. split_and!; try done. rewrite Hl, zlen_nil. lia.
Qed.

(** Reading [x]. *)
Lemma eat_shown p x rest : printing cap p → eventData p = x ++ rest → zlen x ≤ eventDataLen p → printing cap (eat (zlen x) p) ∧ shown p (eat (zlen x) p) x [] rest.
Proof.
  intros Hp Hd Hl. split; [apply printing_eat; [done|pose proof (zlen_nonneg x); lia]|]. split_and!; cbn; [|done|by rewrite app_nil_r|rewrite zlen_nil; lia].
  rewrite Hd. unfold zlen. by rewrite Nat2Z.id, drop_app_length.
Qed.

Lemma number_shown n (get : bytes → outcome Z) (text : Z → bytes) p x rest v :
  printing cap p → eventData p = x ++ rest → zlen x = n → n ≤ eventDataLen p → get (x ++ rest) = Ret v → zlen (text v) < room p →
  ∃ p', (if eventDataLen p <? n then Ret (-1, p) else v ← get (eventData p); print cap (text v) (eat n p)) = Ret (0, p') ∧ printing cap p' ∧ shown p p' x (text v) rest.
Proof.
  intros Hp Hd Hx Hl Hg Hs. rewrite (proj2 (Z.ltb_ge _ _)) by lia. rewrite Hd, Hg. cbn [mbind outcome_bind]. destruct (eat_shown p x rest Hp Hd ltac:(lia)) as [Hp1 H1]. rewrite Hx in *.
  destruct (print_shown (text v) (eat n p) Hp1 Hs) as (p' & He & Hp' & Hs'). exists p'. split; [done|]. split; [done|].
  pose proof (shown_trans _ _ _ _ _ _ _ _ _ H1 Hs') as Ht. rewrite app_nil_r in Ht. by rewrite (proj1 H1) in Ht.
Qed.

Lemma word_le32 v rest : word_at (le32 v ++ rest) 0 = u32 v.
Proof. unfold word_at. rewrite slice_prefix, slice_all by (rewrite ?le32_length; lia). apply le_val_u32. Qed.
Lemma get4_le32 v rest : get4LE (le32 v ++ rest) = Ret (u32 v).
Proof. rewrite get4LE_Ret, word_le32; [done|]. rewrite zlen_app, le32_length. pose proof (zlen_nonneg rest). lia. Qed.
Lemma zlen_le64 v : zlen (le64 v) = 8.
Proof. unfold le64. by rewrite zlen_app, !le32_length. Qed.
Lemma get8_le64 v rest : get8LE (le64 v ++ rest) = Ret (get64 (le64 v)).
Proof.
  rewrite get8LE_Ret by (rewrite zlen_app, zlen_le64; pose proof (zlen_nonneg rest); lia). unfold get64, word_at. by rewrite !(slice_prefix (le64 v) rest) by (rewrite ?zlen_le64; lia).
Qed.
Lemma s32_u32 v : - 2 ^ 31 ≤ v < 2 ^ 31 → s32 (u32 v) = v.
Proof. intros Hv. rewrite <-le_val_u32. by apply s32_le32. Qed.

Definition shows (i : item) : Prop := ∀ fuel p rest,
  item_ok i → printing cap p → eventData p = encode i ++ rest → zlen (encode i) ≤ eventDataLen p → zlen (encode i) ≤ Z.of_nat fuel → zlen (encode i) < 2 ^ 32 → zlen (show i) < room p →
  ∃ p', android_log_printBinaryEvent cap fuel p = Ret (0, p') ∧ printing cap p' ∧ shown p p' (encode i) (show i) rest.

(** The type of an item is read. *)
Lemma event_head t fuel p x :
  0 ≤ t < 256 → printing cap p → eventData p = of_cval t :: x → 1 ≤ eventDataLen p →
  printing cap (eat 1 p) ∧ shown p (eat 1 p) [of_cval t] [] x ∧
  android_log_printBinaryEvent cap (S fuel) p = (let q := eat 1 p in
    if t =? EVENT_TYPE_INT then if eventDataLen q <? 4 then Ret (-1, q) else ival ← get4LE (eventData q); print cap (print_dec (s32 ival)) (eat 4 q)
    else if t =? EVENT_TYPE_LONG then if eventDataLen q <? 8 then Ret (-1, q) else lval ← get8LE (eventData q); print cap (print_dec (s64 lval)) (eat 8 q)
    else if t =? EVENT_TYPE_FLOAT then if eventDataLen q <? 4 then Ret (-1, q) else ival ← get4LE (eventData q); print cap (print_float ival) (eat 4 q)
    else if t =? EVENT_TYPE_STRING then
      if eventDataLen q <? 4 then Ret (-1, q)
      else
        strLen ← get4LE (eventData q);
        let p := eat 4 q in
        if eventDataLen p <? strLen then Ret (-1, p)
        else
          CHECK (Z.min strLen (room p) <=? zlen (eventData p)) "read past the entry" ;;
          if strLen <? room p then p' ← emit cap (take (Z.to_nat strLen) (eventData p)) p; Ret (0, eat strLen p')
          else if 0 <? room p then p' ← emit cap (take (Z.to_nat (room p)) (eventData p)) p; Ret (1, p')
          else Ret (0, eat strLen p)
    else if t =? EVENT_TYPE_LIST then
      if eventDataLen q <? 1 then Ret (-1, q)
      else
        count ← (match eventData q with [] => Abort "read past the entry" | c :: _ => Ret (cval c) end);
        '(result, p) ← put cap "[" (eat 1 q);
        if negb (result =? 0) then Ret (result, p)
        else
          '(result, p) ← print_elements cap (android_log_printBinaryEvent cap fuel) (Z.to_nat count) p;
          if negb (result =? 0) then Ret (result, p) else put cap "]" p
    else Ret (-1, q)).
Proof.
  intros Ht Hp Hd Hl. destruct (eat_shown p [of_cval t] x Hp Hd Hl) as [Hq Hs]. split; [done|]. split; [done|]. cbn [android_log_printBinaryEvent].
  rewrite (proj2 (Z.ltb_ge _ _)) by lia. rewrite Hd. cbn [mbind outcome_bind]. rewrite cval_of_cval, Z.mod_small by done. done.
Qed.

Lemma Join_head x xs sep : zlen x ≤ zlen (Join (x :: xs) sep).
Proof. cbn [Join]. rewrite zlen_app. pose proof (zlen_nonneg (join_rest xs sep)). lia. Qed.

Lemma elements_shown event l p rest :
  (∀ i q rest, i ∈ l → printing cap q → eventData q = encode i ++ rest → zlen (encode i) ≤ eventDataLen q → zlen (show i) < room q →
    ∃ q', event q = Ret (0, q') ∧ printing cap q' ∧ shown q q' (encode i) (show i) rest) →
  printing cap p → eventData p = concat (encode <$> l) ++ rest → zlen (concat (encode <$> l)) ≤ eventDataLen p → zlen (Join (show <$> l) $",") < room p →
  ∃ p', print_elements cap event (length l) p = Ret (0, p') ∧ printing cap p' ∧ shown p p' (concat (encode <$> l)) (Join (show <$> l) $",") rest.
Proof.
  revert p. induction l as [|i l IH]; intros p He Hp Hd Hl Hr.
  { exists p. split; [done|]. split; [done|]. split_and!; [done|cbn; rewrite zlen_nil; lia|by rewrite app_nil_r|cbn; rewrite zlen_nil; lia]. }
  cbn [fmap list_fmap concat length print_elements] in *. rewrite <-app_assoc in Hd. rewrite zlen_app in Hl. pose proof (zlen_nonneg (concat (encode <$> l))).
  destruct (He i p (concat (encode <$> l) ++ rest)) as (p1 & -> & Hp1 & Hs1); [by apply elem_of_cons; left|done|done|lia|pose proof (Join_head (show i) (show <$> l) $","); cbn [fmap list_fmap] in *; lia|].
  cbn [mbind outcome_bind Z.eqb negb]. destruct l as [|j l].
  { exists p1. split; [done|]. split; [done|]. cbn [fmap list_fmap Join join_rest concat] in *. by rewrite !app_nil_r. }
  cbn [length Nat.eqb]. cbn [fmap list_fmap] in Hr |- *. rewrite Join_cons, !zlen_app in *. change (zlen $",") with 1 in Hr. pose proof Hs1 as (Hd1 & Hl1 & _ & Hr1).
  pose proof (zlen_nonneg (Join (show j :: (show <$> l)) $",")). destruct (put_shown "," p1 Hp1) as (p2 & -> & Hp2 & Hs2); [lia|]. cbn [mbind outcome_bind Z.eqb negb].
  pose proof (shown_trans _ _ _ _ _ _ _ _ _ Hs1 Hs2) as Hs12. rewrite app_nil_r in Hs12. pose proof Hs12 as (Hd2 & Hl2 & _ & Hr2). rewrite zlen_app in Hr2. change (zlen [","%char]) with 1 in Hr2.
  change (S (length l)) with (length (j :: l)). destruct (IH p2) as (p3 & -> & Hp3 & Hs3); [intros k q r Hk; apply He; by apply elem_of_cons; right|done|congruence|lia|cbn [fmap list_fmap] in *; lia|].
  exists p3. split; [done|]. split; [done|]. pose proof (shown_trans _ _ _ _ _ _ _ _ _ Hs12 Hs3) as Ht. by rewrite <-app_assoc in Ht.
Qed.

Lemma encode_nonempty i : 1 ≤ zlen (encode i).
Proof. destruct i; cbn [encode]; rewrite zlen_cons; match goal with |- context [zlen ?s] => pose proof (zlen_nonneg s) end; lia. Qed.
Lemma encode_part i l : i ∈ l → zlen (encode i) ≤ zlen (concat (encode <$> l)).
Proof.
  induction 1 as [i l|i j l _ IH]; cbn [fmap list_fmap concat]; rewrite zlen_app; [pose proof (zlen_nonneg (concat (encode <$> l)))|pose proof (zlen_nonneg (encode j))]; cbn [fmap list_fmap] in *; lia.
Qed.

Lemma string_shown s p rest :
  printing cap p → eventData p = (le32 (zlen s) ++ s) ++ rest → zlen (le32 (zlen s) ++ s) ≤ eventDataLen p → zlen s < room p → zlen s < 2 ^ 32 →
  ∃ p', (if eventDataLen p <? 4 then Ret (-1, p)
      else
        strLen ← get4LE (eventData p);
        let p := eat 4 p in
        if eventDataLen p <? strLen then Ret (-1, p)
        else
          CHECK (Z.min strLen (room p) <=? zlen (eventData p)) "read past the entry" ;;
          if strLen <? room p then p' ← emit cap (take (Z.to_nat strLen) (eventData p)) p; Ret (0, eat strLen p')
          else if 0 <? room p then p' ← emit cap (take (Z.to_nat (room p)) (eventData p)) p; Ret (1, p')
          else Ret (0, eat strLen p)) = Ret (0, p') ∧ printing cap p' ∧ shown p p' (le32 (zlen s) ++ s) s rest.
Proof.
  intros Hp Hd Hl Hr Hs. pose proof (zlen_nonneg s). rewrite <-app_assoc in Hd. rewrite zlen_app, le32_length in Hl. rewrite (proj2 (Z.ltb_ge _ _)) by lia.
  rewrite Hd, get4_le32, u32_small by lia. cbn [mbind outcome_bind]. destruct (eat_shown p (le32 (zlen s)) _ Hp Hd) as [Hp1 H1]; [rewrite le32_length; lia|]. rewrite le32_length in *.
  generalize dependent (eat 4 p). intros p1 Hp1 H1. pose proof H1 as (Hd1 & Hl1 & _ & Hr1). rewrite le32_length in Hl1. change (zlen (@nil ascii)) with 0 in Hr1. cbv zeta. rewrite (proj2 (Z.ltb_ge _ _)) by lia. rewrite Hd1, zlen_app. pose proof (zlen_nonneg rest).
  rewrite (proj2 (Z.leb_le _ _)) by lia. cbn [CHECK mbind outcome_bind]. rewrite (proj2 (Z.ltb_lt _ _)) by lia. unfold zlen at 2. rewrite Nat2Z.id, take_app_length.
  destruct (emit_Ret cap s p1 Hp1) as (p2 & -> & Hp2 & Ho2 & Hl2 & Hd2 & Hr2); [lia|]. cbn [mbind outcome_bind]. rewrite Hd1 in Hd2. destruct (eat_shown p2 s rest Hp2 Hd2 ltac:(lia)) as [Hp3 H3].
  exists (eat (zlen s) p2). split; [done|]. split; [done|]. eapply (shown_trans _ p1 _ _ [] _ _ s); [exact H1|]. destruct H3 as (Hd3 & Hl3 & Ho3 & Hr3). change (zlen (@nil ascii)) with 0 in Hr3.
  split_and!; [done|lia|by rewrite Ho3, app_nil_r|lia].
Qed.

(** An item whose type has been read. *)
Lemma shown_typed t x s p q p' rest : shown p q [of_cval t] [] (x ++ rest) → shown q p' x s rest → shown p p' (of_cval t :: x) s rest.
Proof. intros H1 H2. exact (shown_trans _ _ _ _ _ _ _ _ _ H1 H2). Qed.

Lemma item_shown_number t fuel n (get : bytes → outcome Z) (text : Z → bytes) p x rest v :
  0 ≤ t < 256 → (t = EVENT_TYPE_INT ∧ n = 4 ∧ get = get4LE ∧ text = (λ v, print_dec (s32 v)) ∨ t = EVENT_TYPE_LONG ∧ n = 8 ∧ get = get8LE ∧ text = (λ v, print_dec (s64 v)) ∨ t = EVENT_TYPE_FLOAT ∧ n = 4 ∧ get = get4LE ∧ text = print_float) →
  printing cap p → eventData p = (of_cval t :: x) ++ rest → zlen (of_cval t :: x) ≤ eventDataLen p → 0 < fuel → zlen x = n → get (x ++ rest) = Ret v → zlen (text v) < room p →
  ∃ p', android_log_printBinaryEvent cap (Z.to_nat fuel) p = Ret (0, p') ∧ printing cap p' ∧ shown p p' (of_cval t :: x) (text v) rest.
Proof.
  intros Ht Hk Hp Hd Hl Hf Hx Hg Hr. pose proof (zlen_nonneg x). rewrite zlen_cons in Hl. destruct (event_head t (Z.to_nat (fuel - 1)) p (x ++ rest) Ht Hp Hd ltac:(lia)) as (Hq & Hs & He).
  replace (Z.to_nat fuel) with (S (Z.to_nat (fuel - 1))) by lia. rewrite He. pose proof Hs as (Hdq & Hlq & _ & Hrq). change (zlen [of_cval t]) with 1 in Hlq. change (zlen (@nil ascii)) with 0 in Hrq.
  destruct (number_shown n get text (eat 1 p) x rest v Hq Hdq Hx ltac:(lia) Hg ltac:(lia)) as (p' & Hp' & Hpp & Hs').
  exists p'. split; [|split; [done|by eapply shown_typed]]. by destruct Hk as [(-> & -> & -> & ->)|[(-> & -> & -> & ->)|(-> & -> & -> & ->)]].
Qed.

Lemma list_shown l fuel p rest :
  Forall shows l → item_ok (IList l) → printing cap p → eventData p = encode (IList l) ++ rest → zlen (encode (IList l)) ≤ eventDataLen p → zlen (encode (IList l)) ≤ Z.of_nat fuel → zlen (encode (IList l)) < 2 ^ 32 → zlen (show (IList l)) < room p →
  ∃ p', android_log_printBinaryEvent cap fuel p = Ret (0, p') ∧ printing cap p' ∧ shown p p' (encode (IList l)) (show (IList l)) rest.
Proof.
  intros Hall [Hlen Hok] Hp Hd Hl Hf H32 Hr. cbn [encode show] in *. rewrite !zlen_cons in *. rewrite zlen_app in Hr. change (zlen ["]"%char]) with 1 in Hr. pose proof (zlen_nonneg (concat (encode <$> l))). pose proof (zlen_nonneg (Join (show <$> l) $",")).
  destruct fuel as [|fuel]; [lia|]. destruct (event_head EVENT_TYPE_LIST fuel p _ ltac:(done) Hp Hd ltac:(lia)) as (Hq & Hs & ->). cbv zeta. change (EVENT_TYPE_LIST =? EVENT_TYPE_INT) with false. change (EVENT_TYPE_LIST =? EVENT_TYPE_LONG) with false.
  change (EVENT_TYPE_LIST =? EVENT_TYPE_FLOAT) with false. change (EVENT_TYPE_LIST =? EVENT_TYPE_STRING) with false. change (EVENT_TYPE_LIST =? EVENT_TYPE_LIST) with true. cbn iota.
  pose proof Hs as (Hdq & Hlq & _ & Hrq). change (zlen [of_cval EVENT_TYPE_LIST]) with 1 in Hlq. change (zlen (@nil ascii)) with 0 in Hrq. rewrite (proj2 (Z.ltb_ge _ _)) by lia. rewrite Hdq. cbn [app mbind outcome_bind].
  assert (Hn : Z.to_nat (cval (of_cval (zlen l))) = length l) by (rewrite cval_of_cval, Z.mod_small by (unfold zlen; lia); unfold zlen; lia). rewrite Hn.
  destruct (eat_shown (eat 1 p) [of_cval (zlen l)] _ Hq Hdq) as [Hq2 Hs2]; [change (zlen [_]) with 1; lia|]. change (zlen [of_cval (zlen l)]) with 1 in Hq2, Hs2.
  pose proof (shown_trans _ _ _ _ _ _ _ _ _ Hs Hs2) as Ht2. cbn [app] in Ht2. generalize dependent (eat 1 (eat 1 p)). intros q2 Hq2 _ Ht2. pose proof Ht2 as (_ & Hl2 & _ & Hr2). change (zlen [_; _]) with 2 in Hl2. change (zlen (@nil ascii)) with 0 in Hr2.
  destruct (put_shown "[" q2 Hq2) as (q3 & -> & Hq3 & Hs3); [lia|]. cbn [mbind outcome_bind Z.eqb negb]. rewrite (proj1 Ht2) in Hs3. pose proof (shown_trans _ _ _ _ _ _ _ _ _ Ht2 Hs3) as Ht3. cbn [app] in Ht3.
  pose proof Ht3 as (Hd3 & Hl3 & _ & Hr3). change (zlen [_; _]) with 2 in Hl3. change (zlen ["["%char]) with 1 in Hr3.
  destruct (elements_shown (android_log_printBinaryEvent cap fuel) l q3 rest) as (q4 & -> & Hq4 & Hs4); [|done|done|lia|lia|].
  { intros i q r Hi Hqi Hdi Hli Hri. rewrite Forall_forall in Hall. pose proof (encode_part i l Hi). apply Hall; try done; [|lia..]. by apply (proj1 (Forall_forall item_ok l) (proj1 (item_oks l) Hok)). }
  cbn [mbind outcome_bind Z.eqb negb]. pose proof (shown_trans _ _ _ _ _ _ _ _ _ Ht3 Hs4) as Ht4. cbn [app] in Ht4. pose proof Hs4 as (Hd4 & _ & _ & Hr4).
  destruct (put_shown "]" q4 Hq4) as (q5 & -> & Hq5 & Hs5); [lia|]. rewrite Hd4 in Hs5. pose proof (shown_trans _ _ _ _ _ _ _ _ _ Ht4 Hs5) as Ht5. rewrite app_nil_r in Ht5. cbn [app] in Ht5.
  exists q5. split; [done|]. by split.
Qed.

Lemma item_shown i : shows i.
Proof.
  induction i as [v|v|b|s|l Hall] using item_induction; intros fuel p rest Hok Hp Hd Hl Hf H32 Hr; [..|by apply list_shown]; cbn [item_ok encode show] in *; rewrite <-(Nat2Z.id fuel).
  - pose proof (item_shown_number EVENT_TYPE_INT (Z.of_nat fuel) 4 get4LE (λ v, print_dec (s32 v)) p (le32 v) rest (u32 v)) as Hn. cbn beta in Hn. rewrite s32_u32 in Hn by done.
    apply Hn; [done|by left|done..|rewrite zlen_cons, le32_length in Hf; lia|apply le32_length|apply get4_le32|done].
  - pose proof (item_shown_number EVENT_TYPE_LONG (Z.of_nat fuel) 8 get8LE (λ v, print_dec (s64 v)) p (le64 v) rest (get64 (le64 v))) as Hn. cbn beta in Hn. rewrite s64_le64 in Hn by done.
    apply Hn; [done|by right; left|done..|rewrite zlen_cons, zlen_le64 in Hf; lia|apply zlen_le64|apply get8_le64|done].
  - apply (item_shown_number EVENT_TYPE_FLOAT (Z.of_nat fuel) 4 get4LE print_float p (le32 b) rest b); [done|by right; right|done..|rewrite zlen_cons, le32_length in Hf; lia|apply le32_length| |done].
    rewrite get4_le32. by rewrite u32_small by lia.
  - rewrite Nat2Z.id. rewrite !zlen_cons, zlen_app, le32_length in *. pose proof (zlen_nonneg s). destruct fuel as [|fuel]; [lia|].
    destruct (event_head EVENT_TYPE_STRING fuel p _ ltac:(done) Hp Hd ltac:(lia)) as (Hq & Hs & ->). pose proof Hs as (Hdq & Hlq & _ & Hrq). change (zlen [of_cval EVENT_TYPE_STRING]) with 1 in Hlq. change (zlen (@nil ascii)) with 0 in Hrq.
    destruct (string_shown s (eat 1 p) rest Hq Hdq) as (p' & He & Hp' & Hs'); [rewrite zlen_app, le32_length; lia|lia|lia|exists p'; split; [exact He|split; [done|by eapply shown_typed]]].
Qed.
End shown.

Lemma printing_start cap msg len buf : 20 ≤ msg → 4 ≤ len → msg + len ≤ zlen buf → 1 ≤ cap < 2 ^ 31 →
  printing cap (mkP (drop (Z.to_nat (msg + 4)) buf) (len - 4) [] (u64 (cap - 1))).
Proof. intros Hm Hl Hf Hc. constructor; cbn; rewrite ?u64_small by lia; [rewrite zlen_drop; lia|lia|rewrite zlen_nil; lia]. Qed.


(** A header of version 4, for the log with the number [lid]. *)
Definition v4_header (len pid tid sec nsec lid uid : Z) : bytes := of_cval len :: of_cval (len / 256) :: of_cval 28 :: NUL :: le32s [pid; tid; sec; nsec; lid; uid].
Definition logged_items : list item := [IInt (-5); IString (chars "adb"); IList [ILong 7; IList []; IFloat 1069547520]].
Definition sample_event : bytes := v4_header (4 + zlen (LogRoundtrip.message logged_items)) 77 78 1000 5000000 2 1000 ++ le32 42 ++ LogRoundtrip.message logged_items.


Lemma binary_entry_safe_witness :
  received sample_event 28 (4 + zlen (LogRoundtrip.message logged_items)) ∧
  ∃ r, android_log_processBinaryLogBuffer None 16 sample_event = Ret r ∧
    ∀ e, r = Some e → ∃ t text, tag e = t ++ [NUL] ∧ message e = text ++ [NUL] ∧ messageLen e = zlen text ∧ zlen text < 16 ∧
      (@None bytes = None → zlen (tag e) + zlen (message e) ≤ 16).
Proof.
  assert (Hr : received sample_event 28 (4 + zlen (LogRoundtrip.message logged_items))).
  { constructor; [by vm_compute|exists 28; split_and!; [by vm_compute|done|by right]|split; [by vm_compute|by vm_compute]]. }
  split; [exact Hr|]. apply (binary_entry_safe None 16 sample_event 28 _ Hr). done.
Defined.

(** With room for the tag and a single byte more the mark is written behind the
    buffer; with less than that everything is. *)
Example no_room_for_mark :
  android_log_processBinaryLogBuffer None 6 sample_event = Abort "written past the buffer" ∧
  android_log_processBinaryLogBuffer None 4 sample_event = Abort "written past the buffer".
Proof. by vm_compute. Qed.
(** A string that finds no room at all is left out without a mark. *)
Example string_left_out :
  let event := le32 42 ++ LogRoundtrip.message [IString (chars "adb")] in
  match android_log_processBinaryLogBuffer None 6 (v4_header (zlen event) 1 1 0 0 2 0 ++ event) with
  | Ret (Some e) => message e = [NUL]
  | _ => False
  end.
Proof. by vm_compute. Qed.
