(* ===== verification/LogLineSpec.v ===== *)
(** * What a line of the log promises
    (src/lib/liblog/logprint.c)

    The buffer that is computed for a line holds what is written into it, and what
    is written are the lines of the message, each between the prefix and the suffix
    of the format. *)

From Stdlib Require Import ZArith Lia List Ascii String.
From stdpp Require Import base numbers list strings.
From S2P Require Import Prelude.
From S2P Require Import Libc.
From S2P Require Import Strings.
From S2P Require Import Wire.
From S2P Require Import LogEvents.
From S2P Require Import LogFilter.
From S2P Require Import LogTags.
From S2P Require Import LogTime.
From S2P Require Import LogPrint.
From S2P Require Import LogLine.
From S2P Require Import LogPrintSpec.

(** ** Memory *)

(** The string [d] and its NUL are at the start of the buffer. *)
Definition holds (b : memory) (d : bytes) : Prop := ∃ rest, b = (Some <$> d) ++ Some NUL :: rest.

Lemma write_bytes_Ret (a : memory) s old :
  zlen s ≤ zlen old → write_bytes (a ++ old) (zlen a) s = Ret (a ++ (Some <$> s) ++ drop (length s) old).
Proof.
  revert a old. induction s as [|c s IH]; intros a old Hl; [by rewrite drop_0|]. rewrite zlen_cons in Hl. destruct old as [|o old]; [change (zlen (@nil (option ascii))) with 0 in Hl; pose proof (zlen_nonneg s); lia|].
  cbn [write_bytes]. rewrite zlen_app, zlen_cons. pose proof (zlen_nonneg old). rewrite zlen_cons in Hl. rewrite (proj2 (Z.ltb_lt _ _)) by lia. cbn [CHECK mbind outcome_bind].
  replace (<[Z.to_nat (zlen a) := Some c]> (a ++ o :: old)) with ((a ++ [Some c]) ++ old) by (unfold zlen; rewrite Nat2Z.id, <-app_assoc; cbn [app]; rewrite insert_app_r_alt, Nat.sub_diag by lia; done).
  replace (zlen a + 1) with (zlen (a ++ [Some c])) by (rewrite zlen_app; done). rewrite IH by lia. by rewrite <-app_assoc.
Qed.

Lemma holds_here b d : holds b d → load_byte b (zlen d) = Ret NUL.
Proof. intros [rest ->]. unfold load_byte. by rewrite lookup_app_r, length_fmap, (proj2 (Nat.sub_0_le _ _)) by (rewrite ?length_fmap; unfold zlen; lia). Qed.

Lemma write_behind b d s : holds b d → zlen d + zlen s < zlen b →
  ∃ b', write_bytes b (zlen d) (s ++ [NUL]) = Ret b' ∧ holds b' (d ++ s) ∧ zlen b' = zlen b.
Proof.
  intros [rest ->] Hl. rewrite zlen_app, zlen_fmap in Hl. rewrite <-(zlen_fmap Some d). rewrite write_bytes_Ret by (rewrite zlen_app; change (zlen [NUL]) with 1; lia).
  eexists. split; [done|]. split; [|rewrite !zlen_app, !zlen_fmap, zlen_app; change (zlen [NUL]) with 1; unfold zlen in *; rewrite length_drop, length_app; cbn [length] in *; lia].
  exists (drop (length (s ++ [NUL])) (Some NUL :: rest)). rewrite !fmap_app. by rewrite <-!app_assoc.
Qed.

Lemma strcat_Ret b d s : holds b d → zlen d + zlen s < zlen b → ∃ b', strcat b (zlen d) s = Ret b' ∧ holds b' (d ++ s) ∧ zlen b' = zlen b.
Proof.
  intros Hb Hl. unfold strcat. assert (mem_strlen (S (length b)) b (zlen d) = Ret 0) as -> by (cbn [mem_strlen]; by rewrite (holds_here b d Hb)). cbn [mbind outcome_bind]. rewrite Z.add_0_r. by apply write_behind.
Qed.

(** ** The lines of a message *)

Fixpoint lines (s : bytes) : list bytes :=
  match s with
  | [] => []
  | c :: s => if char_eqb c NL then [] :: lines s else match lines s with [] => [[c]] | l :: ls => (c :: l) :: ls end
  end.
(** An empty message is a line too. *)
Definition shown_lines (s : bytes) : list bytes := match s with [] => [[]] | _ => lines s end.

Lemma lines_cut l rest : one_line l → lines (l ++ NL :: rest) = l :: lines rest.
Proof. induction l as [|c l IH]; intros Hl; [done|]. cbn. destruct (one_line_head _ _ Hl) as [-> Hl']. by rewrite IH. Qed.
Lemma lines_one l : one_line l → l ≠ [] → lines l = [l].
Proof.
  induction l as [|c l IH]; intros Hl Hne; [done|]. cbn. destruct (one_line_head _ _ Hl) as [-> Hl']. destruct l as [|d l]; [done|]. by rewrite IH.
Qed.
Lemma line_length_cut l rest : one_line l → (rest = [] ∨ head rest = Some NL) → line_length (l ++ rest) = zlen l.
Proof.
  intros Hl Hr. induction l as [|c l IH]; cbn.
  - destruct Hr as [->|Hr]; [done|]. destruct rest as [|c rest]; [done|]. injection Hr as ->. done.
  - destruct (one_line_head _ _ Hl) as [-> Hl']. rewrite IH by done. by rewrite zlen_cons.
Qed.

(** Every message is a line alone, or a line and others. *)
Lemma lines_case s : one_line s ∨ ∃ l rest, s = l ++ NL :: rest ∧ one_line l.
Proof.
  induction s as [|c s IH]; [left; apply not_elem_of_nil|]. destruct (char_eqb_spec c NL) as [->|Hc].
  - right. exists [], s. split; [done|apply not_elem_of_nil].
  - destruct IH as [IH|(l & rest & -> & IH)].
    + left. unfold one_line in *. rewrite not_elem_of_cons. split; [congruence|done].
    + right. exists (c :: l), rest. split; [done|]. unfold one_line in *. rewrite not_elem_of_cons. split; [congruence|done].
Qed.

Lemma count_one l rest : one_line l → count_newlines (l ++ rest) = count_newlines rest.
Proof. induction l as [|c l IH]; intros Hl; [done|]. cbn. destruct (one_line_head _ _ Hl) as [-> Hl']. by apply IH. Qed.
Lemma last_one l : one_line l → l ≠ [] → ∃ c, last l = Some c ∧ char_eqb c NL = false.
Proof.
  intros Hl Hne. destruct (last l) as [c|] eqn:E; [|by apply last_None in E]. exists c. split; [done|]. apply last_Some_elem_of in E.
  destruct (char_eqb_spec c NL) as [->|]; [by destruct Hl|done].
Qed.
(** The lines are counted as they are cut. *)
Lemma numLines_lines s : numLines s = zlen (lines s).
Proof.
  remember (length s) as n eqn:Hn. revert s Hn. induction n as [n IH] using lt_wf_ind. intros s ->. destruct (lines_case s) as [Hs|(l & rest & -> & Hl)].
  - destruct s as [|c s]; [done|]. rewrite lines_one by done. unfold numLines. rewrite <-(app_nil_r (c :: s)) at 1. rewrite count_one by done. destruct (last_one (c :: s) Hs) as (d & -> & ->); done.
  - rewrite lines_cut by done. rewrite zlen_cons, <-(IH (length rest)) by (rewrite ?length_app; cbn; lia || done). unfold numLines. rewrite count_one, last_app_cons by done. cbn [count_newlines]. change (char_eqb NL NL) with true.
    destruct rest as [|c rest]; [done|]. rewrite last_cons_cons. lia.
Qed.

(** ** The prefix and the suffix *)

(** What [snprintf] leaves of a text in a buffer of 128 bytes. *)
Definition cut_prefix (s : bytes) : bytes := take 127 s.
Definition cut_suffix (s : bytes) : bytes := if 128 <=? zlen s then take 126 s ++ [NL] else s.
Definition suffix_text (f : AndroidLogFormat) (tag : bytes) : bytes :=
  (if colored_output f then ESC :: $"[0m" else []) ++
  match format f with FORMAT_PROCESS => $"  (" ++ tag ++ ")"%char :: [NL] | FORMAT_LONG => [NL; NL] | _ => [NL] end.

Lemma colour_length f pri : 0 ≤ zlen (colour_prefix f pri) ≤ 12.
Proof. unfold colour_prefix, colorFromPri. repeat case_match; split; by vm_compute. Qed.

Lemma make_prefix_Ret f pri text : let s := cut_prefix (colour_prefix f pri ++ text) in make_prefix f pri text = (s, zlen s).
Proof.
  pose proof (colour_length f pri) as Hc. pose proof (zlen_nonneg text). unfold make_prefix, snprintf, sizeof_buf, cut_prefix. set (c := colour_prefix f pri) in *.
  rewrite Z.min_l, (take_ge c) by (unfold zlen in *; lia). rewrite take_app, (take_ge c) by (unfold zlen in *; lia). replace (Z.to_nat (128 - zlen c - 1)) with (127 - length c)%nat by (unfold zlen; lia).
  f_equal. rewrite zlen_app. unfold zlen in *. rewrite length_take. destruct (Z.leb_spec 128 (Z.of_nat (length c) + Z.of_nat (length text))); lia.
Qed.

Lemma cut_prefix_length s : 0 ≤ zlen (cut_prefix s) ≤ 127.
Proof. unfold cut_prefix, zlen. rewrite length_take. lia. Qed.
Lemma cut_suffix_length s : 0 ≤ zlen (cut_suffix s) ≤ 127.
Proof. unfold cut_suffix. pose proof (zlen_nonneg s). destruct (Z.leb_spec 128 (zlen s)); [|lia]. rewrite zlen_app. change (zlen [NL]) with 1. unfold zlen. rewrite length_take. lia. Qed.

Lemma make_suffix_Ret f tag : let s := cut_suffix (suffix_text f tag) in make_suffix f tag = (s, zlen s).
Proof.
  unfold make_suffix, suffix_text, cut_suffix. set (c := if colored_output f then _ else _). assert (Hc : 0 ≤ zlen c ≤ 4) by (unfold c; destruct (colored_output f); by vm_compute).
  destruct (format f); try (rewrite !zlen_app; change (zlen [NL]) with 1; change (zlen [NL; NL]) with 2; rewrite !(proj2 (Z.leb_gt _ _)) by (unfold sizeof_buf; lia); rewrite !zlen_app; done).
  set (t := $"  (" ++ tag ++ _). assert (Ht : 5 ≤ zlen t) by (unfold t; rewrite !zlen_app; change (zlen $"  (") with 3; change (zlen (")"%char :: [NL])) with 2; pose proof (zlen_nonneg tag); lia).
  rewrite zlen_app. unfold snprintf, sizeof_buf. destruct (Z.leb_spec 128 (zlen c + zlen t)).
  - rewrite Z.min_r, (proj2 (Z.leb_le _ _)) by lia. f_equal.
    + f_equal. change (Z.to_nat (128 - 2)) with 126%nat. rewrite !take_app. f_equal. rewrite take_take. f_equal. unfold zlen in *. lia.
    + rewrite zlen_app. change (zlen [NL]) with 1. unfold zlen in *. rewrite length_take, length_app. lia.
  - rewrite Z.min_l, (proj2 (Z.leb_gt _ _)) by lia. rewrite (take_ge t) by (unfold zlen in *; lia). f_equal. by rewrite zlen_app.
Qed.

(** ** Writing the lines *)

Definition conv (printable : bool) (s : bytes) : bytes := if printable then escape s else s.

Lemma conv_length printable s : 0 ≤ zlen (conv printable s) ≤ 4 * zlen s.
Proof. pose proof (zlen_nonneg (conv printable s)). pose proof (zlen_nonneg s). destruct printable; cbn; [pose proof (escape_length s)|]; cbn in *; lia. Qed.

Lemma put_text_Ret printable b d s e rest :
  holds b d → no_middle e → (printable = true ∨ nul_free s) → zlen s < 2 ^ 64 → zlen d + zlen (conv printable s) < zlen b →
  ∃ b', put_text printable b (zlen d) (s ++ e :: rest) (zlen s) = Ret (b', zlen (d ++ conv printable s)) ∧ holds b' (d ++ conv printable s) ∧ zlen b' = zlen b.
Proof.
  intros Hb He Hs Hl Hfit. unfold put_text. destruct printable; cbn [conv] in *.
  - rewrite convertPrintable_Ret by done. cbn [mbind outcome_bind]. destruct (Z.eqb_spec (zlen s) 0) as [H0|H0].
    + apply zlen_0 in H0 as ->. exists b. cbn [escape mbind outcome_bind]. by rewrite zlen_nil, Z.add_0_r, app_nil_r.
    + destruct (write_behind b d (escape s) Hb Hfit) as (b' & -> & Hb' & Hz). cbn [mbind outcome_bind]. exists b'. by rewrite zlen_app.
  - destruct Hs as [Hs|Hs]; [done|]. unfold strncat. replace (take (Z.to_nat (zlen s)) (s ++ e :: rest)) with s by (unfold zlen; by rewrite Nat2Z.id, take_app_length). rewrite c_str_id by done.
    destruct (strcat_Ret b d s Hb Hfit) as (b' & -> & Hb' & Hz). cbn [mbind outcome_bind]. exists b'. by rewrite zlen_app.
Qed.

Section lines.
Context (printable : bool) (pre suf : bytes).

Definition line_text (l : bytes) : bytes := pre ++ conv printable l ++ suf.
Definition lines_text (ls : list bytes) : bytes := concat (line_text <$> ls).

(** One round of the loop, without the search for the next line. *)
Lemma round_Ret {A} b d l e rest (k : memory → Z → outcome A) :
  holds b d → no_middle e → (printable = true ∨ nul_free l) → zlen l < 2 ^ 64 → zlen d + zlen (line_text l) < zlen b →
  ∃ b', holds b' (d ++ line_text l) ∧ zlen b' = zlen b ∧
    (b ← strcat b (zlen d) pre; '(b, p) ← put_text printable b (zlen d + zlen pre) (l ++ e :: rest) (zlen l); b ← strcat b p suf; k b (p + zlen suf)) = k b' (zlen (d ++ line_text l)).
Proof.
  intros Hb He Hl Hz Hfit. unfold line_text in *. rewrite !zlen_app in Hfit. pose proof (zlen_nonneg suf). pose proof (zlen_nonneg (conv printable l)).
  destruct (strcat_Ret b d pre Hb) as (b1 & -> & Hb1 & H1); [lia|]. cbn [mbind outcome_bind]. rewrite <-zlen_app.
  destruct (put_text_Ret printable b1 (d ++ pre) l e rest Hb1 He Hl Hz) as (b2 & -> & Hb2 & H2); [rewrite zlen_app; lia|]. cbn [mbind outcome_bind].
  destruct (strcat_Ret b2 _ suf Hb2) as (b3 & -> & Hb3 & H3); [rewrite !zlen_app; lia|]. cbn [mbind outcome_bind]. rewrite <-zlen_app. exists b3. rewrite <-!app_assoc in *. split; [done|]. split; [lia|done].
Qed.

(** A round of the loop: the line [l] in front of [e]. *)
Lemma loop_round fuel before l e rest messageLen b d :
  line_length (take (Z.to_nat (messageLen - zlen before)) (l ++ e :: rest)) = zlen l →
  holds b d → no_middle e → (printable = true ∨ nul_free l) → zlen l < 2 ^ 64 → zlen d + zlen (line_text l) < zlen b →
  let message := before ++ l ++ e :: rest in
  let pm := if cval e =? 10 then zlen before + zlen l + 1 else zlen before + zlen l in
  ∃ b', holds b' (d ++ line_text l) ∧ zlen b' = zlen b ∧
    lines_loop (S fuel) printable (pre, zlen pre) (suf, zlen suf) message messageLen b (zlen d) (zlen before) =
    (if pm <? messageLen then lines_loop fuel printable (pre, zlen pre) (suf, zlen suf) message messageLen b' (zlen (d ++ line_text l)) pm
     else Ret (b', zlen (d ++ line_text l))).
Proof.
  intros Hline Hb He Hl Hz Hfit message pm.
  destruct (round_Ret b d l e rest (λ b p, if pm <? messageLen then lines_loop fuel printable (pre, zlen pre) (suf, zlen suf) message messageLen b p pm else Ret (b, p)) Hb He Hl Hz Hfit) as (b' & Hb' & Hz' & Hr).
  assert (H1 : drop (Z.to_nat (zlen before)) message = l ++ e :: rest) by (unfold message, zlen; by rewrite Nat2Z.id, drop_app_length).
  assert (H2 : drop (Z.to_nat (zlen before + zlen l)) message = e :: rest) by (unfold message; rewrite app_assoc; unfold zlen; rewrite <-Nat2Z.inj_add, Nat2Z.id, <-length_app; by rewrite drop_app_length).
  exists b'. split; [done|]. split; [done|]. rewrite <-Hr. clearbody message. cbn [lines_loop fst snd]. by rewrite H1, Hline, H2.
Qed.

Lemma take_message (before r : bytes) rest : take (Z.to_nat (zlen before + zlen r - zlen before)) (r ++ rest) = r.
Proof. rewrite Z.add_simpl_l. unfold zlen. by rewrite Nat2Z.id, take_app_length. Qed.

Lemma lines_loop_Ret fuel before r rest b d :
  (length r < fuel)%nat → holds b d → (printable = true ∨ nul_free r) → zlen r < 2 ^ 64 → zlen d + zlen (lines_text (shown_lines r)) < zlen b →
  ∃ b', lines_loop fuel printable (pre, zlen pre) (suf, zlen suf) (before ++ r ++ NUL :: rest) (zlen before + zlen r) b (zlen d) (zlen before) =
      Ret (b', zlen (d ++ lines_text (shown_lines r))) ∧ holds b' (d ++ lines_text (shown_lines r)) ∧ zlen b' = zlen b.
Proof.
  revert fuel before b d. remember (length r) as n eqn:Hn. revert r Hn. induction n as [n IH] using lt_wf_ind. intros r -> fuel before b d Hfuel Hb Hr Hz Hfit. destruct fuel as [|fuel]; [lia|].
  destruct (lines_case r) as [H1|(l & tail & -> & H1)].
  - assert (Hlines : lines_text (shown_lines r) = line_text r) by (unfold lines_text; destruct r as [|c r]; [|cbn [shown_lines]; rewrite lines_one by done]; cbn; by rewrite ?app_nil_r). rewrite Hlines in *.
    destruct (loop_round fuel before r NUL rest (zlen before + zlen r) b d) as (b' & Hb' & Hz' & ->); [|done..|].
    { rewrite take_message. rewrite <-(app_nil_r r) at 1. apply line_length_cut; [done|by left]. }
    exists b'. change (cval NUL =? 10) with false. cbn iota. by rewrite Z.ltb_irrefl.
  - assert (Hlines : lines_text (shown_lines (l ++ NL :: tail)) = line_text l ++ lines_text (lines tail)) by (unfold lines_text; replace (shown_lines (l ++ NL :: tail)) with (l :: lines tail) by (rewrite <-lines_cut by done; by destruct l); done).
    rewrite Hlines, zlen_app in Hfit. rewrite Hlines. assert (Hnul : printable = true ∨ nul_free l ∧ nul_free tail).
    { destruct Hr as [Hr|Hr]; [by left|right]. unfold nul_free in *. rewrite not_elem_of_app, not_elem_of_cons in Hr. tauto. }
    rewrite zlen_app, zlen_cons in Hz |- *. pose proof (zlen_nonneg l). pose proof (zlen_nonneg tail). pose proof (zlen_nonneg (lines_text (lines tail))). rewrite <-app_assoc. cbn [app].
    destruct (loop_round fuel before l NL (tail ++ NUL :: rest) (zlen before + (zlen l + (1 + zlen tail))) b d) as (b' & Hb' & Hz' & ->); [|done|done|tauto|lia|lia|].
    { replace (l ++ NL :: tail ++ NUL :: rest) with ((l ++ NL :: tail) ++ NUL :: rest) by by rewrite <-app_assoc. replace (zlen l + (1 + zlen tail)) with (zlen (l ++ NL :: tail)) by by rewrite zlen_app, zlen_cons.
      rewrite take_message. apply line_length_cut; [done|by right]. }
    change (cval NL =? 10) with true. cbn iota. destruct tail as [|c tail].
    + rewrite zlen_nil, (proj2 (Z.ltb_ge _ _)) by lia. exists b'. unfold lines_text. cbn [lines fmap list_fmap concat]. by rewrite app_nil_r.
    + rewrite zlen_cons in *. pose proof (zlen_nonneg tail). rewrite (proj2 (Z.ltb_lt _ _)) by lia. rewrite length_app in *. cbn [length] in *.
      destruct (IH (length (c :: tail)) ltac:(cbn; lia) (c :: tail) eq_refl fuel (before ++ l ++ [NL]) b' (d ++ line_text l)) as (b2 & He & Hb2 & Hz2); [cbn; lia|done|tauto|rewrite zlen_cons; lia|rewrite zlen_app; cbn [shown_lines] in *; lia|].
      rewrite <-(app_assoc d) in He, Hb2. exists b2. split; [|split; [exact Hb2|lia]]. cbn [shown_lines] in He. rewrite <-He. rewrite !zlen_app, !zlen_cons. change (zlen (@nil ascii)) with 0. rewrite <-!app_assoc. cbn [app]. f_equal; lia.
Qed.
End lines.

(** The size that is computed is enough. *)
Lemma conv_line printable l tail : zlen (conv printable l) + zlen (conv printable tail) ≤ zlen (conv printable (l ++ NL :: tail)).
Proof.
  destruct printable; cbn [conv]; [rewrite escape_line, !zlen_app; pose proof (zlen_nonneg (escape_char NL (head tail)))|rewrite zlen_app, zlen_cons]; lia.
Qed.
Lemma lines_text_length printable pre suf s :
  zlen (lines_text printable pre suf (lines s)) ≤ numLines s * (zlen pre + zlen suf) + zlen (conv printable s).
Proof.
  rewrite numLines_lines. remember (length s) as n eqn:Hn. revert s Hn. induction n as [n IH] using lt_wf_ind. intros s ->. destruct (lines_case s) as [Hs|(l & tail & -> & Hl)].
  - destruct s as [|c s]; [by destruct printable|]. rewrite lines_one by done. unfold lines_text, line_text. cbn [fmap list_fmap concat]. rewrite app_nil_r, !zlen_app. change (zlen [c :: s]) with 1. lia.
  - rewrite lines_cut by done. unfold lines_text in *. cbn [fmap list_fmap concat]. unfold line_text at 1. rewrite !zlen_app, zlen_cons. pose proof (conv_line printable l tail).
    pose proof (IH (length tail) ltac:(rewrite length_app; cbn; lia) tail eq_refl). lia.
Qed.
Lemma numLines_bound s : 0 ≤ numLines s ≤ zlen s.
Proof.
  rewrite numLines_lines. split; [apply zlen_nonneg|]. remember (length s) as n eqn:Hn. revert s Hn. induction n as [n IH] using lt_wf_ind. intros s ->. destruct (lines_case s) as [Hs|(l & tail & -> & Hl)].
  - destruct s as [|c s]; [done|]. rewrite lines_one by done. rewrite (zlen_cons c s). pose proof (zlen_nonneg s). change (zlen [c :: s]) with 1. lia.
  - rewrite lines_cut, zlen_app, !zlen_cons by done. pose proof (zlen_nonneg l). pose proof (IH (length tail) ltac:(rewrite length_app; cbn; lia) tail eq_refl). lia.
Qed.

Lemma string_of_Ret t rest : nul_free t → string_of (t ++ NUL :: rest) = Ret t.
Proof.
  induction t as [|c t IH]; intros Ht; [done|]. unfold nul_free in *. rewrite not_elem_of_cons in Ht. cbn. destruct (char_eqb_spec c NUL); [naive_solver|]. by rewrite IH by tauto.
Qed.

(** What an entry is shown as: each line of the message, or the message as a whole,
    between the prefix and the suffix. *)
Definition shown_text (f : AndroidLogFormat) (e : AndroidLogEntry) (timeBuf t s : bytes) : bytes :=
  let '(header, around) := header_text f e timeBuf (uid_text f (uid e)) t in
  let pre := cut_prefix (colour_prefix f (priority e) ++ header) in
  let suf := cut_suffix (suffix_text f t) in
  if (around : bool) then pre ++ conv (printable_output f) s ++ suf else lines_text (printable_output f) pre suf (shown_lines s).

Section format.
Context (date : bool → Z → bytes) (zone : Z → bytes) (monotonic_clock : bool) (build : list conversionList) (malloc : Z → bool).

Definition in_buffer (size : Z) (text : bytes) (r : option (memory * Z * bool)) : Prop :=
  match r with
  | None => ∃ n, size < n ∧ malloc n = false
  | Some (b, p, default) => holds b text ∧ p = zlen text ∧ ((default : bool) = true → zlen b = size)
  end.

(** Starting with an empty string. *)
Lemma empty_buffer n : 1 ≤ n → ∃ b, write_bytes (replicate (Z.to_nat n) None) 0 [NUL] = Ret b ∧ holds b [] ∧ zlen b = n.
Proof.
  intros Hn. replace (Z.to_nat n) with (S (Z.to_nat (n - 1))) by lia. cbn [replicate]. pose proof (write_bytes_Ret [] [NUL] (None :: replicate (Z.to_nat (n - 1)) None)) as Hw. change (zlen (@nil (option ascii))) with 0 in Hw. cbn [app] in Hw. rewrite Hw.
  - eexists. split; [done|]. split; [by eexists|]. rewrite zlen_app, zlen_fmap. change (zlen [NUL]) with 1. unfold zlen. rewrite length_drop. cbn [length]. rewrite length_replicate. lia.
  - rewrite (zlen_cons None). change (zlen [NUL]) with 1. pose proof (zlen_nonneg (replicate (Z.to_nat (n - 1)) (@None ascii))). lia.
Qed.

Lemma format_line_correct f size e kept kept' timeBuf t rest s rest' :
  tag e = t ++ NUL :: rest → nul_free t → message e = s ++ NUL :: rest' → messageLen e = zlen s → zlen s < 2 ^ 32 →
  (printable_output f = true ∨ nul_free s) → 255 ≤ size → time_text date zone monotonic_clock build f e kept = Ret (timeBuf, kept') →
  ∃ r, android_log_formatLogLine date zone monotonic_clock build malloc f size e kept = Ret (r, kept') ∧ in_buffer size (shown_text f e timeBuf t s) r.
Proof.
  intros Ht Htn Hm Hl Hs Hsn Hsize Htime. unfold android_log_formatLogLine, shown_text. rewrite Htime. cbn [mbind outcome_bind]. rewrite Ht, string_of_Ret by done. cbn [mbind outcome_bind].
  destruct (header_text f e timeBuf (uid_text f (uid e)) t) as [header around]. rewrite make_prefix_Ret, make_suffix_Ret. set (pre := cut_prefix _). set (suf := cut_suffix _). cbn [fst snd].
  pose proof (cut_prefix_length (colour_prefix f (priority e) ++ header)) as Hpre. fold pre in Hpre. pose proof (cut_suffix_length (suffix_text f t)) as Hsuf. fold suf in Hsuf. pose proof (zlen_nonneg s) as H0. pose proof (zlen_nonneg rest').
  rewrite Hm, Hl, zlen_app, zlen_cons, (proj2 (Z.leb_le _ _)) by lia. cbn [CHECK mbind outcome_bind]. replace (take (Z.to_nat (zlen s)) (s ++ NUL :: rest')) with s by (unfold zlen; by rewrite Nat2Z.id, take_app_length).
  assert ((if printable_output f then t0 ← convertPrintable (s ++ NUL :: rest') (zlen s); Ret (zlen t0) else Ret (zlen s)) = Ret (zlen (conv (printable_output f) s))) as -> by (destruct (printable_output f); [rewrite convertPrintable_Ret by (done || lia)|]; done). cbn [mbind outcome_bind].
  pose proof (conv_length (printable_output f) s) as Hc. pose proof (numLines_bound s) as Hn. set (need := u64 _). set (text := if around then _ else _).
  assert (Hneed : 1 ≤ need ∧ (zlen text < need ∨ need ≤ size ∧ zlen text < size)).
  { unfold need, text. rewrite u64_small by (destruct around; nia). destruct around; [rewrite !zlen_app; lia|]. split; [nia|]. destruct s as [|c s].
    - right. unfold lines_text, line_text. cbn [shown_lines fmap list_fmap concat]. change (numLines []) with 0. rewrite app_nil_r, !zlen_app. change (zlen (@nil ascii)) with 0 in Hc. lia.
    - left. cbn [shown_lines]. pose proof (lines_text_length (printable_output f) pre suf (c :: s)). lia. }
  destruct Hneed as [H1 Hneed]. assert (Hroom : zlen text < (if need <=? size then size else need)) by (destruct (Z.leb_spec need size); lia).
  destruct (negb (need <=? size) && negb (malloc need)) eqn:Hmalloc.
  { apply andb_prop in Hmalloc as [Hd%negb_true_iff%Z.leb_gt Hma%negb_true_iff]. eexists. split; [done|]. by exists need. }
  destruct (empty_buffer (if need <=? size then size else need)) as (b & -> & Hb & Hz); [destruct (need <=? size); lia|]. cbn [mbind outcome_bind]. rewrite <-Hz in Hroom.
  assert (Hbuf : ∀ b', zlen b' = zlen b → holds b' text → in_buffer size text (Some (b', zlen text, need <=? size))) by (intros b' Hz' Hb'; split; [done|]; split; [done|]; intros Hd; rewrite Hd in Hz; lia).
  unfold text in *. destruct around.
  - destruct (round_Ret (printable_output f) pre suf b [] s NUL rest' (λ b p, Ret (b, p)) Hb ltac:(done) Hsn ltac:(lia) Hroom) as (b' & Hb' & Hz' & He). change (zlen (@nil ascii)) with 0 in He.
    rewrite Z.add_0_l in He. rewrite He. cbn [mbind outcome_bind]. eexists. split; [done|]. by apply Hbuf.
  - destruct (lines_loop_Ret (printable_output f) pre suf (S (length (s ++ NUL :: rest'))) [] s rest' b []) as (b' & He & Hb' & Hz'); [rewrite length_app; lia|done|done|lia|rewrite zlen_nil; lia|].
    cbn [app] in He. change (zlen (@nil ascii)) with 0 in He. rewrite Z.add_0_l in He. rewrite He. cbn [mbind outcome_bind]. eexists. split; [done|]. by apply Hbuf.
Qed.

(** ** The time *)

Lemma print_dec_digits z k : 0 ≤ z < 10 ^ Z.of_nat k → (0 < k)%nat → zlen (print_dec z) ≤ Z.of_nat k.
Proof.
  intros Hz Hk. rewrite print_dec_nonneg by lia. pose proof (digits_fuel_length 10 ltac:(lia) (S (Z.to_nat (Z.log2 z))) k z [] Hz Hk) as Hl. unfold numeral, zlen. cbn [length] in Hl. lia.
Qed.
Lemma pad_left_length c w s : 0 ≤ w → zlen (pad_left c w s) ≤ Z.max w (zlen s).
Proof. intros Hw. unfold pad_left. rewrite zlen_app. unfold zlen. rewrite length_replicate. lia. Qed.
Lemma fraction_length n d : 0 ≤ n < 2 ^ 64 → 1000 ≤ d → zlen (print_dec (s64 (n / d))) ≤ 17.
Proof.
  intros Hn Hd. assert (0 ≤ n / d < 2 ^ 63).
  { split; [apply Z.div_pos; lia|]. apply Z.div_lt_upper_bound; nia. }
  assert (Hs : s64 (n / d) = n / d) by (unfold s64; rewrite Z.mod_small by lia; lia). rewrite Hs. apply (print_dec_digits _ 17); [|lia]. split; [lia|]. apply Z.div_lt_upper_bound; [lia|].
  change (10 ^ Z.of_nat 17) with 100000000000000000. nia.
Qed.

Lemma time_text_Ret f e kept :
  (∀ year now, zlen (date year now) ≤ 30) → (∀ now, zlen (zone now) ≤ 8) → monotonic_output f = false ∨ monotonic_clock = true →
  ∃ timeBuf, time_text date zone monotonic_clock build f e kept = Ret (timeBuf, kept).
Proof.
  intros Hdate Hzone Hclock. unfold time_text. assert (monotonic_output f && negb monotonic_clock = false) as -> by (destruct Hclock as [-> | ->]; [done|by rewrite andb_false_r]).
  cbn [mbind outcome_bind]. set (nsec := if tv_sec e <? 0 then _ else _). assert (Hn : 0 ≤ nsec < 2 ^ 64) by (unfold nsec; destruct (_ <? _); apply u64_range). clearbody nsec.
  set (fraction := "."%char :: _). assert (Hf : zlen fraction ≤ 18).
  { unfold fraction. rewrite zlen_cons. pose proof (fraction_length nsec 1000 Hn ltac:(lia)). pose proof (fraction_length nsec 1000000 Hn ltac:(lia)).
    destruct (usec_time_output f); match goal with |- context [pad_left ?c ?w ?s] => pose proof (pad_left_length c w s ltac:(lia)) end; lia. }
  destruct (zone_output f); [|cbn [andb]; eauto]. destruct (epoch_output f || monotonic_output f); cbn [andb negb]; [eauto|].
  pose proof (Hdate (year_output f) (tv_sec e)). pose proof (Hzone (tv_sec e)). assert (zlen (snprintf 64 (date (year_output f) (tv_sec e))) ≤ 30) by (unfold snprintf, zlen in *; rewrite length_take; lia).
  rewrite (proj2 (Z.ltb_lt _ _)) by lia. cbn. eauto.
Qed.

(** ** Together *)

Lemma written_holds b text : holds b text → zlen text < zlen b ∧ written_bytes (take (Z.to_nat (zlen text)) b) = Ret text.
Proof.
  intros [rest ->]. split; [rewrite zlen_app, zlen_fmap, zlen_cons; pose proof (zlen_nonneg rest); lia|]. unfold zlen. rewrite Nat2Z.id.
  replace (take (length text) ((Some <$> text) ++ Some NUL :: rest)) with (Some <$> text) by (rewrite <-(length_fmap Some text); by rewrite take_app_length).
  induction text as [|c text IH]; [done|]. cbn. by rewrite IH.
Qed.
End format.

Lemma find_ends_skip t n i x msgStart : nul_free t → find_ends (length t + n) i (t ++ x) msgStart = find_ends n (i + zlen t) x msgStart.
Proof.
  revert i. induction t as [|c t IH]; intros i Ht; [by rewrite zlen_nil, Z.add_0_r|]. unfold nul_free in *. rewrite not_elem_of_cons in Ht. cbn. destruct (char_eqb_spec c NUL); [naive_solver|]. rewrite IH by tauto. by rewrite zlen_cons, Z.add_assoc.
Qed.

(** The tag and the message of an entry, each with its NUL. *)
Lemma process_text_Ret buf msg pri t s rest :
  received buf msg (zlen (pri :: t ++ NUL :: s ++ [NUL])) → drop (Z.to_nat msg) buf = pri :: t ++ NUL :: s ++ NUL :: rest → nul_free t → nul_free s →
  ∃ sec nsec uid pid tid, android_log_processLogBuffer buf = Ret (Some (mkEntry sec nsec (schar pri) uid pid tid (t ++ NUL :: s ++ NUL :: rest) (zlen s) (s ++ NUL :: rest))).
Proof.
  intros Hr Hd Ht Hs. pose proof (received_msg _ _ _ Hr) as H20. pose proof Hr as [Hlen (h & Hh & Hm & Hh0) Hf]. destruct (uid_Ret _ _ _ _ Hr Hm) as [uid Huid]. pose proof (zlen_nonneg t). pose proof (zlen_nonneg s).
  assert (HL : zlen (pri :: t ++ NUL :: s ++ [NUL]) = 3 + zlen t + zlen s) by (rewrite zlen_cons, zlen_app, zlen_cons, zlen_app; change (zlen [NUL]) with 1; lia). rewrite HL in *.
  exists (s32 (le_val (slice buf 12 4))), (s32 (le_val (slice buf 16 4))), uid, (s32 (le_val (slice buf 4 4))), (s32 (le_val (slice buf 8 4))).
  unfold android_log_processLogBuffer. rewrite (member32_Ret buf 12), (member32_Ret buf 16), (member32_Ret buf 4), (member32_Ret buf 8) by lia. cbn [mbind outcome_bind]. rewrite Hlen. cbn [mbind outcome_bind]. rewrite (proj2 (Z.ltb_ge _ _)) by lia.
  rewrite Hh. cbn [mbind outcome_bind]. rewrite <-Hm, Huid. cbn [mbind outcome_bind]. assert (Hd1 : drop (Z.to_nat (msg + 1)) buf = t ++ NUL :: s ++ NUL :: rest) by (replace (Z.to_nat (msg + 1)) with (Z.to_nat msg + 1)%nat by lia; rewrite <-drop_drop, Hd; done).
  assert (Hends : find_ends (Z.to_nat (3 + zlen t + zlen s - 1)) 1 (t ++ NUL :: s ++ NUL :: rest) (-1) = Ret (2 + zlen t, 2 + zlen t + zlen s)).
  { replace (Z.to_nat (3 + zlen t + zlen s - 1)) with (length t + S (length s + 1))%nat by (unfold zlen; lia). rewrite find_ends_skip by done. cbn [find_ends]. change (char_eqb NUL NUL) with true. change (-1 =? -1) with true. cbn iota. rewrite find_ends_skip by done.
    cbn [find_ends]. change (char_eqb NUL NUL) with true. cbn iota. rewrite (proj2 (Z.eqb_neq _ _)) by lia. f_equal. f_equal; lia. }
  rewrite Hd1, Hends. cbn [mbind outcome_bind]. rewrite (proj2 (Z.eqb_neq _ _)) by lia. rewrite (proj2 (Z.eqb_neq _ _)) by lia. cbn [mbind outcome_bind].
  unfold load_at. rewrite (proj2 (Z.leb_le _ _)) by lia. cbn [CHECK mbind outcome_bind]. assert (slice buf msg 1 = [pri]) as -> by (unfold slice; by rewrite Hd). cbn [head default].
  assert (Hd2 : drop (Z.to_nat (msg + (2 + zlen t))) buf = s ++ NUL :: rest).
  { replace (Z.to_nat (msg + (2 + zlen t))) with (Z.to_nat (msg + 1) + length (t ++ [NUL]))%nat by (rewrite length_app; unfold zlen; cbn [length]; lia). rewrite <-drop_drop, Hd1. change (NUL :: s ++ NUL :: rest) with ([NUL] ++ (s ++ NUL :: rest)). rewrite (app_assoc t). apply drop_app_length. }
  rewrite Hd1, Hd2, (proj2 (Z.ltb_ge _ _)) by lia. repeat f_equal; lia.
Qed.


(** A local time that never passes, in UTC. *)
Definition some_date (year : bool) (now : Z) : bytes := if year then $"2020-01-02 03:04:05" else $"01-02 03:04:05".
Definition some_zone (now : Z) : bytes := $" +0000".
Definition some_format (fmt : AndroidLogPrintFormat) : AndroidLogFormat := (android_log_setPrintFormat (android_log_format_new false) fmt).1.
Definition some_text : bytes := $"hello" ++ NL :: $"world".
Definition some_payload : bytes := of_cval 4 :: $"tag" ++ NUL :: some_text ++ [NUL].
Definition some_entry : bytes := v4_header (zlen some_payload) 77 78 1000 5000000 0 1000 ++ some_payload.

Example line_ex :
  (r ← android_log_processLogBuffer some_entry;
   match r with
   | Some e => p ← android_log_printLogLine some_date some_zone false [] (λ _, true) (some_format FORMAT_THREADTIME) [None; Some 90] e []; Ret p.1
   | None => Ret (None, None)
   end) = Ret (Some ($"01-02 03:04:05.005    77    78 I tag     : hello" ++ NL :: $"01-02 03:04:05.005    77    78 I tag     : world" ++ [NL]), Some 90).
Proof. by vm_compute. Qed.

(** What the conditions are for.  An empty message has no line that is counted, but
    one that is written: a small buffer is overrun. *)
Definition entry_of (sec nsec : Z) (s : bytes) : AndroidLogEntry := mkEntry sec nsec 4 1000 77 78 ($"tag" ++ [NUL]) (zlen s) (s ++ [NUL]).
Example empty_message_overruns :
  android_log_formatLogLine some_date some_zone false [] (λ _, true) (some_format FORMAT_BRIEF) 10 (entry_of 0 0 []) [] = Abort "access past the buffer".
Proof. by vm_compute. Qed.
(** [strncat] stops at a NUL in the message, but the pointer moves on: the suffix is
    appended to whatever the memory happens to hold. *)
Example nul_in_message :
  android_log_formatLogLine some_date some_zone false [] (λ _, true) (some_format FORMAT_BRIEF) 512 (entry_of 0 0 ($"a" ++ NUL :: $"b")) [] = Abort "read of a byte that was not written".
Proof. by vm_compute. Qed.
(** The full second in front of the epoch has a thousand milliseconds. *)
Example before_the_epoch :
  (r ← time_text some_date some_zone false [] (some_format FORMAT_TIME) (entry_of (-1) 0 []) []; Ret r.1) = Ret $"01-02 03:04:05.1000".
Proof. by vm_compute. Qed.
