(* ===== verification/AdbClient.v ===== *)
(** * The client's side of the smart socket
    (src/src/client/adb_client.cpp)

    How a command of the client reaches the server: it connects, makes sure that
    the server is of its own version or starts one, names the transport, and asks for
    the service.  The environment gives what connecting, the streams of the
    connections and starting a server come to, one after the other. *)

From Stdlib Require Import ZArith Lia List Ascii String.
From stdpp Require Import base numbers list strings.
From S2P Require Import Prelude.
From S2P Require Import Libc.
From S2P Require Import Strings.
From S2P Require Import AdbIo.
From S2P Require Import Transport.
From S2P Require Import HostRequest.

(** A connection to the server: what it sends, and what goes to it. *)
Record conn := mkConn { c_rd : rd_fd; c_wr : wr_fd }.

(** What is to come: the connections, [None] when connecting fails; whether
    [launch_server] fails; and what has been written to connections that are
    closed, the last one first. *)
Record env := mkEnv { connects : list (option conn); launches : list bool; said : list bytes }.
(** [adb_close], or losing the descriptor. *)
Definition closed (c : conn) (e : env) : env := mkEnv (connects e) (launches e) (wr_sent (c_wr c) :: said e).

Record target := mkTarget { t_transport : TransportType; t_serial : option bytes; t_id : Z }.

Section client.
(** [__adb_transport], [__adb_serial] and [__adb_transport_id]; the server's
    specification and whether it is local; the texts of the last error and of
    connecting. *)
Context (to : target) (server_spec : bytes) (local_spec : bool) (errno_text reason : bytes).

Definition perror_str (msg : bytes) : bytes := msg ++ $": " ++ errno_text.

Definition socket_spec_connect (e : env) : option conn * env :=
  match connects e with [] => (None, e) | c :: cs => (c, mkEnv cs (launches e) (said e)) end.

Definition send (c : conn) (s : bytes) : outcome (bool * conn) := '(ok, wr) ← SendProtocolString (c_wr c) s; Ret (ok, mkConn (c_rd c) wr).
(** The string, or the message of the error. *)
Definition recv (c : conn) : outcome ((bytes + bytes) * conn) :=
  '(r, rd) ← ReadProtocolString (c_rd c);
  Ret (match r with
       | inl s => inl s
       | inr FaultLength => inr (perror_str $"protocol fault (couldn't read status length)")
       | inr FaultMessage => inr (perror_str $"protocol fault (couldn't read status message)")
       end, mkConn rd (c_wr c)).
Definition orderly_shutdown (c : conn) : outcome conn := '(_, _, rd) ← ReadOrderlyShutdown (c_rd c); Ret (mkConn rd (c_wr c)).

(** [%02x] of a [char]. *)
Definition hex_char (c : ascii) : bytes := print_hex_pad 2 (u32 (schar c)).
(** [None]: success. *)
Definition adb_status (c : conn) : outcome (option bytes * conn) :=
  '(ok, buf, rd) ← ReadFdExactly (c_rd c) 4;
  let c := mkConn rd (c_wr c) in
  if negb (ok : bool) then Ret (Some (perror_str $"protocol fault (couldn't read status)"), c)
  else if bool_decide (buf = $"OKAY") then Ret (None, c)
  else if negb (bool_decide (buf = $"FAIL")) then
    Ret (Some ($"protocol fault (status " ++ Join (hex_char <$> buf) $" " ++ $"?!)"), c)
  else '(r, c) ← recv c; Ret (Some (match r with inl s => s | inr s => s end), c).

Definition transport_service : option bytes :=
  if negb (t_id to =? 0) then Some ($"host:transport-id:" ++ print_dec (t_id to))
  else
    match t_serial to with
    | Some serial => Some ($"host:transport:" ++ serial)
    | None =>
        match t_transport to with
        | kTransportUsb => Some $"host:transport-usb"
        | kTransportLocal => Some $"host:transport-local"
        | kTransportAny => Some $"host:transport-any"
        | kTransportHost => None
        end
    end.
(** [Some]: the error; the connection is closed then. *)
Definition switch_socket_transport (c : conn) : outcome (option bytes * conn) :=
  match transport_service with
  | None => Ret (None, c)
  | Some service =>
      '(ok, c) ← send c service;
      if negb (ok : bool) then Ret (Some (perror_str $"write failure during connection"), c) else adb_status c
  end.

Inductive connected := Fd (c : conn) | Fail1 (error : bytes) | Fail2 (error : bytes) | Started.

Definition ask_service (c : conn) (service : bytes) (e : env) : outcome (connected * env) :=
  '(ok, c) ← send c service;
  if negb (ok : bool) then Ret (Fail1 (perror_str $"write failure during connection"), closed c e)
  else
    '(err, c) ← adb_status c;
    match err with Some error => Ret (Fail1 error, closed c e) | None => Ret (Fd c, e) end.
Definition adb_connect_ (service : bytes) (e : env) : outcome (connected * env) :=
  if (zlen service =? 0) || (MAX_PAYLOAD <? zlen service) then
    Ret (Fail1 ($"bad service name length (" ++ print_dec (zlen service) ++ $")"), e)
  else
    match socket_spec_connect e with
    | (None, e) => Ret (Fail2 ($"cannot connect to daemon at " ++ server_spec ++ $": " ++ reason), e)
    | (Some c, e) =>
        if negb (bool_decide (take 4 service = $"host")) then
          '(err, c) ← switch_socket_transport c;
          match err with Some error => Ret (Fail1 error, closed c e) | None => ask_service c service e end
        else ask_service c service e
    end.

(** Whether there is no server any more; the descriptor is never closed. *)
Definition adb_kill_server (e : env) : outcome (bool * env) :=
  match socket_spec_connect e with
  | (None, e) => Ret (true, e)
  | (Some c, e) =>
      '(ok, c) ← send c $"host:kill";
      if negb (ok : bool) then Ret (false, closed c e)
      else
        '(_, _, rd) ← ReadFdExactly (c_rd c) 4;
        '(_, _, rd) ← ReadOrderlyShutdown rd;
        Ret (true, closed (mkConn rd (c_wr c)) e)
  end.

(** [sscanf(s, "%04x")]. *)
Definition sscanf_x4 (s : bytes) : option Z :=
  match scan_int 16 (take 4 (skip_spaces (c_str s))) with
  | Some (neg, v, _) => Some (s32 (if neg : bool then - v else v))
  | None => None
  end.

(** The last part: the service itself, unless starting the server was all. *)
Definition connect_service (service : bytes) (e : env) : outcome (connected * env) :=
  if bool_decide (service = $"host:start-server") then Ret (Started, e) else adb_connect_ service e.
Definition start_server (service : bytes) (e : env) : outcome (connected * env) :=
  match launches e with
  | [] | true :: _ => Ret (Fail1 $"cannot connect to daemon", mkEnv (connects e) (drop 1 (launches e)) (said e))
  | false :: l => connect_service service (mkEnv (connects e) l (said e))
  end.
(** A version that is not the client's: the server is killed first. *)
Definition check_version (version : Z) (service : bytes) (e : env) : outcome (connected * env) :=
  if version =? ADB_SERVER_VERSION then connect_service service e else '(_, e) ← adb_kill_server e; start_server service e.
Definition adb_connect (service : bytes) (e : env) : outcome (connected * env) :=
  '(r, e) ← adb_connect_ $"host:version" e;
  match r with
  | Fail2 _ => if local_spec then start_server service e else Ret (r, e)
  | Fd c =>
      '(v, c) ← recv c;
      match v with
      | inr error => Ret (Fail1 error, closed c e)
      | inl version_string =>
          c ← orderly_shutdown c;
          match sscanf_x4 version_string with
          | None => Ret (Fail1 ($"cannot parse version string: " ++ c_str version_string), closed c e)
          | Some version => check_version version service (closed c e)
          end
      end
  | Fail1 error => if bool_decide (error = $"unknown host service") then check_version (ADB_SERVER_VERSION - 1) service e else Ret (r, e)
  | Started => Ret (r, e)
  end.

(** A descriptor below zero is a failure; [Started] is the descriptor 0 as far as
    the callers are concerned, which they do not get. *)
Definition adb_command (service : bytes) (e : env) : outcome (bool * env) :=
  '(r, e) ← adb_connect service e;
  match r with
  | Fd c =>
      '(err, c) ← adb_status c;
      match err with Some _ => Ret (false, closed c e) | None => c ← orderly_shutdown c; Ret (true, closed c e) end
  | Fail1 _ | Fail2 _ => Ret (false, e)
  | Started => Abort "adb_command of host:start-server"
  end.
Definition adb_query (service : bytes) (e : env) : outcome ((bytes + bytes) * env) :=
  '(r, e) ← adb_connect service e;
  match r with
  | Fd c =>
      '(s, c) ← recv c;
      match s with inr error => Ret (inr error, closed c e) | inl s => c ← orderly_shutdown c; Ret (inl s, closed c e) end
  | Fail1 error | Fail2 error => Ret (inr error, e)
  | Started => Abort "adb_query of host:start-server"
  end.

Definition format_host_command (command : bytes) : bytes :=
  if negb (t_id to =? 0) then $"host-transport-id:" ++ print_dec (t_id to) ++ $":" ++ command
  else
    match t_serial to with
    | Some serial => $"host-serial:" ++ serial ++ $":" ++ command
    | None => match t_transport to with kTransportUsb => $"host-usb:" ++ command | kTransportLocal => $"host-local:" ++ command | _ => $"host:" ++ command end
    end.
Definition adb_get_feature_set (e : env) : outcome ((FeatureSet + bytes) * env) :=
  '(r, e) ← adb_query (format_host_command $"features") e;
  match r with inl s => f ← StringToFeatureSet s; Ret (inl f, e) | inr error => Ret (inr error, e) end.

(** ** A server that answers *)

(** No [read] of the descriptor fails with [EAGAIN]. *)
Definition quiet (rd : rd_fd) : Prop := Forall (λ x, x ≠ RdErr EAGAIN) rd.
(** The next [k] writes are taken whole. *)
Definition ready (k : nat) (wr : wr_fd) : Prop :=
  ∃ ns more, wr_script wr = (WrTake <$> ns) ++ more ∧ length ns = k ∧ Forall (λ n, 2 ^ 17 ≤ n) ns.
(** What a server sends on a connection, and how many requests it takes. *)
Definition answers (c : conn) (b : bytes) (k : nat) : Prop := available (c_rd c) = b ∧ quiet (c_rd c) ∧ ready k (c_wr c).
(** A string on the wire. *)
Definition pstring (s : bytes) : bytes := print_hex_pad 4 (zlen s) ++ s.
Definition sendable (s : bytes) : Prop := nul_free s ∧ 0 < zlen s < 2 ^ 16.

Lemma quiet_read rd len r rd' : adb_read rd len = (r, rd') → quiet rd → quiet rd' ∧ r ≠ GotErr EAGAIN.
Proof.
  intros Hr Hq. destruct rd as [|[d| |e] rd]; cbn in Hr; [injection Hr as <- <-; done|..]; inversion_clear Hq.
  - destruct d; [by injection Hr as <- <-|]. destruct (_ <=? _); injection Hr as <- <-; split; try done. by constructor.
  - by injection Hr as <- <-.
  - injection Hr as <- <-. split; [done|]. congruence.
Qed.
Lemma quiet_loop fuel rd p len r rd' : read_loop fuel rd p len = Ret (r, rd') → quiet rd → quiet rd'.
Proof.
  revert rd p len. induction fuel as [|fuel IH]; intros rd p len; cbn; (destruct (0 <? len); [|by intros [= <- <-]]); [done|].
  destruct (adb_read rd len) as [[d| |e] rd1] eqn:Hr; intros H Hq; apply (quiet_read _ _ _ _ Hr) in Hq as [Hq ?].
  - by eapply IH.
  - by injection H as <- <-.
  - by injection H as <- <-.
Qed.
Lemma read_answer rd a b : available rd = a ++ b → quiet rd → ∃ rd', ReadFdExactly rd (zlen a) = Ret (true, a, rd') ∧ available rd' = b ∧ quiet rd'.
Proof.
  intros Ha Hq. destruct (ReadFdExactly_Ret rd (zlen a)) as (ok & got & rd' & Hr & Hok & _); [apply zlen_nonneg|].
  pose proof (zlen_nonneg b). rewrite Ha, zlen_app in Hok. destruct Hok as (-> & -> & Hav); [lia|].
  unfold zlen in Hav, Hr. rewrite Nat2Z.id in Hav, Hr. rewrite take_app_length in Hr. rewrite drop_app_length in Hav.
  exists rd'. split_and!; [exact Hr|done|]. by eapply quiet_loop.
Qed.
Lemma read_any rd len : 0 ≤ len → quiet rd → ∃ ok got rd', ReadFdExactly rd len = Ret (ok, got, rd') ∧ quiet rd'.
Proof.
  intros Hl Hq. destruct (ReadFdExactly_Ret rd len Hl) as (ok & got & rd' & Hr & _). exists ok, got, rd'. split; [done|]. by eapply quiet_loop.
Qed.
Lemma shutdown_any rd : quiet rd → ∃ a b rd', ReadOrderlyShutdown rd = Ret (a, b, rd').
Proof.
  intros Hq. unfold ReadOrderlyShutdown. destruct (adb_read rd 16) as [r rd'] eqn:Hr. destruct (quiet_read _ _ _ _ Hr Hq) as [_ He].
  destruct r as [d| |e]; [by eexists _, _, _..|]. rewrite bool_decide_eq_true_2 by congruence. by eexists _, _, _.
Qed.

Lemma pstring_len s : zlen s < 2 ^ 16 → zlen (pstring s) = 4 + zlen s.
Proof. intros Hs. unfold pstring. pose proof (zlen_nonneg s). rewrite zlen_app, print_hex_pad_len by lia. done. Qed.

Lemma send_ready k c s : sendable s → ready (S k) (c_wr c) →
  ∃ wr, send c s = Ret (true, mkConn (c_rd c) wr) ∧ wr_sent wr = wr_sent (c_wr c) ++ pstring s ∧ ready k wr.
Proof.
  intros [Hn Hs] (ns & more & Hw & Hk & Hns). destruct ns as [|n ns]; [done|]. destruct c as [rd [script sent]]. cbn in Hw, Hk |- *. subst script.
  inversion_clear Hns as [|? ? Hn1 Hns']. unfold send, SendProtocolString, WriteFdFmt, WriteFdExactly. cbn [c_wr c_rd].
  rewrite u32_small by lia. change (MAX_PAYLOAD - 4) with 1048572. rewrite (proj2 (Z.ltb_ge _ _)) by lia.
  rewrite c_str_id, (take_ge s) by (done || unfold zlen; lia). fold (pstring s).
  pose proof (pstring_len s ltac:(lia)) as Hp. cbn [write_loop wr_script length]. rewrite (proj2 (Z.ltb_lt 0 (zlen (pstring s)))) by lia.
  unfold adb_write. cbn [wr_script wr_sent]. rewrite Z.max_r, Z.min_r by lia.
  replace (Z.to_nat (zlen (pstring s))) with (length (pstring s)) by (unfold zlen; lia). rewrite firstn_all, drop_all.
  destruct (length ((WrTake <$> ns) ++ more)); cbn [write_loop zlen length Z.of_nat Z.ltb Z.compare mbind outcome_bind].
  all: eexists; split; [reflexivity|]; split; [done|]; exists ns, more; cbn [wr_script]; split; [done|]; split; [congruence|done].
Qed.

Lemma status_okay c b k : answers c ($"OKAY" ++ b) k → ∃ c', adb_status c = Ret (None, c') ∧ answers c' b k ∧ c_wr c' = c_wr c.
Proof.
  intros (Ha & Hq & Hr). destruct (read_answer _ _ _ Ha Hq) as (rd' & Hrd & Ha' & Hq'). unfold adb_status.
  change (zlen $"OKAY") with 4 in Hrd. rewrite Hrd. cbn [mbind outcome_bind negb]. rewrite bool_decide_eq_true_2 by done.
  eexists. split; [done|]. by split_and!.
Qed.
Lemma recv_string c s b k : zlen s < 2 ^ 16 → answers c (pstring s ++ b) k → ∃ c', recv c = Ret (inl s, c') ∧ answers c' b k ∧ c_wr c' = c_wr c.
Proof.
  intros Hs (Ha & Hq & Hr). pose proof (zlen_nonneg s). pose proof (zlen_nonneg b). unfold recv, pstring in *. rewrite <-app_assoc in Ha.
  destruct (ReadProtocolString_hex (c_rd c) _ (zlen s) (s ++ b) Ha) as (rd' & Hrd & Ha').
  - apply print_hex_pad_len; lia.
  - apply print_hex_pad_all.
  - by apply scan_hex_pad.
  - rewrite zlen_app. lia.
  - lia.
  - unfold zlen in Hrd, Ha'. rewrite Nat2Z.id in Hrd, Ha'. rewrite take_app_length in Hrd. rewrite drop_app_length in Ha'. rewrite Hrd. cbn [mbind outcome_bind].
    eexists. split; [done|]. split; [|done]. split; [done|]. split; [|done]. cbn [c_rd]. revert Hrd. unfold ReadProtocolString.
    destruct (ReadFdExactly (c_rd c) 4) as [[[ok buf] rd1]|] eqn:H1; [|done]. cbn [mbind outcome_bind]. apply quiet_loop in H1; [|done].
    destruct ok; [|done]. cbn [negb]. destruct (CHECK _ _); [|done]. cbn [mbind outcome_bind].
    destruct (ReadFdExactly rd1 _) as [[[ok buf2] rd2]|] eqn:H2; [|done]. cbn [mbind outcome_bind]. apply quiet_loop in H2; [|done].
    destruct ok; [|done]. by intros [= _ <-].
Qed.

(** What a service is asked with: a host service alone, another one behind the choice
    of the transport. *)
Definition requests (service : bytes) : list bytes :=
  if bool_decide (take 4 service = $"host") then [service] else option_list (transport_service) ++ [service].

Lemma answers_send k c s b : sendable s → answers c b (S k) →
  ∃ c', send c s = Ret (true, c') ∧ answers c' b k ∧ wr_sent (c_wr c') = wr_sent (c_wr c) ++ pstring s.
Proof.
  intros Hs (Ha & Hq & Hr). destruct (send_ready k c s Hs Hr) as (wr & Hsend & Hw & Hr'). by exists (mkConn (c_rd c) wr).
Qed.
Lemma ask_service_ok k c service b e : sendable service → answers c ($"OKAY" ++ b) (S k) →
  ∃ c', ask_service c service e = Ret (Fd c', e) ∧ answers c' b k ∧ wr_sent (c_wr c') = wr_sent (c_wr c) ++ pstring service.
Proof.
  intros Hs Ha. unfold ask_service. destruct (answers_send _ _ _ _ Hs Ha) as (c1 & -> & Ha1 & Hw1). cbn [mbind outcome_bind negb].
  destruct (status_okay _ _ _ Ha1) as (c2 & -> & Ha2 & Hw2). exists c2. by rewrite Hw2.
Qed.
Lemma switch_ok k c s b : transport_service = Some s → sendable s → answers c ($"OKAY" ++ b) (S k) →
  ∃ c', switch_socket_transport c = Ret (None, c') ∧ answers c' b k ∧ wr_sent (c_wr c') = wr_sent (c_wr c) ++ pstring s.
Proof.
  intros Ht Hs Ha. unfold switch_socket_transport. rewrite Ht. destruct (answers_send _ _ _ _ Hs Ha) as (c1 & -> & Ha1 & Hw1). cbn [mbind outcome_bind negb].
  destruct (status_okay _ _ _ Ha1) as (c2 & -> & Ha2 & Hw2). exists c2. by rewrite Hw2.
Qed.

Lemma adb_connect_asks service c cs l sd b :
  Forall sendable (requests service) → answers c (concat (replicate (length (requests service)) $"OKAY") ++ b) (length (requests service)) →
  ∃ c', adb_connect_ service (mkEnv (Some c :: cs) l sd) = Ret (Fd c', mkEnv cs l sd) ∧
    answers c' b 0 ∧ wr_sent (c_wr c') = wr_sent (c_wr c) ++ concat (pstring <$> requests service).
Proof.
  intros Hs Ha. assert (sendable service) as [Hn Hl].
  { revert Hs. unfold requests. case_bool_decide; [by inversion_clear 1|]. intros [_ Hs]%Forall_app. by inversion_clear Hs. }
  unfold adb_connect_. rewrite (proj2 (Z.eqb_neq (zlen service) 0)), (proj2 (Z.ltb_ge MAX_PAYLOAD (zlen service))) by (unfold MAX_PAYLOAD; lia).
  cbn [orb socket_spec_connect connects launches said]. unfold requests in *. case_bool_decide as Hh; cbn [negb].
  - cbn [length replicate concat fmap list_fmap] in *. rewrite app_nil_r in *. by apply ask_service_ok.
  - destruct transport_service as [s|] eqn:Ht.
    + change (option_list (Some s) ++ [service]) with [s; service] in *. inversion_clear Hs as [|? ? Hs1 Hs2]. change (answers c ($"OKAY" ++ $"OKAY" ++ b) 2) in Ha.
      destruct (switch_ok _ _ _ _ Ht Hs1 Ha) as (c1 & -> & Ha1 & Hw1). cbn [mbind outcome_bind].
      destruct (ask_service_ok 0 c1 service b (mkEnv cs l sd) ltac:(done) Ha1) as (c2 & Hc & Ha2 & Hw2). exists c2. split; [done|]. split; [done|]. rewrite Hw2, Hw1, <-app_assoc. cbn. by rewrite app_nil_r.
    + change (option_list None ++ [service]) with [service] in *. cbn [length replicate concat fmap list_fmap] in *. rewrite app_nil_r in *.
      unfold switch_socket_transport. rewrite Ht. cbn [mbind outcome_bind]. by apply ask_service_ok.
Qed.

(** *** Until there is a server of this version *)

(** A server says [version]. *)
Definition says_version (c : conn) (version : Z) : Prop :=
  ∃ v b, answers c ($"OKAY" ++ pstring v ++ b) 1 ∧ sendable v ∧ sscanf_x4 v = Some version.
(** What has been said to it then. *)
Definition told (c : conn) (service : bytes) : bytes := wr_sent (c_wr c) ++ pstring service.

(** The ways to a server of this version: it runs; one of another version runs, is
    killed, and a new one is started; none runs on this host, and one is started. *)
Inductive server_up : env → env → Prop :=
| Up c cs l sd : says_version c ADB_SERVER_VERSION → server_up (mkEnv (Some c :: cs) l sd) (mkEnv cs l (told c $"host:version" :: sd))
| Restarted c version k cs l sd :
    says_version c version → version ≠ ADB_SERVER_VERSION → quiet (c_rd k) → ready 1 (c_wr k) →
    server_up (mkEnv (Some c :: Some k :: cs) (false :: l) sd) (mkEnv cs l (told k $"host:kill" :: told c $"host:version" :: sd))
| Launched cs l sd : local_spec = true → server_up (mkEnv (None :: cs) (false :: l) sd) (mkEnv cs l sd).

Lemma kill_said k cs l sd : quiet (c_rd k) → ready 1 (c_wr k) →
  adb_kill_server (mkEnv (Some k :: cs) l sd) = Ret (true, mkEnv cs l (told k $"host:kill" :: sd)).
Proof.
  intros Hq Hr. unfold adb_kill_server. cbn [socket_spec_connect connects launches said].
  destruct (answers_send 0 k $"host:kill" (available (c_rd k))) as (k' & -> & (_ & Hq' & _) & Hw); [by split; [apply nul_free_b|]|done|].
  cbn [mbind outcome_bind negb]. destruct (read_any (c_rd k') 4) as (ok & got & rd & -> & Hq2); [done..|]. cbn [mbind outcome_bind].
  destruct (shutdown_any rd Hq2) as (? & ? & rd' & ->). cbn [mbind outcome_bind]. unfold closed. cbn. by rewrite Hw.
Qed.

Lemma version_checked c version cs l sd service : says_version c version →
  adb_connect service (mkEnv (Some c :: cs) l sd) = check_version version service (mkEnv cs l (told c $"host:version" :: sd)).
Proof.
  intros (v & b & Ha & [Hn Hv] & Hscan). unfold adb_connect.
  destruct (adb_connect_asks $"host:version" c cs l sd (pstring v ++ b)) as (c1 & -> & Ha1 & Hw1).
  { repeat constructor. by apply nul_free_b. }
  { exact Ha. }
  cbn [mbind outcome_bind]. destruct (recv_string _ _ _ _ (proj2 Hv) Ha1) as (c2 & -> & (_ & Hq & _) & Hw2). cbn [mbind outcome_bind].
  unfold orderly_shutdown. destruct (shutdown_any _ Hq) as (? & ? & rd & ->). cbn [mbind outcome_bind]. rewrite Hscan.
  f_equal. unfold closed, told. cbn. by rewrite Hw2, Hw1.
Qed.

Lemma server_up_connect e e' service : server_up e e' → adb_connect service e = connect_service service e'.
Proof.
  intros [c cs l sd Hv|c version k cs l sd Hv Hne Hq Hr|cs l sd Hl].
  - rewrite (version_checked c ADB_SERVER_VERSION) by done. unfold check_version. by rewrite Z.eqb_refl.
  - rewrite (version_checked c version) by done. unfold check_version. rewrite (proj2 (Z.eqb_neq _ _)) by done. by rewrite kill_said.
  - unfold adb_connect, adb_connect_. cbn. by rewrite Hl.
Qed.

(** The service is asked of that server. *)
Lemma adb_connect_up service b e c cs l sd :
  server_up e (mkEnv (Some c :: cs) l sd) → service ≠ $"host:start-server" → Forall sendable (requests service) →
  answers c (concat (replicate (length (requests service)) $"OKAY") ++ b) (length (requests service)) →
  ∃ c', adb_connect service e = Ret (Fd c', mkEnv cs l sd) ∧ answers c' b 0 ∧ wr_sent (c_wr c') = wr_sent (c_wr c) ++ concat (pstring <$> requests service).
Proof.
  intros Hup Hne Hs Ha. rewrite (server_up_connect _ _ _ Hup). unfold connect_service. rewrite bool_decide_eq_false_2 by done. by apply adb_connect_asks.
Qed.
Lemma query_tail service c e e' s b : adb_connect service e = Ret (Fd c, e') → zlen s < 2 ^ 16 → answers c (pstring s ++ b) 0 →
  adb_query service e = Ret (inl s, mkEnv (connects e') (launches e') (wr_sent (c_wr c) :: said e')).
Proof.
  intros Hc Hz Ha. unfold adb_query. rewrite Hc. cbn [mbind outcome_bind].
  destruct (recv_string _ _ _ _ Hz Ha) as (c2 & -> & (_ & Hq & _) & Hw2). cbn [mbind outcome_bind].
  unfold orderly_shutdown. destruct (shutdown_any _ Hq) as (? & ? & rd & ->). cbn [mbind outcome_bind]. unfold closed. cbn. by rewrite Hw2.
Qed.

(** C28: A query gets the answer of a server of this version.  Whichever way it comes
    to one - the running one, one that takes the place of a server of another version
    after that was told to go, or one that is started as none runs on this host -
    the service is asked there behind the choice of the transport, nothing else is
    said on any connection, and what the server answers is returned, however the
    answer is cut up. *)
Theorem query_answered service s b e c cs l sd :
  server_up e (mkEnv (Some c :: cs) l sd) → service ≠ $"host:start-server" → Forall sendable (requests service) → zlen s < 2 ^ 16 →
  answers c (concat (replicate (length (requests service)) $"OKAY") ++ pstring s ++ b) (length (requests service)) →
  adb_query service e = Ret (inl s, mkEnv cs l ((wr_sent (c_wr c) ++ concat (pstring <$> requests service)) :: sd)).
Proof.
  intros Hup Hne Hs Hz Ha. destruct (adb_connect_up _ _ _ _ _ _ _ Hup Hne Hs Ha) as (c1 & Hc & Ha1 & Hw).
  rewrite (query_tail _ _ _ _ _ _ Hc Hz Ha1). cbn. by rewrite Hw.
Qed.

(** No server runs and none may be started: the error of connecting is returned, and
    nothing is started. *)
Lemma remote_not_started service cs l sd : local_spec = false →
  adb_connect service (mkEnv (None :: cs) l sd) =
    Ret (Fail2 ($"cannot connect to daemon at " ++ server_spec ++ $": " ++ reason), mkEnv cs l sd).
Proof. intros Hl. unfold adb_connect, adb_connect_. cbn. by rewrite Hl. Qed.
End client.

(** What [handle_host_request] sends for "version" is a version to the client. *)
Lemma version_reply fd : ready 1 fd →
  sscanf_x4 (print_hex_pad 4 ADB_SERVER_VERSION) = Some ADB_SERVER_VERSION ∧
  ∃ fd', SendProtocolString fd (print_hex_pad 4 ADB_SERVER_VERSION) = Ret (true, fd') ∧ wr_sent fd' = wr_sent fd ++ pstring (print_hex_pad 4 ADB_SERVER_VERSION).
Proof.
  intros Hr. split; [reflexivity|]. destruct (send_ready 0 (mkConn [] fd) (print_hex_pad 4 ADB_SERVER_VERSION)) as (wr & Hs & Hw & _); [|done|].
  - split; [by apply nul_free_b|done].
  - unfold send in Hs. cbn [c_wr c_rd] in *. destruct (SendProtocolString fd _) as [[ok fd']|]; [|done]. injection Hs as -> ->. by exists wr.
Qed.

Definition query_transport : target := mkTarget kTransportAny (Some $"emulator-5554") 0.
Definition query_conn (answer : bytes) (k : nat) : conn := mkConn [RdData (take 6 answer); RdData (drop 6 answer)] (mkWrFd (replicate k (WrTake (2 ^ 17))) []).

(** A server of another version, version 31, is replaced. *)
Lemma query_answered_witness :
  adb_query query_transport $"tcp:5037" true $"error" $"refused" $"shell:id"
    (mkEnv [Some (query_conn ($"OKAY" ++ $"0004" ++ $"001f") 1); Some (query_conn $"OKAY" 1); Some (query_conn ($"OKAYOKAY" ++ $"0003" ++ $"abc") 2)] [false] []) =
  Ret (inl $"abc", mkEnv [] [] [$"001chost:transport:emulator-5554" ++ $"0008shell:id"; $"0009host:kill"; $"000chost:version"]).
Proof.
  apply (query_answered query_transport $"tcp:5037" true $"error" $"refused" $"shell:id" $"abc" [] _ (query_conn ($"OKAYOKAY" ++ $"0003" ++ $"abc") 2) [] []
    [$"0009host:kill"; $"000chost:version"]).
  - apply (Restarted true (query_conn ($"OKAY" ++ $"0004" ++ $"001f") 1) 31 (query_conn $"OKAY" 1)).
    + exists $"001f", []. split; [|by split; [split; [by apply nul_free_b|done]|]]. split; [done|]. split; [by repeat constructor|]. exists [2 ^ 17], []. by split_and!; [| |repeat constructor].
    + discriminate.
    + by repeat constructor.
    + exists [2 ^ 17], []. by split_and!; [| |repeat constructor].
  - done.
  - repeat constructor; by apply nul_free_b.
  - done.
  - split; [done|]. split; [by repeat constructor|]. exists [2 ^ 17; 2 ^ 17], []. by split_and!; [| |repeat constructor].
Defined.

(** The features the daemon says are the features of the client. *)
Lemma get_feature_set_answered to spec local errno_text reason names b e c cs l sd :
  server_up local e (mkEnv (Some c :: cs) l sd) → Forall feature_ok names → zlen (FeatureSetToString names) < 2 ^ 16 →
  let service := format_host_command to $"features" in
  service ≠ $"host:start-server" → Forall sendable (requests to service) →
  answers c (concat (replicate (length (requests to service)) $"OKAY") ++ pstring (FeatureSetToString names) ++ b) (length (requests to service)) →
  adb_get_feature_set to spec local errno_text reason e =
    Ret (inl (list_to_set names), mkEnv cs l ((wr_sent (c_wr c) ++ concat (pstring <$> requests to service)) :: sd)).
Proof.
  intros Hup Hn Hz service Hne Hs Ha. destruct (adb_connect_up to spec local errno_text reason service _ _ _ _ _ _ Hup Hne Hs Ha) as (c1 & Hc & Ha1 & Hw).
  unfold adb_get_feature_set. fold service. rewrite (query_tail _ _ _ _ _ _ _ _ _ _ _ Hc Hz Ha1). cbn [mbind outcome_bind connects launches said].
  rewrite StringToFeatureSet_Join by done. cbn. by rewrite Hw.
Qed.
