(* ===== verification/ShellClient.v ===== *)
(** * A shell on the device
    (src/src/client/commandline.h, src/src/client/commandline.cpp;
     src/src/daemon/services.cpp: ShellService)

    What a command for the device's shell becomes: the name of the service and what
    the daemon makes of it, what comes back and where it goes, and what is typed
    meanwhile.  What receives the output is the interface [StreamsCallback]. *)

From Stdlib Require Import ZArith Lia List Ascii String.
From stdpp Require Import base numbers list strings.
From S2P Require Import Prelude.
From S2P Require Import Libc.
From S2P Require Import Strings.
From S2P Require Import AdbIo.
From S2P Require Import IOVector.
From S2P Require Import Wire.
From S2P Require Import Transport.
From S2P Require Import ShellProto.
From S2P Require Import AdbClient.

(** ** Where the output goes *)

Class StreamsCallback (C : Type) := {
  OnStdout : bytes → C → outcome C;
  OnStderr : bytes → C → outcome C;
  Done : Z → C → outcome (Z * C) }.

(** It does not matter in which pieces the output comes. *)
Class Streaming (C : Type) `{StreamsCallback C} := {
  OnStdout_nil c : OnStdout [] c = Ret c;
  OnStdout_app a b c : OnStdout (a ++ b) c = OnStdout a c ≫= OnStdout b;
  OnStderr_nil c : OnStderr [] c = Ret c;
  OnStderr_app a b c : OnStderr (a ++ b) c = OnStderr a c ≫= OnStderr b }.

(** [OnStream]: the string, or what has been written to the stream. *)
Record DefaultCallback := mkDefault { stdout_str : bytes; stderr_str : bytes }.
#[export] Instance DefaultStandardStreamsCallback : StreamsCallback DefaultCallback := {
  OnStdout b c := Ret (mkDefault (stdout_str c ++ b) (stderr_str c));
  OnStderr b c := Ret (mkDefault (stdout_str c) (stderr_str c ++ b));
  Done status c := Ret (status, c) }.
#[export] Instance SilentStandardStreamsCallback : StreamsCallback unit := {
  OnStdout _ c := Ret c; OnStderr _ c := Ret c; Done status c := Ret (status, c) }.

#[export] Instance default_streaming : Streaming DefaultCallback.
Proof. split; intros; cbn; rewrite ?app_nil_r, ?app_assoc; by destruct c. Qed.
#[export] Instance silent_streaming : Streaming unit.
Proof. by split. Qed.

(** ** What comes back *)

Definition BUFSIZ : Z := 8192.

Section dump.
Context {C : Type} `{StreamsCallback C}.

(** The first byte of the buffer's data, as a [char]. *)
Definition first_data (p : ShellProtocol) : Z := schar (nth (Z.to_nat kHeaderSize) (buffer_ p) NUL).

(** What the loop does with a packet. *)
Definition on_packet (p : ShellProtocol) (exit_code : Z) (cb : C) : outcome (Z * C) :=
  if id p =? kIdStdout then cb ← OnStdout (data p) cb; Ret (exit_code, cb)
  else if id p =? kIdStderr then cb ← OnStderr (data p) cb; Ret (exit_code, cb)
  else if id p =? kIdExit then Ret (first_data p, cb)
  else Ret (exit_code, cb).

Fixpoint dump_shell (fuel : nat) (p : ShellProtocol) (exit_code : Z) (fd : rd_fd) (cb : C) : outcome (Z * C * rd_fd) :=
  match fuel with
  | O => Abort "out of fuel"
  | S fuel =>
      '(ok, p, fd) ← Read p fd;
      if negb (ok : bool) then Ret (exit_code, cb, fd)
      else '(exit_code, cb) ← on_packet p exit_code cb; dump_shell fuel p exit_code fd cb
  end.
Fixpoint dump_raw (fuel : nat) (fd : rd_fd) (cb : C) : outcome (C * rd_fd) :=
  match fuel with
  | O => Abort "out of fuel"
  | S fuel =>
      match adb_read fd BUFSIZ with
      | (GotData b, fd) => cb ← OnStdout b cb; dump_raw fuel fd cb
      | (_, fd) => Ret (cb, fd)
      end
  end.

(** [rest]: what the memory of the protocol's buffer held.  A round takes something
    of the stream, which bounds their number. *)
Definition read_and_dump (rest : bytes) (fd : rd_fd) (use_shell_protocol : bool) (cb : C) : outcome (Z * C * rd_fd) :=
  '(exit_code, cb, fd) ←
    (if use_shell_protocol then dump_shell (S (length (available fd))) (ShellProtocol_new rest) 0 fd cb
     else '(cb, fd) ← dump_raw (S (length (available fd))) fd cb; Ret (0, cb, fd));
  '(status, cb) ← Done exit_code cb;
  Ret (status, cb, fd).
End dump.

(** ** What is typed *)

Record winsize := mkWinsize { ws_row : Z; ws_col : Z; ws_xpixel : Z; ws_ypixel : Z }.
(** What [unix_read_interruptible] comes to: bytes; interrupted as the window's size
    has changed, which [ioctl] then gives; the end of the input, or an error. *)
Inductive stdin_read := Got (d : bytes) | Interrupted (ws : option winsize) | NoInput.
Inductive stdin_end := AtEnd | WriteFailed | Disconnected.

(** The connection of the thread, and the protocol with its buffer if it uses one. *)
Record typing := mkTyping { ty_protocol : option ShellProtocol; ty_wr : wr_fd }.

Definition set_data (p : ShellProtocol) (d : bytes) : outcome ShellProtocol :=
  b ← memcpy (buffer_ p) kHeaderSize d; Ret (mkShell b (data_length_ p) (bytes_left_ p)).
Definition write_packet (p : ShellProtocol) (i : Z) (d : bytes) (length : Z) (wr : wr_fd) : outcome (bool * typing) :=
  p ← set_data p d; '(ok, p, wr) ← Write p i length wr; Ret (ok, mkTyping (Some p) wr).

Definition window_text (ws : winsize) : bytes :=
  print_dec (ws_row ws) ++ $"x" ++ print_dec (ws_col ws) ++ $"," ++ print_dec (ws_xpixel ws) ++ $"x" ++ print_dec (ws_ypixel ws).
(** [snprintf] stores no more than the capacity. *)
Definition send_window_size_change (ws : option winsize) (s : typing) : outcome typing :=
  match ty_protocol s, ws with
  | Some p, Some ws =>
      let text := window_text ws in
      '(_, s) ← write_packet p kIdWindowSizeChange (take (Z.to_nat (data_capacity p - 1)) text ++ [NUL]) (zlen text + 1) (ty_wr s); Ret s
  | _, _ => Ret s
  end.

Definition LF : ascii := "010"%char.
Definition CR : ascii := "013"%char.
Inductive EscapeState := kMidFlow | kStartOfLine | kInEscape.
(** What a character does: it is swallowed, ends the program, or passes as these
    characters. *)
Inductive escaped := Swallow | Disconnect | Pass (state : EscapeState) (d : bytes).
Definition escape (escape_char : ascii) (state : EscapeState) (ch : ascii) : escaped :=
  if char_eqb ch escape_char then
    match state with kStartOfLine => Swallow | _ => Pass kMidFlow [ch] end
  else
    let next := if char_eqb ch LF || char_eqb ch CR then kStartOfLine else kMidFlow in
    match state with
    | kInEscape => if char_eqb ch "."%char then Disconnect else Pass next [escape_char; ch]
    | _ => Pass next [ch]
    end.

Section stdin.
Context (raw_stdin : bool) (escape_char : ascii).
Definition parse_escapes : bool := raw_stdin && negb (char_eqb escape_char NUL).

Definition forward (d : bytes) (s : typing) : outcome (bool * typing) :=
  match ty_protocol s with
  | Some p => write_packet p kIdStdin d (zlen d) (ty_wr s)
  | None => '(ok, wr) ← WriteFdExactly (ty_wr s) d; Ret (ok, mkTyping None wr)
  end.
Definition at_end (s : typing) : outcome (stdin_end * typing) :=
  match ty_protocol s with
  | Some p => '(_, s) ← write_packet p kIdCloseStdin [] 0 (ty_wr s); Ret (AtEnd, s)
  | None => Ret (AtEnd, s)
  end.
Fixpoint stdin_loop (reads : list stdin_read) (state : EscapeState) (s : typing) : outcome (stdin_end * typing) :=
  match reads with
  | [] | NoInput :: _ => at_end s
  | Interrupted ws :: reads => s ← send_window_size_change ws s; stdin_loop reads state s
  | Got d :: reads =>
      match (if parse_escapes then escape escape_char state (default NUL (head d)) else Pass state d) with
      | Swallow => stdin_loop reads kInEscape s
      | Disconnect => Ret (Disconnected, s)
      | Pass state d => '(ok, s) ← forward d s; if (ok : bool) then stdin_loop reads state s else Ret (WriteFailed, s)
      end
  end.
Definition stdin_read_thread_loop (ws : option winsize) (reads : list stdin_read) (s : typing) : outcome (stdin_end * typing) :=
  s ← send_window_size_change ws s; stdin_loop reads kStartOfLine s.
(** How many bytes a read may give. *)
Definition read_size (s : typing) : Z :=
  if parse_escapes then 1 else match ty_protocol s with Some p => data_capacity p | None => BUFSIZ end.
End stdin.

(** ** The service *)

Definition kShellServiceArgRaw : bytes := $"raw".
Definition kShellServiceArgPty : bytes := $"pty".
Definition kShellServiceArgShellProtocol : bytes := $"v2".

(** [term]: the variable TERM. *)
Definition ShellServiceString (term : option bytes) (use_shell_protocol : bool) (type_arg command : bytes) : bytes :=
  let args :=
    (if use_shell_protocol then kShellServiceArgShellProtocol :: match term with Some t => [$"TERM=" ++ t] | None => [] end else []) ++
    (if bool_decide (type_arg = []) then [] else [type_arg]) in
  $"shell" ++ (if bool_decide (args = []) then [] else $",") ++ c_str (Join args $",") ++ $":" ++ c_str command.

(** What the daemon starts. *)
Inductive SubprocessType := kPty | kRaw.
Inductive SubprocessProtocol := kNone | kShell.
Record subprocess := mkSubprocess { sp_command : bytes; sp_terminal : bytes; sp_type : SubprocessType; sp_protocol : SubprocessProtocol }.

Definition service_arg (arg : bytes) (s : subprocess) : subprocess :=
  let '(mkSubprocess command terminal ty protocol) := s in
  if bool_decide (arg = kShellServiceArgRaw) then mkSubprocess command terminal kRaw protocol
  else if bool_decide (arg = kShellServiceArgPty) then mkSubprocess command terminal kPty protocol
  else if bool_decide (arg = kShellServiceArgShellProtocol) then mkSubprocess command terminal ty kShell
  else if StartsWith arg $"TERM=" then mkSubprocess command (drop 5 arg) ty protocol
  else s.
(** [None]: there is no colon. *)
Definition ShellService (args : bytes) : outcome (option subprocess) :=
  match strchr args ":" with
  | None => Ret None
  | Some rest =>
      let command := drop 1 rest in
      l ← Split (take (length args - length rest) args) $",";
      Ret (Some (fold_left (λ s arg, service_arg arg s) l (mkSubprocess command $"dumb" (if bool_decide (command = []) then kPty else kRaw) kNone)))
  end.
(** The branch of [daemon_service_to_fd] for it. *)
Definition shell_service (name : bytes) : outcome (option subprocess) :=
  if prefix_of $"shell" name then ShellService (drop 5 name) else Ret None.

(** *** What the client decides *)

Definition tilde : ascii := "~"%char.

(** What [getopt] returns, one after the other. *)
Inductive shell_opt := Opt_e (optarg : bytes) | Opt_n | Opt_x | Opt_t | Opt_T | Opt_unknown.
Inductive PtyAllocationMode := kPtyAuto | kPtyNo | kPtyYes | kPtyDefinitely.
(** [so_stdin_closed]: standard input is the null device. *)
Record shell_options := mkOptions { so_escape : ascii; so_protocol : bool; so_tty : PtyAllocationMode; so_stdin_closed : bool }.
(** [None]: an error, of which the message has been printed. *)
Definition shell_option (o : shell_opt) (s : shell_options) : option shell_options :=
  let '(mkOptions esc protocol tty closed) := s in
  match o with
  | Opt_e optarg =>
      if negb ((zlen optarg =? 1) || bool_decide (optarg = $"none")) then None
      else Some (mkOptions (if bool_decide (optarg = $"none") then NUL else default NUL (head optarg)) protocol tty closed)
  | Opt_n => Some (mkOptions esc protocol tty true)
  | Opt_x => Some (mkOptions tilde false kPtyDefinitely closed)
  | Opt_t => Some (mkOptions esc protocol (match tty with kPtyYes | kPtyDefinitely => kPtyDefinitely | _ => kPtyYes end) closed)
  | Opt_T => Some (mkOptions esc protocol kPtyNo closed)
  | Opt_unknown => None
  end.

(** The type of the shell: [isatty] is whether standard input is a terminal. *)
Definition shell_type (tty : PtyAllocationMode) (isatty is_interactive : bool) : bytes :=
  match tty with
  | kPtyNo => kShellServiceArgRaw
  | kPtyAuto => if negb isatty || negb is_interactive then kShellServiceArgRaw else kShellServiceArgPty
  | kPtyYes => if negb isatty then kShellServiceArgRaw else kShellServiceArgPty
  | kPtyDefinitely => kShellServiceArgPty
  end.
(** What [RemoteShell] is called with. *)
Record shell_call := mkCall { sc_protocol : bool; sc_type : bytes; sc_escape : ascii; sc_command : bytes }.
(** [adb_shell] after the features have come; [words] is the rest of the command line. *)
Definition adb_shell (features : FeatureSet) (opts : list shell_opt) (isatty : bool) (words : list bytes) : option shell_call :=
  let use := CanUseFeature features kFeatureShell2 in
  s ← foldl (λ s o, s ≫= shell_option o) (Some (mkOptions tilde use (if use then kPtyAuto else kPtyDefinitely) false)) opts;
  let ty := shell_type (so_tty s) (isatty && negb (so_stdin_closed s)) (bool_decide (words = [])) in
  if negb (so_protocol s) && negb (bool_decide (ty = kShellServiceArgPty)) then None
  else Some (mkCall (so_protocol s) (if so_protocol s then ty else []) (so_escape s) (Join words $" ")).

Section remote.
Context {C : Type} `{StreamsCallback C}.
Context (to : target) (server_spec : bytes) (local_spec : bool) (errno_text reason : bytes) (term : option bytes) (rest : bytes).

Definition connect_to (service : bytes) (e : env) : outcome (connected * env) := adb_connect to server_spec local_spec errno_text reason service e.

(** The exit code, and what the thread that reads standard input starts with, if it
    is started; its connection is never closed. *)
Definition RemoteShell (call : shell_call) (cb : C) (e : env) : outcome (Z * C * option (bool * typing) * env) :=
  let service := ShellServiceString term (sc_protocol call) (sc_type call) (sc_command call) in
  if (MAX_PAYLOAD_V1 <? zlen service) && negb (sc_protocol call) then Ret (1, cb, None, e)
  else
    let raw_stdin := bool_decide (sc_type call = kShellServiceArgPty) || (bool_decide (sc_type call = []) && bool_decide (sc_command call = [])) in
    '(r, e) ← connect_to service e;
    match r with
    | Fd c =>
        '(code, cb, _) ← read_and_dump rest (c_rd c) (sc_protocol call) cb;
        Ret (code, cb, Some (raw_stdin, mkTyping (if sc_protocol call then Some (ShellProtocol_new rest) else None) (c_wr c)), e)
    | _ => Ret (1, cb, None, e)
    end.

Definition wait_types : list bytes := [$"any"; $"local"; $"usb"].
Definition wait_states : list bytes := [$"any"; $"bootloader"; $"device"; $"recovery"; $"sideload"].
Definition wait_for_device (service : bytes) (e : env) : outcome (bool * env) :=
  components ← Split service $"-";
  let n := zlen components in
  if (n <? 3) || (4 <? n) then Ret (false, e)
  else
    let type := match t_transport to with kTransportUsb => $"usb" | kTransportLocal => $"local" | _ => $"any" end in
    let components := if n =? 3 then take 2 components ++ [type] ++ drop 2 components else components in
    if (n =? 4) && negb (bool_decide (nth 2 components [] ∈ wait_types)) then Ret (false, e)
    else if negb (bool_decide (nth 3 components [] ∈ wait_states)) then Ret (false, e)
    else adb_command to server_spec local_spec errno_text reason (format_host_command to (Join components $"-")) e.

(** The loop of [send_shell_command]: [None] when there is no waiting any more. *)
Fixpoint connect_shell (fuel : nat) (command : bytes) (disable use_shell_protocol : bool) (e : env) : outcome (option (conn * bool) * env) :=
  match fuel with
  | O => Abort "out of fuel"
  | S fuel =>
      '(attempt, use_shell_protocol, e) ←
        (if disable then Ret (true, use_shell_protocol, e)
         else
           '(f, e) ← adb_get_feature_set to server_spec local_spec errno_text reason e;
           Ret (match f with inl features => (true, CanUseFeature features kFeatureShell2, e) | inr _ => (false, use_shell_protocol, e) end));
      '(r, e) ← (if attempt : bool then '(r, e) ← connect_to (ShellServiceString term use_shell_protocol [] command) e; Ret (Some r, e) else Ret (None, e));
      match r with
      | Some (Fd c) => Ret (Some (c, use_shell_protocol), e)
      | _ =>
          '(ok, e) ← wait_for_device $"wait-for-device" e;
          if (ok : bool) then connect_shell fuel command disable use_shell_protocol e else Ret (None, e)
      end
  end.
(** A round takes a connection, which bounds their number. *)
Definition send_shell_command (command : bytes) (disable : bool) (cb : C) (e : env) : outcome (Z * C * env) :=
  '(r, e) ← connect_shell (S (length (connects e))) command disable false e;
  match r with
  | None => Ret (1, cb, e)
  | Some (c, use) => '(code, cb, rd) ← read_and_dump rest (c_rd c) use cb; Ret (code, cb, closed (mkConn rd (c_wr c)) e)
  end.
End remote.
