(* ===== verification/ShellSpec.v ===== *)
(** * What a shell on the device promises
    (src/src/client/commandline.cpp, src/src/daemon/services.cpp: ShellService)

    What is typed reaches the device, what the device sends reaches the callback, and
    the daemon starts what the client asked for; the loops of ShellClient.v end. *)

From Stdlib Require Import ZArith Lia List Ascii String.
From stdpp Require Import base numbers list strings.
From S2P Require Import Prelude.
From S2P Require Import Libc.
From S2P Require Import Strings.
From S2P Require Import AdbIo.
From S2P Require Import IOVector.
From S2P Require Import Wire.
From S2P Require Import Transport.
From S2P Require Import ShellProto.
From S2P Require Import AdbClient.
From S2P Require Import ShellClient.

(** ** What reaches the device of what is typed *)

(** Writes fail only as the connection has ended. *)
Definition gentle (script : list wr_event) : Prop := Forall (λ x, x = WrErr EAGAIN ∨ ∃ n, x = WrTake n) script.
Definition packet_bytes (x : Z * bytes) : bytes := header_of x.1 (zlen x.2) ++ x.2.

(** [b] has been sent as far as the connection takes it; nothing more, once it has ended. *)
Definition sent_up_to (wr wr' : wr_fd) (b : bytes) : Prop :=
  gentle (wr_script wr') ∧ (∃ k, wr_sent wr' = wr_sent wr ++ take k b) ∧
  (wr_script wr' ≠ [] → wr_sent wr' = wr_sent wr ++ b) ∧ (wr_script wr = [] → wr_script wr' = [] ∧ wr_sent wr' = wr_sent wr).

Lemma sent_nothing wr : gentle (wr_script wr) → sent_up_to wr wr [].
Proof. intros Hg. split; [done|]. rewrite app_nil_r. split_and!; try done. exists 0%nat. by rewrite app_nil_r. Qed.
Lemma sent_trans wr1 wr2 wr3 a b : sent_up_to wr1 wr2 a → sent_up_to wr2 wr3 b → sent_up_to wr1 wr3 (a ++ b).
Proof.
  intros (_ & [k1 H1] & Ha & He1) (Hg & [k2 H2] & Hb & He2). split; [done|]. split; [|split].
  - destruct (wr_script wr2) eqn:E.
    + destruct (He2 eq_refl) as [_ ->]. exists (k1 `min` length a)%nat. rewrite H1, take_app_le by lia. by rewrite <-firstn_firstn, (firstn_all a).
    + rewrite H2, Ha by done. exists (length a + k2)%nat. by rewrite take_app_add, <-app_assoc.
  - intros Hne. rewrite Hb by done. rewrite Ha; [by rewrite app_assoc|]. intros E. by destruct (He2 E).
  - intros E. destruct (He1 E) as [E2 <-]. by apply He2.
Qed.

Lemma write_gentle_loop fuel wr b : gentle (wr_script wr) → b ≠ [] → (length (wr_script wr) < fuel)%nat →
  ∃ ok wr', write_loop fuel wr b = Ret (ok, wr') ∧ sent_up_to wr wr' b ∧ (ok = false → wr_script wr' = []).
Proof.
  revert wr b. induction fuel as [|fuel IH]; intros [script sent] b Hg Hb Hf; [lia|]. cbn [write_loop].
  assert (0 < zlen b) by (destruct b; [done|]; rewrite zlen_cons; pose proof (zlen_nonneg b); lia).
  rewrite (proj2 (Z.ltb_lt _ _)) by done. unfold adb_write. cbn [wr_script wr_sent] in *.
  destruct script as [|[n|e] script].
  - exists false, (mkWrFd [] sent). split; [done|]. split; [|done]. split; [done|]. split; [|done]. exists 0%nat. by rewrite app_nil_r.
  - inversion_clear Hg as [|? ? _ Hg']. set (r := Z.to_nat _). cbn [length] in Hf.
    assert (Hs : sent_up_to (mkWrFd (WrTake n :: script) sent) (mkWrFd script (sent ++ take r b)) (take r b)).
    { split; [done|]. split; [|done]. exists (length (take r b)). by rewrite firstn_all. }
    destruct (drop r b) as [|x d] eqn:Hd.
    + exists true, (mkWrFd script (sent ++ take r b)). split; [destruct fuel; [cbn in Hf; lia|done]|]. split; [|done].
      assert (Ht : take r b = b) by (rewrite <-(take_drop r b) at 2; by rewrite Hd, app_nil_r). by rewrite Ht in *.
    + destruct (IH (mkWrFd script (sent ++ take r b)) (x :: d)) as (ok & wr' & Hw & Hs' & Hok); [done|done|cbn in *; lia|].
      exists ok, wr'. split; [exact Hw|]. split; [|done]. rewrite <-(take_drop r b), Hd. by eapply sent_trans.
  - inversion_clear Hg as [|? ? [[= ->]|[? ?]] Hg']; [|done]. cbn [length] in Hf.
    destruct (IH (mkWrFd script sent) b) as (ok & wr' & Hw & (H1 & H2 & H3 & _) & Hok); [done|done|cbn; lia|].
    exists ok, wr'. split; [exact Hw|]. by split.
Qed.
Lemma write_gentle wr b : gentle (wr_script wr) → b ≠ [] →
  ∃ ok wr', WriteFdExactly wr b = Ret (ok, wr') ∧ sent_up_to wr wr' b ∧ (ok = false → wr_script wr' = []).
Proof. intros Hg Hb. apply write_gentle_loop; [done..|lia]. Qed.

(** Storing data and writing it sends a packet. *)
Lemma set_data_Write cap p i d wr : zlen (buffer_ p) = kHeaderSize + cap → zlen d ≤ cap → zlen d < 2 ^ 32 →
  ∃ p', zlen (buffer_ p') = kHeaderSize + cap ∧
    (p ← set_data p d; Write p i (zlen d) wr) = '(ok, wr) ← WriteFdExactly wr (packet_bytes (i, d)); Ret (ok, p', wr).
Proof.
  intros Hp Hd Hd32. pose proof (zlen_nonneg d). unfold set_data. destruct p as [b dl bl]. cbn [buffer_ data_length_ bytes_left_] in *.
  rewrite <-(take_drop (Z.to_nat kHeaderSize) b) in *. set (h := take _ b) in *. set (c := drop _ b) in *.
  assert (Hb : zlen b = kHeaderSize + cap) by (unfold h, c in Hp; by rewrite take_drop in Hp).
  assert (Hh : zlen h = kHeaderSize) by (unfold h; rewrite zlen_take; unfold kHeaderSize in *; lia). rewrite zlen_app, Hh in Hp.
  rewrite <-(take_drop (Z.to_nat (zlen d)) c). set (c1 := take _ c). set (c2 := drop _ c).
  assert (Hc1 : zlen c1 = zlen d) by (unfold c1; rewrite zlen_take; lia).
  exists (mkShell (header_of i (zlen d) ++ d ++ c2) dl bl). split.
  - cbn [buffer_]. rewrite !zlen_app. change (zlen (header_of i (zlen d))) with kHeaderSize. unfold c2. rewrite zlen_drop; lia.
  - rewrite <-Hh, memcpy_at by (unfold zlen in *; lia). cbn [mbind outcome_bind]. by rewrite Write_data.
Qed.

(** A protocol whose buffer holds [cap] bytes of data. *)
Definition holds (cap : Z) (s : typing) : Prop := ∃ p, ty_protocol s = Some p ∧ zlen (buffer_ p) = kHeaderSize + cap.

Lemma write_packet_sent cap p i d wr : zlen (buffer_ p) = kHeaderSize + cap → zlen d ≤ cap → zlen d < 2 ^ 32 → gentle (wr_script wr) →
  ∃ ok s, write_packet p i d (zlen d) wr = Ret (ok, s) ∧ holds cap s ∧ sent_up_to wr (ty_wr s) (packet_bytes (i, d)) ∧
    (ok = false → wr_script (ty_wr s) = []).
Proof.
  intros Hp Hd Hd32 Hg. destruct (set_data_Write cap p i d wr Hp Hd Hd32) as (p' & Hp' & Hw).
  destruct (write_gentle wr (packet_bytes (i, d)) Hg ltac:(done)) as (ok & wr' & Hx & Hs & Hok). rewrite Hx in Hw.
  exists ok, (mkTyping (Some p') wr'). split; [|by split; [by eexists|]]. unfold write_packet.
  destruct (set_data p d) as [q|]; [|done]. cbn [mbind outcome_bind] in *. by rewrite Hw.
Qed.

Section typed.
Context (escape_char : ascii).

(** The packets that typing is, and how it ends. *)
Fixpoint typed (raw : bool) (reads : list stdin_read) (state : EscapeState) : list (Z * bytes) * stdin_end :=
  match reads with
  | [] | NoInput :: _ => ([(kIdCloseStdin, [])], AtEnd)
  | Interrupted ws :: reads =>
      let '(l, e) := typed raw reads state in
      (match ws with Some ws => (kIdWindowSizeChange, window_text ws ++ [NUL]) :: l | None => l end, e)
  | Got d :: reads =>
      match (if parse_escapes raw escape_char then escape escape_char state (default NUL (head d)) else Pass state d) with
      | Swallow => typed raw reads kInEscape
      | Disconnect => ([], Disconnected)
      | Pass state d => let '(l, e) := typed raw reads state in ((kIdStdin, d) :: l, e)
      end
  end.

(** The buffer has room for what is read, with an escape character in front, and for
    the size of the window. *)
Definition fits (cap : Z) (x : stdin_read) : Prop :=
  match x with Got d => 1 + zlen d ≤ cap | Interrupted (Some ws) => zlen (window_text ws) + 1 ≤ cap | _ => True end.

Lemma sent_dead wr wr' a b : sent_up_to wr wr' a → wr_script wr' = [] → sent_up_to wr wr' (a ++ b).
Proof.
  intros (Hg & [k Hk] & _ & He) Hd. split; [done|]. split; [|split; [done|exact He]].
  exists (k `min` length a)%nat. rewrite Hk, take_app_le by lia. by rewrite <-firstn_firstn, (firstn_all a).
Qed.
Lemma at_end_sent cap s : 2 ≤ cap < 2 ^ 32 → holds cap s → gentle (wr_script (ty_wr s)) →
  ∃ s', at_end s = Ret (AtEnd, s') ∧ sent_up_to (ty_wr s) (ty_wr s') (concat (packet_bytes <$> [(kIdCloseStdin, [])])).
Proof.
  intros Hcap (p & Hp & Hlen) Hg. unfold at_end. rewrite Hp.
  destruct (write_packet_sent cap p kIdCloseStdin [] (ty_wr s)) as (ok & s' & Hw & _ & Hs & _); [done|change (zlen (@nil ascii)) with 0; lia|done..|].
  change (zlen (@nil ascii)) with 0 in Hw. rewrite Hw. cbn [mbind outcome_bind]. exists s'. split; [done|].
  cbn [concat fmap list_fmap]. by rewrite app_nil_r.
Qed.
Lemma window_sent cap ws s : 2 ≤ cap < 2 ^ 32 → fits cap (Interrupted (Some ws)) → holds cap s → gentle (wr_script (ty_wr s)) →
  ∃ s', send_window_size_change (Some ws) s = Ret s' ∧ holds cap s' ∧
    sent_up_to (ty_wr s) (ty_wr s') (packet_bytes (kIdWindowSizeChange, window_text ws ++ [NUL])).
Proof.
  intros Hcap Hf (p & Hp & Hlen) Hg. unfold send_window_size_change, data_capacity. rewrite Hp, Hlen. cbn [fits] in Hf.
  rewrite take_ge by (unfold zlen in *; lia). assert (Hz : zlen (window_text ws) + 1 = zlen (window_text ws ++ [NUL])) by by rewrite zlen_app.
  rewrite Hz in *. destruct (write_packet_sent cap p kIdWindowSizeChange (window_text ws ++ [NUL]) (ty_wr s)) as (ok & s' & -> & Hs & Hsent & _); [done|lia|lia|done|].
  by exists s'.
Qed.
Lemma escape_short cap state ch st d : 2 ≤ cap → escape escape_char state ch = Pass st d → zlen d ≤ cap.
Proof.
  intros Hc. unfold escape. destruct (char_eqb ch escape_char), state; try (intros [= <- <-]; unfold zlen; cbn; lia).
  destruct (char_eqb ch _); intros [= <- <-]; unfold zlen; cbn; lia.
Qed.

Lemma stdin_loop_sent cap raw reads state s : 2 ≤ cap < 2 ^ 32 → Forall (fits cap) reads → holds cap s → gentle (wr_script (ty_wr s)) →
  ∃ e s', stdin_loop raw escape_char reads state s = Ret (e, s') ∧
    sent_up_to (ty_wr s) (ty_wr s') (concat (packet_bytes <$> (typed raw reads state).1)) ∧ (wr_script (ty_wr s') ≠ [] → e = (typed raw reads state).2).
Proof.
  intros Hcap Hf. revert state s. induction Hf as [|x reads Hx Hf IH]; intros state s Hh Hg.
  { destruct (at_end_sent cap s Hcap Hh Hg) as (s' & He & Hs). by exists AtEnd, s'. }
  destruct x as [d|[ws|]|]; cbn [stdin_loop typed].
  - destruct (if parse_escapes raw escape_char then _ else _) as [| |st d'] eqn:He; [by apply IH| |].
    { exists Disconnected, s. split; [done|]. split; [by apply sent_nothing|done]. }
    assert (Hd' : zlen d' ≤ cap).
    { destruct (parse_escapes raw escape_char); [by eapply escape_short; [lia|exact He]|]. injection He as <- <-. cbn [fits] in Hx. lia. }
    destruct Hh as (p & Hp & Hlen). unfold forward. rewrite Hp.
    destruct (write_packet_sent cap p kIdStdin d' (ty_wr s)) as (ok & s1 & -> & Hh1 & Hs1 & Hok); [done|lia|lia|done|]. cbn [mbind outcome_bind].
    destruct (typed raw reads st) as [l e0] eqn:Ht. cbn [fst snd fmap list_fmap concat]. destruct ok.
    + destruct (IH st s1 Hh1 (proj1 Hs1)) as (e & s' & -> & Hs & He'). rewrite Ht in Hs, He'. exists e, s'. split; [done|]. split; [|done]. by eapply sent_trans.
    + exists WriteFailed, s1. split; [done|]. split; [|by rewrite Hok]. apply sent_dead; [exact Hs1|by apply Hok].
  - destruct (window_sent cap ws s Hcap Hx Hh Hg) as (s1 & -> & Hh1 & Hs1). cbn [mbind outcome_bind].
    destruct (typed raw reads state) as [l e0] eqn:Ht. cbn [fst snd fmap list_fmap concat].
    destruct (IH state s1 Hh1 (proj1 Hs1)) as (e & s' & -> & Hs & He'). rewrite Ht in Hs, He'. exists e, s'. split; [done|]. split; [|done]. by eapply sent_trans.
  - replace (send_window_size_change None s) with (Ret s) by (unfold send_window_size_change; by destruct (ty_protocol s)). cbn [mbind outcome_bind].
    destruct (IH state s Hh Hg) as (e & s' & -> & Hs & He'). destruct (typed raw reads state) as [l e0]. by exists e, s'.
  - destruct (at_end_sent cap s Hcap Hh Hg) as (s' & He & Hs). by exists AtEnd, s'.
Qed.

(** What is to be typed for [t]: the escape character twice at the start of a line. *)
Fixpoint quote (state : EscapeState) (t : bytes) : bytes :=
  match t with
  | [] => []
  | c :: t =>
      if char_eqb c escape_char then (if state is kStartOfLine then [c; c] else [c]) ++ quote kMidFlow t
      else c :: quote (if char_eqb c LF || char_eqb c CR then kStartOfLine else kMidFlow) t
  end.
(** The state after [t]. *)
Definition state_after (state : EscapeState) (t : bytes) : EscapeState :=
  match last t with
  | Some c => if char_eqb c escape_char then kMidFlow else if char_eqb c LF || char_eqb c CR then kStartOfLine else kMidFlow
  | None => state
  end.

(** Single characters, and changes of the window in between. *)
Definition one_by_one (x : stdin_read) : Prop := match x with Got d => zlen d = 1 | Interrupted _ => True | NoInput => False end.
Definition got (x : stdin_read) : bytes := match x with Got d => d | _ => [] end.
Definition stdin_data (x : Z * bytes) : bytes := if x.1 =? kIdStdin then x.2 else [].

(** The characters alone. *)
Fixpoint unescape (state : EscapeState) (t : bytes) : bytes * stdin_end :=
  match t with
  | [] => ([], AtEnd)
  | c :: t =>
      match escape escape_char state c with
      | Swallow => unescape kInEscape t
      | Disconnect => ([], Disconnected)
      | Pass state d => let '(u, e) := unescape state t in (d ++ u, e)
      end
  end.
Lemma typed_unescape reads state : escape_char ≠ NUL → Forall one_by_one reads →
  concat (stdin_data <$> (typed true reads state).1) = (unescape state (concat (got <$> reads))).1 ∧
  (typed true reads state).2 = (unescape state (concat (got <$> reads))).2.
Proof.
  intros He Hr. assert (Hp : parse_escapes true escape_char = true) by (unfold parse_escapes; by destruct (char_eqb_spec escape_char NUL)).
  revert state. induction Hr as [|x reads Hx Hr IH]; intros state; [done|]. cbn [typed]. rewrite Hp. destruct x as [d|ws|]; [|cbn [concat fmap list_fmap got app]|done].
  - destruct d as [|c [|? ?]]; [done| |exfalso; revert Hx; cbn; unfold zlen; cbn; lia]. cbn [head default from_option concat fmap list_fmap got app unescape].
    change (Datatypes.id c) with c. destruct (escape escape_char state c) as [| |st d]; [apply IH|done|]. destruct (IH st) as [H1 H2]. unfold id. destruct (typed true reads st) as [l e].
    destruct (unescape st _) as [u e']. cbn [fst snd fmap list_fmap concat stdin_data] in *. cbn. by rewrite H1.
  - destruct (IH state) as [H1 H2]. destruct (typed true reads state) as [l e]. by destruct ws.
Qed.

(** The state after one character of the text. *)
Definition next_state (c : ascii) : EscapeState :=
  if char_eqb c escape_char then kMidFlow else if char_eqb c LF || char_eqb c CR then kStartOfLine else kMidFlow.
Lemma state_after_cons state c t : state_after state (c :: t) = state_after (next_state c) t.
Proof.
  unfold state_after. destruct t as [|d t]; [done|]. rewrite last_cons_cons. destruct (last (d :: t)) eqn:E; [done|]. by apply last_None in E.
Qed.
Lemma next_state_ne c : next_state c ≠ kInEscape.
Proof. unfold next_state. by destruct (char_eqb c escape_char), (char_eqb c LF || char_eqb c CR). Qed.
Lemma quote_cons state c t : quote state (c :: t) = (if char_eqb c escape_char then if state is kStartOfLine then [c; c] else [c] else [c]) ++ quote (next_state c) t.
Proof. cbn [quote]. unfold next_state. by destruct (char_eqb c escape_char). Qed.

Lemma unescape_quote t u state : state ≠ kInEscape →
  unescape state (quote state t ++ u) = (t ++ (unescape (state_after state t) u).1, (unescape (state_after state t) u).2).
Proof.
  revert state. induction t as [|c t IH]; intros state Hs; [cbn; by destruct (unescape state u)|].
  rewrite quote_cons, state_after_cons, <-app_assoc. specialize (IH (next_state c) (next_state_ne c)).
  assert (Hp : ∀ v, unescape (next_state c) v = (t ++ (unescape (state_after (next_state c) t) u).1, (unescape (state_after (next_state c) t) u).2) →
    (let '(w, e) := unescape (next_state c) v in ([c] ++ w, e)) = ((c :: t) ++ (unescape (state_after (next_state c) t) u).1, (unescape (state_after (next_state c) t) u).2)).
  { by intros v ->. }
  apply Hp in IH. unfold next_state in IH |- *. destruct (char_eqb c escape_char) eqn:E; cbn [app unescape].
  - destruct state; [| |done]; cbn [app unescape]; unfold escape; rewrite !E; exact IH.
  - unfold escape. rewrite E. destruct state; [exact IH|exact IH|done].
Qed.
End typed.

Lemma typed_last escape_char raw reads state :
  (typed escape_char raw reads state).2 = AtEnd → last (typed escape_char raw reads state).1 = Some (kIdCloseStdin, []).
Proof.
  assert (Hc : ∀ (x : Z * bytes) l, last l = Some (kIdCloseStdin, []) → last (x :: l) = Some (kIdCloseStdin, [])).
  { intros x [|y l] Hl; [done|]. by rewrite last_cons_cons. }
  revert state. induction reads as [|x reads IH]; intros state; [done|]. cbn [typed]. destruct x as [d|ws|]; [| |done].
  - destruct (if parse_escapes raw escape_char then _ else _) as [| |st d']; [apply IH|done|]. specialize (IH st).
    destruct (typed escape_char raw reads st) as [l e]. cbn [fst snd] in *. intros He. by apply Hc, IH.
  - specialize (IH state). destruct (typed escape_char raw reads state) as [l e]. destruct ws; cbn [fst snd] in *; [|done]. intros He. by apply Hc, IH.
Qed.

(** C29: Typing in raw mode is lossless.  A text typed with the escape character
    doubled where a line starts with it - in whatever rhythm, and with the window's
    size changing in between - reaches the device as it is, followed by the end of
    the input, as far as the connection lasts; the escape character and a dot at the
    start of a line end the program, and the text before has been sent. *)
Theorem typing_roundtrip escape_char t more ws reads cap s :
  escape_char ≠ NUL → 2 ≤ cap < 2 ^ 32 → Forall (fits cap) (Interrupted ws :: reads) → Forall one_by_one reads → holds cap s → gentle (wr_script (ty_wr s)) →
  concat (got <$> reads) = quote escape_char kStartOfLine t ++ more →
  more = [] ∨ more = [escape_char; "."%char] ∧ escape_char ≠ "."%char ∧ state_after escape_char kStartOfLine t = kStartOfLine →
  ∃ e s' packets, stdin_read_thread_loop true escape_char ws reads s = Ret (e, s') ∧
    sent_up_to (ty_wr s) (ty_wr s') (concat (packet_bytes <$> packets)) ∧ concat (stdin_data <$> packets) = t ∧
    (more = [] → last packets = Some (kIdCloseStdin, [])) ∧
    (wr_script (ty_wr s') ≠ [] → e = match more with [] => AtEnd | _ => Disconnected end).
Proof.
  intros He Hcap Hf Hone Hh Hg Hgot Hmore.
  destruct (stdin_loop_sent escape_char cap true (Interrupted ws :: reads) kStartOfLine s Hcap Hf Hh Hg) as (e & s' & Hrun & Hsent & Hend).
  destruct (typed_unescape escape_char (Interrupted ws :: reads) kStartOfLine He) as [Hdata Hres]; [by constructor|].
  pose proof (typed_last escape_char true (Interrupted ws :: reads) kStartOfLine) as Hlast. revert Hsent Hend Hdata Hres Hlast.
  generalize (typed escape_char true (Interrupted ws :: reads) kStartOfLine). intros [packets e0]. cbn [fmap list_fmap concat got app fst snd].
  rewrite Hgot, unescape_quote by done. cbn [fst snd]. intros Hsent Hend Hdata Hres Hlast.
  exists e, s', packets. split; [exact Hrun|]. split; [exact Hsent|]. destruct Hmore as [->|(-> & Hdot & Hst)].
  - cbn in Hdata, Hres. subst e0. rewrite app_nil_r in Hdata. split; [done|]. split; [by intros _; apply Hlast|exact Hend].
  - assert (Hu : unescape escape_char kStartOfLine [escape_char; "."%char] = ([], Disconnected)).
    { cbn [unescape]. unfold escape. rewrite char_eqb_refl. destruct (char_eqb_spec "."%char escape_char); [congruence|]. done. }
    rewrite Hst, Hu in Hdata, Hres. cbn [fst snd] in *. subst e0. rewrite app_nil_r in Hdata. done.
Qed.

Definition typing_start : typing := mkTyping (Some (mkShell (replicate 64 NUL) 0 0)) (mkWrFd (replicate 12 (WrTake 64)) []).
(** "~x", typed as "~~x", then a line and the way out. *)
Lemma typing_roundtrip_witness :
  ∃ e s' packets, stdin_read_thread_loop true tilde (Some (mkWinsize 24 80 0 0)) ((λ c, Got [c]) <$> ($"~~x" ++ [CR] ++ $"~.")) typing_start = Ret (e, s') ∧
    wr_sent (ty_wr s') = concat (packet_bytes <$> packets) ∧ concat (stdin_data <$> packets) = $"~x" ++ [CR] ∧ e = Disconnected.
Proof.
  destruct (typing_roundtrip tilde ($"~x" ++ [CR]) $"~." (Some (mkWinsize 24 80 0 0)) ((λ c, Got [c]) <$> ($"~~x" ++ [CR] ++ $"~.")) 59 typing_start)
    as (e & s' & packets & Hrun & Hsent & Hdata & _ & Hend).
  - discriminate.
  - split; [discriminate|reflexivity].
  - repeat constructor; discriminate.
  - repeat constructor.
  - by eexists.
  - apply Forall_replicate. right. by exists 64.
  - reflexivity.
  - by right.
  - exists e, s', packets. split; [exact Hrun|]. destruct Hsent as (_ & _ & Hsent & _).
    assert (Hne : wr_script (ty_wr s') ≠ []) by (vm_compute in Hrun; injection Hrun as _ <-; discriminate).
    split; [exact (Hsent Hne)|]. split; [exact Hdata|exact (Hend Hne)].
Defined.

(** ** What comes back, packet by packet *)

Section delivered.
Context {C : Type} `{Streaming C}.

(** What the packets do: output goes to the callback, the last exit code counts. *)
Fixpoint deliver (packets : list (Z * bytes)) (exit_code : Z) (cb : C) : outcome (Z * C) :=
  match packets with
  | [] => Ret (exit_code, cb)
  | (i, d) :: packets =>
      if i =? kIdStdout then cb ← OnStdout d cb; deliver packets exit_code cb
      else if i =? kIdStderr then cb ← OnStderr d cb; deliver packets exit_code cb
      else if i =? kIdExit then deliver packets (schar (default NUL (head d))) cb
      else deliver packets exit_code cb
  end.

Lemma first_data_head p : data p ≠ [] → first_data p = schar (default NUL (head (data p))).
Proof.
  unfold first_data, data, slice. intros Hne. f_equal. destruct (drop _ (buffer_ p)) as [|c l] eqn:E; [by rewrite take_nil in Hne|].
  assert (Hn : nth (Z.to_nat kHeaderSize) (buffer_ p) NUL = c).
  { rewrite <-(take_drop (Z.to_nat kHeaderSize) (buffer_ p)), E. rewrite app_nth2; rewrite length_take;
      assert (Z.to_nat kHeaderSize < length (buffer_ p))%nat by (apply (f_equal length) in E; rewrite length_drop in E; cbn [length] in E; lia);
      [|lia]. by replace (_ - _)%nat with 0%nat by lia. }
  rewrite Hn. destruct (Z.to_nat (data_length_ p)); [done|done].
Qed.

Lemma dump_reads n p fd l q fd' fuel exit_code cb :
  reads n p fd = Ret (l, q, fd') → length l = n → Forall (λ x, x.1 = kIdExit → x.2 ≠ []) l →
  dump_shell (n + fuel) p exit_code fd cb = '(exit_code, cb) ← deliver l exit_code cb; dump_shell fuel q exit_code fd' cb.
Proof.
  revert p fd l exit_code cb. induction n as [|n IH]; intros p fd l exit_code cb; cbn [reads].
  { intros [= <- <- <-] _ _. done. }
  cbn [Nat.add dump_shell]. destruct (Read p fd) as [[[ok p1] fd1]|]; [|done]. cbn [mbind outcome_bind]. destruct ok; cbn [negb]; [|by intros [= <- <- <-]].
  destruct (reads n p1 fd1) as [[[l1 q1] fd2]|] eqn:Hr; [|done]. cbn [mbind outcome_bind]. intros [= <- <- <-]. cbn [length]. intros Hl Hex.
  inversion_clear Hex as [|? ? H1 H2]. unfold on_packet. cbn [deliver fst snd] in *.
  destruct (Z.eqb_spec (id p1) kIdStdout); [|destruct (Z.eqb_spec (id p1) kIdStderr); [|destruct (Z.eqb_spec (id p1) kIdExit)]].
  - destruct (OnStdout (data p1) cb); [|done]. cbn [mbind outcome_bind]. apply IH; [done|lia|done].
  - destruct (OnStderr (data p1) cb); [|done]. cbn [mbind outcome_bind]. apply IH; [done|lia|done].
  - cbn [mbind outcome_bind]. rewrite first_data_head by auto. apply IH; [done|lia|done].
  - cbn [mbind outcome_bind]. apply IH; [done|lia|done].
Qed.

(** The pieces of a packet do what the packet does. *)
Lemma deliver_pieces i d l exit_code cb : Forall (λ x, x.1 = i) l → concat (snd <$> l) = d → l ≠ [] → (i = kIdExit → length l = 1%nat) →
  deliver l exit_code cb = deliver [(i, d)] exit_code cb.
Proof.
  intros Hi <- Hne Hex. destruct (Z.eq_dec i kIdExit) as [E|Hnx].
  { specialize (Hex E). destruct l as [|[j b] [|]]; [done| |done]. inversion_clear Hi. cbn [fst] in *. subst j. cbn [fmap list_fmap concat snd]. by rewrite app_nil_r. }
  clear Hne Hex. cbn [deliver]. rewrite (proj2 (Z.eqb_neq i kIdExit)) by done. revert cb. induction Hi as [|[j b] l Hj Hl IH]; intros cb; cbn [fst] in *; cbn [fmap list_fmap concat snd].
  - rewrite OnStdout_nil, OnStderr_nil. cbn. by destruct (i =? kIdStdout), (i =? kIdStderr).
  - subst j. cbn [deliver]. rewrite (proj2 (Z.eqb_neq i kIdExit)) by done. rewrite OnStdout_app, OnStderr_app.
    destruct (i =? kIdStdout); [destruct (OnStdout b cb); [apply IH|done]|]. destruct (i =? kIdStderr); [destruct (OnStderr b cb); [apply IH|done]|apply IH].
Qed.

Lemma deliver_cons x l exit_code cb : deliver (x :: l) exit_code cb = '(exit_code, cb) ← deliver [x] exit_code cb; deliver l exit_code cb.
Proof.
  destruct x as [i d]. cbn [deliver]. destruct (i =? kIdStdout); [by destruct (OnStdout d cb)|]. destruct (i =? kIdStderr); [by destruct (OnStderr d cb)|].
  by destruct (i =? kIdExit).
Qed.

(** A packet that a protocol with a buffer of [cap] bytes may get from the daemon. *)
Definition packet_fits (cap : Z) (x : Z * bytes) : Prop := 0 ≤ x.1 < 128 ∧ zlen x.2 < 2 ^ 32 ∧ (x.1 = kIdExit → 0 < zlen x.2 < cap).
(** What is left of a stream that ends, maybe within a packet. *)
Definition cut_short (cap : Z) (tail : bytes) : Prop :=
  zlen tail < kHeaderSize ∨ ∃ i len d, tail = header_of i len ++ d ∧ zlen d < len ≤ cap ∧ len < 2 ^ 32.

Lemma read_cut cap h c dl fd : zlen h = kHeaderSize → zlen c = cap → cut_short cap (available fd) →
  ∃ p fd', Read (mkShell (h ++ c) dl 0) fd = Ret (false, p, fd').
Proof.
  intros Hh Hc [Hs|(i & len & d & Ha & Hd & Hl)].
  - unfold Read, read_into. cbn [bytes_left_]. rewrite Z.eqb_refl. destruct (ReadFdExactly_Ret fd kHeaderSize) as (ok & got & fd' & -> & _ & Hbad); [done|].
    destruct (Hbad Hs) as [-> ->]. cbn [mbind outcome_bind buffer_ data_length_ bytes_left_].
    pose proof (zlen_nonneg (available fd)). rewrite <-(take_drop (Z.to_nat (zlen (available fd))) h), <-app_assoc.
    pose proof (memcpy_at [] (take (Z.to_nat (zlen (available fd))) h) (drop (Z.to_nat (zlen (available fd))) h ++ c) (available fd)) as Hm.
    cbn [app] in Hm. rewrite zlen_nil in Hm. rewrite Hm by (rewrite length_take; unfold zlen in *; lia). by eexists _, _.
  - pose proof (zlen_nonneg d). destruct (Read_header h c i len fd d dl Hh ltac:(lia) Ha) as (fd1 & Ha1 & ->).
    rewrite (proj2 (Z.eqb_neq len 0)) by lia. assert (Hhl : zlen (header_of i len) = kHeaderSize) by done.
    unfold Read, data_capacity. cbn [bytes_left_]. rewrite (proj2 (Z.eqb_neq len 0)) by lia. cbn [mbind outcome_bind negb bytes_left_ buffer_].
    rewrite zlen_app, Hhl, Hc. replace (kHeaderSize + cap - kHeaderSize) with cap by lia. rewrite Z.min_l by lia. rewrite (proj2 (Z.eqb_neq len 0)) by lia. cbn [negb].
    unfold read_into. destruct (ReadFdExactly_Ret fd1 len) as (ok & got & fd' & -> & _ & Hbad); [lia|]. rewrite Ha1 in Hbad. destruct Hbad as [-> ->]; [lia|].
    cbn [mbind outcome_bind buffer_ data_length_ bytes_left_]. rewrite <-Hhl, <-(take_drop (Z.to_nat (zlen d)) c), memcpy_at by (rewrite length_take; unfold zlen in *; lia).
    by eexists _, _.
Qed.

Lemma dump_packets cap packets fuel h c dl fd exit_code cb :
  zlen h = kHeaderSize → zlen c = cap → 0 < cap → Forall (packet_fits cap) packets → (length (available fd) < fuel)%nat →
  (∃ tail, available fd = concat (packet_bytes <$> packets) ++ tail ∧ cut_short cap tail) →
  ∃ fd', dump_shell fuel (mkShell (h ++ c) dl 0) exit_code fd cb = '(exit_code, cb) ← deliver packets exit_code cb; Ret (exit_code, cb, fd').
Proof.
  intros Hh Hc Hcap Hp. revert fuel h c dl fd exit_code cb Hh Hc. induction Hp as [|[i d] packets (Hi & Hd & Hx) Hp IH]; intros fuel h c dl fd x cb Hh Hc Hf (tail & Ha & Ht).
  - destruct fuel as [|fuel]; [lia|]. cbn [dump_shell]. cbn [fmap list_fmap concat app] in Ha. subst tail.
    destruct (read_cut cap h c dl fd Hh Hc Ht) as (p & fd' & ->). cbn. by exists fd'.
  - cbn [fmap list_fmap concat fst snd] in *. unfold packet_bytes at 1 in Ha. cbn [fst snd] in Ha. rewrite <-!app_assoc in Ha.
    destruct (reads_packet h c i d (concat (packet_bytes <$> packets) ++ tail) fd dl) as (n & l & c' & dl' & fd' & Hr & Hl & Hn & Hn2 & Hids & Hcat & Ha' & Hc'); [done|lia|done..|].
    pose proof (zlen_nonneg d) as Hd0. rewrite Hc in Hn2. assert (Hnd : Z.of_nat n ≤ zlen d + 1) by nia.
    assert (Hlen : (length (available fd) = 5 + length d + length (available fd'))%nat) by (rewrite Ha, Ha', !length_app; cbn; lia).
    replace fuel with (n + (fuel - n))%nat by (unfold zlen in *; lia). rewrite (dump_reads n _ _ _ _ _ _ _ _ Hr Hl).
    + rewrite (deliver_pieces i d l x cb Hids Hcat) by first [by intros ->; cbn in Hl; lia | intros ->; specialize (Hx eq_refl); nia].
      rewrite (deliver_cons (i, d) packets). destruct (deliver [(i, d)] x cb) as [[x1 cb1]|]; [|by exists fd']. cbn [mbind outcome_bind].
      apply IH; [done|lia|unfold zlen in *; lia|]. by exists tail.
    + apply Forall_forall. intros y Hy E. rewrite Forall_forall in Hids. pose proof (Hids y Hy) as Hi'. rewrite E in Hi'. specialize (Hx (eq_sym Hi')).
      assert (n = 1%nat) as -> by nia. destruct l as [|z [|? ?]]; [done| |done]. apply list_elem_of_singleton in Hy as ->.
      cbn [fmap list_fmap concat] in Hcat. rewrite app_nil_r in Hcat. rewrite Hcat. intros ->. unfold zlen in Hx. cbn in Hx. lia.
Qed.

(** From the start of [read_and_dump]. *)
Lemma dump_started packets tail rest fd cb :
  kHeaderSize ≤ zlen rest → Forall (packet_fits (zlen rest - 4)) packets → cut_short (zlen rest - 4) tail →
  available fd = concat (packet_bytes <$> packets) ++ tail →
  ∃ fd', dump_shell (S (length (available fd))) (ShellProtocol_new rest) 0 fd cb = '(exit_code, cb) ← deliver packets 0 cb; Ret (exit_code, cb, fd').
Proof.
  intros Hr Hp Ht Ha. unfold ShellProtocol_new. unfold kHeaderSize in Hr.
  rewrite <-(take_drop 4 rest). set (h := of_cval kIdInvalid :: take 4 rest).
  assert (Hh : zlen h = kHeaderSize) by (unfold h; rewrite zlen_cons; change 4%nat with (Z.to_nat 4); rewrite zlen_take; unfold kHeaderSize; lia).
  assert (Hc : zlen (drop 4 rest) = zlen rest - 4) by (change 4%nat with (Z.to_nat 4); rewrite zlen_drop; lia).
  change (of_cval kIdInvalid :: take 4 rest ++ drop 4 rest) with (h ++ drop 4 rest).
  apply (dump_packets (zlen rest - 4)); [done|done|lia|done|lia|by exists tail].
Qed.

(** The output of a command is what the device sent.  Whatever the stream is cut
    into, and whatever pieces the buffer makes of its packets, all of standard output
    and standard error reaches the callback, in order, and the exit code is that of
    the last packet that carries one - none, as when the connection is cut before,
    being success; a packet that is cut short is not shown. *)
Theorem output_delivered packets tail rest fd cb :
  kHeaderSize ≤ zlen rest → Forall (packet_fits (zlen rest - 4)) packets → cut_short (zlen rest - 4) tail →
  available fd = concat (packet_bytes <$> packets) ++ tail →
  ∃ fd', read_and_dump rest fd true cb = '(exit_code, cb) ← deliver packets 0 cb; '(status, cb) ← Done exit_code cb; Ret (status, cb, fd').
Proof.
  intros Hr Hp Ht Ha. unfold read_and_dump. destruct (dump_started packets tail rest fd cb Hr Hp Ht Ha) as [fd' ->]. exists fd'.
  by destruct (deliver packets 0 cb) as [[x cb1]|].
Qed.
End delivered.

Lemma output_delivered_witness :
  ∃ fd', read_and_dump (replicate 8 NUL) [RdData ([of_cval 1] ++ [of_cval 6; NUL; NUL; NUL] ++ $"he"); RdData ($"llo!" ++ [of_cval 3; of_cval 1; NUL; NUL; NUL; of_cval 7] ++ [of_cval 2])] true (mkDefault [] []) =
    Ret (7, mkDefault $"hello!" [], fd').
Proof.
  destruct (output_delivered (C := DefaultCallback) [(kIdStdout, $"hello!"); (kIdExit, [of_cval 7])] [of_cval 2] (replicate 8 NUL)
    [RdData ([of_cval 1] ++ [of_cval 6; NUL; NUL; NUL] ++ $"he"); RdData ($"llo!" ++ [of_cval 3; of_cval 1; NUL; NUL; NUL; of_cval 7] ++ [of_cval 2])] (mkDefault [] [])) as [fd' Hr].
  - discriminate.
  - repeat constructor; discriminate.
  - left. reflexivity.
  - reflexivity.
  - exists fd'. exact Hr.
Defined.

(** Without the protocol all is standard output, and the exit code is lost. *)
Lemma raw_delivered `{Streaming C} rest fd cb : ∃ fd', read_and_dump rest fd false cb = cb ← OnStdout (available fd) cb; '(status, cb) ← Done 0 cb; Ret (status, cb, fd').
Proof.
  unfold read_and_dump. assert (Hd : ∀ fuel fd cb, (length (available fd) < fuel)%nat → ∃ fd', dump_raw fuel fd cb = cb ← OnStdout (available fd) cb; Ret (cb, fd')).
  { clear fd cb. induction fuel as [|fuel IH]; intros fd cb Hf; [lia|]. cbn [dump_raw]. pose proof (adb_read_spec fd BUFSIZ ltac:(done)) as Hr.
    destruct (adb_read fd BUFSIZ) as [[d| |e] fd1]; [|rewrite Hr, OnStdout_nil; by exists fd1..].
    destruct Hr as [Hd Ha]. rewrite Ha, OnStdout_app. destruct (OnStdout d cb) as [cb1|]; [|by exists fd1]. cbn [mbind outcome_bind]. apply IH.
    rewrite Ha, length_app in Hf. unfold zlen in Hd. lia. }
  destruct (Hd (S (length (available fd))) fd cb ltac:(lia)) as [fd' ->]. exists fd'. by destruct (OnStdout (available fd) cb).
Qed.

(** ** Every stream ends *)

Lemma read_into_total p off len fd : 0 ≤ off → 0 ≤ len → off + len ≤ zlen (buffer_ p) →
  ∃ ok b fd', read_into p off len fd = Ret (ok, mkShell b (data_length_ p) (bytes_left_ p), fd') ∧ zlen b = zlen (buffer_ p) ∧
    (ok = true → zlen (available fd') = zlen (available fd) - len).
Proof.
  intros Ho Hl Hb. unfold read_into. destruct (ReadFdExactly_Ret fd len Hl) as (ok & g & fd' & -> & Hok & Hbad). cbn [mbind outcome_bind].
  assert (Hg : zlen g ≤ len ∧ (ok = true → zlen (available fd') = zlen (available fd) - len)).
  { destruct (Z.le_gt_cases len (zlen (available fd))) as [H|H].
    - destruct (Hok H) as (-> & -> & ->). rewrite zlen_take, zlen_drop by lia. split; [lia|done].
    - destruct (Hbad H) as [-> ->]. split; [lia|done]. }
  pose proof (zlen_nonneg g). destruct (memcpy_Ret (buffer_ p) off g Ho ltac:(lia)) as (b & -> & Hz & _). cbn [mbind outcome_bind]. exists ok, b, fd'. split; [done|]. split; [done|apply Hg].
Qed.
Lemma Read_total p fd : 0 < data_capacity p → 0 ≤ bytes_left_ p < 2 ^ 32 →
  ∃ ok p' fd', Read p fd = Ret (ok, p', fd') ∧ data_capacity p' = data_capacity p ∧ 0 ≤ bytes_left_ p' < 2 ^ 32 ∧
    (ok = true → 0 ≤ data_length_ p' ≤ data_capacity p ∧ zlen (available fd') < zlen (available fd)).
Proof.
  unfold data_capacity. intros Hc Hl. unfold Read, data_capacity. pose proof (zlen_nonneg (available fd)).
  assert (Hbody : ∀ q fd1, zlen (buffer_ q) = zlen (buffer_ p) → 0 ≤ bytes_left_ q < 2 ^ 32 → zlen (available fd1) ≤ zlen (available fd) →
    (bytes_left_ q = 0 → zlen (available fd1) < zlen (available fd)) →
    ∃ ok p' fd', (let read_length := Z.min (bytes_left_ q) (zlen (buffer_ q) - kHeaderSize) in
      '(ok, p, fd) ← (if negb (read_length =? 0) then read_into q kHeaderSize read_length fd1 else Ret (true, q, fd1));
      if negb (ok : bool) then Ret (false, p, fd) else Ret (true, mkShell (buffer_ p) read_length (u64 (bytes_left_ p - read_length)), fd)) = Ret (ok, p', fd') ∧
      zlen (buffer_ p') - kHeaderSize = zlen (buffer_ p) - kHeaderSize ∧ 0 ≤ bytes_left_ p' < 2 ^ 32 ∧
      (ok = true → 0 ≤ data_length_ p' ≤ zlen (buffer_ p) - kHeaderSize ∧ zlen (available fd') < zlen (available fd))).
  { intros q fd1 Hq Hql Ha Ha0. cbv zeta. set (r := Z.min _ _). destruct (Z.eqb_spec r 0) as [Hr|Hr]; cbn [negb].
    - cbn [mbind outcome_bind]. eexists _, _, _. split; [done|]. cbn [buffer_ bytes_left_ data_length_]. rewrite u64_small by lia. split_and!; lia.
    - destruct (read_into_total q kHeaderSize r fd1) as (ok & b & fd' & -> & Hb & Hok); [done|lia|lia|]. cbn [mbind outcome_bind].
      destruct ok; cbn [negb]; [|eexists _, _, _; split; [done|]; cbn; split_and!; (done || lia)]. eexists _, _, _. split; [done|].
      specialize (Hok eq_refl). cbn [buffer_ bytes_left_ data_length_]. rewrite u64_small by lia. split_and!; lia. }
  destruct (Z.eqb_spec (bytes_left_ p) 0) as [Hz|Hz].
  - destruct (read_into_total p 0 kHeaderSize fd) as (ok & b & fd1 & -> & Hb & Hok); [done|done|lia|]. cbn [mbind outcome_bind].
    destruct ok; cbn [negb]; [|eexists _, _, _; split; [done|]; cbn; split_and!; (done || lia)].
    specialize (Hok eq_refl). unfold kHeaderSize in Hok. apply Hbody; cbn [buffer_ bytes_left_]; [done|apply word_at_range|lia|intros _; lia].
  - cbn [mbind outcome_bind negb]. apply Hbody; [done|done|lia|lia].
Qed.

Lemma dump_shell_ends `{StreamsCallback C} fuel p x fd cb :
  (∀ b cb, ∃ cb', OnStdout b cb = Ret cb') → (∀ b cb, ∃ cb', OnStderr b cb = Ret cb') →
  0 < data_capacity p → 0 ≤ bytes_left_ p < 2 ^ 32 → zlen (available fd) < Z.of_nat fuel → ∃ r, dump_shell fuel p x fd cb = Ret r.
Proof.
  intros Ho He. revert p x fd cb. induction fuel as [|fuel IH]; intros p x fd cb Hc Hl Hf; [pose proof (zlen_nonneg (available fd)); lia|]. cbn [dump_shell].
  destruct (Read_total p fd Hc Hl) as (ok & p' & fd' & -> & Hc' & Hl' & Hok). cbn [mbind outcome_bind]. destruct ok; cbn [negb]; [|by eexists].
  destruct (Hok eq_refl) as (_ & Ha). assert (∃ r, on_packet p' x cb = Ret r) as [[x' cb'] ->].
  { unfold on_packet. destruct (Ho (data p') cb) as [? ->], (He (data p') cb) as [? ->]. cbn. repeat case_match; by eexists. }
  cbn [mbind outcome_bind]. apply IH; lia.
Qed.

(** Whatever the device sends, [read_and_dump] comes to its end with it, if the
    callback returns. *)
Lemma read_and_dump_ends `{StreamsCallback C} rest fd use cb :
  kHeaderSize ≤ zlen rest → (∀ b cb, ∃ cb', OnStdout b cb = Ret cb') → (∀ b cb, ∃ cb', OnStderr b cb = Ret cb') → (∀ x cb, ∃ r, Done x cb = Ret r) →
  ∃ r, read_and_dump rest fd use cb = Ret r.
Proof.
  intros Hr Ho He Hd. unfold read_and_dump. unfold kHeaderSize in Hr. assert (∃ r, (if use then dump_shell (S (length (available fd))) (ShellProtocol_new rest) 0 fd cb
     else '(cb, fd) ← dump_raw (S (length (available fd))) fd cb; Ret (0, cb, fd)) = Ret r) as [[[x cb'] fd'] ->].
  - destruct use.
    + apply dump_shell_ends; [done..| |cbn; lia|unfold zlen; lia]. unfold data_capacity, ShellProtocol_new, kHeaderSize. cbn [buffer_]. rewrite zlen_cons. lia.
    + assert (Hraw : ∀ fuel fd cb, (length (available fd) < fuel)%nat → ∃ r, dump_raw fuel fd cb = Ret r).
      { clear fd cb. induction fuel as [|fuel IH]; intros fd cb Hf; [lia|]. cbn [dump_raw]. pose proof (adb_read_spec fd BUFSIZ ltac:(done)) as Hrd.
        destruct (adb_read fd BUFSIZ) as [[d| |e] fd1]; [|by eexists..]. destruct Hrd as [Hd1 Ha]. destruct (Ho d cb) as [cb' ->]. cbn [mbind outcome_bind].
        apply IH. rewrite Ha, length_app in Hf. unfold zlen in Hd1. lia. }
      destruct (Hraw (S (length (available fd))) fd cb ltac:(lia)) as [[cb' fd'] ->]. by eexists.
  - cbn [mbind outcome_bind]. destruct (Hd x cb') as [[s cb2] ->]. by eexists.
Qed.

(** ** A connection for every round *)

Section rounds.
Context (to : target) (server_spec : bytes) (local_spec : bool) (errno_text reason : bytes).
Definition left_ (e : env) : nat := length (connects e).
(** No connection comes back, and one is used for a result that [used] picks. *)
Definition uses {A} (used : A → bool) (m : outcome (A * env)) (n : nat) : Prop :=
  ∀ r e', m = Ret (r, e') → (left_ e' + (if used r then 1 else 0) ≤ n)%nat.
Definition is_fd (r : connected) : bool := match r with Fd _ => true | _ => false end.

Lemma uses_weaken {A} (used : A → bool) m n n' : uses used m n → (n ≤ n')%nat → uses used m n'.
Proof. intros Hu Hn r e' H. specialize (Hu r e' H). lia. Qed.
Lemma uses_ret {A} (used : A → bool) r e n : (left_ e + (if used r then 1 else 0) ≤ n)%nat → uses used (Ret (r, e)) n.
Proof. by intros Hn ? ? [= <- <-]. Qed.
Ltac used_up := apply uses_ret; unfold left_ in *; cbn in *; lia.
Lemma uses_bind {A B C} (m : outcome (A * B)) (f : A → B → outcome (C * env)) used n :
  (∀ a b, uses used (f a b) n) → uses used ('(a, b) ← m; f a b) n.
Proof. intros Hf r e'. destruct m as [[a b]|]; [apply Hf|done]. Qed.
Lemma uses_env {A B} (m : outcome (A * env)) (f : A → env → outcome (B * env)) (u : A → bool) used n k :
  uses u m n → (∀ a e, (left_ e + (if u a then 1 else 0) ≤ n)%nat → uses used (f a e) k) → uses used ('(a, e) ← m; f a e) k.
Proof. intros Hm Hf r e'. destruct m as [[a e]|] eqn:E; [|done]. apply Hf. by apply Hm. Qed.

Lemma ask_uses c service e : uses is_fd (ask_service errno_text c service e) (S (left_ e)).
Proof.
  unfold ask_service. apply uses_bind. intros ok c1. destruct ok; cbn [negb]; [|used_up].
  apply uses_bind. intros err c2. destruct err; used_up.
Qed.
Lemma adb_connect__uses service e : uses is_fd (adb_connect_ to server_spec errno_text reason service e) (left_ e).
Proof.
  unfold adb_connect_. destruct (_ || _); [used_up|]. unfold socket_spec_connect, left_.
  destruct e as [[|[c|] cs] l sd]; cbn [connects launches said length]; [used_up| |used_up].
  destruct (negb _); [|apply ask_uses]. apply uses_bind. intros err c1. destruct err; [used_up|apply ask_uses].
Qed.
Lemma kill_uses e : uses (λ _, false) (adb_kill_server e) (left_ e).
Proof.
  unfold adb_kill_server, socket_spec_connect, left_. destruct e as [[|[c|] cs] l sd]; cbn [connects launches said length]; [used_up| |used_up].
  apply uses_bind. intros ok c1. destruct ok; cbn [negb]; [|used_up].
  intros r e'. destruct (ReadFdExactly _ _) as [[[? ?] ?]|]; [|done]. cbn [mbind outcome_bind]. destruct (ReadOrderlyShutdown _) as [[[? ?] ?]|]; [|done].
  cbn [mbind outcome_bind]. intros [= <- <-]. cbn. lia.
Qed.
Lemma connect_service_uses service e : uses is_fd (connect_service to server_spec errno_text reason service e) (left_ e).
Proof. unfold connect_service. case_bool_decide; [used_up|apply adb_connect__uses]. Qed.
Lemma start_uses service e : uses is_fd (start_server to server_spec errno_text reason service e) (left_ e).
Proof. unfold start_server. destruct (launches e) as [|[] l]; [used_up..|]. apply (connect_service_uses service (mkEnv _ _ _)). Qed.
Lemma check_uses version service e : uses is_fd (check_version to server_spec errno_text reason version service e) (left_ e).
Proof.
  unfold check_version. destruct (_ =? _); [apply connect_service_uses|]. eapply uses_env; [apply kill_uses|]. cbn. intros _ e1 He.
  eapply uses_weaken; [apply start_uses|lia].
Qed.
Lemma adb_connect_uses service e : uses is_fd (adb_connect to server_spec local_spec errno_text reason service e) (left_ e).
Proof.
  unfold adb_connect. eapply uses_env; [apply adb_connect__uses|]. intros r e1 He. destruct r as [c|error|error|]; cbn [is_fd] in He.
  - apply uses_bind. intros [v|error] c1; [|used_up].
    intros r e'. destruct (orderly_shutdown c1) as [c2|]; [|done]. cbn [mbind outcome_bind]. revert r e'. fold (uses is_fd).
    destruct (sscanf_x4 v) as [version|].
    + apply (uses_weaken is_fd _ (left_ (closed c2 e1))); [apply check_uses|unfold left_ in *; cbn; lia].
    + used_up.
  - case_bool_decide; [eapply uses_weaken; [apply check_uses|lia]|used_up].
  - destruct local_spec; [eapply uses_weaken; [apply start_uses|lia]|used_up].
  - used_up.
Qed.
Lemma adb_command_uses service e : uses Datatypes.id (adb_command to server_spec local_spec errno_text reason service e) (left_ e).
Proof.
  unfold adb_command. eapply uses_env; [apply adb_connect_uses|]. intros r e1 He. destruct r as [c|error|error|]; cbn [is_fd] in He; [|used_up..|done].
  apply uses_bind. intros [error|] c1; [used_up|]. intros r e'. destruct (orderly_shutdown c1) as [c2|]; [|done].
  cbn [mbind outcome_bind]. intros [= <- <-]. unfold left_ in *. cbn. lia.
Qed.
Lemma wait_uses service e : uses Datatypes.id (wait_for_device to server_spec local_spec errno_text reason service e) (left_ e).
Proof.
  unfold wait_for_device. intros r e'. destruct (Split service $"-") as [l|]; [|done]. cbn [mbind outcome_bind].
  destruct ((zlen l <? 3) || (4 <? zlen l)); [intros [= <- <-]; cbn; lia|]. cbv zeta.
  match goal with |- (if ?b then _ else _) = _ → _ => destruct b; [intros [= <- <-]; cbn; lia|] end.
  match goal with |- (if ?b then _ else _) = _ → _ => destruct b; [intros [= <- <-]; cbn; lia|] end. apply adb_command_uses.
Qed.
Lemma features_uses e : uses (λ _, false) (adb_get_feature_set to server_spec local_spec errno_text reason e) (left_ e).
Proof.
  unfold adb_get_feature_set, adb_query. intros r e'.
  destruct (adb_connect _ _ _ _ _ _ _) as [[r1 e1]|] eqn:E; [|done]. apply adb_connect_uses in E. cbn [mbind outcome_bind].
  destruct r1 as [c|error|error|]; cbn [is_fd] in E; [|cbn [mbind outcome_bind]; intros [= <- <-]; lia..|done].
  destruct (recv errno_text c) as [[[s|error] c1]|]; [| |done]; cbn [mbind outcome_bind].
  - destruct (orderly_shutdown c1) as [c2|]; [|done]. cbn [mbind outcome_bind]. destruct (StringToFeatureSet s); [|done]. cbn [mbind outcome_bind].
    intros [= <- <-]. unfold left_ in *. cbn in *. lia.
  - intros [= <- <-]. unfold left_ in *. cbn in *. lia.
Qed.

(** A connection for every round of [connect_shell] is enough. *)
Lemma connect_shell_fuel term command disable f1 f2 use e : (left_ e < f1)%nat → (left_ e < f2)%nat →
  connect_shell to server_spec local_spec errno_text reason term f1 command disable use e =
  connect_shell to server_spec local_spec errno_text reason term f2 command disable use e.
Proof.
  revert f2 use e. induction f1 as [|f1 IH]; intros [|f2] use e H1 H2; [lia..|]. cbn [connect_shell].
  match goal with |- ?m ≫= _ = _ => destruct m as [[[attempt use1] e1]|] eqn:E; [|done] end. cbn [mbind outcome_bind].
  assert (He1 : (left_ e1 ≤ left_ e)%nat).
  { destruct disable; [by injection E as <- <- <-|]. destruct (adb_get_feature_set _ _ _ _ _ _) as [[f e2]|] eqn:Ef; [|done]. apply features_uses in Ef.
    cbn [mbind outcome_bind] in E. destruct f; injection E as <- <- <-; lia. }
  match goal with |- ?m ≫= _ = _ => destruct m as [[r e2]|] eqn:E2; [|done] end. cbn [mbind outcome_bind].
  assert (He2 : (left_ e2 ≤ left_ e1)%nat).
  { destruct attempt; [|by injection E2 as <- <-]. unfold connect_to in E2. destruct (adb_connect _ _ _ _ _ _ _) as [[r1 e3]|] eqn:Ec; [|done].
    apply adb_connect_uses in Ec. injection E2 as <- <-. lia. }
  assert (Hw : ∀ A (m : outcome (bool * env)) (f g : bool * env → outcome A), (∀ r, m = Ret r → f r = g r) → m ≫= f = m ≫= g).
  { intros A m f g Hfg. destruct m; [by apply Hfg|done]. }
  destruct r as [[c|error|error|]|]; [done|apply Hw..]; intros [ok e3] Ew%wait_uses; destruct ok; try done; cbn in Ew; apply IH; lia.
Qed.
End rounds.

(** ** From the client to the daemon *)

(** A value of TERM that the name of a service can carry. *)
Definition term_ok (t : bytes) : Prop := nul_free t ∧ ","%char ∉ t ∧ ":"%char ∉ t.

Lemma strchr_skip s c t : c ∉ s → strchr (s ++ c :: t) c = Some (c :: t).
Proof.
  intros Hs. induction s as [|x s IH]; cbn [app strchr]; [by rewrite char_eqb_refl|].
  apply not_elem_of_cons in Hs as [? ?]. destruct (char_eqb_spec x c); [congruence|]. by apply IH.
Qed.

Lemma term_arg t s : nul_free t → service_arg ($"TERM=" ++ t) s = mkSubprocess (sp_command s) t (sp_type s) (sp_protocol s).
Proof.
  intros Hn. destruct s as [cmd term ty pr]. unfold service_arg. rewrite !bool_decide_eq_false_2 by done.
  assert (Hs : StartsWith ($"TERM=" ++ t) $"TERM=" = true).
  { apply StartsWith_spec; [apply nul_free_app; split; [by apply nul_free_b|done]|by apply nul_free_b|by exists t]. }
  by rewrite Hs.
Qed.

(** The arguments of the service, and the name that carries them. *)
Definition shell_args (term : option bytes) (use : bool) (type_arg : bytes) : list bytes :=
  (if use then kShellServiceArgShellProtocol :: (match term with Some t => [$"TERM=" ++ t] | None => [] end) else []) ++
  (if bool_decide (type_arg = []) then [] else [type_arg]).
Lemma shell_args_ok term use type_arg : (∀ t, term = Some t → term_ok t) → type_arg ∈ [[]; kShellServiceArgRaw; kShellServiceArgPty] →
  Forall (λ a, nul_free a ∧ ","%char ∉ a ∧ ":"%char ∉ a) (shell_args term use type_arg).
Proof.
  intros Ht Hty. assert (Hb : ∀ a, forallb (λ c, negb (char_eqb c NUL) && negb (char_eqb c ",") && negb (char_eqb c ":")) a = true → nul_free a ∧ ","%char ∉ a ∧ ":"%char ∉ a).
  { intros a Ha. rewrite forallb_forall in Ha. assert (Hc : ∀ c, c ∈ a → c ≠ NUL ∧ c ≠ ","%char ∧ c ≠ ":"%char).
    { intros c Hc%list_elem_of_In. specialize (Ha c Hc). destruct (char_eqb_spec c NUL), (char_eqb_spec c ","), (char_eqb_spec c ":"); done. }
    split_and!; intros Hc'%Hc; naive_solver. }
  unfold shell_args. apply Forall_app. split.
  - destruct use; [|constructor]. constructor; [by apply Hb|]. destruct term as [t|]; [|constructor]. constructor; [|constructor].
    destruct (Ht t eq_refl) as (? & ? & ?). destruct (Hb $"TERM=" eq_refl) as (? & ? & ?). rewrite nul_free_app, !not_elem_of_app. done.
  - case_bool_decide; [constructor|]. constructor; [|constructor].
    apply elem_of_cons in Hty as [->|Hty]; [done|]. apply elem_of_cons in Hty as [->|Hty]; [by apply Hb|]. apply list_elem_of_singleton in Hty as ->. by apply Hb.
Qed.

Lemma Join_free c l sep : Forall (λ a, c ∉ a) l → c ∉ sep → c ∉ Join l sep.
Proof.
  intros Hl Hs. destruct Hl as [|a l Ha Hl]; [apply not_elem_of_nil|]. cbn [Join]. apply not_elem_of_app. split; [done|].
  induction Hl as [|b l Hb Hl IH]; cbn [join_rest]; [apply not_elem_of_nil|]. rewrite !not_elem_of_app. done.
Qed.

Lemma ShellService_args l command : Forall (λ a, nul_free a ∧ ","%char ∉ a ∧ ":"%char ∉ a) l →
  ShellService (Join ([] :: l) $"," ++ ":"%char :: command) =
    Ret (Some (fold_left (λ s arg, service_arg arg s) l (mkSubprocess command $"dumb" (if bool_decide (command = []) then kPty else kRaw) kNone))).
Proof.
  intros Hl. unfold ShellService. rewrite strchr_skip.
  - rewrite length_app, Nat.add_sub, take_app_length. rewrite Split_pieces by done. change $"," with [","%char]. rewrite pieces_Join; [|done|].
    + cbn [mbind outcome_bind drop fold_left]. done.
    + constructor; [constructor|]. eapply Forall_impl; [exact Hl|]. intros a (_ & Ha & _). by apply free_of_one.
  - apply Join_free; [constructor; [apply not_elem_of_nil|]|by apply (bool_decide_unpack _)].
    eapply Forall_impl; [exact Hl|]. by intros a (_ & _ & ?).
Qed.

(** C32: The daemon starts what the client asked for: the command, in a
    pseudoterminal or not as the client said or else as there is no command, with the
    shell protocol exactly when the client uses it, and TERM as the client has it
    then and "dumb" otherwise, for every TERM without commas and colons. *)
Theorem shell_service_roundtrip term use type_arg command :
  (∀ t, term = Some t → term_ok t) → type_arg ∈ [[]; kShellServiceArgRaw; kShellServiceArgPty] → nul_free command →
  shell_service (ShellServiceString term use type_arg command) =
    Ret (Some (mkSubprocess command (if use then default $"dumb" term else $"dumb")
      (if bool_decide (type_arg = []) then if bool_decide (command = []) then kPty else kRaw else if bool_decide (type_arg = kShellServiceArgPty) then kPty else kRaw)
      (if use then kShell else kNone))).
Proof.
  intros Ht Hty Hc. pose proof (shell_args_ok term use type_arg Ht Hty) as Hl.
  assert (Hname : ShellServiceString term use type_arg command = $"shell" ++ Join ([] :: shell_args term use type_arg) $"," ++ ":"%char :: command).
  { unfold ShellServiceString. fold (shell_args term use type_arg). rewrite (c_str_id command) by done. rewrite c_str_id.
    - f_equal. destruct (shell_args term use type_arg); [done|]. by rewrite Join_cons.
    - apply Join_free; [|by apply nul_free_b]. eapply Forall_impl; [exact Hl|]. by intros a (? & _). }
  rewrite Hname. unfold shell_service. rewrite prefix_of_app. change 5%nat with (length $"shell"). rewrite drop_app_length, ShellService_args by done. do 2 f_equal.
  unfold shell_args. destruct use.
  - assert (Hterm : ∀ s, fold_left (λ s arg, service_arg arg s) (match term with Some t => [$"TERM=" ++ t] | None => [] end) s =
      mkSubprocess (sp_command s) (default (sp_terminal s) term) (sp_type s) (sp_protocol s)).
    { intros [? ? ? ?]. destruct term as [t|]; [|done]. cbn [fold_left]. rewrite term_arg by apply (Ht t eq_refl). done. }
    cbn [app]. cbn [fold_left]. rewrite fold_left_app, Hterm. cbn [service_arg].
    apply elem_of_cons in Hty as [->|Hty]; [done|]. apply elem_of_cons in Hty as [->|Hty]; [done|]. apply list_elem_of_singleton in Hty as ->. done.
  - apply elem_of_cons in Hty as [->|Hty]; [done|]. apply elem_of_cons in Hty as [->|Hty]; [done|]. apply list_elem_of_singleton in Hty as ->. done.
Qed.

Lemma shell_service_roundtrip_witness :
  shell_service (ShellServiceString (Some $"xterm-256color") true $"pty" $"ls: -l") = Ret (Some (mkSubprocess $"ls: -l" $"xterm-256color" kPty kShell)).
Proof.
  apply (shell_service_roundtrip (Some $"xterm-256color") true kShellServiceArgPty $"ls: -l").
  - intros t [= <-]. split; [by apply nul_free_b|]. split; by apply (bool_decide_unpack _).
  - by apply (bool_decide_unpack _).
  - by apply nul_free_b.
Defined.

(** A TERM with a colon ends the arguments: the rest of it goes before the command. *)
Example term_with_colon : shell_service (ShellServiceString (Some $"screen:2") true $"raw" $"id") = Ret (Some (mkSubprocess $"2,raw:id" $"screen" kRaw kShell)).
Proof. reflexivity. Qed.
