(* ===== verification/Bugreport.v ===== *)
(** * Bug reports
    (src/src/client/bugreport.cpp)

    The client runs a command on the device that takes a bug report and says, line by
    line, how far it is and where the report is; then the client pulls it.  The
    callback is one of those of ShellClient.v.  An exception that nothing catches,
    a division by zero and an overflow are [Abort]. *)

From Stdlib Require Import ZArith Lia List Ascii String.
From stdpp Require Import base numbers list strings.
From S2P Require Import Prelude.
From S2P Require Import Libc.
From S2P Require Import Strings.
From S2P Require Import AdbIo.
From S2P Require Import Files.
From S2P Require Import ShellProto.
From S2P Require Import AdbClient.
From S2P Require Import ShellClient.

Definition BUGZ_BEGIN_PREFIX : bytes := $"BEGIN:".
Definition BUGZ_PROGRESS_PREFIX : bytes := $"PROGRESS:".
Definition BUGZ_PROGRESS_SEPARATOR : bytes := $"/".
Definition BUGZ_OK_PREFIX : bytes := $"OK:".
Definition BUGZ_FAIL_PREFIX : bytes := $"FAIL:".

(** The members of the callback; what has been shown of the progress and written to
    the error stream; the calls of [DoSyncPull], with source, destination and name. *)
Record bugreport := mkBug {
  src_file_ : bytes; dest_dir_ : bytes; dest_file_ : bytes; line_message_ : bytes; invalid_lines_ : list bytes; show_progress_ : bool;
  status_ : Z; line_ : bytes; last_progress_percentage_ : Z;
  progress_shown : list (bytes * Z); errors_shown : bytes; pulls : list (bytes * bytes * bytes) }.

Definition set_paths (src dest_file message : bytes) (b : bugreport) : bugreport :=
  mkBug src (dest_dir_ b) dest_file message (invalid_lines_ b) (show_progress_ b) (status_ b) (line_ b) (last_progress_percentage_ b) (progress_shown b) (errors_shown b) (pulls b).
Definition set_line (l : bytes) (b : bugreport) : bugreport :=
  mkBug (src_file_ b) (dest_dir_ b) (dest_file_ b) (line_message_ b) (invalid_lines_ b) (show_progress_ b) (status_ b) l (last_progress_percentage_ b) (progress_shown b) (errors_shown b) (pulls b).
Definition set_status (x : Z) (b : bugreport) : bugreport :=
  mkBug (src_file_ b) (dest_dir_ b) (dest_file_ b) (line_message_ b) (invalid_lines_ b) (show_progress_ b) x (line_ b) (last_progress_percentage_ b) (progress_shown b) (errors_shown b) (pulls b).
Definition add_invalid (l : bytes) (b : bugreport) : bugreport :=
  mkBug (src_file_ b) (dest_dir_ b) (dest_file_ b) (line_message_ b) (invalid_lines_ b ++ [l]) (show_progress_ b) (status_ b) (line_ b) (last_progress_percentage_ b) (progress_shown b) (errors_shown b) (pulls b).
Definition say (e : bytes) (b : bugreport) : bugreport :=
  mkBug (src_file_ b) (dest_dir_ b) (dest_file_ b) (line_message_ b) (invalid_lines_ b) (show_progress_ b) (status_ b) (line_ b) (last_progress_percentage_ b) (progress_shown b) (errors_shown b ++ e) (pulls b).
Definition UpdateProgress (percentage : Z) (b : bugreport) : bugreport :=
  mkBug (src_file_ b) (dest_dir_ b) (dest_file_ b) (line_message_ b) (invalid_lines_ b) (show_progress_ b) (status_ b) (line_ b) percentage (progress_shown b ++ [(line_message_ b, percentage)]) (errors_shown b) (pulls b).
Definition pulled (src dest : bytes) (b : bugreport) : bugreport :=
  mkBug (src_file_ b) (dest_dir_ b) (dest_file_ b) (line_message_ b) (invalid_lines_ b) (show_progress_ b) (status_ b) (line_ b) (last_progress_percentage_ b) (progress_shown b) (errors_shown b) (pulls b ++ [(src, dest, line_message_ b)]).

Definition line_message (action dest_file : bytes) : bytes := action ++ $" " ++ Basename dest_file.
Definition SetLineMessage (action : bytes) (b : bugreport) : bugreport := set_paths (src_file_ b) (dest_file_ b) (line_message action (dest_file_ b)) b.
(** The constructor. *)
Definition bugreport_new (dest_dir dest_file : bytes) (show_progress : bool) : bugreport :=
  mkBug [] dest_dir dest_file (line_message $"generating" dest_file) [] show_progress 0 [] 0 [] [] [].

Definition SetSrcFile (path : bytes) (b : bugreport) : bugreport :=
  if bool_decide (dest_dir_ b = []) then set_paths path (dest_file_ b) (line_message_ b) b
  else SetLineMessage $"generating" (set_paths path (Basename path) (line_message_ b) b).

(** [std::stoi]. *)
Definition stoi (s : bytes) : outcome Z :=
  match scan_int 10 (c_str s) with
  | None => Abort "std::invalid_argument"
  | Some (neg, v, _) =>
      let v := if neg : bool then - v else v in
      CHECK ((- 2 ^ 31 <=? v) && (v <? 2 ^ 31)) "std::out_of_range" ;; Ret v
  end.
(** [s.rfind(p)], [None] being [npos]: the last position at which [p] stands. *)
Fixpoint rfind (p s : bytes) : option nat :=
  match s with
  | [] => if bool_decide (p = []) then Some O else None
  | _ :: t => match rfind p t with Some i => Some (S i) | None => if prefix_of p s then Some O else None end
  end.

(** [npos + 1] is zero, and [npos - idx1] goes to the end of any line. *)
Definition progress_numbers (line : bytes) : outcome (Z * Z) :=
  let idx1 := (default O (rfind BUGZ_PROGRESS_PREFIX line) + length BUGZ_PROGRESS_PREFIX)%nat in
  let '(count, from) :=
    match rfind BUGZ_PROGRESS_SEPARATOR line with
    | Some idx2 => (if (idx1 <=? idx2)%nat then (idx2 - idx1)%nat else length line, S idx2)
    | None => (length line, O)
    end in
  progress ← stoi (take count (drop idx1 line));
  total ← stoi (drop from line);
  Ret (progress, total).

Definition ProcessProgress (line : bytes) (b : bugreport) : outcome bugreport :=
  '(progress, total) ← progress_numbers line;
  let scaled := progress * 100 in
  CHECK ((- 2 ^ 31 <=? scaled) && (scaled <? 2 ^ 31)) "signed overflow" ;;
  CHECK (negb (total =? 0)) "division by zero" ;;
  let percentage := Z.quot scaled total in
  if negb (percentage =? 0) && (percentage <=? last_progress_percentage_ b) then Ret b else Ret (UpdateProgress percentage b).

(** A [const char*] into the line is what follows up to a NUL. *)
Definition ProcessLine (line : bytes) (b : bugreport) : outcome bugreport :=
  if bool_decide (line = []) then Ret b
  else if StartsWith line BUGZ_BEGIN_PREFIX then Ret (SetSrcFile (c_str (drop 6 line)) b)
  else if StartsWith line BUGZ_OK_PREFIX then Ret (SetSrcFile (c_str (drop 3 line)) b)
  else if StartsWith line BUGZ_FAIL_PREFIX then
    Ret (set_status (-1) (say ($"adb: device failed to take a zipped bugreport: " ++ c_str (drop 5 line) ++ [LF]) b))
  else if show_progress_ b && StartsWith line BUGZ_PROGRESS_PREFIX then ProcessProgress line b
  else Ret (add_invalid line b).

Fixpoint on_stdout (buffer : bytes) (b : bugreport) : outcome bugreport :=
  match buffer with
  | [] => Ret b
  | c :: buffer =>
      if char_eqb c LF then b ← ProcessLine (line_ b) b; on_stdout buffer (set_line [] b)
      else on_stdout buffer (set_line (line_ b ++ [c]) b)
  end.

Definition warn_invalid (b : bugreport) : bugreport :=
  if bool_decide (invalid_lines_ b = []) then b
  else
    say ($"WARNING: bugreportz generated " ++ print_dec (zlen (invalid_lines_ b)) ++ $" line(s) with unknown commands, device might not support zipped bugreports:" ++ [LF] ++
         concat ((λ l, [of_cval 9] ++ c_str l ++ [LF]) <$> invalid_lines_ b) ++
         $"If the zipped bugreport was not generated, try 'adb bugreport' instead." ++ [LF]) b.

Section pull.
(** Whether [DoSyncPull] copies a source to a destination. *)
Context (DoSyncPull : bytes → bytes → bool).

Definition pull_report (b : bugreport) : Z * bugreport :=
  let destination := if bool_decide (dest_dir_ b = []) then dest_file_ b else c_str (dest_dir_ b) ++ $"/" ++ c_str (dest_file_ b) in
  let b := SetLineMessage $"pulling" b in
  let ok := DoSyncPull (c_str (src_file_ b)) (c_str destination) in
  let b := set_status (if ok then 0 else 1) (pulled (c_str (src_file_ b)) (c_str destination) b) in
  (status_ b,
   if ok then b
   else say ($"Bug report finished but could not be copied to '" ++ c_str destination ++ $"'." ++ [LF] ++ $"Try to run 'adb pull " ++ c_str (src_file_ b) ++
             $" <directory>'" ++ [LF] ++ $"to copy it to a directory that can be written." ++ [LF]) b).
Definition finish (b : bugreport) : outcome (Z * bugreport) :=
  b ← ProcessLine (line_ b) b;
  let b := warn_invalid b in
  Ret (if status_ b =? 0 then
         if bool_decide (src_file_ b = []) then (-1, say ($"bugreportz did not return a 'OK:' or 'FAIL:' line" ++ [LF]) b) else pull_report b
       else (status_ b, b)).

Definition BugreportStandardStreamsCallback : StreamsCallback bugreport :=
  {| OnStdout := on_stdout; OnStderr e b := Ret (say e b); Done _ b := finish b |}.

(** *** [DoIt] *)

Section doit.
Context (to : target) (server_spec : bytes) (local_spec : bool) (errno_text reason : bytes) (term : option bytes) (rest : bytes).
(** [getcwd], and the directories of the host. *)
Context (cwd : option bytes) (directory_exists : bytes → bool).

(** The status, with what the callback of the report holds then; [None] when the
    report was not asked for with one. *)
Definition destination_of (path : option bytes) : option (bytes * bytes) :=
  match path with
  | None => (λ d, (d, $"bugreport.zip")) <$> cwd
  | Some p =>
      if directory_exists p then Some (p, $"bugreport.zip")
      else Some ([], if bool_decide (p = []) then $"bugreport.zip" else if EndsWithIgnoreCase p $".zip" then p else p ++ $".zip")
  end.
Definition DoIt (path : option bytes) (e : env) : outcome (Z * option bugreport * env) :=
  '(status, version, e) ← send_shell_command to server_spec local_spec errno_text reason term rest $"bugreportz -v" false (mkDefault [] []) e;
  let bugz_version := Trim (stderr_str version) in
  if negb (status =? 0) || bool_decide (bugz_version = []) then
    match path with
    | None =>
        '(status, _, e) ← send_shell_command to server_spec local_spec errno_text reason term rest $"bugreport" false (mkDefault [] []) e; Ret (status, None, e)
    | Some _ => Ret (if negb (status =? 0) then status else -1, None, e)
    end
  else
    match destination_of path with
    | None => Ret (1, None, e)
    | Some (dest_dir, dest_file) =>
        let old := bool_decide (bugz_version = $"1.0") in
        '(status, b, e) ← send_shell_command (H := BugreportStandardStreamsCallback) to server_spec local_spec errno_text reason term rest
          (if old then $"bugreportz" else $"bugreportz -p") false (bugreport_new dest_dir dest_file (negb old)) e;
        Ret (status, Some b, e)
    end.
End doit.
End pull.

(** ** Output in pieces *)

#[export] Instance bugreport_streaming pull : @Streaming bugreport (BugreportStandardStreamsCallback pull).
Proof.
  split; cbn; try done.
  - intros a b. induction a as [|x a IH]; intros c; cbn [app on_stdout]; [done|]. destruct (char_eqb x LF); [|apply IH]. destruct (ProcessLine (line_ c) c); [apply IH|done].
  - intros b. by destruct b; unfold say; cbn; rewrite app_nil_r.
  - intros a b c. by destruct c; unfold say; cbn; rewrite app_assoc.
Qed.

(** ** A device that says where the report is *)

Inductive bug_line := SaysBegin (path : bytes) | SaysProgress (done total : Z) | SaysOk (path : bytes) | SaysFail (why : bytes).
Definition bug_text (l : bug_line) : bytes :=
  match l with
  | SaysBegin p => $"BEGIN:" ++ p
  | SaysProgress n t => $"PROGRESS:" ++ print_dec n ++ $"/" ++ print_dec t
  | SaysOk p => $"OK:" ++ p
  | SaysFail m => $"FAIL:" ++ m
  end.
Definition one_line (s : bytes) : Prop := nul_free s ∧ LF ∉ s.
Definition bug_line_ok (l : bug_line) : Prop :=
  match l with
  | SaysBegin p | SaysOk p | SaysFail p => one_line p
  | SaysProgress n t => 0 ≤ n ∧ n * 100 < 2 ^ 31 ∧ 0 < t < 2 ^ 31
  end.
(** What a line does. *)
Definition bug_step (b : bugreport) (l : bug_line) : bugreport :=
  match l with
  | SaysBegin p | SaysOk p => SetSrcFile p b
  | SaysProgress n t => let q := n * 100 / t in if negb (q =? 0) && (q <=? last_progress_percentage_ b) then b else UpdateProgress q b
  | SaysFail m => set_status (-1) (say ($"adb: device failed to take a zipped bugreport: " ++ m ++ [LF]) b)
  end.

Lemma rfind_None x p s : x ∉ s → rfind (x :: p) s = None.
Proof.
  intros Hs. induction s as [|y s IH]; [done|]. apply not_elem_of_cons in Hs as [Hne Hs]. cbn [rfind]. rewrite IH by done.
  cbn [prefix_of]. by destruct (char_eqb_spec x y).
Qed.
Lemma rfind_last x a s : x ∉ s → rfind [x] (a ++ x :: s) = Some (length a).
Proof.
  intros Hs. induction a as [|y a IH]; cbn [app rfind length]; [|by rewrite IH]. rewrite rfind_None by done. cbn [prefix_of]. by rewrite char_eqb_refl.
Qed.
Lemma stoi_dec z : 0 ≤ z < 2 ^ 31 → stoi (print_dec z) = Ret z.
Proof.
  intros Hz. unfold stoi. rewrite c_str_id by (apply print_dec_nul_free; lia). rewrite print_dec_nonneg by lia.
  pose proof (scan_int_numeral z [] ltac:(lia) eq_refl) as Hs. rewrite app_nil_r in Hs. rewrite Hs.
  rewrite (proj2 (Z.leb_le _ _)), (proj2 (Z.ltb_lt _ _)) by lia. done.
Qed.
Lemma print_dec_free c z : 0 ≤ z → isalnum c = false → c ∉ print_dec z.
Proof. intros Hz Hc. rewrite print_dec_nonneg by done. apply (digits_not_in 10); [apply numeral_all; lia|done]. Qed.
Lemma print_dec_no_P z : 0 ≤ z → "P"%char ∉ print_dec z.
Proof.
  intros Hz Hin. rewrite print_dec_nonneg in Hin by done. pose proof (numeral_all 10 z ltac:(lia)) as Ha. unfold all_digits in Ha. rewrite Forall_forall in Ha.
  destruct (Ha _ Hin) as [d Hd]. by vm_compute in Hd.
Qed.

Lemma starts_with_own p s : nul_free p → nul_free s → StartsWith (p ++ s) p = true.
Proof. intros Hp Hs. apply StartsWith_spec; [by apply nul_free_app|done|by exists s]. Qed.

Lemma progress_numbers_text n t : 0 ≤ n < 2 ^ 31 → 0 ≤ t < 2 ^ 31 → progress_numbers (bug_text (SaysProgress n t)) = Ret (n, t).
Proof.
  intros Hn Ht. unfold progress_numbers. cbn [bug_text].
  assert (Hr1 : rfind BUGZ_PROGRESS_PREFIX ($"PROGRESS:" ++ print_dec n ++ $"/" ++ print_dec t) = Some O).
  { assert (Hnone : rfind BUGZ_PROGRESS_PREFIX ($"ROGRESS:" ++ print_dec n ++ $"/" ++ print_dec t) = None).
    { apply rfind_None. rewrite !not_elem_of_app. split_and!; [by apply (bool_decide_unpack _)|by apply print_dec_no_P; lia|by apply (bool_decide_unpack _)|by apply print_dec_no_P; lia]. }
    change ($"PROGRESS:" ++ print_dec n ++ $"/" ++ print_dec t) with ("P"%char :: ($"ROGRESS:" ++ print_dec n ++ $"/" ++ print_dec t)).
    cbn [rfind]. rewrite Hnone. change ("P"%char :: ($"ROGRESS:" ++ print_dec n ++ $"/" ++ print_dec t)) with (BUGZ_PROGRESS_PREFIX ++ (print_dec n ++ $"/" ++ print_dec t)).
    by rewrite prefix_of_app. }
  assert (Hr2 : rfind BUGZ_PROGRESS_SEPARATOR ($"PROGRESS:" ++ print_dec n ++ $"/" ++ print_dec t) = Some (length ($"PROGRESS:" ++ print_dec n))).
  { rewrite (app_assoc $"PROGRESS:"). apply (rfind_last "/"%char). apply print_dec_free; [lia|done]. }
  rewrite Hr1, Hr2. cbn [default from_option Nat.add]. change (Datatypes.id 0%nat) with 0%nat.
  assert (Hl : length ($"PROGRESS:" ++ print_dec n) = (length $"PROGRESS:" + length (print_dec n))%nat) by apply length_app.
  rewrite Hl. cbn [Nat.add]. change (length BUGZ_PROGRESS_PREFIX) with (length $"PROGRESS:").
  rewrite (proj2 (Nat.leb_le _ _)) by lia. rewrite drop_app_length. replace (_ + _ - _)%nat with (length (print_dec n)) by lia. rewrite take_app_length.
  rewrite stoi_dec by done. cbn [mbind outcome_bind].
  replace (drop (S (length $"PROGRESS:" + length (print_dec n))) ($"PROGRESS:" ++ print_dec n ++ $"/" ++ print_dec t)) with (print_dec t).
  - by rewrite stoi_dec.
  - rewrite (app_assoc (print_dec n)), (app_assoc $"PROGRESS:"), drop_app_ge; rewrite !length_app; [|cbn [length chars String.list_ascii_of_string]; lia].
    replace (_ - _)%nat with 0%nat by (cbn [length chars String.list_ascii_of_string]; lia). done.
Qed.

Lemma ProcessLine_text l b : bug_line_ok l → show_progress_ b = true → ProcessLine (bug_text l) b = Ret (bug_step b l).
Proof.
  intros Hok Hp. unfold ProcessLine. rewrite bool_decide_eq_false_2 by (by destruct l). destruct l as [p|n t|p|m]; cbn [bug_text bug_line_ok bug_step] in *.
  - destruct Hok as [Hn _]. rewrite starts_with_own by (done || by apply nul_free_b). change 6%nat with (length $"BEGIN:"). by rewrite drop_app_length, c_str_id.
  - destruct Hok as (Hn & Hn2 & Ht). rewrite Hp. change (StartsWith _ BUGZ_BEGIN_PREFIX) with false. change (StartsWith _ BUGZ_OK_PREFIX) with false.
    change (StartsWith _ BUGZ_FAIL_PREFIX) with false. cbn [andb]. rewrite starts_with_own.
    + unfold ProcessProgress. pose proof (progress_numbers_text n t ltac:(lia) ltac:(lia)) as Hnum. cbn [bug_text] in Hnum. rewrite Hnum. cbn [mbind outcome_bind].
      rewrite (proj2 (Z.leb_le (- 2 ^ 31) (n * 100))), (proj2 (Z.ltb_lt (n * 100) (2 ^ 31))), (proj2 (Z.eqb_neq t 0)) by lia. cbn [CHECK andb negb mbind outcome_bind].
      rewrite Z.quot_div_nonneg by lia. by destruct (negb _ && _).
    + by apply nul_free_b.
    + rewrite !nul_free_app. split_and!; [by apply print_dec_nul_free; lia|by apply nul_free_b|by apply print_dec_nul_free; lia].
  - destruct Hok as [Hn _]. change (StartsWith _ BUGZ_BEGIN_PREFIX) with false. rewrite starts_with_own by (done || by apply nul_free_b).
    change 3%nat with (length $"OK:"). by rewrite drop_app_length, c_str_id.
  - destruct Hok as [Hn _]. change (StartsWith _ BUGZ_BEGIN_PREFIX) with false. change (StartsWith _ BUGZ_OK_PREFIX) with false.
    rewrite starts_with_own by (done || by apply nul_free_b). change 5%nat with (length $"FAIL:"). by rewrite drop_app_length, c_str_id.
Qed.

Lemma on_stdout_line s rest b : LF ∉ s → on_stdout (s ++ LF :: rest) b = b' ← ProcessLine (line_ b ++ s) (set_line (line_ b ++ s) b); on_stdout rest (set_line [] b').
Proof.
  revert b. induction s as [|c s IH]; intros b Hs; cbn [app on_stdout].
  - rewrite char_eqb_refl, app_nil_r. by destruct b.
  - apply not_elem_of_cons in Hs as [Hne Hs]. destruct (char_eqb_spec c LF); [congruence|]. rewrite IH by done. cbn [set_line line_]. by rewrite <-app_assoc.
Qed.
Lemma on_stdout_rest s b : LF ∉ s → on_stdout s b = Ret (set_line (line_ b ++ s) b).
Proof.
  revert b. induction s as [|c s IH]; intros b Hs; cbn [on_stdout]; [rewrite app_nil_r; by destruct b|].
  apply not_elem_of_cons in Hs as [Hne Hs]. destruct (char_eqb_spec c LF); [congruence|]. rewrite IH by done. cbn [set_line line_]. by rewrite <-app_assoc.
Qed.

Lemma bug_step_line l x b : line_ b = [] → set_line [] (bug_step (set_line x b) l) = bug_step b l.
Proof.
  destruct b as [src dir file msg inv show st ln lastp sh err pu]. cbn. intros ->. destruct l as [p|n t|p|m]; cbn; unfold SetSrcFile; cbn; try (by case_bool_decide); [|done].
  by destruct (negb _ && _).
Qed.
Lemma bug_step_keeps b l : show_progress_ b = true → line_ b = [] → show_progress_ (bug_step b l) = true ∧ line_ (bug_step b l) = [].
Proof.
  destruct b as [src dir file msg inv show st ln lastp sh err pu]. cbn. intros -> ->. destruct l; cbn; unfold SetSrcFile; cbn; try (by case_bool_decide); [|done].
  by destruct (negb _ && _).
Qed.
Lemma bug_line_text l : bug_line_ok l → LF ∉ bug_text l.
Proof.
  destruct l as [p|n t|p|m]; cbn [bug_line_ok bug_text]; intros H; rewrite ?not_elem_of_app; split_and!; try (by apply (bool_decide_unpack _)); try apply H.
  all: apply print_dec_free; [lia|done].
Qed.

(** The device's output: its lines, and a last one without an end if there is one. *)
Definition bug_output (ls : list bug_line) : bytes := concat ((λ l, bug_text l ++ [LF]) <$> ls).
Lemma on_stdout_lines ls b : Forall bug_line_ok ls → show_progress_ b = true → line_ b = [] → on_stdout (bug_output ls) b = Ret (foldl bug_step b ls).
Proof.
  intros Hls. revert b. induction Hls as [|l ls Hl Hls IH]; intros b Hp Hb; [done|]. unfold bug_output. cbn [fmap list_fmap concat foldl].
  rewrite <-app_assoc. cbn [app]. rewrite on_stdout_line by by apply bug_line_text. rewrite Hb. cbn [app].
  rewrite ProcessLine_text; [|done|by destruct b]. cbn [mbind outcome_bind]. rewrite bug_step_line by done.
  destruct (bug_step_keeps b l Hp Hb). by apply IH.
Qed.

(** What has been said, all in all: the last path, whether it failed, and what is shown
    of the progress. *)
Fixpoint said_path (ls : list bug_line) : option bytes :=
  match ls with
  | [] => None
  | l :: ls => match said_path ls, l with Some p, _ => Some p | None, SaysBegin p | None, SaysOk p => Some p | None, _ => None end
  end.
Definition said_fail (ls : list bug_line) : bool := existsb (λ l, match l with SaysFail _ => true | _ => false end) ls.
Definition percentages (ls : list bug_line) : list Z := omap (λ l, match l with SaysProgress n t => Some (n * 100 / t) | _ => None end) ls.
Fixpoint shown (last : Z) (l : list Z) : list Z :=
  match l with [] => [] | q :: l => if negb (q =? 0) && (q <=? last) then shown last l else q :: shown q l end.

(** The members after [ls], from any callback. *)
Lemma bug_steps b ls :
  let b' := foldl bug_step b ls in
  dest_dir_ b' = dest_dir_ b ∧ invalid_lines_ b' = invalid_lines_ b ∧ line_ b' = line_ b ∧ pulls b' = pulls b ∧
  src_file_ b' = default (src_file_ b) (said_path ls) ∧
  dest_file_ b' = (if bool_decide (dest_dir_ b = []) then dest_file_ b else default (dest_file_ b) (Basename <$> said_path ls)) ∧
  status_ b' = (if said_fail ls then -1 else status_ b) ∧
  snd <$> progress_shown b' = (snd <$> progress_shown b) ++ shown (last_progress_percentage_ b) (percentages ls).
Proof.
  revert b. induction ls as [|l ls IH]; intros b; cbv zeta in *.
  { cbn. rewrite app_nil_r. by case_bool_decide. }
  cbn [foldl]. destruct (IH (bug_step b l)) as (H1 & H2 & H3 & H4 & H5 & H6 & H7 & H8). rewrite H1, H2, H3, H4, H5, H6, H7, H8. clear.
  destruct b as [src dir file msg inv show st ln lastp sh err pu]. destruct l as [p|n t|p|m]; cbn [bug_step said_path said_fail existsb percentages omap list_omap orb].
  1,3: unfold SetSrcFile; cbn; case_bool_decide as Hd; cbn; rewrite ?Hd; repeat (rewrite bool_decide_eq_false_2 by done); by destruct (said_path ls).
  - cbn [last_progress_percentage_ shown]. destruct (negb _ && _); cbn; [by destruct (said_path ls)|]. rewrite fmap_app, <-app_assoc. by destruct (said_path ls).
  - cbn. by destruct (said_path ls), (said_fail ls).
Qed.

Lemma split_last_parts c s a b : split_last c s = Some (a, b) → s = a ++ b.
Proof.
  revert a b. induction s as [|x s IH]; intros a b; cbn; [done|]. destruct (split_last c s) as [[a' b']|]; [|by destruct (char_eqb x c); intros [= <- <-]].
  intros [= <- <-]. cbn. f_equal. by apply IH.
Qed.
Lemma Basename_nul_free s : nul_free s → nul_free (Basename s).
Proof.
  intros Hs. unfold Basename, stem. assert (Hf : nul_free (filename s)).
  { unfold filename. destruct (split_last "/" s) as [[a b]|] eqn:E; [|done]. apply split_last_parts in E as ->. by apply nul_free_app in Hs as [_ ?]. }
  revert Hf. generalize (filename s). intros name Hf. case_bool_decide; [done|]. destruct (split_last "." name) as [[a b]|] eqn:E; [|done]. apply split_last_parts in E as ->.
  apply nul_free_app in Hf as [Ha Hb]. destruct (length a =? 1)%nat; [by apply nul_free_app|]. intros Hin. apply Ha. rewrite <-(take_drop (length a - 1) a). apply elem_of_app. by left.
Qed.
Lemma said_path_nul_free ls p : Forall bug_line_ok ls → said_path ls = Some p → nul_free p.
Proof.
  induction 1 as [|l ls Hl Hls IH]; [done|]. cbn. destruct (said_path ls) as [q|]; [exact IH|]. destruct l; cbn in *; intros [= <-]; apply Hl.
Qed.


Definition bug_lines : list bug_line := [SaysBegin $"/data/bug-1.zip"; SaysProgress 10 100; SaysProgress 5 100; SaysOk $"/data/bug-1.zip"].

(** Progress that goes back to 0 is shown, and what follows it from there. *)
Example progress_goes_back : shown 0 [50; 0; 10] = [50; 0; 10].
Proof. reflexivity. Qed.
(** A line of progress that is not what it should be ends the program. *)
Example progress_malformed b : show_progress_ b = true →
  ProcessLine $"PROGRESS:10" b = Abort "std::invalid_argument" ∧ ProcessLine $"PROGRESS:1/0" b = Abort "division by zero" ∧
  ProcessLine $"PROGRESS:99999999/100000000" b = Abort "signed overflow".
Proof. intros H. unfold ProcessLine. rewrite H. split_and!; reflexivity. Qed.
