(* ===== verification/ShellDaemon.v ===== *)
(** * A shell on the daemon
    (src/src/daemon/shell_service.cpp)

    The daemon's side of a shell with the shell protocol: a thread passes the output
    of a subprocess to the client and what the client sends to the subprocess, with
    [select] and without ever blocking on the subprocess, and sends the exit code at
    the end.  The scripts of the descriptors and what [select] says, round by round,
    are the environment.  Starting the subprocess is not modelled but for its type. *)

From Stdlib Require Import ZArith Lia List Ascii String.
From stdpp Require Import base numbers list strings.
From S2P Require Import Prelude.
From S2P Require Import Libc.
From S2P Require Import AdbIo.
From S2P Require Import IOVector.
From S2P Require Import ShellProto.
From S2P Require Import ShellClient.

(** The constructor: without the protocol there is always a pseudoterminal, which is
    made raw for a raw subprocess. *)
Definition subprocess_type (type : SubprocessType) (protocol : SubprocessProtocol) : SubprocessType * bool :=
  match protocol, type with kNone, kRaw => (kPty, true) | _, _ => (type, false) end.

(** [proto_ok], [io_ok], [err_ok]: the descriptor is open.  [watch_proto],
    [watch_out], [watch_err]: the set of descriptors to read; [watch_in]: whether
    [stdinout_sfd_] is in the set to write.  Then the streams: from and to the client,
    the subprocess's output and input, its errors.  [hup]: it was sent SIGHUP;
    [input_shut]: its input has ended; [sizes]: the sizes its window was given. *)
Record subproc := mkSub {
  sp_kind : SubprocessType;
  proto_ok : bool; io_ok : bool; err_ok : bool;
  input_ : ShellProtocol; output_ : ShellProtocol; input_bytes_left_ : Z;
  watch_proto : bool; watch_out : bool; watch_err : bool; watch_in : bool;
  proto_rd : rd_fd; proto_wr : wr_fd; io_rd : rd_fd; io_wr : wr_fd; err_rd : rd_fd;
  hup : bool; input_shut : bool; sizes : list winsize }.

Definition set_open (p i e : bool) (s : subproc) : subproc :=
  mkSub (sp_kind s) p i e (input_ s) (output_ s) (input_bytes_left_ s) (watch_proto s) (watch_out s) (watch_err s) (watch_in s) (proto_rd s) (proto_wr s) (io_rd s) (io_wr s) (err_rd s) (hup s) (input_shut s) (sizes s).
Definition set_watch (p o e i : bool) (s : subproc) : subproc :=
  mkSub (sp_kind s) (proto_ok s) (io_ok s) (err_ok s) (input_ s) (output_ s) (input_bytes_left_ s) p o e i (proto_rd s) (proto_wr s) (io_rd s) (io_wr s) (err_rd s) (hup s) (input_shut s) (sizes s).
Definition set_input (p : ShellProtocol) (rd : rd_fd) (n : Z) (s : subproc) : subproc :=
  mkSub (sp_kind s) (proto_ok s) (io_ok s) (err_ok s) p (output_ s) n (watch_proto s) (watch_out s) (watch_err s) (watch_in s) rd (proto_wr s) (io_rd s) (io_wr s) (err_rd s) (hup s) (input_shut s) (sizes s).
Definition set_written (wr : wr_fd) (n : Z) (s : subproc) : subproc :=
  mkSub (sp_kind s) (proto_ok s) (io_ok s) (err_ok s) (input_ s) (output_ s) n (watch_proto s) (watch_out s) (watch_err s) (watch_in s) (proto_rd s) (proto_wr s) (io_rd s) wr (err_rd s) (hup s) (input_shut s) (sizes s).
Definition set_output (p : ShellProtocol) (wr : wr_fd) (s : subproc) : subproc :=
  mkSub (sp_kind s) (proto_ok s) (io_ok s) (err_ok s) (input_ s) p (input_bytes_left_ s) (watch_proto s) (watch_out s) (watch_err s) (watch_in s) (proto_rd s) wr (io_rd s) (io_wr s) (err_rd s) (hup s) (input_shut s) (sizes s).
Definition set_streams (o e : rd_fd) (s : subproc) : subproc :=
  mkSub (sp_kind s) (proto_ok s) (io_ok s) (err_ok s) (input_ s) (output_ s) (input_bytes_left_ s) (watch_proto s) (watch_out s) (watch_err s) (watch_in s) (proto_rd s) (proto_wr s) o (io_wr s) e (hup s) (input_shut s) (sizes s).
Definition set_fate (h i : bool) (l : list winsize) (s : subproc) : subproc :=
  mkSub (sp_kind s) (proto_ok s) (io_ok s) (err_ok s) (input_ s) (output_ s) (input_bytes_left_ s) (watch_proto s) (watch_out s) (watch_err s) (watch_in s) (proto_rd s) (proto_wr s) (io_rd s) (io_wr s) (err_rd s) h i l.

(** The descriptor that died. *)
Inductive dead_fd := DeadProto | DeadIo | DeadErr.

(** ** Input and output *)

(** [sscanf(s, "%dx%d,%dx%d")] with four results, stored in [unsigned short]s. *)
Definition scan_d (s : bytes) : option (Z * bytes) :=
  match scan_int 10 s with Some _ => let '(v, rest, _) := strtoll 10 s in Some (s32 v, rest) | None => None end.
Definition literal (c : ascii) (s : bytes) : option bytes := match s with x :: s => if char_eqb x c then Some s else None | [] => None end.
Definition scan_window (s : bytes) : option winsize :=
  '(rows, s) ← scan_d s; s ← literal "x" s; '(cols, s) ← scan_d s; s ← literal "," s;
  '(x_pixels, s) ← scan_d s; s ← literal "x" s; '(y_pixels, _) ← scan_d s;
  Some (mkWinsize (rows mod 2 ^ 16) (cols mod 2 ^ 16) (x_pixels mod 2 ^ 16) (y_pixels mod 2 ^ 16)).

Section subprocess.
(** Whether [adb_shutdown] succeeds. *)
Context (shutdown_ok : bool).

(** A new packet: whether the function returns with this. *)
Definition take_packet (s : subproc) : outcome (option (option dead_fd) * subproc) :=
  '(ok, p, rd) ← Read (input_ s) (proto_rd s);
  let s := set_input p rd 0 s in
  if negb (ok : bool) then Ret (Some (Some DeadProto), s)
  else if negb (io_ok s) then Ret (None, s)
  else if id p =? kIdWindowSizeChange then
    Ret (None, match scan_window (c_str (drop (Z.to_nat kHeaderSize) (buffer_ p))) with Some ws => set_fate (hup s) (input_shut s) (sizes s ++ [ws]) s | None => s end)
  else if id p =? kIdStdin then Ret (None, set_input p rd (data_length_ p) s)
  else if id p =? kIdCloseStdin then
    match sp_kind s with
    | kRaw => if shutdown_ok then Ret (Some None, set_fate (hup s) true (sizes s) s) else Ret (Some (Some DeadIo), s)
    | kPty => Ret (None, s)
    end
  else Ret (None, s).

(** Passing on what is left of the packet. *)
Definition write_input (s : subproc) : option dead_fd * subproc :=
  if 0 <? input_bytes_left_ s then
    let index := data_length_ (input_ s) - input_bytes_left_ s in
    match adb_write (io_wr s) (slice (buffer_ (input_ s)) (kHeaderSize + index) (input_bytes_left_ s)) with
    | (Wrote n, wr) => if n =? 0 then (Some DeadIo, set_written wr 0 s) else (None, set_written wr (input_bytes_left_ s - n) s)
    | (WroteErr EAGAIN, wr) => (None, set_written wr (input_bytes_left_ s) s)
    | (WroteErr _, wr) => (Some DeadIo, set_written wr 0 s)
    end
  else (None, s).
Definition PassInput (s : subproc) : outcome (option dead_fd * subproc) :=
  '(r, s) ← (if input_bytes_left_ s =? 0 then take_packet s else Ret (None, s));
  match r with Some dead => Ret (dead, s) | None => Ret (write_input s) end.

(** [err]: from the errors of the subprocess, else from its output. *)
Definition PassOutput (err : bool) (s : subproc) : outcome (option dead_fd * subproc) :=
  let sfd := if err then DeadErr else DeadIo in
  let '(r, rd) := adb_read (if err then err_rd s else io_rd s) (data_capacity (output_ s)) in
  let s := if err then set_streams (io_rd s) rd s else set_streams rd (err_rd s) s in
  match r with
  | GotEof => Ret (Some sfd, s)
  | GotErr EAGAIN => Ret (None, s)
  | GotErr _ => Ret (Some sfd, s)
  | GotData d =>
      p ← set_data (output_ s) d;
      '(ok, p, wr) ← Write p (if err then kIdStderr else kIdStdout) (zlen d) (proto_wr s);
      Ret (if ok : bool then None else Some DeadProto, set_output p wr s)
  end.

(** ** The loops *)

(** What [select] returns: the descriptors that are ready, of those it was asked for;
    [EINTR]; another error. *)
Inductive select_result := Ready (proto out err inp : bool) | SelectIntr | SelectFailed.

(** One after the other, until a descriptor dies. *)
Definition unless_dead (r : option dead_fd * subproc) (b : bool) (f : subproc → outcome (option dead_fd * subproc)) : outcome (option dead_fd * subproc) :=
  match r with (None, s) => if b then f s else Ret (None, s) | _ => Ret r end.
Definition read_input (s : subproc) : outcome (option dead_fd * subproc) :=
  '(dead, s) ← PassInput s;
  Ret (dead, if negb (input_bytes_left_ s =? 0) then set_watch false (watch_out s) (watch_err s) true s else s).
Definition go_on_input (s : subproc) : outcome (option dead_fd * subproc) :=
  '(dead, s) ← PassInput s;
  Ret (dead, if input_bytes_left_ s =? 0 then set_watch true (watch_out s) (watch_err s) false s else s).
(** A round of [SelectLoop] with these descriptors. *)
Definition pass_ready (proto out err inp : bool) (s : subproc) : outcome (option dead_fd * subproc) :=
  let read_set := (watch_proto s && proto, watch_out s && out, watch_err s && err) in
  let write_set := watch_in s && inp in
  r ← unless_dead (None, s) (io_ok s && read_set.1.2) (PassOutput false);
  r ← unless_dead r (err_ok r.2 && read_set.2) (PassOutput true);
  r ← unless_dead r (proto_ok r.2 && read_set.1.1) read_input;
  unless_dead r (io_ok r.2 && write_set) go_on_input.

(** What [PassDataStreams] does about a descriptor that died. *)
Definition bury (dead : dead_fd) (s : subproc) : subproc :=
  match dead with
  | DeadProto => set_fate true (input_shut s) (sizes s) (set_open false false false (set_watch false (watch_out s) (watch_err s) (watch_in s) s))
  | DeadIo => set_open (proto_ok s) false (err_ok s) (set_watch (watch_proto s) false (watch_err s) false s)
  | DeadErr => set_open (proto_ok s) (io_ok s) false (set_watch (watch_proto s) (watch_out s) false (watch_in s) s)
  end.
Definition pass_round (r : select_result) (s : subproc) : outcome subproc :=
  match r with
  | SelectIntr => Ret s
  | SelectFailed => Ret (set_open (proto_ok s) false false s)
  | Ready proto out err inp => '(dead, s) ← pass_ready proto out err inp s; Ret (match dead with Some d => bury d s | None => s end)
  end.

Definition passing (s : subproc) : bool := proto_ok s && (io_ok s || err_ok s).
(** Whether the loop has ended after these rounds. *)
Fixpoint pass_rounds (rounds : list select_result) (s : subproc) : outcome (bool * subproc) :=
  if negb (passing s) then Ret (true, s)
  else match rounds with [] => Ret (false, s) | r :: rounds => s ← pass_round r s; pass_rounds rounds s end.
Definition PassDataStreams (rounds : list select_result) (s : subproc) : outcome (bool * subproc) :=
  if negb (proto_ok s) then Ret (true, s) else pass_rounds rounds (set_watch (proto_ok s) (io_ok s) (err_ok s) false s).

(** *** The end *)

(** [waitpid] *)
Inductive wait_status := Exited (code : Z) | Signaled (signal : Z) | Otherwise.
Definition exit_code_of (status : wait_status) : Z :=
  match status with Exited code => code | Signaled signal => Z.lor 128 signal | Otherwise => 1 end.
Definition WaitForExit (status : wait_status) (s : subproc) : outcome subproc :=
  if negb (proto_ok s) then Ret s
  else
    p ← set_data (output_ s) [of_cval (exit_code_of status)];
    '(_, p, wr) ← Write p kIdExit 1 (proto_wr s);
    Ret (set_open false (io_ok s) (err_ok s) (set_output p wr s)).
(** The thread, from passing data to deleting the object. *)
Definition ThreadHandler (rounds : list select_result) (status : wait_status) (s : subproc) : outcome (bool * subproc) :=
  '(ended, s) ← PassDataStreams rounds s;
  if (ended : bool) then s ← WaitForExit status s; Ret (true, s) else Ret (false, s).
End subprocess.

(** What a client gets of a subprocess that could not be started. *)
Definition ReportError (protocol : SubprocessProtocol) (message : bytes) : bytes :=
  let buf := $"error: " ++ c_str message ++ [LF] in
  match protocol with
  | kShell => header_of kIdStderr (zlen buf) ++ buf ++ header_of kIdExit 1 ++ [of_cval 126]
  | kNone => buf
  end.
