(* ===== verification/ShellDaemonSpec.v ===== *)
(** * What a shell promises from the subprocess to the client
    (src/src/daemon/shell_service.cpp, src/src/client/commandline.cpp)

    Whatever [select] says and however the descriptors give and take, the output of
    the subprocess and its exit code reach the client's callback, and what the client
    sends reaches the input of the subprocess. *)

From Stdlib Require Import ZArith Lia List Ascii String.
From stdpp Require Import base numbers list strings.
From S2P Require Import Prelude.
From S2P Require Import Libc.
From S2P Require Import AdbIo.
From S2P Require Import IOVector.
From S2P Require Import ShellProto.
From S2P Require Import ShellClient.
From S2P Require Import ShellSpec.
From S2P Require Import ShellDaemon.

(** What a non-blocking reader gets in the end: [EAGAIN] is no end. *)
Fixpoint stream (rd : rd_fd) : bytes :=
  match rd with
  | RdErr EAGAIN :: rd => stream rd
  | RdData (c :: d) :: rd => (c :: d) ++ stream rd
  | _ => []
  end.
(** How often it may be read. *)
Definition weight (rd : rd_fd) : nat := sum_list ((λ x, match x with RdData d => S (length d) | _ => 1%nat end) <$> rd).

Lemma adb_read_stream rd len : 0 < len →
  match adb_read rd len with
  | (GotData d, rd') => 0 < zlen d ≤ len ∧ stream rd = d ++ stream rd'
  | (GotErr EAGAIN, rd') => stream rd = stream rd'
  | (_, rd') => stream rd = []
  end.
Proof.
  intros Hl. destruct rd as [|[[|c d]| |[]] rd]; cbn [adb_read]; try done. pose proof (zlen_nonneg d).
  destruct (Z.leb_spec (zlen (c :: d)) len) as [H1|H1]; [split; [rewrite zlen_cons in *; lia|done]|].
  rewrite zlen_cons in H1. split; [rewrite zlen_take; rewrite ?zlen_cons; lia|]. cbn [stream].
  rewrite <-(take_drop (Z.to_nat len) (c :: d)) at 1. rewrite <-app_assoc. f_equal.
  destruct (drop (Z.to_nat len) (c :: d)) as [|x l] eqn:E; [|done]. apply (f_equal length) in E. rewrite length_drop in E. cbn [length] in E. unfold zlen in H1. lia.
Qed.
Lemma adb_read_weight rd len : 0 < len → rd ≠ [] → (weight (adb_read rd len).2 < weight rd)%nat.
Proof.
  intros Hl Hr. unfold weight. destruct rd as [|[d| |e] rd]; [done| |cbn; lia..]. destruct d as [|c d]; [cbn; lia|]. cbn [adb_read].
  destruct (Z.leb_spec (zlen (c :: d)) len); cbn; [lia|]. rewrite length_drop. cbn [length]. lia.
Qed.

Section session.
Context (cap : Z) (cap_ok : 2 ≤ cap < 2 ^ 32).

(** The data of the packets with an id. *)
Definition of_id (i : Z) (packets : list (Z * bytes)) : bytes := concat ((λ x : Z * bytes, if x.1 =? i then x.2 else []) <$> packets).
Lemma of_id_snoc i packets x : of_id i (packets ++ [x]) = of_id i packets ++ (if x.1 =? i then x.2 else []).
Proof. unfold of_id. rewrite fmap_app, concat_app. cbn. by rewrite app_nil_r. Qed.

(** The input of the subprocess takes something or is full, until it is closed. *)
Definition patient (script : list wr_event) : Prop := Forall (λ x, x = WrErr EAGAIN ∨ ∃ n, 0 < n ∧ x = WrTake n) script.
(** The client went away, or the subprocess's input was closed. *)
Definition trouble (s : subproc) : Prop := hup s = true ∨ wr_script (io_wr s) = [].

Definition io_live (dead : option dead_fd) (s : subproc) : bool := io_ok s && match dead with Some DeadIo => false | _ => true end.
Definition err_live (dead : option dead_fd) (s : subproc) : bool := err_ok s && match dead with Some DeadErr => false | _ => true end.
(** [packets] have been sent, of an output [O] and errors [E], of which [o] and [e] are
    still to come. *)
Record flow (O E : bytes) (dead : option dead_fd) (s : subproc) (packets : list (Z * bytes)) (o e : bytes) : Prop := mkFlow {
  fl_output : zlen (buffer_ (output_ s)) = kHeaderSize + cap;
  fl_input : data_capacity (input_ s) = cap ∧ 0 ≤ bytes_left_ (input_ s) < 2 ^ 32;
  fl_left : 0 ≤ input_bytes_left_ s ∧ (input_bytes_left_ s ≠ 0 → input_bytes_left_ s ≤ data_length_ (input_ s) ≤ cap);
  fl_packets : Forall (λ x, (x.1 = kIdStdout ∨ x.1 = kIdStderr) ∧ 0 < zlen x.2 ≤ cap) packets;
  fl_O : of_id kIdStdout packets ++ o = O;
  fl_E : of_id kIdStderr packets ++ e = E;
  fl_gentle : gentle (wr_script (proto_wr s));
  fl_sent : wr_script (proto_wr s) ≠ [] → wr_sent (proto_wr s) = concat (packet_bytes <$> packets);
  fl_hup : proto_ok s = negb (hup s);
  fl_patient : patient (wr_script (io_wr s));
  fl_io : if io_live dead s then o = stream (io_rd s) else trouble s ∨ o = [];
  fl_err : if err_live dead s then e = stream (err_rd s) else trouble s ∨ e = [] }.

Definition flows (O E : bytes) (m : outcome (option dead_fd * subproc)) : Prop :=
  ∃ dead s packets o e, m = Ret (dead, s) ∧ flow O E dead s packets o e.

(** Sending a packet of an output. *)
Lemma send_flow i d s packets : (i = kIdStdout ∨ i = kIdStderr) → 0 < zlen d ≤ cap →
  zlen (buffer_ (output_ s)) = kHeaderSize + cap → gentle (wr_script (proto_wr s)) →
  (wr_script (proto_wr s) ≠ [] → wr_sent (proto_wr s) = concat (packet_bytes <$> packets)) →
  ∃ ok p wr, (p ← set_data (output_ s) d; Write p i (zlen d) (proto_wr s)) = Ret (ok, p, wr) ∧
    zlen (buffer_ p) = kHeaderSize + cap ∧ gentle (wr_script wr) ∧ (wr_script wr ≠ [] → wr_sent wr = concat (packet_bytes <$> packets ++ [(i, d)])).
Proof.
  intros Hi Hd Hp Hg Hs. destruct (set_data_Write cap (output_ s) i d (proto_wr s) Hp ltac:(lia) ltac:(lia)) as (p & Hp' & Hw).
  destruct (write_gentle (proto_wr s) (packet_bytes (i, d)) Hg ltac:(done)) as (ok & wr & Hx & (Hg' & _ & Hfull & Hdead) & _). rewrite Hx in Hw.
  exists ok, p, wr. split; [exact Hw|]. split; [done|]. split; [done|]. intros Hne. rewrite Hfull by done.
  rewrite Hs by (intros E0; destruct (Hdead E0); done). rewrite fmap_app, concat_app. cbn. by rewrite app_nil_r.
Qed.

(** Nothing has been sent; the streams are as they were. *)
Ltac stays :=
  constructor; cbn; try done; unfold io_live, err_live in *; cbn in *;
  repeat match goal with H : _ = true |- _ => rewrite H in * end; cbn in *; rewrite ?andb_false_r, ?andb_true_r in *;
  first [done | right; congruence | congruence | split; intros; lia].

Lemma PassOutput_flows O E (err : bool) s packets o e : (if err then err_ok s else io_ok s) = true → flow O E None s packets o e → flows O E (PassOutput err s).
Proof.
  intros Hlive [Hout Hin Hleft Hpk HO HE Hg Hs Hhup Hpat Hio Herr]. unfold PassOutput, data_capacity. rewrite Hout.
  replace (kHeaderSize + cap - kHeaderSize) with cap by lia. pose proof (adb_read_stream (if err then err_rd s else io_rd s) cap ltac:(lia)) as Hr.
  unfold io_live, err_live in *. destruct (adb_read _ cap) as [r rd] eqn:Er. destruct r as [d| |x].
  - destruct Hr as [Hd Hst].
    destruct (send_flow (if err then kIdStderr else kIdStdout) d (if err then set_streams (io_rd s) rd s else set_streams rd (err_rd s) s) packets)
      as (ok & p & wr & Hw & Hp & Hg' & Hs'); [destruct err; auto|lia|by destruct err..|].
    destruct (set_data _ d) as [q|]; [|done]. cbn [mbind outcome_bind] in *. rewrite Hw. cbn [mbind outcome_bind].
    assert (Hpk' : Forall (λ x, (x.1 = kIdStdout ∨ x.1 = kIdStderr) ∧ 0 < zlen x.2 ≤ cap) (packets ++ [(if err then kIdStderr else kIdStdout, d)])).
    { apply Forall_app. split; [done|]. constructor; [|done]. split; [destruct err; cbn; auto|done]. }
    destruct err; cbn [negb] in *; rewrite Hlive in *; cbn [andb] in *.
    + exists (if ok then None else Some DeadProto), (set_output p wr (set_streams (io_rd s) rd s)), (packets ++ [(kIdStderr, d)]), o, (stream rd).
      split; [done|]. constructor; cbn; try done; rewrite ?of_id_snoc; cbn; rewrite ?app_nil_r, <-?app_assoc; try done.
      * by rewrite <-Hst, <-Herr.
      * unfold io_live. cbn. destruct ok; exact Hio.
      * unfold err_live. cbn. rewrite Hlive. by destruct ok.
    + exists (if ok then None else Some DeadProto), (set_output p wr (set_streams rd (err_rd s) s)), (packets ++ [(kIdStdout, d)]), (stream rd), e.
      split; [done|]. constructor; cbn; try done; rewrite ?of_id_snoc; cbn; rewrite ?app_nil_r, <-?app_assoc; try done.
      * by rewrite <-Hst, <-Hio.
      * unfold io_live. cbn. rewrite Hlive. by destruct ok.
      * unfold err_live. cbn. destruct ok; exact Herr.
  - destruct err; rewrite Hlive in *; cbn [andb] in *.
    + eexists (Some DeadErr), _, packets, o, e. split; [done|]. stays.
    + eexists (Some DeadIo), _, packets, o, e. split; [done|]. stays.
  - assert (Hdone : x = EAGAIN ∧ stream (if err then err_rd s else io_rd s) = stream rd ∨ x ≠ EAGAIN ∧ stream (if err then err_rd s else io_rd s) = []) by (destruct x; auto).
    destruct Hdone as [[-> Hst]|[Hx Hst]].
    + destruct err; rewrite Hlive in *; cbn [andb] in *; eexists None, _, packets, o, e; (split; [done|]); stays.
    + assert (Hdead : ∀ s', flows O E (Ret (Some (if err then DeadErr else DeadIo), s')) → flows O E (match x with EAGAIN => Ret (None, s') | _ => Ret (Some (if err then DeadErr else DeadIo), s') end)).
      { intros s'. by destruct x. }
      apply Hdead. destruct err; rewrite Hlive in *; cbn [andb] in *.
      * eexists (Some DeadErr), _, packets, o, e. split; [done|]. stays.
      * eexists (Some DeadIo), _, packets, o, e. split; [done|]. stays.
Qed.

Lemma take_packet_flows O E s packets o e : input_bytes_left_ s = 0 → flow O E None s packets o e →
  ∃ r s', take_packet true s = Ret (r, s') ∧ flow O E (default None r) s' packets o e ∧ proto_wr s' = proto_wr s.
Proof.
  intros Hz [Hout [Hin Hin2] Hleft Hpk HO HE Hg Hs Hhup Hpat Hio Herr]. unfold take_packet.
  destruct (Read_total (input_ s) (proto_rd s)) as (ok & p & rd & -> & Hc & Hbl & Hok); [lia|done|]. cbn [mbind outcome_bind]. rewrite Hin in Hc, Hok.
  change (io_ok (set_input p rd 0 s)) with (io_ok s). change (sp_kind (set_input p rd 0 s)) with (sp_kind s).
  destruct ok; cbn [negb].
  - destruct (Hok eq_refl) as [Hdl _]. destruct (io_ok s) eqn:Hi; cbn [negb].
    + destruct (id p =? kIdWindowSizeChange); [|destruct (id p =? kIdStdin); [|destruct (id p =? kIdCloseStdin); [destruct (sp_kind s)|]]].
      * eexists _, _. split; [reflexivity|]. split; [|by destruct (scan_window _)]. destruct (scan_window _); stays.
      * eexists _, _. split; [reflexivity|]. split; [|done]. stays.
      * eexists _, _. split; [reflexivity|]. split; [|done]. stays.
      * eexists _, _. split; [reflexivity|]. split; [|done]. stays.
      * eexists _, _. split; [reflexivity|]. split; [|done]. stays.
    + eexists _, _. split; [reflexivity|]. split; [|done]. stays.
  - eexists _, _. split; [reflexivity|]. split; [|done]. stays.
Qed.

(** Writing to the input says what became of it. *)
Lemma adb_write_patient wr b : patient (wr_script wr) → b ≠ [] →
  match adb_write wr b with
  | (Wrote n, wr') => 0 < n ≤ zlen b ∧ patient (wr_script wr') ∧ wr_script wr ≠ []
  | (WroteErr EAGAIN, wr') => patient (wr_script wr') ∧ wr_script wr ≠ []
  | (WroteErr _, wr') => wr' = wr ∧ wr_script wr = []
  end.
Proof.
  destruct wr as [[|x script] sent]; cbn [wr_script]; intros Hp Hb; [done|]. inversion_clear Hp as [|? ? Hx Hp']. destruct Hx as [->|(n & Hn & ->)]; [done|].
  unfold adb_write. cbn [wr_script]. assert (0 < zlen b) by (destruct b; [done|]; rewrite zlen_cons; pose proof (zlen_nonneg b); lia). split; [lia|done].
Qed.
Lemma write_input_flows O E s packets o e : flow O E None s packets o e →
  ∃ dead s', write_input s = (dead, s') ∧ flow O E dead s' packets o e.
Proof.
  intros [Hout [Hin Hin2] [Hleft1 Hleft2] Hpk HO HE Hg Hs Hhup Hpat Hio Herr]. unfold write_input.
  destruct (Z.ltb_spec 0 (input_bytes_left_ s)) as [Hl|Hl]; [|exists None, s; split; [done|]; by constructor].
  specialize (Hleft2 ltac:(lia)). unfold data_capacity in Hin. set (buf := slice _ _ _).
  assert (Hbuf : zlen buf = input_bytes_left_ s) by (unfold buf; apply zlen_slice; unfold kHeaderSize in *; lia).
  pose proof (adb_write_patient (io_wr s) buf Hpat) as Hw. destruct (adb_write (io_wr s) buf) as [r wr]. specialize (Hw ltac:(intros E0; rewrite E0 in Hbuf; unfold zlen in Hbuf; cbn in Hbuf; lia)).
  assert (Htr : wr_script (io_wr s) ≠ [] → trouble s → hup s = true) by (intros Hne [?|?]; done).
  destruct r as [n|[]].
  - destruct Hw as (Hn & Hp & Hne). rewrite (proj2 (Z.eqb_neq n 0)) by lia. eexists None, _. split; [reflexivity|].
    constructor; cbn; try done; [lia| |].
    + unfold io_live in *. cbn in *. destruct (io_ok s); cbn in *; [done|]. destruct Hio as [Ht|?]; [|by right]. left. left. by apply Htr.
    + unfold err_live in *. cbn in *. destruct (err_ok s); cbn in *; [done|]. destruct Herr as [Ht|?]; [|by right]. left. left. by apply Htr.
  - destruct Hw as (Hp & Hne). eexists None, _. split; [reflexivity|]. constructor; cbn; try done.
    + unfold io_live in *. cbn in *. destruct (io_ok s); cbn in *; [done|]. destruct Hio as [Ht|?]; [|by right]. left. left. by apply Htr.
    + unfold err_live in *. cbn in *. destruct (err_ok s); cbn in *; [done|]. destruct Herr as [Ht|?]; [|by right]. left. left. by apply Htr.
  - destruct Hw as [-> Hemp]. eexists (Some DeadIo), _. split; [reflexivity|]. constructor; cbn; try done. unfold io_live. cbn. rewrite andb_false_r. left. by right.
  - destruct Hw as [-> Hemp]. eexists (Some DeadIo), _. split; [reflexivity|]. constructor; cbn; try done. unfold io_live. cbn. rewrite andb_false_r. left. by right.
Qed.
Lemma PassInput_flows O E s packets o e : flow O E None s packets o e → flows O E (PassInput true s).
Proof.
  intros Hf. unfold PassInput. destruct (Z.eqb_spec (input_bytes_left_ s) 0) as [Hz|Hz].
  - destruct (take_packet_flows O E s packets o e Hz Hf) as (r & s' & -> & Hf' & _). cbn [mbind outcome_bind].
    destruct r as [dead|]; [by exists dead, s', packets, o, e|]. destruct (write_input_flows O E s' packets o e Hf') as (dead & s2 & -> & Hf2). by exists dead, s2, packets, o, e.
  - cbn [mbind outcome_bind]. destruct (write_input_flows O E s packets o e Hf) as (dead & s2 & -> & Hf2). by exists dead, s2, packets, o, e.
Qed.
Lemma flow_watch O E dead s packets o e a b c d : flow O E dead s packets o e → flow O E dead (set_watch a b c d s) packets o e.
Proof. by intros [? ? ? ? ? ? ? ? ? ? ? ?]. Qed.

Lemma unless_flows O E (r : option dead_fd * subproc) b f packets o e :
  flow O E r.1 r.2 packets o e → (∀ s packets o e, b = true → s = r.2 → flow O E None s packets o e → flows O E (f s)) → flows O E (unless_dead r b f).
Proof.
  intros Hf H. destruct r as [[dead|] s]; cbn [unless_dead fst snd] in *; [by exists (Some dead), s, packets, o, e|].
  destruct b; [by eapply H|by exists None, s, packets, o, e].
Qed.
Lemma pass_ready_flows O E proto out err inp s packets o e : flow O E None s packets o e → flows O E (pass_ready true proto out err inp s).
Proof.
  intros Hf. unfold pass_ready. cbv zeta. cbn [fst snd].
  assert (H1 : flows O E (unless_dead (None, s) (io_ok s && (watch_out s && out)) (PassOutput false))).
  { eapply (unless_flows O E (None, s)); [exact Hf|]. intros s' p' o' e' Hb -> Hf'. apply andb_prop in Hb as [Hb _]. by eapply PassOutput_flows. }
  destruct H1 as (d1 & s1 & p1 & o1 & e1 & -> & Hf1). cbn [mbind outcome_bind fst snd].
  assert (H2 : flows O E (unless_dead (d1, s1) (err_ok s1 && (watch_err s && err)) (PassOutput true))).
  { eapply (unless_flows O E (d1, s1)); [exact Hf1|]. intros s' p' o' e' Hb -> Hf'. apply andb_prop in Hb as [Hb _]. by eapply PassOutput_flows. }
  destruct H2 as (d2 & s2 & p2 & o2 & e2 & -> & Hf2). cbn [mbind outcome_bind fst snd].
  assert (H3 : flows O E (unless_dead (d2, s2) (proto_ok s2 && (watch_proto s && proto)) (read_input true))).
  { eapply (unless_flows O E (d2, s2)); [exact Hf2|]. intros s' p' o' e' Hb -> Hf'. unfold read_input.
    destruct (PassInput_flows O E _ _ _ _ Hf') as (d & s' & p & o'' & e'' & -> & Hf''). cbn [mbind outcome_bind]. eexists d, _, p, o'', e''. split; [reflexivity|].
    destruct (negb _); [by apply flow_watch|done]. }
  destruct H3 as (d3 & s3 & p3 & o3 & e3 & -> & Hf3). cbn [mbind outcome_bind fst snd].
  eapply (unless_flows O E (d3, s3)); [exact Hf3|]. intros s' p' o' e' Hb -> Hf'. unfold go_on_input.
  destruct (PassInput_flows O E _ _ _ _ Hf') as (d & s' & p & o'' & e'' & -> & Hf''). cbn [mbind outcome_bind]. eexists d, _, p, o'', e''. split; [reflexivity|].
  destruct (_ =? _); [by apply flow_watch|done].
Qed.

Lemma bury_flow O E d s packets o e : flow O E (Some d) s packets o e → flow O E None (bury d s) packets o e.
Proof.
  intros [Hout Hin Hleft Hpk HO HE Hg Hs Hhup Hpat Hio Herr]. destruct d; constructor; cbn; try done; unfold io_live, err_live in *; cbn in *; rewrite ?andb_false_r, ?andb_true_r in *; try done.
  - left. by left.
  - left. by left.
Qed.
Lemma pass_rounds_flow O E rounds s packets o e : Forall (λ r, r ≠ SelectFailed) rounds → flow O E None s packets o e →
  ∃ ended s' packets o e, pass_rounds true rounds s = Ret (ended, s') ∧ flow O E None s' packets o e ∧ (ended = true → passing s' = false).
Proof.
  intros Hr. revert s packets o e. induction Hr as [|r rounds Hr1 Hr IH]; intros s packets o e Hf; cbn [pass_rounds].
  - destruct (passing s) eqn:Hp; [by exists false, s, packets, o, e|by exists true, s, packets, o, e].
  - destruct (passing s) eqn:Hp; [|by exists true, s, packets, o, e]. cbn [negb]. destruct r as [proto out err inp| |]; [|by eapply IH|done].
    cbn [pass_round]. destruct (pass_ready_flows O E proto out err inp s packets o e Hf) as (dead & s1 & p1 & o1 & e1 & -> & Hf1). cbn [mbind outcome_bind].
    eapply (IH _ p1 o1 e1). destruct dead; [by apply bury_flow|done].
Qed.

(** ** The thread ends with the subprocess's output *)

(** How many rounds may still read something. *)
Definition measure (s : subproc) : nat := (if io_ok s then S (weight (io_rd s)) else 0) + (if err_ok s then S (weight (err_rd s)) else 0).
Definition watched (s : subproc) : Prop := (io_ok s = true → watch_out s = true) ∧ (err_ok s = true → watch_err s = true).
Definition buried (r : option dead_fd * subproc) : subproc := match r.1 with Some d => bury d r.2 | None => r.2 end.
(** The members that reading is about. *)
Definition outs (s : subproc) : bool * bool * bool * bool * rd_fd * rd_fd := (io_ok s, err_ok s, watch_out s, watch_err s, io_rd s, err_rd s).

Lemma outs_measure s s' : outs s = outs s' → measure s = measure s' ∧ (watched s → watched s').
Proof. unfold outs, measure, watched. intros [= H1 H2 H3 H4 H5 H6]. by rewrite H1, H2, H3, H4, H5, H6. Qed.
Lemma bury_measure d s : watched s → watched (bury d s) ∧ (measure (bury d s) ≤ measure s)%nat ∧
  (d = DeadIo → io_ok s = true → (measure (bury d s) < measure s)%nat) ∧ (d = DeadErr → err_ok s = true → (measure (bury d s) < measure s)%nat).
Proof. unfold watched, measure. intros [H1 H2]. destruct d; cbn -[weight]; destruct (io_ok s), (err_ok s); cbn -[weight]; split_and!; intros; try done; try lia; auto. Qed.

Lemma take_packet_outs s r s' : take_packet true s = Ret (r, s') → outs s' = outs s.
Proof.
  unfold take_packet. destruct (Read _ _) as [[[ok p] rd]|]; [|done]. cbn [mbind outcome_bind].
  repeat (case_match; try done); by intros [= <- <-].
Qed.
Lemma write_input_outs s : outs (write_input s).2 = outs s.
Proof. unfold write_input. repeat (case_match; try done). Qed.
Lemma PassInput_outs s r s' : PassInput true s = Ret (r, s') → outs s' = outs s.
Proof.
  unfold PassInput. destruct (input_bytes_left_ s =? 0).
  - destruct (take_packet true s) as [[x s1]|] eqn:E; [|done]. apply take_packet_outs in E. cbn [mbind outcome_bind]. destruct x as [d|]; [by intros [= <- <-]|].
    intros [= Hw]. rewrite <-E. pose proof (write_input_outs s1) as Ho. by rewrite Hw in Ho.
  - cbn [mbind outcome_bind]. intros [= Hw]. pose proof (write_input_outs s) as Ho. by rewrite Hw in Ho.
Qed.

Lemma PassOutput_read (err : bool) s r s' : data_capacity (output_ s) = cap → (if err then err_ok s else io_ok s) = true → watched s →
  PassOutput err s = Ret (r, s') →
  watched s' ∧ io_ok s' = io_ok s ∧ err_ok s' = err_ok s ∧ (measure s' ≤ measure s)%nat ∧
  ((measure s' < measure s)%nat ∨ r = Some (if err then DeadErr else DeadIo)).
Proof.
  intros Hc Hl Hw. unfold PassOutput. rewrite Hc. set (rd0 := if err then err_rd s else io_rd s).
  assert (Hrd : rd0 = [] ∨ (weight (adb_read rd0 cap).2 < weight rd0)%nat).
  { destruct rd0 as [|x l] eqn:E; [by left|right]. apply adb_read_weight; [lia|done]. }
  assert (Hle : (weight (adb_read rd0 cap).2 ≤ weight rd0)%nat) by (destruct Hrd as [->|?]; [done|lia]).
  assert (Hnil : rd0 = [] → (adb_read rd0 cap).1 = GotEof) by (by intros ->).
  destruct (adb_read rd0 cap) as [x rd]. cbn [fst snd] in *. unfold rd0 in *.
  assert (Hst : ∀ q wr, let s1 := if err then set_streams (io_rd s) rd s else set_streams rd (err_rd s) s in
    ∀ s2, (s2 = s1 ∨ s2 = set_output q wr s1) → watched s2 ∧ io_ok s2 = io_ok s ∧ err_ok s2 = err_ok s ∧ (measure s2 ≤ measure s)%nat ∧
      ((if err then err_rd s else io_rd s) = [] ∨ (measure s2 < measure s)%nat)).
  { intros q wr s1 s2 Hs2. unfold measure, watched in *. destruct err; destruct Hs2 as [->| ->]; cbn -[weight]; rewrite Hl in *; split_and!; try done; try apply Hw; try lia;
      (destruct Hrd; [by left|right; lia]). }
  cbv zeta in Hst. destruct x as [d| |e].
  - destruct (set_data _ d) as [p|]; [|done]. cbn [mbind outcome_bind]. destruct (Write _ _ _ _) as [[[ok p'] wr]|]; [|done]. cbn [mbind outcome_bind]. intros [= <- <-].
    destruct (Hst p' wr _ (or_intror eq_refl)) as (H1 & H2 & H3 & H4 & H5). split_and!; try done. left. destruct H5 as [H5|]; [by specialize (Hnil H5)|done].
  - intros [= <- <-]. destruct (Hst (output_ s) (proto_wr s) _ (or_introl eq_refl)) as (H1 & H2 & H3 & H4 & H5). split_and!; try done. by right.
  - destruct (Hst (output_ s) (proto_wr s) _ (or_introl eq_refl)) as (H1 & H2 & H3 & H4 & H5).
    destruct e; intros [= <- <-]; split_and!; try done; [left; destruct H5 as [H5|]; [by specialize (Hnil H5)|done]|by right|by right].
Qed.

(** What a round has come to so far, from [s]. *)
Definition progress (s : subproc) (r : option dead_fd * subproc) : Prop :=
  (measure r.2 < measure s)%nat ∨ r.1 = Some DeadIo ∧ io_ok s = true ∨ r.1 = Some DeadErr ∧ err_ok s = true.
Definition so_far (s : subproc) (r : option dead_fd * subproc) : Prop :=
  watched r.2 ∧ io_ok r.2 = io_ok s ∧ err_ok r.2 = err_ok s ∧ (measure r.2 ≤ measure s)%nat.

Lemma so_far_output O E (err b : bool) s r r' packets o e : flow O E r.1 r.2 packets o e → so_far s r →
  (b = true → (if err then err_ok s else io_ok s) = true) → unless_dead r b (PassOutput err) = Ret r' →
  so_far s r' ∧ (progress s r → progress s r') ∧ (r.1 = None → b = true → progress s r').
Proof.
  intros Hf (Hw & Hi & He & Hm) Hb. destruct r as [[d|] s1]; cbn [unless_dead fst snd] in *; [by intros [= <-]|].
  destruct b; [|by intros [= <-]]. specialize (Hb eq_refl). destruct r' as [d s2]. intros H.
  assert (Hc : data_capacity (output_ s1) = cap) by (unfold data_capacity; rewrite (fl_output _ _ _ _ _ _ _ Hf); lia).
  destruct (PassOutput_read err s1 d s2 Hc) as (H1 & H2 & H3 & H4 & H5); [destruct err; congruence|done|done|].
  assert (Hp : progress s (d, s2)).
  { unfold progress. cbn [fst snd]. destruct H5 as [H5| ->]; [left; lia|right]. destruct err; auto. }
  split; [|done]. unfold so_far. cbn [snd]. rewrite H2, H3. split_and!; try done. lia.
Qed.
Lemma so_far_input (b : bool) f s r r' : so_far s r → (∀ x y z, f x = Ret (y, z) → outs z = outs x) → unless_dead r b f = Ret r' →
  so_far s r' ∧ (progress s r → progress s r').
Proof.
  intros (Hw & Hi & He & Hm) Hout. destruct r as [[d|] s1]; cbn [unless_dead fst snd] in *; [by intros [= <-]|].
  destruct b; [|by intros [= <-]]. destruct r' as [d s2]. intros H. apply Hout in H.
  destruct (outs_measure _ _ (eq_sym H)) as [Hm' Hw']. injection H as H1 H2 _ _ _ _. unfold so_far, progress. cbn [fst snd].
  rewrite H1, H2, <-Hm'. split; [split_and!; auto|]. intros [?|[[[=] ?]|[[=] ?]]]. by left.
Qed.

Lemma read_input_outs s r s' : read_input true s = Ret (r, s') → outs s' = outs s.
Proof.
  unfold read_input. destruct (PassInput true s) as [[d s1]|] eqn:E; [|done]. apply PassInput_outs in E. cbn [mbind outcome_bind]. intros [= _ <-]. rewrite <-E. by destruct (negb _).
Qed.
Lemma go_on_input_outs s r s' : go_on_input true s = Ret (r, s') → outs s' = outs s.
Proof.
  unfold go_on_input. destruct (PassInput true s) as [[d s1]|] eqn:E; [|done]. apply PassInput_outs in E. cbn [mbind outcome_bind]. intros [= _ <-]. rewrite <-E. by destruct (_ =? _).
Qed.

(** A round in which both outputs are ready reads something or buries one of them. *)
Lemma pass_ready_progress O E proto (out err : bool) inp s packets o e : flow O E None s packets o e → watched s →
  ∃ r packets o e, pass_ready true proto out err inp s = Ret r ∧ flow O E r.1 r.2 packets o e ∧ so_far s r ∧
    (out = true → err = true → io_ok s || err_ok s = true → progress s r).
Proof.
  intros Hf Hw. destruct (pass_ready_flows O E proto out err inp s packets o e Hf) as (dead & s4 & p4 & o4 & e4 & Hr & Hf4).
  exists (dead, s4), p4, o4, e4. split; [exact Hr|]. split; [exact Hf4|]. unfold pass_ready in Hr. cbv zeta in Hr. cbn [fst snd] in Hr.
  destruct (unless_flows O E (None, s) (io_ok s && (watch_out s && out)) (PassOutput false) packets o e Hf) as (d1 & s1 & p1 & o1 & e1 & H1 & Hf1).
  { intros s' p' o' e' Hb -> Hf'. apply andb_prop in Hb as [Hb _]. by eapply PassOutput_flows. }
  rewrite H1 in Hr. cbn [mbind outcome_bind fst snd] in Hr.
  destruct (so_far_output O E false (io_ok s && (watch_out s && out)) s (None, s) (d1, s1) packets o e Hf) as (Hs1 & _ & Hp1); [by split_and!|by intros [? _]%andb_prop|exact H1|].
  destruct (unless_flows O E (d1, s1) (err_ok s1 && (watch_err s && err)) (PassOutput true) p1 o1 e1 Hf1) as (d2 & s2 & p2 & o2 & e2 & H2 & Hf2).
  { intros s' p' o' e' Hb -> Hf'. apply andb_prop in Hb as [Hb _]. by eapply PassOutput_flows. }
  rewrite H2 in Hr. cbn [mbind outcome_bind fst snd] in Hr.
  destruct (so_far_output O E true (err_ok s1 && (watch_err s && err)) s (d1, s1) (d2, s2) p1 o1 e1 Hf1 Hs1) as (Hs2 & Hp2 & Hp2'); [intros [? _]%andb_prop; by destruct Hs1 as (_ & _ & <- & _)|exact H2|].
  destruct (unless_dead (d2, s2) (proto_ok s2 && (watch_proto s && proto)) (read_input true)) as [[d3 s3]|] eqn:H3; [|done]. cbn [mbind outcome_bind fst snd] in Hr.
  destruct (so_far_input (proto_ok s2 && (watch_proto s && proto)) (read_input true) s _ _ Hs2 read_input_outs H3) as (Hs3 & Hp3).
  destruct (so_far_input (io_ok s3 && (watch_in s && inp)) (go_on_input true) s _ _ Hs3 go_on_input_outs Hr) as (Hs4 & Hp4).
  split; [exact Hs4|]. intros -> -> Hlive. apply Hp4, Hp3. cbn [fst] in *. destruct Hw as [Hw1 Hw2]. destruct (io_ok s) eqn:Hi.
  - apply Hp2, Hp1; [done|]. by rewrite (Hw1 eq_refl).
  - cbn [orb] in Hlive. cbn [andb unless_dead] in H1. injection H1 as <- <-. apply Hp2'; [done|]. by rewrite Hlive, (Hw2 Hlive).
Qed.

(** A round of that kind. *)
Definition both_ready (r : select_result) : bool := match r with Ready _ out err _ => out && err | _ => false end.
Lemma pass_rounds_end O E rounds s packets o e : Forall (λ r, r ≠ SelectFailed) rounds → flow O E None s packets o e → watched s →
  (measure s ≤ length (filter (λ r, both_ready r = true) rounds))%nat → ∃ s', pass_rounds true rounds s = Ret (true, s').
Proof.
  intros Hr. revert s packets o e. induction Hr as [|r rounds Hr1 Hr IH]; intros s packets o e Hf Hw Hm; cbn [pass_rounds].
  { destruct (passing s) eqn:Hp; [|by exists s]. exfalso. unfold passing in Hp. apply andb_prop in Hp as [_ Hp]. unfold measure in Hm. cbn in Hm.
    destruct (io_ok s), (err_ok s); cbn in *; lia. }
  destruct (passing s) eqn:Hp; [|by exists s]. cbn [negb]. apply andb_prop in Hp as [_ Hp].
  destruct r as [proto out err inp| |]; [|by eapply IH|done]. cbn [pass_round].
  destruct (pass_ready_progress O E proto out err inp s packets o e Hf Hw) as ([dead s1] & p1 & o1 & e1 & -> & Hf1 & (Hw1 & Hi1 & He1 & Hm1) & Hpr).
  cbn [mbind outcome_bind fst snd] in *.
  assert (∃ s2 p2 o2 e2, match dead with Some d => bury d s1 | None => s1 end = s2 ∧ flow O E None s2 p2 o2 e2 ∧ watched s2 ∧
    (measure s2 ≤ measure s)%nat ∧ (progress s (dead, s1) → (measure s2 < measure s)%nat)) as (s2 & p2 & o2 & e2 & -> & Hf2 & Hw2 & Hm2 & Hlt).
  { eexists _, p1, o1, e1. split; [reflexivity|]. unfold progress. cbn [fst snd]. destruct dead as [d|].
    - destruct (bury_measure d s1 Hw1) as (H1 & H2 & H3 & H4). split; [by apply bury_flow|]. split; [done|]. split; [lia|].
      intros [?|[[[= ->] Hx]|[[= ->] Hx]]]; [lia|rewrite <-Hi1 in Hx; specialize (H3 eq_refl Hx); lia|rewrite <-He1 in Hx; specialize (H4 eq_refl Hx); lia].
    - split; [done|]. split; [done|]. split; [done|]. intros [?|[[[=] ?]|[[=] ?]]]. done. }
  eapply (IH s2 p2 o2 e2 Hf2 Hw2). rewrite filter_cons in Hm. cbn [both_ready] in Hm. destruct (decide _) as [Hb|Hb]; cbn [length] in Hm; [|lia].
  apply andb_prop in Hb as [Ho Hb]. specialize (Hlt (Hpr Ho Hb Hp)). lia.
Qed.

(** ** From the subprocess to the client *)

(** A subprocess that has been started: nothing has been passed on, whatever the
    memory of the buffers holds. *)
Record started (s : subproc) : Prop := mkStarted {
  st_output : zlen (buffer_ (output_ s)) = kHeaderSize + cap;
  st_input : data_capacity (input_ s) = cap ∧ bytes_left_ (input_ s) = 0 ∧ input_bytes_left_ s = 0;
  st_open : proto_ok s = true ∧ io_ok s = true ∧ hup s = false;
  st_gentle : gentle (wr_script (proto_wr s));
  st_sent : wr_sent (proto_wr s) = [];
  st_patient : patient (wr_script (io_wr s)) }.
(** Its errors, if they have a descriptor of their own. *)
Definition errors (s : subproc) : bytes := if err_ok s then stream (err_rd s) else [].

Lemma started_flow s a b c d : started s → flow (stream (io_rd s)) (errors s) None (set_watch a b c d s) [] (stream (io_rd s)) (errors s).
Proof.
  intros [Ho (Hi1 & Hi2 & Hi3) (Hp & Hio & Hh) Hg Hs Hpat]. constructor; cbn; try done.
  - rewrite Hi2. split; [done|lia].
  - rewrite Hi3. split; [done|lia].
  - by rewrite Hp, Hh.
  - unfold io_live. cbn. by rewrite Hio.
  - unfold err_live, errors. cbn. destruct (err_ok s); [done|by right].
Qed.

(** The outputs that the packets carry, and the exit code after them. *)
Lemma deliver_outputs packets x cb : Forall (λ y, (y.1 = kIdStdout ∨ y.1 = kIdStderr) ∧ 0 < zlen y.2 ≤ cap) packets →
  deliver packets x cb = Ret (x, mkDefault (stdout_str cb ++ of_id kIdStdout packets) (stderr_str cb ++ of_id kIdStderr packets)).
Proof.
  intros Hp. revert cb. induction Hp as [|[i d] packets [Hi _] Hp IH]; intros [o e]; cbn [deliver].
  - cbn. by rewrite !app_nil_r.
  - cbn [fst] in Hi. destruct Hi as [-> | ->]; cbn -[of_id app]; rewrite IH; unfold of_id; cbn; by rewrite <-?app_assoc, ?app_nil_l.
Qed.
Lemma deliver_exit packets x c cb : Forall (λ y, (y.1 = kIdStdout ∨ y.1 = kIdStderr) ∧ 0 < zlen y.2 ≤ cap) packets →
  deliver (packets ++ [(kIdExit, [c])]) x cb = Ret (schar c, mkDefault (stdout_str cb ++ of_id kIdStdout packets) (stderr_str cb ++ of_id kIdStderr packets)).
Proof.
  intros Hp. revert cb. induction Hp as [|[i d] packets [Hi _] Hp IH]; intros [o e]; cbn [deliver app].
  - cbn. by rewrite !app_nil_r.
  - cbn [fst] in Hi. destruct Hi as [-> | ->]; cbn -[of_id app]; rewrite IH; unfold of_id; cbn; by rewrite <-?app_assoc, ?app_nil_l.
Qed.

Lemma packets_fit packets n : Forall (λ y, (y.1 = kIdStdout ∨ y.1 = kIdStderr) ∧ 0 < zlen y.2 ≤ cap) packets → Forall (packet_fits n) packets.
Proof. intros Hp. eapply Forall_impl; [exact Hp|]. intros [i d] [[Hi|Hi] Hd]; cbn [fst snd] in *; subst i; unfold packet_fits; cbn [fst snd]; (split; [done|]; split; [lia|done]). Qed.

(** What the thread leaves of a flow whose rounds are over. *)
Lemma WaitForExit_flow O E s packets o e status : flow O E None s packets o e →
  ∃ s', WaitForExit status s = Ret s' ∧ hup s' = hup s ∧ io_wr s' = io_wr s ∧
    (wr_script (proto_wr s') ≠ [] →
     wr_sent (proto_wr s') = concat (packet_bytes <$> packets ++ (if hup s then [] else [(kIdExit, [of_cval (exit_code_of status)])]))).
Proof.
  intros Hf. unfold WaitForExit. rewrite (fl_hup _ _ _ _ _ _ _ Hf). destruct (hup s) eqn:Hh; cbn [negb].
  - exists s. rewrite app_nil_r. split; [done|]. split; [done|]. split; [done|]. apply (fl_sent _ _ _ _ _ _ _ Hf).
  - set (d := [of_cval _]). destruct (set_data_Write cap (output_ s) kIdExit d (proto_wr s) (fl_output _ _ _ _ _ _ _ Hf)) as (p & _ & Hw); [change (zlen d) with 1; lia|change (zlen d) with 1; lia|].
    destruct (write_gentle (proto_wr s) (packet_bytes (kIdExit, d)) (fl_gentle _ _ _ _ _ _ _ Hf) ltac:(done)) as (ok & wr & Hx & (_ & _ & Hfull & Hdead) & _).
    rewrite Hx in Hw. change (zlen d) with 1 in Hw. destruct (set_data (output_ s) d) as [q|]; [|done]. cbn [mbind outcome_bind] in *. rewrite Hw. cbn [mbind outcome_bind].
    eexists. split; [reflexivity|]. cbn. split; [done|]. split; [done|]. intros Hne. rewrite Hfull by done.
    rewrite (fl_sent _ _ _ _ _ _ _ Hf) by (intros E0; by destruct (Hdead E0)). rewrite fmap_app, concat_app. cbn [fmap list_fmap concat]. by rewrite app_nil_r.
Qed.

End session.

Definition eight : bytes := replicate 8 NUL.
(** A subprocess that echoes in pieces while it is given "ls" and the end of its input. *)
Definition session : subproc :=
  mkSub kRaw true true true (mkShell (of_cval 255 :: drop 1 eight) 0 0) (mkShell eight 0 0) 0 false false false false
    [RdData ($"" ++ header_of kIdStdin 2 ++ $"l"); RdData ($"s" ++ header_of kIdCloseStdin 0)] (mkWrFd (replicate 30 (WrTake 4)) [])
    (replicate 8 (RdErr EAGAIN) ++ [RdData $"hello"; RdErr EAGAIN; RdData $"!"]) (mkWrFd ([WrTake 1; WrErr EAGAIN] ++ replicate 30 (WrTake 1)) []) [RdData $"oops"] false false [].
Definition rounds : list select_result := SelectIntr :: replicate 5 (Ready true true true true) ++ replicate 25 (Ready false true true true).
Lemma session_started : started 3 session.
Proof.
  constructor.
  - reflexivity.
  - split; [|split]; reflexivity.
  - split; [|split]; reflexivity.
  - apply Forall_replicate. right. by exists 4.
  - reflexivity.
  - constructor; [right; by exists 1|]. constructor; [by left|]. apply Forall_replicate. right. by exists 1.
Qed.

