(* ===== verification/ShellInputSpec.v ===== *)
(** * What a shell promises from the client to the subprocess
    (src/src/daemon/shell_service.cpp)

    The input that the client sends reaches the input of the subprocess in order, none
    of it lost or said twice, and its end comes after all of it; whatever [select] says
    and however little the subprocess takes at a time. *)

From Stdlib Require Import ZArith Lia List Ascii String.
From stdpp Require Import base numbers list strings.
From S2P Require Import Prelude.
From S2P Require Import Libc.
From S2P Require Import AdbIo.
From S2P Require Import IOVector.
From S2P Require Import ShellProto.
From S2P Require Import ShellClient.
From S2P Require Import ShellSpec.
From S2P Require Import ShellDaemon.
From S2P Require Import ShellDaemonSpec.

Section input.
Context (cap : Z) (cap_ok : 2 ≤ cap < 2 ^ 32).

(** ** One call of [Read] *)

(** It gives a piece of the data [d] that comes before [more], with this id. *)
Definition piece (i : Z) (d more : bytes) (m : outcome (bool * ShellProtocol * rd_fd)) : Prop :=
  ∃ p fd d', m = Ret (true, p, fd) ∧ zlen (buffer_ p) = kHeaderSize + cap ∧ id p = i ∧ d = data p ++ d' ∧
    data_length_ p = zlen (data p) ∧ data_length_ p ≤ cap ∧ bytes_left_ p = zlen d' ∧ available fd = d' ++ more.

Lemma Read_rest h c d more dl fd : zlen h = kHeaderSize → zlen c = cap → 0 < zlen d < 2 ^ 32 → available fd = d ++ more →
  piece (id (mkShell h 0 0)) d more (Read (mkShell (h ++ c) dl (zlen d)) fd).
Proof.
  intros Hh Hc Hd Hav. unfold Read. cbn [bytes_left_]. rewrite (proj2 (Z.eqb_neq (zlen d) 0)) by lia. cbn [mbind outcome_bind negb].
  unfold data_capacity. cbn [buffer_ bytes_left_]. rewrite zlen_app, Hh, Hc. replace (kHeaderSize + cap - kHeaderSize) with cap by lia.
  set (r := Z.min (zlen d) cap). rewrite (proj2 (Z.eqb_neq r 0)) by lia. cbn [negb].
  destruct (read_data h c r fd (mkShell (h ++ c) dl (zlen d)) dl (zlen d) Hh ltac:(lia)) as (fd' & -> & Ha); [rewrite Hav, zlen_app; pose proof (zlen_nonneg more); lia|reflexivity|].
  cbn [mbind outcome_bind negb buffer_ bytes_left_ data_length_]. rewrite u64_small by lia. rewrite Hav in *.
  assert (Hrd : (Z.to_nat r ≤ length d)%nat) by (unfold zlen in *; lia). rewrite take_app_le, drop_app_le in * by done.
  assert (Ht : zlen (take (Z.to_nat r) d) = r) by (rewrite zlen_take; lia). assert (Hdr : zlen (drop (Z.to_nat r) c) = cap - r) by (rewrite zlen_drop; lia).
  exists (mkShell (h ++ take (Z.to_nat r) d ++ drop (Z.to_nat r) c) r (zlen d - r)), fd', (drop (Z.to_nat r) d).
  assert (Hdata : data (mkShell (h ++ take (Z.to_nat r) d ++ drop (Z.to_nat r) c) r (zlen d - r)) = take (Z.to_nat r) d).
  { unfold data. cbn [buffer_ data_length_]. rewrite <-Hh. by apply slice_at. }
  rewrite Hdata. cbn [buffer_ data_length_ bytes_left_]. split_and!; try done.
  - rewrite !zlen_app. lia.
  - unfold id. cbn. by destruct h.
  - by rewrite take_drop.
  - lia.
  - rewrite zlen_drop; lia.
Qed.

Lemma buffer_split p : zlen (buffer_ p) = kHeaderSize + cap → ∃ h c, p = mkShell (h ++ c) (data_length_ p) (bytes_left_ p) ∧ zlen h = kHeaderSize ∧ zlen c = cap.
Proof.
  intros Hp. exists (take (Z.to_nat kHeaderSize) (buffer_ p)), (drop (Z.to_nat kHeaderSize) (buffer_ p)). rewrite take_drop. unfold kHeaderSize in *.
  split; [by destruct p|]. split; [rewrite zlen_take; lia|rewrite zlen_drop; lia].
Qed.
Lemma Read_more p d more fd : zlen (buffer_ p) = kHeaderSize + cap → bytes_left_ p = zlen d → 0 < zlen d < 2 ^ 32 → available fd = d ++ more →
  piece (id p) d more (Read p fd).
Proof.
  intros (h & c & Hp & Hh & Hc)%buffer_split Hl Hd Hav. rewrite Hp, Hl. assert (Hid : id (mkShell (h ++ c) (data_length_ p) (zlen d)) = id (mkShell h 0 0)).
  { unfold id. cbn. by destruct h. }
  rewrite Hid. by apply Read_rest.
Qed.
Lemma Read_packet p i d more fd : zlen (buffer_ p) = kHeaderSize + cap → bytes_left_ p = 0 → 0 ≤ i < 128 → zlen d < 2 ^ 32 →
  available fd = packet_bytes (i, d) ++ more → piece i d more (Read p fd).
Proof.
  intros (h & c & Hp & Hh & Hc)%buffer_split Hl Hi Hd Hav. rewrite Hp, Hl. unfold packet_bytes in Hav. cbn [fst snd] in Hav. rewrite <-app_assoc in Hav.
  pose proof (zlen_nonneg d). destruct (Read_header h c i (zlen d) fd (d ++ more) (data_length_ p) Hh ltac:(lia) Hav) as (fd' & Ha & ->).
  assert (Hid : ∀ x a b, id (mkShell (header_of i (zlen d) ++ x) a b) = i) by (intros; unfold id; cbn; by apply schar_small).
  destruct (Z.eqb_spec (zlen d) 0) as [Hz|Hz].
  - assert (d = []) as -> by by apply zlen_0. exists (mkShell (header_of i 0 ++ c) 0 0), fd', []. split_and!; try done.
    + cbn [buffer_]. rewrite zlen_app. change (zlen (header_of i 0)) with kHeaderSize. lia.
    + unfold data_length_. lia.
  - specialize (Hid [] 0 0). rewrite app_nil_r in Hid. rewrite <-Hid at 1. apply Read_rest; [done|done|lia|done].
Qed.
Lemma Read_end p fd : zlen (buffer_ p) = kHeaderSize + cap → bytes_left_ p = 0 → cut_short cap (available fd) → ∃ q fd', Read p fd = Ret (false, q, fd').
Proof. intros (h & c & Hp & Hh & Hc)%buffer_split Hl Ha. rewrite Hp, Hl. by eapply read_cut. Qed.

(** ** What has become of the client's input *)

(** Packets of which the last input comes before the end of the input. *)
Fixpoint input_ok (packets : list (Z * bytes)) : Prop :=
  match packets with
  | [] => True
  | (i, d) :: packets => 0 ≤ i < 128 ∧ zlen d < 2 ^ 32 ∧ (i = kIdCloseStdin → d = [] ∧ concat (stdin_data <$> packets) = []) ∧ input_ok packets
  end.
(** What is left to write of the packet in the buffer. *)
Definition pending (s : subproc) : bytes := slice (buffer_ (input_ s)) (kHeaderSize + (data_length_ (input_ s) - input_bytes_left_ s)) (input_bytes_left_ s).
Definition in_live (dead : option dead_fd) (s : subproc) : bool := io_ok s && match dead with None | Some DeadErr => true | _ => false end.

(** Of the input [D]. *)
Record taken (D : bytes) (dead : option dead_fd) (s : subproc) : Prop := mkTaken {
  tk_buffer : data_capacity (input_ s) = cap;
  tk_left : 0 ≤ input_bytes_left_ s ∧ (input_bytes_left_ s ≠ 0 → input_bytes_left_ s ≤ data_length_ (input_ s) ≤ cap);
  tk_bytes : 0 ≤ bytes_left_ (input_ s) < 2 ^ 32;
  tk_prefix : wr_sent (io_wr s) ++ pending s `prefix_of` D;
  tk_shut : input_shut s = true → wr_sent (io_wr s) = D;
  tk_live : in_live dead s = true → ∃ d packets tail, bytes_left_ (input_ s) = zlen d ∧ available (proto_rd s) = d ++ concat (packet_bytes <$> packets) ++ tail ∧
    input_ok packets ∧ cut_short cap tail ∧
    (id (input_ s) = kIdCloseStdin → d = []) ∧
    wr_sent (io_wr s) ++ pending s ++ (if id (input_ s) =? kIdStdin then d else []) ++ concat (stdin_data <$> packets) = D }.

(** The members that this is about. *)
Definition ins (s : subproc) := (input_ s, input_bytes_left_ s, proto_rd s, io_wr s, input_shut s, io_ok s).
Lemma taken_ins D dead s s' : ins s' = ins s → taken D None s → taken D dead s'.
Proof.
  intros [= H1 H2 H3 H4 H5 H6] [? ? ? Hp ? Hl]. constructor; unfold pending, in_live in *; rewrite ?H1, ?H2, ?H3, ?H4, ?H5, ?H6; try done.
  intros [Hi _]%andb_prop. apply Hl. by rewrite Hi.
Qed.
Lemma taken_watch D dead s a b c d : taken D dead s → taken D dead (set_watch a b c d s).
Proof. by intros [? ? ? ? ? ?]. Qed.

Lemma pending_nil s : input_bytes_left_ s = 0 → pending s = [].
Proof. intros Hz. unfold pending. rewrite Hz. unfold slice. by rewrite take_0. Qed.
Lemma pending_data p rd s : data_length_ p = zlen (data p) → pending (set_input p rd (data_length_ p) s) = data p.
Proof. intros Hd. unfold pending. cbn. by rewrite Z.sub_diag, Z.add_0_r. Qed.

(** Nothing to write for now, and the stream may be dead. *)
Lemma taken_dead D dead s s' : taken D None s → data_capacity (input_ s') = cap → input_bytes_left_ s' = 0 → 0 ≤ bytes_left_ (input_ s') < 2 ^ 32 →
  io_wr s' = io_wr s → input_shut s' = input_shut s → in_live dead s' = false → taken D dead s'.
Proof.
  intros [_ _ _ Hp Hs _] Hc Hl Hb Hw Hi Hd. constructor; [done|rewrite Hl; done|done| |by rewrite Hi, Hw|by rewrite Hd].
  rewrite pending_nil, Hw, app_nil_r by done. etrans; [|exact Hp]. by eexists.
Qed.


(** The packet that the buffer has a piece of after [Read], and those behind it. *)
Definition next (D : bytes) (s : subproc) (i : Z) (d : bytes) (packets : list (Z * bytes)) (tail : bytes) : Prop :=
  piece i d (concat (packet_bytes <$> packets) ++ tail) (Read (input_ s) (proto_rd s)) ∧ input_ok packets ∧ cut_short cap tail ∧
  (i = kIdCloseStdin → d = [] ∧ concat (stdin_data <$> packets) = []) ∧
  wr_sent (io_wr s) ++ (if i =? kIdStdin then d else []) ++ concat (stdin_data <$> packets) = D.
Lemma taken_next D s : input_bytes_left_ s = 0 → io_ok s = true → taken D None s →
  (∃ q fd, Read (input_ s) (proto_rd s) = Ret (false, q, fd)) ∨ ∃ i d packets tail, next D s i d packets tail.
Proof.
  intros Hz Hi [Hc _ Hb _ _ Hl]. unfold in_live in Hl. rewrite Hi in Hl. destruct (Hl eq_refl) as (d & packets & tail & Hd & Ha & Hok & Ht & Hclose & HD).
  assert (Hbuf : zlen (buffer_ (input_ s)) = kHeaderSize + cap) by (unfold data_capacity in Hc; lia).
  rewrite pending_nil, app_nil_l in HD by done. destruct (decide (d = [])) as [->|Hne].
  - destruct packets as [|[i d1] packets]; [left; by eapply Read_end; [done..|rewrite Ha]|right]. cbn [input_ok] in Hok. destruct Hok as (Hi1 & Hd1 & Hc1 & Hok).
    exists i, d1, packets, tail. cbn [fmap list_fmap concat app] in Ha. rewrite <-app_assoc in Ha.
    split; [by apply Read_packet|]. split; [done|]. split; [done|]. split; [done|]. rewrite <-HD. cbn [fmap list_fmap concat]. unfold stdin_data at 2. cbn [fst snd]. by destruct (id _ =? _).
  - right. exists (id (input_ s)), d, packets, tail. assert (zlen d ≠ 0) by (intros E; by apply zlen_0 in E).
    split; [apply Read_more; [done..|lia|done]|]. split; [done|]. split; [done|]. split; [intros E; by specialize (Hclose E)|done].
Qed.

Lemma take_packet_taken D s r s' : input_bytes_left_ s = 0 → taken D None s → take_packet true s = Ret (r, s') → taken D (default None r) s'.
Proof.
  intros Hz Ht. unfold take_packet. destruct (Read_total (input_ s) (proto_rd s)) as (ok & p & rd & HR & Hc & Hbl & _); [rewrite (tk_buffer _ _ _ Ht); lia|apply (tk_bytes _ _ _ Ht)|].
  rewrite HR. cbn [mbind outcome_bind]. rewrite (tk_buffer _ _ _ Ht) in Hc. change (io_ok (set_input p rd 0 s)) with (io_ok s). change (sp_kind (set_input p rd 0 s)) with (sp_kind s).
  destruct ok; cbn [negb]; [|intros [= <- <-]; by apply (taken_dead D _ s); try done; unfold in_live; cbn; rewrite andb_false_r].
  destruct (io_ok s) eqn:Hi; cbn [negb]; [|intros [= <- <-]; by apply (taken_dead D _ s); try done; unfold in_live; cbn; rewrite Hi].
  destruct (taken_next D s Hz Hi Ht) as [(q & fd & HR')|(i & d & packets & tail & (p' & fd' & d' & HR' & _ & Hid & -> & Hdl & Hdc & Hb' & Ha) & Hok & Hcut & Hclose & HD)]; [congruence|].
  rewrite HR in HR'. injection HR' as <- <-. rewrite Hid. pose proof (tk_shut _ _ _ Ht) as Hshut. pose proof (zlen_nonneg (data p)) as Hd0.
  assert (Hskip : ∀ l, i ≠ kIdStdin → taken D None (set_fate (hup s) (input_shut s) l (set_input p rd 0 s))).
  { intros l Hne. constructor; cbn; try done; [rewrite pending_nil, app_nil_r by done; by eexists|]. rewrite (proj2 (Z.eqb_neq _ _) Hne) in HD.
    intros _. exists d', packets, tail. rewrite Hid, (proj2 (Z.eqb_neq _ _) Hne), pending_nil by done. split_and!; try done. intros E. destruct (Hclose E) as [E' _]. by apply app_nil in E' as [_ ->]. }
  destruct (Z.eqb_spec i kIdWindowSizeChange) as [->|Hw].
  { intros [= <- <-]. cbn [default]. destruct (scan_window _); [by apply Hskip|by apply (Hskip (sizes s))]. }
  destruct (Z.eqb_spec i kIdStdin) as [Hs|Hs].
  { intros [= <- <-]. cbn [default]. rewrite <-app_assoc in HD. constructor; try done.
    - cbn. split; lia.
    - rewrite pending_data by done. cbn. rewrite <-HD, app_assoc. by eexists.
    - intros _. exists d', packets, tail. rewrite pending_data by done. cbn. rewrite Hid, Hs. split_and!; try done. }
  destruct (Z.eqb_spec i kIdCloseStdin) as [Hc'|Hc'].
  - destruct (Hclose Hc') as [Hnil Hno]. destruct (sp_kind s); [by intros [= <- <-]; apply (Hskip (sizes s))|]. intros [= <- <-]. cbn [default].
    destruct (Hskip (sizes s) Hs) as [H1 H2 H3 H4 H5 H6]. constructor; try done. intros _. cbn. by rewrite Hno, !app_nil_r in HD.
  - intros [= <- <-]. by apply (Hskip (sizes s)).
Qed.

Lemma adb_write_takes wr b :
  match adb_write wr b with
  | (Wrote n, wr') => 0 ≤ n ≤ zlen b ∧ wr_sent wr' = wr_sent wr ++ take (Z.to_nat n) b
  | (_, wr') => wr_sent wr' = wr_sent wr
  end.
Proof. pose proof (zlen_nonneg b). unfold adb_write. destruct (wr_script wr) as [|[n|e] script]; cbn; [done| |done]. split; [lia|done]. Qed.

(** After a write of [n] of what is pending. *)
Lemma taken_written D dead s wr n : taken D None s → 0 ≤ n < input_bytes_left_ s ∨ n = input_bytes_left_ s → 0 < input_bytes_left_ s →
  wr_sent wr = wr_sent (io_wr s) ++ take (Z.to_nat n) (pending s) → taken D dead (set_written wr (input_bytes_left_ s - n) s).
Proof.
  intros [H1 [H2 H2'] H3 Hp Hs Hl] Hn Hpos Hw. specialize (H2' ltac:(lia)). unfold data_capacity in H1.
  assert (Hpend : zlen (pending s) = input_bytes_left_ s) by (unfold pending; apply zlen_slice; unfold kHeaderSize in *; lia).
  assert (Hnew : pending (set_written wr (input_bytes_left_ s - n) s) = drop (Z.to_nat n) (pending s)).
  { unfold pending. cbn. rewrite drop_slice by (unfold kHeaderSize in *; lia). f_equal. lia. }
  constructor; try done.
  - cbn. lia.
  - rewrite Hnew. cbn. by rewrite Hw, <-app_assoc, take_drop.
  - cbn. intros Hsh. rewrite (Hs Hsh) in Hp. destruct Hp as [k Hk]. apply (f_equal zlen) in Hk. rewrite !zlen_app in Hk. pose proof (zlen_nonneg k). lia.
  - intros Hi. destruct Hl as (d & packets & tail & E1 & E2 & E3 & E4 & E5 & E6); [unfold in_live in *; cbn in *; by apply andb_prop in Hi as [-> _]|].
    exists d, packets, tail. split_and!; try done. rewrite Hnew. cbn. by rewrite Hw, <-app_assoc, (app_assoc (take _ _)), take_drop.
Qed.
(** As the input of the subprocess has failed. *)
Lemma taken_failed D s wr : taken D None s → wr_sent wr = wr_sent (io_wr s) → taken D (Some DeadIo) (set_written wr 0 s).
Proof.
  intros [H1 H2 H3 Hp Hs Hl] Hw. constructor; try done.
  - rewrite pending_nil by done. cbn. rewrite Hw, app_nil_r. etrans; [|exact Hp]. by eexists.
  - cbn. by rewrite Hw.
  - unfold in_live. cbn. by rewrite andb_false_r.
Qed.
Lemma write_input_taken D s r s' : taken D None s → write_input s = (r, s') → taken D r s'.
Proof.
  intros Ht. unfold write_input. destruct (Z.ltb_spec 0 (input_bytes_left_ s)) as [Hpos|?]; [|by intros [= <- <-]].
  fold (pending s). pose proof (adb_write_takes (io_wr s) (pending s)) as Hw.
  assert (Hpend : zlen (pending s) = input_bytes_left_ s).
  { destruct Ht as [H1 [_ H2] _ _ _ _]. specialize (H2 ltac:(lia)). unfold data_capacity in H1. unfold pending. apply zlen_slice; unfold kHeaderSize in *; lia. }
  destruct (adb_write (io_wr s) (pending s)) as [[n|e] wr].
  - destruct Hw as [Hn Hw]. destruct (Z.eqb_spec n 0) as [->|Hn0]; intros [= <- <-]; [|apply taken_written; [done|lia|done|done]].
    apply taken_failed; [done|]. by rewrite Hw, app_nil_r.
  - assert (Hagain : taken D None (set_written wr (input_bytes_left_ s) s)).
    { pose proof (taken_written D None s wr 0 Ht ltac:(lia) Hpos) as Hx. rewrite Z.sub_0_r in Hx. apply Hx. by rewrite Hw, app_nil_r. }
    destruct e; intros [= <- <-]; [done|by apply taken_failed..].
Qed.
Lemma PassInput_taken D s r s' : taken D None s → PassInput true s = Ret (r, s') → taken D r s'.
Proof.
  intros Ht. unfold PassInput. destruct (Z.eqb_spec (input_bytes_left_ s) 0) as [Hz|Hz].
  - destruct (take_packet true s) as [[x s1]|] eqn:E; [|done]. apply (take_packet_taken D) in E; [|done..]. cbn [mbind outcome_bind].
    destruct x as [dead|]; [by intros [= <- <-]|]. intros [= Hw]. by eapply write_input_taken.
  - cbn [mbind outcome_bind]. intros [= Hw]. by eapply write_input_taken.
Qed.

(** ** Round by round *)

Lemma PassOutput_ins err s r s' : PassOutput err s = Ret (r, s') → ins s' = ins s.
Proof.
  unfold PassOutput. destruct (adb_read _ _) as [x rd]. destruct x as [d| |e]; [|by destruct err; intros [= _ <-]|by destruct e, err; intros [= _ <-]].
  destruct (set_data _ d) as [p|]; [|done]. cbn [mbind outcome_bind]. destruct (Write _ _ _ _) as [[[ok p'] wr]|]; [|done]. cbn [mbind outcome_bind]. by destruct err; intros [= _ <-].
Qed.
Lemma unless_taken D (r : option dead_fd * subproc) b f d s : taken D r.1 r.2 → (∀ x y z, taken D None x → f x = Ret (y, z) → taken D y z) →
  unless_dead r b f = Ret (d, s) → taken D d s.
Proof. intros Ht Hf. destruct r as [[dead|] s0]; cbn [unless_dead fst snd] in *; [by intros [= <- <-]|]. destruct b; [by apply Hf|by intros [= <- <-]]. Qed.
Lemma read_input_taken D x y z : taken D None x → read_input true x = Ret (y, z) → taken D y z.
Proof.
  intros Ht. unfold read_input. destruct (PassInput true x) as [[d s1]|] eqn:E; [|done]. apply (PassInput_taken D) in E; [|done]. cbn [mbind outcome_bind]. intros [= <- <-].
  destruct (negb _); [by apply taken_watch|done].
Qed.
Lemma go_on_input_taken D x y z : taken D None x → go_on_input true x = Ret (y, z) → taken D y z.
Proof.
  intros Ht. unfold go_on_input. destruct (PassInput true x) as [[d s1]|] eqn:E; [|done]. apply (PassInput_taken D) in E; [|done]. cbn [mbind outcome_bind]. intros [= <- <-].
  destruct (_ =? _); [by apply taken_watch|done].
Qed.
Lemma PassOutput_taken D err x y z : taken D None x → PassOutput err x = Ret (y, z) → taken D y z.
Proof. intros Ht E%PassOutput_ins. by eapply taken_ins. Qed.
Lemma pass_ready_taken D proto out err inp s r s' : taken D None s → pass_ready true proto out err inp s = Ret (r, s') → taken D r s'.
Proof.
  intros Ht. unfold pass_ready. cbv zeta. cbn [fst snd].
  destruct (unless_dead (None, s) _ (PassOutput false)) as [[d1 s1]|] eqn:E1; [|done]. cbn [mbind outcome_bind fst snd].
  destruct (unless_dead (d1, s1) _ (PassOutput true)) as [[d2 s2]|] eqn:E2; [|done]. cbn [mbind outcome_bind fst snd].
  destruct (unless_dead (d2, s2) _ (read_input true)) as [[d3 s3]|] eqn:E3; [|done]. cbn [mbind outcome_bind fst snd]. intros E4.
  pose proof (unless_taken D (None, s) _ _ _ _ Ht (PassOutput_taken D false) E1) as Ht1. pose proof (unless_taken D (d1, s1) _ _ _ _ Ht1 (PassOutput_taken D true) E2) as Ht2.
  pose proof (unless_taken D (d2, s2) _ _ _ _ Ht2 (read_input_taken D) E3) as Ht3. exact (unless_taken D (d3, s3) _ _ _ _ Ht3 (go_on_input_taken D) E4).
Qed.
Lemma bury_taken D d s : taken D (Some d) s → taken D None (bury d s).
Proof.
  intros [H1 H2 H3 Hp Hs Hl]. destruct d; constructor; try done.
Qed.
Lemma pass_rounds_taken D rounds s ended s' : Forall (λ r, r ≠ SelectFailed) rounds → taken D None s → pass_rounds true rounds s = Ret (ended, s') → taken D None s'.
Proof.
  intros Hr. revert s. induction Hr as [|r rounds Hr1 Hr IH]; intros s Ht; cbn [pass_rounds].
  - destruct (passing s); by intros [= <- <-].
  - destruct (passing s); [|by intros [= <- <-]]. cbn [negb]. destruct r as [proto out err inp| |]; [|by apply IH|done]. cbn [pass_round].
    destruct (pass_ready true proto out err inp s) as [[dead s1]|] eqn:E; [|done]. cbn [mbind outcome_bind]. apply IH. apply (pass_ready_taken D) in E; [|done].
    destruct dead; [by apply bury_taken|done].
Qed.
Lemma WaitForExit_input status s s' : WaitForExit status s = Ret s' → io_wr s' = io_wr s ∧ input_shut s' = input_shut s.
Proof.
  unfold WaitForExit. destruct (negb _); [by intros [= <-]|]. destruct (set_data _ _); [|done]. cbn [mbind outcome_bind].
  destruct (Write _ _ _ _) as [[[? ?] ?]|]; [|done]. cbn [mbind outcome_bind]. by intros [= <-].
Qed.

Lemma started_taken s packets tail : started cap s → wr_sent (io_wr s) = [] → input_shut s = false → id (input_ s) ≠ kIdStdin →
  available (proto_rd s) = concat (packet_bytes <$> packets) ++ tail → input_ok packets → cut_short cap tail →
  taken (concat (stdin_data <$> packets)) None s.
Proof.
  intros Hst Hw Hsh Hid Ha Hok Ht. destruct (st_input _ _ Hst) as (Hc & Hb & Hz). constructor; [done|rewrite Hz; done|rewrite Hb; done| |congruence|].
  - rewrite Hw, pending_nil by done. cbn. by eexists.
  - intros _. exists [], packets, tail. rewrite Hb, Hw, pending_nil, (proj2 (Z.eqb_neq _ _) Hid) by done. by split_and!.
Qed.

(** C31: The subprocess reads what the client types.  However the connection cuts the
    client's packets into pieces, whatever [select] says and however little the
    input of the subprocess takes at a time, what it has been given is a beginning
    of the input in the packets, in order; and its input has been ended only after
    all of it. *)
Theorem input_delivered s rounds status packets tail :
  started cap s → wr_sent (io_wr s) = [] → input_shut s = false → id (input_ s) ≠ kIdStdin → Forall (λ r, r ≠ SelectFailed) rounds →
  available (proto_rd s) = concat (packet_bytes <$> packets) ++ tail → input_ok packets → cut_short cap tail →
  ∃ ended s', ThreadHandler true rounds status s = Ret (ended, s') ∧ wr_sent (io_wr s') `prefix_of` concat (stdin_data <$> packets) ∧
    (input_shut s' = true → wr_sent (io_wr s') = concat (stdin_data <$> packets)).
Proof.
  intros Hst Hw Hsh Hid Hr Ha Hok Ht. pose proof (started_taken s packets tail Hst Hw Hsh Hid Ha Hok Ht) as Htk.
  unfold ThreadHandler, PassDataStreams. destruct (st_open _ _ Hst) as (-> & Hio & _). cbn [negb].
  pose proof (started_flow cap s true (io_ok s) (err_ok s) false Hst) as Hf0. apply (taken_watch _ _ _ true (io_ok s) (err_ok s) false) in Htk.
  destruct (pass_rounds_flow cap cap_ok _ _ rounds _ _ _ _ Hr Hf0) as (ended & s2 & ? & o & e & Hs2 & Hf & _). rewrite Hs2. cbn [mbind outcome_bind].
  apply (pass_rounds_taken _ _ _ _ _ Hr Htk) in Hs2 as [_ _ _ Hp Hs _].
  assert (Hpre : wr_sent (io_wr s2) `prefix_of` concat (stdin_data <$> packets)) by (etrans; [|exact Hp]; by eexists).
  destruct ended; [|by exists false, s2]. destruct (WaitForExit_flow cap cap_ok _ _ s2 _ o e status Hf) as (s' & Hx & _). rewrite Hx. cbn [mbind outcome_bind].
  apply WaitForExit_input in Hx as [Hx1 Hx2]. exists true, s'. by rewrite Hx1, Hx2.
Qed.
End input.

Lemma input_delivered_witness :
  ∃ s', ThreadHandler true rounds (Exited 7) session = Ret (true, s') ∧ wr_sent (io_wr s') = $"ls" ∧ input_shut s' = true.
Proof.
  destruct (input_delivered 3 ltac:(split; [discriminate|reflexivity]) session rounds (Exited 7) [(kIdStdin, $"ls"); (kIdCloseStdin, [])] [] session_started)
    as (ended & s' & Hrun & _ & Hall).
  - reflexivity.
  - reflexivity.
  - discriminate.
  - repeat constructor; discriminate.
  - reflexivity.
  - repeat split; try discriminate; reflexivity.
  - left. reflexivity.
  - assert (Hs : ended = true ∧ input_shut s' = true) by (vm_compute in Hrun; injection Hrun as <- <-; split; reflexivity).
    destruct Hs as [-> Hs]. exists s'. split; [exact Hrun|]. split; [exact (Hall Hs)|exact Hs].
Defined.

(** Once the output has ended while the input was full, the descriptor of the client
    is not in the set any more, and its end is not noticed as long as the errors of
    the subprocess go on. *)
Lemma client_forgotten proto out err inp s r s' : io_ok s = false → watch_proto s = false →
  pass_ready true proto out err inp s = Ret (r, s') → watch_proto s' = false ∧ io_ok s' = false ∧ proto_rd s' = proto_rd s.
Proof.
  intros Hi Hw. unfold pass_ready. cbv zeta. cbn [fst snd]. rewrite Hi, Hw. cbn [andb unless_dead mbind outcome_bind fst snd].
  destruct (if err_ok s && (watch_err s && err) then PassOutput true s else Ret (None, s)) as [[d1 s1]|] eqn:E; [|done]. cbn [mbind outcome_bind fst snd]. rewrite !andb_false_r.
  assert (H1 : watch_proto s1 = false ∧ io_ok s1 = false ∧ proto_rd s1 = proto_rd s).
  { destruct (err_ok s && (watch_err s && err)); [|by injection E as _ <-]. pose proof (PassOutput_ins _ _ _ _ E) as [= _ _ Hr _ _ Ho]. rewrite Hr, Ho. split; [|done].
    clear Hr Ho. revert E. unfold PassOutput. destruct (adb_read _ _) as [x rd]. destruct x as [d| |e]; [|by intros [= _ <-]|by destruct e; intros [= _ <-]].
    destruct (set_data _ d) as [p|]; [|done]. cbn [mbind outcome_bind]. destruct (Write _ _ _ _) as [[[ok p'] wr]|]; [|done]. cbn [mbind outcome_bind]. by intros [= _ <-]. }
  destruct H1 as (H1 & H2 & H3). destruct d1 as [d|]; cbn [unless_dead mbind outcome_bind fst snd andb]; rewrite ?H2; cbn [andb]; by intros [= _ <-].
Qed.
Example full_then_closed :
  let s := mkSub kRaw true true true (mkShell (of_cval 255 :: drop 1 eight) 0 0) (mkShell eight 0 0) 0 true true true false
    [RdData (header_of kIdStdin 2 ++ $"ls")] (mkWrFd [] []) [] (mkWrFd [WrErr EAGAIN] []) [RdErr EAGAIN; RdErr EAGAIN] false false [] in
  ∃ s', pass_rounds true [Ready true false true true; Ready true true true true] s = Ret (false, s') ∧ passing s' = true ∧ io_ok s' = false ∧ watch_proto s' = false.
Proof. eexists. split; [vm_compute; reflexivity|]. split; [|split]; reflexivity. Qed.
